(** * TraceLite: trace reconstruction, ingest and read-API helpers

    A shallow embedding of the Go sources of the collector
    ([collector/internal/model], [collector/internal/reconstruct],
    [collector/internal/server]) and of the read API
    ([api/internal/handlers]), with the properties the specification
    states about them.

    Conventions of the embedding:
    - [uint32], [uint16], [int64] values are integers in [Z]; every
      operation that can leave the range is followed by its wrap-around.
    - [float64] values are Rocq's primitive binary64 floats, so that the
      arithmetic, the comparisons and NaN behave as they do in Go.
    - [time.Time] is the number of nanoseconds since Go's zero instant
      (0001-01-01T00:00:00Z); [time.Duration] is a number of nanoseconds.
    - Go maps are [gmap]s; a [range] loop over a map receives the order in
      which the keys are visited as an argument, since Go leaves it open.
    - Library functions whose text is not part of the repository
      ([json.Unmarshal], [time.Parse], [strings.ToLower], ...) are the
      fields of the classes [GoLib] and [GoJSON]; the store is a
      function that answers each request. *)

From Stdlib Require Import ZArith Lia Floats Ascii String List Permutation Bool Sorted.
From stdpp Require Import gmap strings list fin_maps pretty.

Set Warnings "-inexact-float".

Local Open Scope Z_scope.

(** ** Machine integers *)

Definition wrap32 (z : Z) : Z := z mod 2 ^ 32.
Definition wrap16 (z : Z) : Z := z mod 2 ^ 16.

Definition is_uint32 (z : Z) : Prop := 0 <= z < 2 ^ 32.

(** ** [float64] helpers from package [math] *)

Module GoMath.

(** [float64(n)] for a non-negative integer below [2^53] (exact). *)
Definition of_Z (n : Z) : float := PrimFloat.of_uint63 (Uint63.of_Z n).

(** [math.Abs]. *)
Definition Abs (x : float) : float := PrimFloat.abs x.

(** [math.Max]: [+Inf] if either argument is [+Inf]; otherwise NaN if
    either is NaN; of two zeros, the positive one; otherwise the
    larger. *)
Definition Max (x y : float) : float :=
  if PrimFloat.eqb x PrimFloat.infinity || PrimFloat.eqb y PrimFloat.infinity
  then PrimFloat.infinity
  else if PrimFloat.is_nan x || PrimFloat.is_nan y then PrimFloat.nan
  else if PrimFloat.eqb x 0 && PrimFloat.eqb x y
       then (if PrimFloat.get_sign x then y else x)
  else if PrimFloat.ltb y x then x else y.

(** Integer nearest to [m * 2^e] for [e < 0], halves away from zero. *)
Definition nearest_away (m : positive) (e : Z) : Z :=
  let d := 2 ^ (- e) in
  let q := Z.pos m / d in
  let r := Z.pos m mod d in
  if d <=? 2 * r then q + 1 else q.

(** [math.Round]: nearest integer, halves away from zero; zeros,
    infinities and NaN are returned unchanged. *)
Definition Round (x : float) : float :=
  match Prim2SF x with
  | S754_finite s m e =>
      if 0 <=? e then x
      else
        let a := of_Z (nearest_away m e) in
        if s then PrimFloat.opp a else a
  | _ => x
  end.

(** Integer part of a float, as Go's conversion [int(x)] of a finite
    value in range computes it (truncation toward zero). *)
Definition trunc (x : float) : Z :=
  match Prim2SF x with
  | S754_finite s m e =>
      let a := if 0 <=? e then Z.pos m * 2 ^ e else Z.pos m / 2 ^ (- e) in
      if s then - a else a
  | _ => 0
  end.

(** [0 <= x <= 1] as Go's comparisons decide it. *)
Definition in_unit (x : float) : Prop :=
  PrimFloat.leb 0 x = true /\ PrimFloat.leb x 1 = true.

End GoMath.

(** ** Byte strings and the functions of package [strings] that the code uses

    A Go string is a sequence of bytes; it is embedded as a [string]
    whose characters are the bytes. *)

Module GoStrings.

Definition byte (c : ascii) : N := N_of_ascii c.

Definition LF : ascii := ascii_of_N 10.
Definition CR : ascii := ascii_of_N 13.

Definition bytes_of (s : string) : list N := List.map byte (list_ascii_of_string s).

(** The six ASCII bytes that [strings.TrimSpace] treats as space. *)
Definition asciiSpace (b : N) : bool :=
  (b =? 9)%N || (b =? 10)%N || (b =? 11)%N || (b =? 12)%N || (b =? 13)%N || (b =? 32)%N.

(** Length in bytes of the white-space rune that starts [bs], or [O]:
    [unicode.IsSpace] holds of the six ASCII spaces and of U+0085, U+00A0,
    U+1680, U+2000..U+200A, U+2028, U+2029, U+202F, U+205F, U+3000. *)
Definition spaceRuneLen (bs : list N) : nat :=
  match bs with
  | b :: rest =>
      if asciiSpace b then 1%nat
      else match b, rest with
           | 194%N, c :: _ => if (c =? 133)%N || (c =? 160)%N then 2%nat else O
           | 225%N, 154%N :: 128%N :: _ => 3%nat
           | 226%N, 128%N :: c :: _ =>
               if ((128 <=? c)%N && (c <=? 138)%N) || (c =? 168)%N || (c =? 169)%N || (c =? 175)%N
               then 3%nat else O
           | 226%N, 129%N :: 159%N :: _ => 3%nat
           | 227%N, 128%N :: 128%N :: _ => 3%nat
           | _, _ => O
           end
  | [] => O
  end.

(** The same, for the rune that ends the string: [bs] is the byte
    sequence reversed. *)
Definition spaceRuneLenRev (bs : list N) : nat :=
  match bs with
  | b :: rest =>
      if asciiSpace b then 1%nat
      else match b, rest with
           | 133%N, 194%N :: _ => 2%nat
           | 160%N, 194%N :: _ => 2%nat
           | 128%N, 154%N :: 225%N :: _ => 3%nat
           | 159%N, 129%N :: 226%N :: _ => 3%nat
           | 128%N, 128%N :: 227%N :: _ => 3%nat
           | c, 128%N :: 226%N :: _ =>
               if ((128 <=? c)%N && (c <=? 138)%N) || (c =? 168)%N || (c =? 169)%N || (c =? 175)%N
               then 3%nat else O
           | _, _ => O
           end
  | [] => O
  end.

Fixpoint trimWith (len : list N -> nat) (fuel : nat) (bs : list N) : list N :=
  match fuel with
  | O => bs
  | S fuel' =>
      match len bs with
      | O => bs
      | n => trimWith len fuel' (skipn n bs)
      end
  end.

Definition string_of_bytes (bs : list N) : string :=
  string_of_list_ascii (List.map ascii_of_N bs).

(** [strings.TrimSpace]. *)
Definition TrimSpace (s : string) : string :=
  let bs := bytes_of s in
  let l := trimWith spaceRuneLen (List.length bs) bs in
  let r := trimWith spaceRuneLenRev (List.length l) (List.rev l) in
  string_of_bytes (List.rev r).

Definition isEmpty (s : string) : bool :=
  match s with EmptyString => true | _ => false end.

(** [strings.HasPrefix]. *)
Definition HasPrefix (s p : string) : bool := String.prefix p s.

(** [strings.TrimPrefix]. *)
Fixpoint TrimPrefix_aux (s p : string) : option string :=
  match p, s with
  | EmptyString, _ => Some s
  | String c p', String d s' => if Ascii.eqb c d then TrimPrefix_aux s' p' else None
  | String _ _, EmptyString => None
  end.

Definition TrimPrefix (s p : string) : string :=
  match TrimPrefix_aux s p with Some r => r | None => s end.

(** [strings.Trim] with a cutset of one byte. *)
Fixpoint trimLeftByte (c : ascii) (s : string) : string :=
  match s with
  | String d s' => if Ascii.eqb c d then trimLeftByte c s' else s
  | EmptyString => EmptyString
  end.

Definition revString (s : string) : string :=
  string_of_list_ascii (List.rev (list_ascii_of_string s)).

Definition TrimByte (s : string) (c : ascii) : string :=
  revString (trimLeftByte c (revString (trimLeftByte c s))).

(** [strings.Split] with a separator of one byte: always at least one
    piece. *)
Fixpoint SplitByte (c : ascii) (s : string) : string * list string :=
  match s with
  | EmptyString => (EmptyString, [])
  | String d s' =>
      let '(hd, tl) := SplitByte c s' in
      if Ascii.eqb c d then (EmptyString, hd :: tl) else (String d hd, tl)
  end.

(** [strings.Contains] for one byte. *)
Fixpoint ContainsByte (c : ascii) (s : string) : bool :=
  match s with
  | EmptyString => false
  | String d s' => Ascii.eqb c d || ContainsByte c s'
  end.

(** The first [n] bytes of [s], as [io.LimitReader] passes them on. *)
Fixpoint takeBytes (n : N) (s : string) : string :=
  match s with
  | EmptyString => EmptyString
  | String c s' => if (n =? 0)%N then EmptyString else String c (takeBytes (N.pred n) s')
  end.

Definition strlen (s : string) : N := N.of_nat (String.length s).

Definition asciiLower (c : ascii) : ascii :=
  let b := byte c in
  if ((65 <=? b)%N && (b <=? 90)%N) then ascii_of_N (b + 32) else c.

Definition asciiUpper (c : ascii) : ascii :=
  let b := byte c in
  if ((97 <=? b)%N && (b <=? 122)%N) then ascii_of_N (b - 32) else c.

Fixpoint mapString (f : ascii -> ascii) (s : string) : string :=
  match s with
  | EmptyString => EmptyString
  | String c s' => String (f c) (mapString f s')
  end.

End GoStrings.

(** ** Sorting

    [sort.Slice], [sort.Strings]: the slice in ascending order.  Where
    elements compare equal Go leaves their order open; the insertion
    sort below yields one of the orders it allows. *)

Module GoSort.

Fixpoint insertSorted {A : Type} (le : A -> A -> bool) (x : A) (l : list A) : list A :=
  match l with
  | [] => [x]
  | y :: l' => if le x y then x :: l else y :: insertSorted le x l'
  end.

Definition sortBy {A : Type} (le : A -> A -> bool) (l : list A) : list A :=
  fold_right (insertSorted le) [] l.

End GoSort.

(** ** [time.Time] and [time.Duration] *)

Module GoTime.

Abbreviation Time := Z.
Abbreviation Duration := Z.

Definition Millisecond : Z := 1000000.
Definition Hour : Z := 3600000000000.

Definition minDuration : Z := - 2 ^ 63.
Definition maxDuration : Z := 2 ^ 63 - 1.

Definition IsZero (t : Time) : bool := t =? 0.
Definition Before (t u : Time) : bool := t <? u.
Definition After (t u : Time) : bool := u <? t.
Definition Add (t : Time) (d : Duration) : Time := t + d.

(** [t.Sub(u)] saturates at the ends of [int64]. *)
Definition Sub (t u : Time) : Duration :=
  let d := t - u in
  if d <? minDuration then minDuration
  else if maxDuration <? d then maxDuration
  else d.

(** [d.Milliseconds()]: integer division truncates toward zero. *)
Definition Milliseconds (d : Duration) : Z := Z.quot d 1000000.

End GoTime.

(** A value or an error text. *)
Inductive result (A : Type) : Type :=
| Ok (a : A)
| Err (msg : string).
Arguments Ok {A} a.
Arguments Err {A} msg.

(** Library functions used by the collector's model package and by the
    handlers, kept abstract: [time.Parse] for the layouts [time.RFC3339]
    and [time.RFC3339Nano] (which accept the same inputs when parsing),
    already converted to UTC; [strings.ToLower] and [strings.ToUpper];
    and the text that the layout ["2006-01-02 15:04:05.000"] gives to an
    instant truncated to milliseconds. *)
Class GoLib : Type := {
  time_Parse : string -> result Z;
  strings_ToLower : string -> string;
  strings_ToUpper : string -> string;
  CHText : Z -> string
}.

(** ** Package [model] of the collector *)

Module Model.

Import GoStrings GoTime.

(** A ClickHouse timestamp text ["2006-01-02 15:04:05.000"], represented
    by the number of milliseconds since the zero instant that it
    denotes. *)
Abbreviation CHTime := Z.

Module IngestEvent.
Record t : Type := Build {
  Timestamp : string;
  Service : string;
  Env : string;
  Host : string;
  Level : string;
  Message : string;
  Status : string;
  CorrelationID : string;
  SpanID : string;
  ParentSpanID : string;
  Event : string;
  Route : string;
  Method : string;
  StatusCode : Z;
  DurationMs : Z;
  Version : string;
  Attrs : option (gmap string string)
}.
End IngestEvent.

Module RawLogRow.
Record t : Type := Build {
  TS : CHTime;
  Service : string;
  Env : string;
  Host : string;
  Version : string;
  Level : string;
  Message : string;
  TraceID : string;
  SpanID : string;
  ParentSpanID : string;
  Event : string;
  Route : string;
  Method : string;
  StatusCode : Z;
  DurationMs : Z;
  Attrs : gmap string string;
  RawJSON : string
}.
End RawLogRow.

Module SpanRow.
Record t : Type := Build {
  TraceID : string;
  SpanID : string;
  ParentSpanID : string;
  Service : string;
  Env : string;
  Host : string;
  Version : string;
  Operation : string;
  StartTS : CHTime;
  EndTS : CHTime;
  DurationMs : Z;
  SelfTimeMs : Z;
  StatusCode : Z;
  IsError : Z;
  Source : string
}.
(** The zero value, which a map lookup of a missing key returns. *)
Definition zero : t :=
  Build "" "" "" "" "" "" "" "" 0 0 0 0 0 0 "".
End SpanRow.

Module TraceRow.
Record t : Type := Build {
  TraceID : string;
  Env : string;
  RootService : string;
  StartTS : CHTime;
  EndTS : CHTime;
  DurationMs : Z;
  SpanCount : Z;
  ServiceCount : Z;
  ErrorCount : Z;
  CriticalPathMs : Z;
  Versions : list string
}.
End TraceRow.

Module DependencyEdgeRow.
(** [P50Ms] and [P95Ms] are [float32] values, kept as the binary32
    number they denote. *)
Record t : Type := Build {
  BucketTS : Z;
  Env : string;
  CallerService : string;
  CalleeService : string;
  CallerVersion : string;
  CalleeVersion : string;
  Calls : Z;
  ErrorCalls : Z;
  P50Ms : spec_float;
  P95Ms : spec_float;
  MaxMs : Z
}.
End DependencyEdgeRow.

(** [FormatCHTime]: the layout keeps three fractional digits and drops
    the rest. *)
Definition FormatCHTime (t : Time) : CHTime := t / 1000000.

Definition withDefault (v fallback : string) : string :=
  if isEmpty (TrimSpace v) then fallback else TrimSpace v.

Section ToRaw.
Context `{GoLib}.

(** [IngestEvent.ToRaw]; [now] is what [time.Now().UTC()] returns. *)
Definition ToRaw (now : Time) (e : IngestEvent.t) (raw : string)
  : result (RawLogRow.t * Time) :=
  let traceID := TrimSpace (IngestEvent.CorrelationID e) in
  if isEmpty traceID then Err "missing correlationId"
  else
    let parsed :=
      if negb (isEmpty (TrimSpace (IngestEvent.Timestamp e))) then
        match time_Parse (IngestEvent.Timestamp e) with
        | Err msg => Err ("invalid timestamp: " ++ msg)
        | Ok p => Ok p
        end
      else Ok now in
    match parsed with
    | Err msg => Err msg
    | Ok ts =>
        let eventType := strings_ToLower (TrimSpace (IngestEvent.Event e)) in
        let eventType := if isEmpty eventType then "log" else eventType in
        let attrs := match IngestEvent.Attrs e with Some a => a | None => ∅ end in
        let s := TrimSpace (IngestEvent.Status e) in
        let attrs := if negb (isEmpty s) then <["status" := strings_ToUpper s]> attrs else attrs in
        Ok ({| RawLogRow.TS := FormatCHTime ts;
               RawLogRow.Service := withDefault (IngestEvent.Service e) "unknown-service";
               RawLogRow.Env := withDefault (IngestEvent.Env e) "unknown";
               RawLogRow.Host := withDefault (IngestEvent.Host e) "unknown-host";
               RawLogRow.Version := withDefault (IngestEvent.Version e) "unknown";
               RawLogRow.Level := strings_ToUpper (withDefault (IngestEvent.Level e) "INFO");
               RawLogRow.Message := IngestEvent.Message e;
               RawLogRow.TraceID := traceID;
               RawLogRow.SpanID := TrimSpace (IngestEvent.SpanID e);
               RawLogRow.ParentSpanID := TrimSpace (IngestEvent.ParentSpanID e);
               RawLogRow.Event := eventType;
               RawLogRow.Route := IngestEvent.Route e;
               RawLogRow.Method := strings_ToUpper (IngestEvent.Method e);
               RawLogRow.StatusCode := IngestEvent.StatusCode e;
               RawLogRow.DurationMs := IngestEvent.DurationMs e;
               RawLogRow.Attrs := attrs;
               RawLogRow.RawJSON := raw |}, ts)
    end.

End ToRaw.

End Model.

(** ** Package [clickhouse] of the collector

    [Client.InsertJSONEachRow(ctx, table, rows)] posts the rows to the
    store and returns the store's error, if any.  The store is outside
    the program: a client is the function that tells, for each insert,
    whether the store accepts it ([None]) or the error it returns. *)

Module Clickhouse.

Import Model.

Inductive Insert : Type :=
| InsertRawLogs (rows : list RawLogRow.t)
| InsertSpans (rows : list SpanRow.t)
| InsertTraces (rows : list TraceRow.t)
| InsertEdges (rows : list DependencyEdgeRow.t).

Definition Client : Type := Insert -> option string.

(** The span rows and the trace rows among a sequence of inserts. *)
Definition insertedSpans {A : Type} (log : list (Insert * A)) : list SpanRow.t :=
  flat_map (fun c => match fst c with InsertSpans rows => rows | _ => [] end) log.

Definition insertedTraces {A : Type} (log : list (Insert * A)) : list TraceRow.t :=
  flat_map (fun c => match fst c with InsertTraces rows => rows | _ => [] end) log.

End Clickhouse.

(** ** Package [reconstruct] of the collector *)

Module Reconstruct.

Import GoStrings GoTime GoSort Model.

Record spanState : Type := mkSpanState {
  traceID : string;
  spanID : string;
  parentSpanID : string;
  service : string;
  env : string;
  host : string;
  version : string;
  operation : string;
  startTs : Time;
  endTs : Time;
  durationMs : Z;
  statusCode : Z;
  isError : bool;
  source : string
}.

Record traceState : Type := mkTraceState {
  t_id : string;
  t_env : string;
  t_updatedAt : Time;
  t_spans : gmap string spanState
}.

(** The fields of [Reconstructor] that the fold and the flush read: the
    trace map and the window. *)
Record Reconstructor : Type := mkReconstructor {
  traces : gmap string traceState;
  window : Duration
}.

Definition New (window : Duration) : Reconstructor :=
  {| traces := ∅; window := window |}.

(** Field assignments. *)
Definition set_parentSpanID (v : string) (s : spanState) : spanState :=
  mkSpanState (traceID s) (spanID s) v (service s) (env s) (host s) (version s)
    (operation s) (startTs s) (endTs s) (durationMs s) (statusCode s) (isError s) (source s).
Definition set_service (v : string) (s : spanState) : spanState :=
  mkSpanState (traceID s) (spanID s) (parentSpanID s) v (env s) (host s) (version s)
    (operation s) (startTs s) (endTs s) (durationMs s) (statusCode s) (isError s) (source s).
Definition set_host (v : string) (s : spanState) : spanState :=
  mkSpanState (traceID s) (spanID s) (parentSpanID s) (service s) (env s) v (version s)
    (operation s) (startTs s) (endTs s) (durationMs s) (statusCode s) (isError s) (source s).
Definition set_version (v : string) (s : spanState) : spanState :=
  mkSpanState (traceID s) (spanID s) (parentSpanID s) (service s) (env s) (host s) v
    (operation s) (startTs s) (endTs s) (durationMs s) (statusCode s) (isError s) (source s).
Definition set_operation (v : string) (s : spanState) : spanState :=
  mkSpanState (traceID s) (spanID s) (parentSpanID s) (service s) (env s) (host s) (version s)
    v (startTs s) (endTs s) (durationMs s) (statusCode s) (isError s) (source s).
Definition set_startTs (v : Time) (s : spanState) : spanState :=
  mkSpanState (traceID s) (spanID s) (parentSpanID s) (service s) (env s) (host s) (version s)
    (operation s) v (endTs s) (durationMs s) (statusCode s) (isError s) (source s).
Definition set_endTs (v : Time) (s : spanState) : spanState :=
  mkSpanState (traceID s) (spanID s) (parentSpanID s) (service s) (env s) (host s) (version s)
    (operation s) (startTs s) v (durationMs s) (statusCode s) (isError s) (source s).
Definition set_durationMs (v : Z) (s : spanState) : spanState :=
  mkSpanState (traceID s) (spanID s) (parentSpanID s) (service s) (env s) (host s) (version s)
    (operation s) (startTs s) (endTs s) v (statusCode s) (isError s) (source s).
Definition set_statusCode (v : Z) (s : spanState) : spanState :=
  mkSpanState (traceID s) (spanID s) (parentSpanID s) (service s) (env s) (host s) (version s)
    (operation s) (startTs s) (endTs s) (durationMs s) v (isError s) (source s).
Definition set_isError (v : bool) (s : spanState) : spanState :=
  mkSpanState (traceID s) (spanID s) (parentSpanID s) (service s) (env s) (host s) (version s)
    (operation s) (startTs s) (endTs s) (durationMs s) (statusCode s) v (source s).

Definition chooseOperation (route fallback : string) : string :=
  if negb (isEmpty route) then route
  else if negb (isEmpty fallback) then fallback
  else "unknown-op".

(** [time.Duration(ms) * time.Millisecond]. *)
Definition msDuration (ms : Z) : Duration := ms * Millisecond.

Section Fold.
Context `{GoLib}.

(** The span id under which a row is folded. *)
Definition resolveSpanID (row : RawLogRow.t) (ts : Time) : string :=
  if isEmpty (RawLogRow.SpanID row) then "implicit-" ++ CHText (FormatCHTime ts)
  else RawLogRow.SpanID row.

(** The [spanState] created for the first row of a span. *)
Definition newSpan (row : RawLogRow.t) (sid : string) : spanState :=
  {| traceID := RawLogRow.TraceID row;
     spanID := sid;
     parentSpanID := RawLogRow.ParentSpanID row;
     service := RawLogRow.Service row;
     env := RawLogRow.Env row;
     host := RawLogRow.Host row;
     version := RawLogRow.Version row;
     operation := chooseOperation (RawLogRow.Route row) (RawLogRow.Message row);
     startTs := 0;
     endTs := 0;
     durationMs := 0;
     statusCode := 0;
     isError := false;
     source := "explicit" |}.

(** The timing [switch] of [Add]. *)
Definition foldTiming (row : RawLogRow.t) (ts : Time) (s : spanState) : spanState :=
  if String.eqb (RawLogRow.Event row) "start" then
    if IsZero (startTs s) || Before ts (startTs s) then set_startTs ts s else s
  else if String.eqb (RawLogRow.Event row) "end" then
    let s := if IsZero (endTs s) || After ts (endTs s) then set_endTs ts s else s in
    if 0 <? RawLogRow.DurationMs row then set_durationMs (RawLogRow.DurationMs row) s else s
  else
    if 0 <? RawLogRow.DurationMs row then
      let s := if IsZero (endTs s) || After ts (endTs s) then set_endTs ts s else s in
      let candidateStart := GoTime.Add ts (- msDuration (RawLogRow.DurationMs row)) in
      let s := if IsZero (startTs s) || Before candidateStart (startTs s)
               then set_startTs candidateStart s else s in
      set_durationMs (RawLogRow.DurationMs row) s
    else s.

(** The updates that [Add] applies to the span of a row, after the span
    was found or created. *)
Definition foldSpan (row : RawLogRow.t) (ts : Time) (s : spanState) : spanState :=
  let s := if negb (isEmpty (RawLogRow.ParentSpanID row))
           then set_parentSpanID (RawLogRow.ParentSpanID row) s else s in
  let s := if isEmpty (service s) then set_service (RawLogRow.Service row) s else s in
  let s := if isEmpty (version s) then set_version (RawLogRow.Version row) s else s in
  let s := if isEmpty (host s) then set_host (RawLogRow.Host row) s else s in
  let s := if isEmpty (operation s)
           then set_operation (chooseOperation (RawLogRow.Route row) (RawLogRow.Message row)) s
           else s in
  let s := if 400 <=? RawLogRow.StatusCode row
           then set_statusCode (RawLogRow.StatusCode row) (set_isError true s) else s in
  let s := if 0 <? RawLogRow.StatusCode row
           then set_statusCode (RawLogRow.StatusCode row) s else s in
  foldTiming row ts s.

(** One iteration of the loop of [Add]. *)
Definition addRow (tr : gmap string traceState) (row : RawLogRow.t) (ts : Time)
  : gmap string traceState :=
  let t := match tr !! RawLogRow.TraceID row with
           | Some t => t
           | None => {| t_id := RawLogRow.TraceID row; t_env := RawLogRow.Env row;
                        t_updatedAt := 0; t_spans := ∅ |}
           end in
  let updated := if After ts (t_updatedAt t) then ts else t_updatedAt t in
  let sid := resolveSpanID row ts in
  let s := match t_spans t !! sid with
           | Some s => s
           | None => newSpan row sid
           end in
  let s := foldSpan row ts s in
  <[RawLogRow.TraceID row :=
      {| t_id := t_id t; t_env := t_env t; t_updatedAt := updated;
         t_spans := <[sid := s]> (t_spans t) |}]> tr.

(** The loop of [Add]: [eventTimes[i]] panics when the slice of times
    is shorter than the slice of rows, which is [None] here. *)
Fixpoint addRows (tr : gmap string traceState) (rows : list RawLogRow.t)
    (eventTimes : list Time) : option (gmap string traceState) :=
  match rows, eventTimes with
  | [], _ => Some tr
  | row :: rows', ts :: times' => addRows (addRow tr row ts) rows' times'
  | _ :: _, [] => None
  end.

Definition Add (r : Reconstructor) (rows : list RawLogRow.t) (eventTimes : list Time)
  : option Reconstructor :=
  match addRows (traces r) rows eventTimes with
  | Some tr => Some {| traces := tr; window := window r |}
  | None => None
  end.

End Fold.

(** *** Finalization *)

Definition boolToUint8 (v : bool) : Z := if v then 1 else 0.

(** The texts that [time.Parse] reads in the layout
    ["2006-01-02 15:04:05.000"] are those with a year of four digits:
    the instants from 0000-01-01 (366 days before the zero instant) to
    the end of 9999 (3652059 days after it).  [FormatCHTime] writes the
    year of any other instant with a sign or with five digits. *)
Definition chFirst : CHTime := - 366 * 86400000.
Definition chLimit : CHTime := 3652059 * 86400000.

Definition chParses (v : CHTime) : bool := (chFirst <=? v) && (v <? chLimit).

(** [parseCHTime]; [now] is what [time.Now().UTC()] returns when the
    text does not parse. *)
Definition parseCHTime (now : Time) (v : CHTime) : Time :=
  if chParses v then v * 1000000 else now.

(** [toMinute]: the minute of a ClickHouse timestamp, as a count of
    minutes since the zero instant. *)
Definition toMinute (now : Time) (chTS : CHTime) : Z :=
  FormatCHTime (parseCHTime now chTS) / 60000.

(** The calls of [parseCHTime] while a trace is flushed, each of which
    may read the clock: the two calls of [buildTraceRow] on [spans[0]]
    before its loop, the two calls of the iteration [i] of that loop,
    and the call of [toMinute] in the iteration [i] of the second loop
    of [accumulateEdges]. *)
Inductive parseCall : Type :=
| FirstStart
| FirstEnd
| SpanStart (i : nat)
| SpanEnd (i : nat)
| EdgeBucket (i : nat).

(** A slice with the index of each element, as [range] yields them. *)
Definition indexed {A : Type} (l : list A) : list (nat * A) :=
  combine (seq 0 (length l)) l.

Definition appendAt {A : Type} (k : string) (x : A) (m : gmap string (list A))
  : gmap string (list A) :=
  <[k := default [] (m !! k) ++ [x]]> m.

(** First loop of [finalizeSpans]: the children of each parent id, in
    the order [ord] in which the map of spans is ranged over.  A child is
    recorded by the key of its [spanState], which stands for the pointer
    the code stores. *)
Definition buildChildren (ord : list string) (spans : gmap string spanState)
  : gmap string (list string) :=
  fold_left (fun children k =>
               match spans !! k with
               | Some s =>
                   if negb (isEmpty (parentSpanID s)) then appendAt (parentSpanID s) k children
                   else children
               | None => children
               end) ord ∅.

(** The three inference steps on the bounds of a span; the second
    component is the provenance. *)
Definition inferBounds (now : Time) (s : spanState) : spanState * string :=
  let src := source s in
  let '(s, src) :=
    if IsZero (startTs s) && negb (IsZero (endTs s)) && (0 <? durationMs s)
    then (set_startTs (GoTime.Add (endTs s) (- msDuration (durationMs s))) s, "inferred")
    else (s, src) in
  let '(s, src) :=
    if IsZero (endTs s) && negb (IsZero (startTs s))
    then (if 0 <? durationMs s
          then set_endTs (GoTime.Add (startTs s) (msDuration (durationMs s))) s
          else set_endTs (startTs s) s, "inferred")
    else (s, src) in
  if IsZero (startTs s)
  then (set_endTs now (set_startTs now s), "inferred")
  else (s, src).

(** The duration of a span, and the span with its end moved up to its
    start in the branch that computes the duration from the bounds. *)
Definition spanDuration (s : spanState) : spanState * Z :=
  if durationMs s =? 0 then
    let s := if Before (endTs s) (startTs s) then set_endTs (startTs s) s else s in
    (s, wrap32 (Milliseconds (Sub (endTs s) (startTs s))))
  else (s, durationMs s).

(** The duration that the parent's loop reads off a child. *)
Definition childDuration (child : spanState) : Z :=
  if (durationMs child =? 0) && negb (IsZero (startTs child)) && negb (IsZero (endTs child))
  then wrap32 (Milliseconds (Sub (endTs child) (startTs child)))
  else durationMs child.

Definition childTotalOf (store : gmap string spanState) (kids : list string) : Z :=
  fold_left (fun total c =>
               match store !! c with
               | Some child => wrap32 (total + childDuration child)
               | None => total
               end) kids 0.

Definition selfTimeOf (duration childTotal : Z) : Z :=
  if childTotal <? duration then duration - childTotal else duration.

(** One iteration of the second loop of [finalizeSpans] on the span
    stored under [k]: the span states are shared with the children
    index, so the bounds written here are the ones a later parent
    reads. *)
Definition finalizeSpan (children : gmap string (list string)) (now : string -> Time)
    (acc : gmap string spanState * list SpanRow.t) (k : string)
  : gmap string spanState * list SpanRow.t :=
  let '(store, out) := acc in
  match store !! k with
  | None => acc
  | Some s =>
      let '(s, src) := inferBounds (now k) s in
      let '(s, duration) := spanDuration s in
      let store := <[k := s]> store in
      let childTotal := childTotalOf store (default [] (children !! spanID s)) in
      let selfTime := selfTimeOf duration childTotal in
      (store,
       out ++ [ {| SpanRow.TraceID := traceID s;
                   SpanRow.SpanID := spanID s;
                   SpanRow.ParentSpanID := parentSpanID s;
                   SpanRow.Service := service s;
                   SpanRow.Env := env s;
                   SpanRow.Host := host s;
                   SpanRow.Version := version s;
                   SpanRow.Operation := operation s;
                   SpanRow.StartTS := FormatCHTime (startTs s);
                   SpanRow.EndTS := FormatCHTime (endTs s);
                   SpanRow.DurationMs := duration;
                   SpanRow.SelfTimeMs := selfTime;
                   SpanRow.StatusCode := statusCode s;
                   SpanRow.IsError := boolToUint8 (isError s);
                   SpanRow.Source := src |} ])
  end.

(** [finalizeSpans]: [ord1] and [ord2] are the orders of the two [range]
    loops over the spans of the trace, and [now k] is what [time.Now()]
    returns while the span [k] is finalized. *)
Definition finalizeSpans (ord1 ord2 : list string) (now : string -> Time) (t : traceState)
  : list SpanRow.t :=
  let children := buildChildren ord1 (t_spans t) in
  snd (fold_left (finalizeSpan children now) ord2 (t_spans t, [])).

(** *** Critical path *)

(** The two maps that the closure [dfs] of [criticalPath] updates:
    [memo] and [visiting]. *)
Definition dfsState : Type := (gmap string Z * gmap string bool)%type.

(** The loop of [dfs] over the children of a span; [rec] is [dfs]. *)
Fixpoint bestChildLoop (rec : string -> dfsState -> option (Z * dfsState))
    (cs : list string) (st : dfsState) (bestChild : Z) : option (Z * dfsState) :=
  match cs with
  | [] => Some (bestChild, st)
  | c :: cs' =>
      match rec c st with
      | None => None
      | Some (childScore, st') =>
          bestChildLoop rec cs' st' (if bestChild <? childScore then childScore else bestChild)
      end
  end.

(** The closure [dfs], with the depth of the recursion bounded by
    [fuel]: [None] when the bound is reached. *)
Fixpoint dfs (spans : gmap string SpanRow.t) (children : gmap string (list string))
    (fuel : nat) (id : string) (st : dfsState) : option (Z * dfsState) :=
  match fuel with
  | O => None
  | S fuel' =>
      match fst st !! id with
      | Some v => Some (v, st)
      | None =>
          if default false (snd st !! id) then Some (0, st)
          else
            let s := default SpanRow.zero (spans !! id) in
            match bestChildLoop (dfs spans children fuel')
                    (default [] (children !! id)) (fst st, <[id := true]> (snd st)) 0 with
            | None => None
            | Some (bestChild, st') =>
                let total := wrap32 (SpanRow.DurationMs s + bestChild) in
                Some (total, (<[id := total]> (fst st'), <[id := false]> (snd st')))
            end
      end
  end.

(** The first loop of [criticalPath] ([rootsOnly = true]: spans whose
    parent is present are skipped) and its second loop ([rootsOnly =
    false]), over the keys of [spans] in the order [ord]. *)
Fixpoint seedLoop (spans : gmap string SpanRow.t) (children : gmap string (list string))
    (fuel : nat) (rootsOnly : bool) (ord : list string) (st : dfsState) (best : Z)
  : option (Z * dfsState) :=
  match ord with
  | [] => Some (best, st)
  | id :: ord' =>
      match spans !! id with
      | None => seedLoop spans children fuel rootsOnly ord' st best
      | Some s =>
          if rootsOnly && negb (isEmpty (SpanRow.ParentSpanID s))
             && bool_decide (is_Some (spans !! SpanRow.ParentSpanID s))
          then seedLoop spans children fuel rootsOnly ord' st best
          else
            match dfs spans children fuel id st with
            | None => None
            | Some (score, st') =>
                seedLoop spans children fuel rootsOnly ord' st'
                  (if best <? score then score else best)
            end
      end
  end.

Definition criticalPathFuel (fuel : nat) (ord1 ord2 : list string)
    (spans : gmap string SpanRow.t) (children : gmap string (list string)) : option Z :=
  match seedLoop spans children fuel true ord1 (∅, ∅) 0 with
  | None => None
  | Some (best, st) =>
      if best =? 0 then
        match seedLoop spans children fuel false ord2 st best with
        | None => None
        | Some (best', _) => Some best'
        end
      else Some best
  end.

(** [criticalPath]: no span is entered twice, so a depth of one more
    than the number of spans is never reached (see
    [criticalPathFuel_total]). *)
Definition criticalPath (ord1 ord2 : list string)
    (spans : gmap string SpanRow.t) (children : gmap string (list string)) : Z :=
  default 0 (criticalPathFuel (S (size spans)) ord1 ord2 spans children).

(** *** Trace rollup *)

Record rollup : Type := mkRollup {
  ru_start : Time;
  ru_end : Time;
  ru_services : gset string;
  ru_versions : gset string;
  ru_errorCount : Z;
  ru_rootService : string;
  ru_byID : gmap string SpanRow.t;
  ru_children : gmap string (list string)
}.

Definition rollupStep (now : parseCall -> Time) (a : rollup) (entry : nat * SpanRow.t)
  : rollup :=
  let '(i, s) := entry in
  let st := parseCHTime (now (SpanStart i)) (SpanRow.StartTS s) in
  let en := parseCHTime (now (SpanEnd i)) (SpanRow.EndTS s) in
  {| ru_start := if Before st (ru_start a) then st else ru_start a;
     ru_end := if After en (ru_end a) then en else ru_end a;
     ru_services := {[SpanRow.Service s]} ∪ ru_services a;
     ru_versions := {[SpanRow.Version s]} ∪ ru_versions a;
     ru_errorCount := if SpanRow.IsError s =? 1 then ru_errorCount a + 1 else ru_errorCount a;
     ru_rootService := if Before st (ru_start a) then SpanRow.Service s else ru_rootService a;
     ru_byID := <[SpanRow.SpanID s := s]> (ru_byID a);
     ru_children :=
       if negb (isEmpty (SpanRow.ParentSpanID s))
       then appendAt (SpanRow.ParentSpanID s) (SpanRow.SpanID s) (ru_children a)
       else ru_children a |}.

Definition rollupOf (now : parseCall -> Time) (s0 : SpanRow.t) (spans : list SpanRow.t)
  : rollup :=
  fold_left (rollupStep now) (indexed spans)
    {| ru_start := parseCHTime (now FirstStart) (SpanRow.StartTS s0);
       ru_end := parseCHTime (now FirstEnd) (SpanRow.EndTS s0);
       ru_services := ∅; ru_versions := ∅; ru_errorCount := 0;
       ru_rootService := SpanRow.Service s0;
       ru_byID := ∅; ru_children := ∅ |}.

(** [buildTraceRow]; [ord1] and [ord2] are the orders of the two loops
    of [criticalPath] over the spans by id, and [now] is what the clock
    returns to each call of [parseCHTime]. *)
Definition buildTraceRow (ord1 ord2 : list string) (now : parseCall -> Time)
    (env traceID : string) (spans : list SpanRow.t) : TraceRow.t :=
  match spans with
  | [] => {| TraceRow.TraceID := traceID; TraceRow.Env := env; TraceRow.RootService := "";
             TraceRow.StartTS := 0; TraceRow.EndTS := 0; TraceRow.DurationMs := 0;
             TraceRow.SpanCount := 0; TraceRow.ServiceCount := 0; TraceRow.ErrorCount := 0;
             TraceRow.CriticalPathMs := 0; TraceRow.Versions := [] |}
  | s0 :: _ =>
      let a := rollupOf now s0 spans in
      let critical := criticalPath ord1 ord2 (ru_byID a) (ru_children a) in
      {| TraceRow.TraceID := traceID;
         TraceRow.Env := env;
         TraceRow.RootService := ru_rootService a;
         TraceRow.StartTS := FormatCHTime (ru_start a);
         TraceRow.EndTS := FormatCHTime (ru_end a);
         TraceRow.DurationMs := wrap32 (Milliseconds (Sub (ru_end a) (ru_start a)));
         TraceRow.SpanCount := wrap16 (Z.of_nat (length spans));
         TraceRow.ServiceCount := wrap16 (Z.of_nat (size (ru_services a)));
         TraceRow.ErrorCount := wrap16 (ru_errorCount a);
         TraceRow.CriticalPathMs := critical;
         TraceRow.Versions := sortBy String.leb (elements (ru_versions a)) |}
  end.

(** *** Dependency edges *)

(** [edgeKey]: bucket, env, caller service, callee service, caller
    version, callee version. *)
Definition edgeKey : Type := (Z * string * string * string * string * string)%type.

Record edgeState : Type := mkEdgeState {
  durations : list Z;
  errorCalls : Z
}.

Definition spansByID (spans : list SpanRow.t) : gmap string SpanRow.t :=
  fold_left (fun byID s => <[SpanRow.SpanID s := s]> byID) spans ∅.

Definition accumulateEdge (now : parseCall -> Time) (byID : gmap string SpanRow.t)
    (agg : gmap edgeKey edgeState) (entry : nat * SpanRow.t) : gmap edgeKey edgeState :=
  let '(i, s) := entry in
  if isEmpty (SpanRow.ParentSpanID s) then agg
  else
    match byID !! SpanRow.ParentSpanID s with
    | None => agg
    | Some p =>
        if String.eqb (SpanRow.Service p) (SpanRow.Service s) then agg
        else
          let k : edgeKey :=
            (toMinute (now (EdgeBucket i)) (SpanRow.StartTS s), SpanRow.Env s,
             SpanRow.Service p, SpanRow.Service s, SpanRow.Version p, SpanRow.Version s) in
          let e := default {| durations := []; errorCalls := 0 |} (agg !! k) in
          <[k := {| durations := durations e ++ [SpanRow.DurationMs s];
                    errorCalls := if SpanRow.IsError s =? 1
                                  then (errorCalls e + 1) mod 2 ^ 64 else errorCalls e |}]> agg
    end.

Definition accumulateEdges (now : parseCall -> Time) (spans : list SpanRow.t)
    (agg : gmap edgeKey edgeState) : gmap edgeKey edgeState :=
  fold_left (accumulateEdge now (spansByID spans)) (indexed spans) agg.

(** The index that [percentile] reads: [int(float64(len(arr)-1) * p)],
    brought back into the slice. *)
Definition percentileIndex (n : nat) (p : float) : Z :=
  let idx := GoMath.trunc (PrimFloat.mul (GoMath.of_Z (Z.of_nat n - 1)) p) in
  if idx <? 0 then 0
  else if Z.of_nat n <=? idx then Z.of_nat n - 1
  else idx.

Definition percentile (arr : list Z) (p : float) : float :=
  match arr with
  | [] => 0%float
  | _ => GoMath.of_Z (nth (Z.to_nat (percentileIndex (length arr) p)) arr 0)
  end.

(** The conversion [float32(x)]. *)
Definition toFloat32 (x : float) : spec_float :=
  match Prim2SF x with
  | S754_finite s m e => SpecFloat.binary_round 24 128 s m e
  | sf => sf
  end.

Definition collapseEdge (agg : gmap edgeKey edgeState) (out : list DependencyEdgeRow.t)
    (k : edgeKey) : list DependencyEdgeRow.t :=
  match agg !! k with
  | None => out
  | Some v =>
      let sorted := sortBy Z.leb (durations v) in
      match sorted with
      | [] => out
      | _ =>
          let '(bucket, env, callerService, calleeService, callerVersion, calleeVersion) := k in
          out ++ [ {| DependencyEdgeRow.BucketTS := bucket;
                      DependencyEdgeRow.Env := env;
                      DependencyEdgeRow.CallerService := callerService;
                      DependencyEdgeRow.CalleeService := calleeService;
                      DependencyEdgeRow.CallerVersion := callerVersion;
                      DependencyEdgeRow.CalleeVersion := calleeVersion;
                      DependencyEdgeRow.Calls := Z.of_nat (length sorted);
                      DependencyEdgeRow.ErrorCalls := errorCalls v;
                      DependencyEdgeRow.P50Ms := toFloat32 (percentile sorted 0.5%float);
                      DependencyEdgeRow.P95Ms := toFloat32 (percentile sorted 0.95%float);
                      DependencyEdgeRow.MaxMs := List.last sorted 0 |} ]
      end
  end.

(** [collapseEdgeAgg], ranging over the buckets in the order [ord]. *)
Definition collapseEdgeAgg (ord : list edgeKey) (agg : gmap edgeKey edgeState)
  : list DependencyEdgeRow.t :=
  fold_left (collapseEdge agg) ord [].

(** *** Flush *)

(** What a run of [FlushNow] does not decide by itself: the instants
    that [time.Now()] returns (to [FlushNow], to [finalizeSpans] for
    each span of a trace, and to each call of [parseCHTime] for a
    trace), and the order in which each [range] loop visits the keys of
    its map (per trace id for the loops inside a trace). *)
Record Schedule : Type := mkSchedule {
  sch_now : Time;
  sch_spanNow : string -> string -> Time;
  sch_parseNow : string -> parseCall -> Time;
  sch_traces : list string;
  sch_children : string -> list string;
  sch_emit : string -> list string;
  sch_roots : string -> list string;
  sch_all : string -> list string;
  sch_edges : list edgeKey
}.

Record flushAcc : Type := mkFlushAcc {
  fa_traces : gmap string traceState;
  fa_spanRows : list SpanRow.t;
  fa_traceRows : list TraceRow.t;
  fa_edgeAgg : gmap edgeKey edgeState
}.

(** One iteration of the loop of [FlushNow] over the traces. *)
Definition flushTrace (sch : Schedule) (window : Duration) (a : flushAcc) (traceID : string)
  : flushAcc :=
  match fa_traces a !! traceID with
  | None => a
  | Some t =>
      if Sub (sch_now sch) (t_updatedAt t) <? window then a
      else
        let spans := finalizeSpans (sch_children sch traceID) (sch_emit sch traceID)
                       (sch_spanNow sch traceID) t in
        match spans with
        | [] => {| fa_traces := delete traceID (fa_traces a);
                   fa_spanRows := fa_spanRows a;
                   fa_traceRows := fa_traceRows a;
                   fa_edgeAgg := fa_edgeAgg a |}
        | _ =>
            {| fa_traces := delete traceID (fa_traces a);
               fa_spanRows := fa_spanRows a ++ spans;
               fa_traceRows :=
                 fa_traceRows a ++
                   [buildTraceRow (sch_roots sch traceID) (sch_all sch traceID)
                      (sch_parseNow sch traceID) (t_env t) traceID spans];
               fa_edgeAgg := accumulateEdges (sch_parseNow sch traceID) spans (fa_edgeAgg a) |}
        end
  end.

(** The inserts that [FlushNow] issues, in order. *)
Definition flushInserts (sch : Schedule) (a : flushAcc) : list Clickhouse.Insert :=
  (match fa_spanRows a with [] => [] | rows => [Clickhouse.InsertSpans rows] end) ++
  (match fa_traceRows a with [] => [] | rows => [Clickhouse.InsertTraces rows] end) ++
  (match size (fa_edgeAgg a) with
   | O => []
   | _ => [Clickhouse.InsertEdges (collapseEdgeAgg (sch_edges sch) (fa_edgeAgg a))]
   end).

(** [FlushNow]: the reconstructor after the flush, and each insert
    issued with the error the store [ch] returned for it.  The code
    assigns every such error to [_]; nothing below reads them. *)
Definition FlushNow (ch : Clickhouse.Client) (sch : Schedule) (r : Reconstructor)
  : Reconstructor * list (Clickhouse.Insert * option string) :=
  let a := fold_left (flushTrace sch (window r)) (sch_traces sch)
             {| fa_traces := traces r; fa_spanRows := []; fa_traceRows := [];
                fa_edgeAgg := ∅ |} in
  ({| traces := fa_traces a; window := window r |},
   List.map (fun i => (i, ch i)) (flushInserts sch a)).

End Reconstruct.

(** ** Package [server] of the collector: the ingest endpoint *)

Module Server.

Import GoStrings GoTime Model.

Record ingestError : Type := mkIngestError {
  Line : Z;
  Reason : string
}.

Record ingestResponse : Type := mkIngestResponse {
  Accepted : Z;
  Rejected : Z;
  Errors : list ingestError
}.

(** [json.Unmarshal] into a [[]json.RawMessage] (the texts of the
    elements of a JSON array) and into a [model.IngestEvent]. *)
Class GoJSON : Type := {
  json_Unmarshal_array : string -> result (list string);
  json_Unmarshal_event : string -> result IngestEvent.t
}.

(** What the handler reads from the request body (after the gzip
    decoding, when the request asks for it): [gzip.NewReader] may
    refuse the stream, and reading may fail. *)
Inductive BodyReader : Type :=
| InvalidGzip
| Reads (r : result string).

Record Request : Type := mkRequest {
  Method : string;
  Authorization : string;
  Body : BodyReader
}.

Inductive ResponseBody : Type :=
| TextBody (msg : string)
| JSONBody (resp : ingestResponse).

Record Response : Type := mkResponse {
  Status : Z;
  Payload : ResponseBody
}.

(** [strings.SplitN(header, " ", 2)] when it yields two parts. *)
Fixpoint cutSpace (s : string) : option (string * string) :=
  match s with
  | EmptyString => None
  | String c s' =>
      if Ascii.eqb c " " then Some (EmptyString, s')
      else match cutSpace s' with
           | Some (a, b) => Some (String c a, b)
           | None => None
           end
  end.

(** [validBearer]; [strings.EqualFold] against ["Bearer"] is the
    comparison without regard to ASCII case. *)
Definition validBearer (header token : string) : bool :=
  match cutSpace header with
  | None => false
  | Some (scheme, rest) =>
      String.eqb (mapString asciiLower scheme) "bearer" && String.eqb (TrimSpace rest) token
  end.

(** The lines that [bufio.ScanLines] cuts a text into: the pieces
    between line feeds, without a final empty piece. *)
Fixpoint splitLines (s : string) : string * list string :=
  match s with
  | EmptyString => (EmptyString, [])
  | String c s' =>
      let '(hd, tl) := splitLines s' in
      if Ascii.eqb c LF
      then (EmptyString, match s' with EmptyString => [] | _ => hd :: tl end)
      else (String c hd, tl)
  end.

Definition rawLines (s : string) : list string :=
  match s with
  | EmptyString => []
  | _ => let '(hd, tl) := splitLines s in hd :: tl
  end.

(** A line loses one trailing carriage return. *)
Fixpoint dropCR (s : string) : string :=
  match s with
  | EmptyString => EmptyString
  | String c EmptyString => if Ascii.eqb c CR then EmptyString else s
  | String c s' => String c (dropCR s')
  end.

Definition maxTokenSize : N := 2 * 1024 * 1024.
Definition bodyLimit : N := 20 * 1024 * 1024.

Record parsed : Type := mkParsed {
  p_events : list IngestEvent.t;
  p_raws : list string;
  p_errs : list ingestError
}.

Section Ingest.
Context `{GoLib} `{GoJSON}.

(** The loop of [parseEvents] over the elements of a JSON array; [i]
    is the index of the first element of [msgs]. *)
Fixpoint parseArray (i : Z) (msgs : list string) (acc : parsed) : parsed :=
  match msgs with
  | [] => acc
  | m :: msgs' =>
      match json_Unmarshal_event m with
      | Err msg =>
          parseArray (i + 1) msgs'
            (mkParsed (p_events acc) (p_raws acc) (p_errs acc ++ [mkIngestError (i + 1) msg]))
      | Ok e =>
          parseArray (i + 1) msgs' (mkParsed (p_events acc ++ [e]) (p_raws acc ++ [m]) (p_errs acc))
      end
  end.

(** The loop of [parseEvents] over the lines of the scanner; [line]
    counts the lines scanned so far.  The scanner stops with
    [bufio.ErrTooLong] at a line that does not fit its buffer. *)
Fixpoint parseLines (line : Z) (lines : list string) (acc : parsed) : parsed :=
  match lines with
  | [] => acc
  | l :: lines' =>
      if (maxTokenSize <=? strlen l)%N then
        mkParsed (p_events acc) (p_raws acc)
          (p_errs acc ++ [mkIngestError line "bufio.Scanner: token too long"])
      else
        let line := line + 1 in
        let entry := TrimSpace (dropCR l) in
        if isEmpty entry then parseLines line lines' acc
        else
          match json_Unmarshal_event entry with
          | Err msg =>
              parseLines line lines'
                (mkParsed (p_events acc) (p_raws acc) (p_errs acc ++ [mkIngestError line msg]))
          | Ok e =>
              parseLines line lines'
                (mkParsed (p_events acc ++ [e]) (p_raws acc ++ [entry]) (p_errs acc))
          end
  end.

Definition parseEvents (r : result string) : parsed :=
  match r with
  | Err msg => mkParsed [] [] [mkIngestError 0 msg]
  | Ok body =>
      let trimmed := TrimSpace (takeBytes bodyLimit body) in
      if isEmpty trimmed then mkParsed [] [] [mkIngestError 0 "empty body"]
      else if HasPrefix trimmed "[" then
        match json_Unmarshal_array trimmed with
        | Err msg => mkParsed [] [] [mkIngestError 0 msg]
        | Ok rawMsgs => parseArray 0 rawMsgs (mkParsed [] [] [])
        end
      else if ContainsByte LF trimmed then
        parseLines 0 (rawLines trimmed) (mkParsed [] [] [])
      else
        match json_Unmarshal_event trimmed with
        | Err msg => mkParsed [] [] [mkIngestError 1 msg]
        | Ok single => mkParsed [single] [trimmed] []
        end
  end.

Record normalized : Type := mkNormalized {
  n_resp : ingestResponse;
  n_rawRows : list RawLogRow.t;
  n_times : list Time
}.

(** The loop of [IngestLogs] over the parsed events; [i] is the index of
    the first event of [events] and [now i] what [time.Now()] returns in
    [ToRaw] for the event of index [i]. *)
Fixpoint normalizeEvents (now : Z -> Time) (i : Z) (events : list IngestEvent.t)
    (raws : list string) (acc : normalized) : normalized :=
  match events, raws with
  | e :: events', raw :: raws' =>
      match ToRaw (now i) e raw with
      | Err msg =>
          let resp := n_resp acc in
          let errors :=
            if (Z.of_nat (length (Errors resp)) <? 100)
            then Errors resp ++ [mkIngestError (i + 1) msg] else Errors resp in
          normalizeEvents now (i + 1) events' raws'
            (mkNormalized (mkIngestResponse (Accepted resp) (Rejected resp + 1) errors)
               (n_rawRows acc) (n_times acc))
      | Ok (row, ts) =>
          normalizeEvents now (i + 1) events' raws'
            (mkNormalized (n_resp acc) (n_rawRows acc ++ [row]) (n_times acc ++ [ts]))
      end
  | _, _ => acc
  end.

(** [Handler.IngestLogs]: the response, and the reconstructor after the
    request.  [parseEvents] returns as many raw texts as events and the
    loop keeps as many times as rows, so that the indexings cannot
    fail. *)
Definition IngestLogs (token : string) (ch : Clickhouse.Client) (now : Z -> Time)
    (recon : Reconstruct.Reconstructor) (req : Request)
  : Response * Reconstruct.Reconstructor :=
  if negb (String.eqb (Method req) "POST")
  then (mkResponse 405 (TextBody "method not allowed"), recon)
  else if negb (isEmpty token) && negb (validBearer (Authorization req) token)
  then (mkResponse 401 (TextBody "unauthorized"), recon)
  else
    match Body req with
    | InvalidGzip => (mkResponse 400 (TextBody "invalid gzip"), recon)
    | Reads r =>
        let p := parseEvents r in
        match p_events p with
        | [] =>
            (mkResponse 400
               (JSONBody (mkIngestResponse 0 (Z.of_nat (length (p_errs p))) (p_errs p))), recon)
        | _ =>
            let n := normalizeEvents now 0 (p_events p) (p_raws p)
                       (mkNormalized (mkIngestResponse 0 0 (p_errs p)) [] []) in
            let rejected :=
              Rejected (n_resp n)
              + (Z.of_nat (length (p_events p)) - Z.of_nat (length (n_rawRows n))) in
            match n_rawRows n with
            | [] =>
                (mkResponse 200
                   (JSONBody (mkIngestResponse 0 rejected (Errors (n_resp n)))), recon)
            | rawRows =>
                match ch (Clickhouse.InsertRawLogs rawRows) with
                | Some err => (mkResponse 502 (TextBody err), recon)
                | None =>
                    let recon' := default recon (Reconstruct.Add recon rawRows (n_times n)) in
                    (mkResponse 200
                       (JSONBody (mkIngestResponse (Z.of_nat (length rawRows)) rejected
                                    (Errors (n_resp n)))), recon')
                end
            end
        end
    end.

End Ingest.

End Server.

(** ** Package [handlers] of the read API *)

Module Handlers.

Import GoStrings GoTime GoSort.

(** *** Request parameters *)

(** The character class of [safeToken], [[a-zA-Z0-9._:/-]]. *)
Definition safeChar (c : ascii) : bool :=
  let b := byte c in
  ((97 <=? b)%N && (b <=? 122)%N) || ((65 <=? b)%N && (b <=? 90)%N)
  || ((48 <=? b)%N && (b <=? 57)%N)
  || (b =? 46)%N || (b =? 95)%N || (b =? 58)%N || (b =? 47)%N || (b =? 45)%N.

(** [safeToken.MatchString] for the pattern [^[a-zA-Z0-9._:/-]+$]. *)
Definition safeToken_MatchString (v : string) : bool :=
  negb (isEmpty v) && forallb safeChar (list_ascii_of_string v).

Definition sanitize (v : string) : string :=
  let v := TrimSpace v in
  if isEmpty v then ""
  else if negb (safeToken_MatchString v) then ""
  else v.

Section Range.
Context `{GoLib}.

(** [parseRange]; [rawTo] and [rawFrom] are the query parameters [to]
    and [from] (empty when absent) and [now] is [time.Now().UTC()]. *)
Definition parseRange (now : Time) (rawFrom rawTo : string) : Time * Time :=
  let to := now in
  let from := GoTime.Add to (- 1 * Hour) in
  let to :=
    if negb (isEmpty rawTo) then
      match time_Parse rawTo with Ok parsed => parsed | Err _ => to end
    else to in
  let from :=
    if negb (isEmpty rawFrom) then
      match time_Parse rawFrom with Ok parsed => parsed | Err _ => from end
    else from in
  let from := if negb (Before from to) then GoTime.Add to (- 1 * Hour) else from in
  (from, to).

End Range.

Section Limit.
(** [strconv.Atoi]. *)
Variable strconv_Atoi : string -> result Z.

(** [parseLimit]; [raw] is the query parameter [limit] (empty when
    absent). *)
Definition parseLimit (raw : string) (fallback : Z) : Z :=
  if isEmpty raw then fallback
  else
    match strconv_Atoi raw with
    | Err _ => fallback
    | Ok v =>
        if v <=? 0 then fallback
        else if 5000 <? v then 5000
        else v
    end.

End Limit.

(** *** Scores *)

Definition pctDelta (base cand : float) : float :=
  if PrimFloat.eqb base 0 then
    if PrimFloat.eqb cand 0 then 0%float else 100%float
  else PrimFloat.mul (PrimFloat.div (PrimFloat.sub cand base) (GoMath.Abs base)) 100.

Definition clamp (v min max : float) : float :=
  if PrimFloat.ltb v min then min
  else if PrimFloat.ltb max v then max
  else v.

(** [round]; [math.Pow(10, float64(digits))] is the exact power of ten
    for the numbers of digits that the handlers pass (2, 3 and 4). *)
Definition round (v : float) (digits : Z) : float :=
  let pow := GoMath.of_Z (10 ^ digits) in
  PrimFloat.div (GoMath.Round (PrimFloat.mul v pow)) pow.

Definition scoreToPct (v : float) : float := PrimFloat.mul v 100.

Record stats : Type := mkStats {
  Calls : float;
  P95 : float;
  ErrorRate : float;
  st_BlockingRatio : float
}.

(** The score that [buildRootCauseRanking] gives a service, before it
    is rounded to four digits. *)
Definition rootCauseScore (b c : stats) : float :=
  let latPct := pctDelta (P95 b) (P95 c) in
  let errPct := pctDelta (ErrorRate b) (ErrorRate c) in
  let callPct := pctDelta (Calls b) (Calls c) in
  PrimFloat.add
    (PrimFloat.add
       (PrimFloat.add
          (PrimFloat.mul 0.5 (clamp (PrimFloat.div latPct 300) 0 1))
          (PrimFloat.mul 0.25 (clamp (PrimFloat.div errPct 300) 0 1)))
       (PrimFloat.mul 0.15 (clamp (PrimFloat.div callPct 300) 0 1)))
    (PrimFloat.mul 0.10 (clamp (st_BlockingRatio c) 0 1)).

(** The deviation score of [buildAnomalyBadges], before it is rounded
    to three digits. *)
Definition deviationScore (latPct errPct callPct : float) : float :=
  clamp
    (GoMath.Max (PrimFloat.div (GoMath.Abs latPct) 300)
       (GoMath.Max (PrimFloat.div (GoMath.Abs errPct) 300)
          (PrimFloat.div (GoMath.Abs callPct) 300)))
    0 1.

(** *** Drill-down *)

(** The columns of a span row as [buildTraceDrilldown] reads them:
    [toString], [toUint32], [toFloat] and [parseCHTime] applied to the
    entries of the row. *)
Record spanCols : Type := mkSpanCols {
  c_trace_id : string;
  c_span_id : string;
  c_parent_span_id : string;
  c_service : string;
  c_operation : string;
  c_duration_ms : Z;
  c_self_time_ms : Z;
  c_is_error : float;
  c_start_time : Time;
  c_end_time : Time
}.

(** The fields of [traceSpan] that the first loop of
    [buildTraceDrilldown] sets and that do not depend on the tree of
    spans. *)
Record traceSpan : Type := mkTraceSpan {
  SpanID : string;
  ParentSpanID : string;
  Service : string;
  Operation : string;
  StartTime : Time;
  EndTime : Time;
  DurationMs : Z;
  SelfTimeMs : Z;
  IsError : bool;
  WaitMs : Z;
  BlockingRatio : float
}.

Definition newTraceSpan (row : spanCols) : traceSpan :=
  let duration := c_duration_ms row in
  let selfTime := if duration <? c_self_time_ms row then duration else c_self_time_ms row in
  let wait := if selfTime <? duration then duration - selfTime else 0 in
  let ratio := if 0 <? duration
               then PrimFloat.div (GoMath.of_Z wait) (GoMath.of_Z duration) else 0%float in
  {| SpanID := c_span_id row;
     ParentSpanID := c_parent_span_id row;
     Service := c_service row;
     Operation := c_operation row;
     StartTime := c_start_time row;
     EndTime := if Before (c_end_time row) (c_start_time row)
                then c_start_time row else c_end_time row;
     DurationMs := duration;
     SelfTimeMs := selfTime;
     IsError := PrimFloat.ltb 0 (c_is_error row);
     WaitMs := wait;
     BlockingRatio := ratio |}.

(** The keys of a waterfall entry that are computed from the span alone
    ([depth], [is_critical], [left_pct], [width_pct], [children] and
    [explanation] depend on the whole trace and are left out). *)
Record waterfallEntry : Type := mkWaterfallEntry {
  w_span_id : string;
  w_parent_span_id : string;
  w_service : string;
  w_operation : string;
  w_duration_ms : Z;
  w_self_time_ms : Z;
  w_wait_ms : Z;
  w_blocking_ratio : float;
  w_is_error : bool
}.

Definition waterfallOf (span : traceSpan) : waterfallEntry :=
  {| w_span_id := SpanID span;
     w_parent_span_id := ParentSpanID span;
     w_service := Service span;
     w_operation := Operation span;
     w_duration_ms := DurationMs span;
     w_self_time_ms := SelfTimeMs span;
     w_wait_ms := WaitMs span;
     w_blocking_ratio := round (scoreToPct (BlockingRatio span)) 2;
     w_is_error := IsError span |}.

(** The [waterfall] list of [buildTraceDrilldown]: the spans sorted by
    start time. *)
Definition waterfall (rows : list spanCols) : list waterfallEntry :=
  List.map waterfallOf
    (sortBy (fun a b => negb (Before (StartTime b) (StartTime a))) (List.map newTraceSpan rows)).

(** *** Error chains *)

(** The index [byID] of [buildTraceDrilldown]: the spans by id, a later
    span replacing an earlier one of the same id; spans without an id
    are left out. *)
Definition byIDOf (spans : list traceSpan) : gmap string traceSpan :=
  fold_left (fun byID span =>
               if isEmpty (SpanID span) then byID else <[SpanID span := span]> byID)
    spans ∅.

(** [fmt.Sprintf("%s(%s)", cur.Service, cur.SpanID)]. *)
Definition pathLabel (span : traceSpan) : string :=
  Service span ++ "(" ++ SpanID span ++ ")".

(** [buildErrorPath]: the loop climbs from [cur] to the parent that
    [byID] gives, putting each label in front of [path], until a span
    has no parent id or its parent is unknown.  [fuel] bounds the number
    of iterations: [None] when the bound is reached. *)
Fixpoint buildErrorPath (fuel : nat) (byID : gmap string traceSpan) (cur : traceSpan)
    (path : list string) : option (list string) :=
  match fuel with
  | O => None
  | S fuel' =>
      let path := pathLabel cur :: path in
      if isEmpty (ParentSpanID cur) then Some path
      else
        match byID !! ParentSpanID cur with
        | None => Some path
        | Some next => buildErrorPath fuel' byID next path
        end
  end.

(** The [error_chains] of [buildTraceDrilldown]: for every span marked
    as an error, its id and the path from its topmost ancestor. *)
Definition errorChains (fuel : nat) (spans : list traceSpan)
  : option (list (string * list string)) :=
  fold_left (fun acc span =>
               match acc with
               | None => None
               | Some chains =>
                   if IsError span then
                     match buildErrorPath fuel (byIDOf spans) span [] with
                     | None => None
                     | Some path => Some (chains ++ [(SpanID span, path)])
                     end
                   else Some chains
               end) spans (Some []).

(** *** Critical path of the drill-down

    [buildTraceDrilldown] holds the spans by pointer and links them
    through the slices [Children]; a pointer is embedded as the index of
    the span in [spans]. *)

Definition zeroTraceSpan : traceSpan :=
  mkTraceSpan "" "" "" "" 0 0 0 0 false 0 0%float.

Definition spanAt (spans : list traceSpan) (i : nat) : traceSpan :=
  nth i spans zeroTraceSpan.

(** The index [byID], holding pointers. *)
Definition byIdxOf (spans : list traceSpan) : gmap string nat :=
  fold_left (fun byID i =>
               if isEmpty (SpanID (spanAt spans i)) then byID
               else <[SpanID (spanAt spans i) := i]> byID)
    (seq 0 (length spans)) ∅.

(** The span that the second loop of [buildTraceDrilldown] finds as the
    parent of the span [i]: [byID[span.ParentSpanID]] when the parent id
    is not empty. *)
Definition parentOf (spans : list traceSpan) (i : nat) : option nat :=
  if isEmpty (ParentSpanID (spanAt spans i)) then None
  else byIdxOf spans !! ParentSpanID (spanAt spans i).

(** The second loop of [buildTraceDrilldown]: every span is appended to
    the children of its parent, or to the roots. *)
Definition attach (spans : list traceSpan) : list nat * gmap nat (list nat) :=
  fold_left (fun acc i =>
               match parentOf spans i with
               | Some parent =>
                   (fst acc, <[parent := default [] (snd acc !! parent) ++ [i]]> (snd acc))
               | None => (fst acc ++ [i], snd acc)
               end)
    (seq 0 (length spans)) ([], ∅).

(** The first loop of [markCriticalPath]: the root that starts first,
    the earlier of two that start together. *)
Definition earliestRoot (spans : list traceSpan) (first : nat) (roots : list nat) : nat :=
  fold_left (fun root r =>
               if Before (StartTime (spanAt spans r)) (StartTime (spanAt spans root))
               then r else root) roots first.

(** The inner loop of [markCriticalPath]: the child that ends last. *)
Definition latestChild (spans : list traceSpan) (first : nat) (others : list nat) : nat :=
  fold_left (fun next c =>
               if After (EndTime (spanAt spans c)) (EndTime (spanAt spans next))
               then c else next) others first.

(** The outer loop of [markCriticalPath], from the span [curr];
    [children] gives the slice [Children] of every span, and [fuel]
    bounds the number of iterations. *)
Fixpoint descend (fuel : nat) (spans : list traceSpan) (children : gmap nat (list nat))
    (curr : nat) (path : list string) : option (list string) :=
  match fuel with
  | O => None
  | S fuel' =>
      let path := path ++ [SpanID (spanAt spans curr)] in
      match default [] (children !! curr) with
      | [] => Some path
      | first :: others => descend fuel' spans children (latestChild spans first others) path
      end
  end.

Definition markCriticalPath (fuel : nat) (spans : list traceSpan) (roots : list nat)
    (children : gmap nat (list nat)) : option (list string) :=
  match roots with
  | [] => Some []
  | first :: _ => descend fuel spans children (earliestRoot spans first roots) []
  end.

(** *** [GET /v1/traces/{id}] *)

(** The two queries of [TraceByID], by the trace id they interpolate. *)
Inductive SQL : Type :=
| TraceSQL (id : string)
| SpanSQL (id : string).

Inductive ResponseBody (Row : Type) : Type :=
| TextBody (msg : string)
| TraceBody (trace : option Row) (spans : list Row)
| DrilldownBody (trace : option Row) (waterfall : list waterfallEntry).
Arguments TextBody {Row} msg.
Arguments TraceBody {Row} trace spans.
Arguments DrilldownBody {Row} trace waterfall.

Definition firstOrNil {Row : Type} (v : list Row) : option Row :=
  match v with
  | [] => None
  | r :: _ => Some r
  end.

Section TraceByID.
Context `{GoLib}.
Variable Row : Type.
(** The columns of a row of the store. *)
Variable columns : Row -> spanCols.
(** [Client.Query]. *)
Variable Query : SQL -> result (list Row).

(** [Handler.TraceByID] on the request path: the status, the body, and
    the queries sent to the store, in order. *)
Definition TraceByID (path : string) : Z * ResponseBody Row * list SQL :=
  let tail := TrimByte (TrimPrefix path "/v1/traces/") "/" in
  if isEmpty tail then (400, TextBody "invalid trace id", [])
  else
    let parts := SplitByte "/" tail in
    let id := sanitize (fst parts) in
    if isEmpty id then (400, TextBody "invalid trace id", [])
    else
      let mode := match snd parts with
                  | m :: _ => strings_ToLower (TrimSpace m)
                  | [] => ""
                  end in
      match Query (TraceSQL id) with
      | Err msg => (502, TextBody msg, [TraceSQL id])
      | Ok traceRows =>
          match Query (SpanSQL id) with
          | Err msg => (502, TextBody msg, [TraceSQL id; SpanSQL id])
          | Ok spanRows =>
              if String.eqb mode "waterfall" || String.eqb mode "drilldown"
              then (200, DrilldownBody (firstOrNil traceRows)
                           (waterfall (List.map columns spanRows)),
                    [TraceSQL id; SpanSQL id])
              else (200, TraceBody (firstOrNil traceRows) spanRows,
                    [TraceSQL id; SpanSQL id])
          end
      end.

End TraceByID.

End Handlers.

(** ** A concrete environment

    An instance of the library functions on which the definitions above
    can be run: case mapping of ASCII letters, a parser that knows the
    three timestamps used in the examples, and the decimal numeral of
    the millisecond count as the text of an instant. *)

Module Demo.

Import GoStrings GoTime Model.

(** 2024-01-01T00:00:00Z, 738885 days after the zero instant. *)
Definition day0 : Time := 738885 * 24 * Hour.

Definition parse (s : string) : result Time :=
  if String.eqb s "2024-01-01T09:00:00Z" then Ok (day0 + 9 * Hour)
  else if String.eqb s "2024-01-01T10:00:00Z" then Ok (day0 + 10 * Hour)
  else if String.eqb s "2024-01-01T12:00:00Z" then Ok (day0 + 12 * Hour)
  else Err "parsing time: cannot parse".

#[export] Instance lib : GoLib := {|
  time_Parse := parse;
  strings_ToLower := mapString asciiLower;
  strings_ToUpper := mapString asciiUpper;
  CHText := pretty
|}.

(** The event that [json.Unmarshal] decodes from an object with the one
    field [correlationId], or with no field at all. *)
Definition emptyEvent (cid : string) : IngestEvent.t :=
  IngestEvent.Build "" "" "" "" "" "" "" cid "" "" "" "" "" 0 0 "" None.

(** A double quote. *)
Definition quote : string := String (ascii_of_N 34) EmptyString.

(** The text [{"correlationId":"A"}]. *)
Definition eventA : string :=
  "{" ++ quote ++ "correlationId" ++ quote ++ ":" ++ quote ++ "A" ++ quote ++ "}".

(** A decoder that knows two objects: [{"correlationId":"A"}], which it
    decodes to the event of correlation id ["A"] whose other fields are
    all zero, and [{}], which it decodes to the event whose fields are
    all zero.  It refuses every other text. *)
#[export] Instance json : Server.GoJSON := {|
  Server.json_Unmarshal_array := fun _ => Err "unexpected end of JSON input";
  Server.json_Unmarshal_event := fun s =>
    if String.eqb s eventA then Ok (emptyEvent "A")
    else if String.eqb s "{}" then Ok (emptyEvent "")
    else Err "invalid character"
|}.

(** A raw-log row with the fields that the reconstructor reads. *)
Definition row (service traceID spanID parentSpanID event : string)
    (statusCode durationMs : Z) : RawLogRow.t :=
  RawLogRow.Build 0 service "prod" "host-1" "1.0.0" "INFO" "" traceID spanID parentSpanID
    event "" "" statusCode durationMs ∅ "".

(** A schedule for the flush of the one trace ["A"] with spans ["s1"]
    and ["s2"], [minutes] minutes after [day0]. *)
Definition schedule (minutes : Z) (ord : list string) : Reconstruct.Schedule :=
  Reconstruct.mkSchedule (day0 + minutes * 60000 * Millisecond) (fun _ _ => day0)
    (fun _ _ => day0 + minutes * 60000 * Millisecond)
    ["A"] (fun _ => ord) (fun _ => ord) (fun _ => ord) (fun _ => ord) [].

Definition window : Duration := 120000 * Millisecond.

(** The trace ["A"] with the one span ["s1"], from [day0] to 100 ms
    later, as the reconstructor holds it. *)
Definition spanS1 : Reconstruct.spanState :=
  Reconstruct.mkSpanState "A" "s1" "" "svc-a" "prod" "host-1" "1.0.0" "unknown-op"
    day0 (day0 + 100 * Millisecond) 100 0 false "explicit".

Definition traceA : Reconstruct.traceState :=
  Reconstruct.mkTraceState "A" "prod" (day0 + 100 * Millisecond) {["s1" := spanS1]}.

Definition reconA : Reconstruct.Reconstructor :=
  Reconstruct.mkReconstructor {["A" := traceA]} window.

(** [strconv.Atoi] where [int] has 64 bits: an optional sign and
    decimal digits, within the range of [int64]. *)
Definition digitOf (c : ascii) : option Z :=
  let b := byte c in
  if ((48 <=? b)%N && (b <=? 57)%N) then Some (Z.of_N b - 48) else None.

Fixpoint digitsValue (s : string) (acc : Z) : option Z :=
  match s with
  | EmptyString => Some acc
  | String c s' =>
      match digitOf c with
      | Some d => digitsValue s' (10 * acc + d)
      | None => None
      end
  end.

Definition Atoi (s : string) : result Z :=
  let '(neg, body) :=
    match s with
    | String "+" s' => (false, s')
    | String "-" s' => (true, s')
    | _ => (false, s)
    end in
  match body with
  | EmptyString => Err "invalid syntax"
  | _ =>
      match digitsValue body 0 with
      | None => Err "invalid syntax"
      | Some n =>
          let v := if neg then - n else n in
          if (- 2 ^ 63 <=? v) && (v <=? 2 ^ 63 - 1) then Ok v else Err "value out of range"
      end
  end.

(** [n] lines that no decoder accepts. *)
Fixpoint badLines (n : nat) : string :=
  match n with
  | O => ""
  | S O => "x"
  | S n' => "x" ++ String LF (badLines n')
  end.

End Demo.

(** ** Statements

    The specification's wording, where a property compares it with the
    code, and the conditions under which the arrival order of a batch
    cannot show. *)

Module Spec.

(** "blocking_ratio = wait/duration (0 when duration=0)". *)
Definition blocking_ratio (wait duration : Z) : float :=
  if duration =? 0 then 0%float
  else PrimFloat.div (GoMath.of_Z wait) (GoMath.of_Z duration).

(** The events of a batch, each with its parsed timestamp. *)
Definition event : Type := (Model.RawLogRow.t * Z)%type.

Definition addEvent `{GoLib} (tr : gmap string Reconstruct.traceState) (e : event)
  : gmap string Reconstruct.traceState :=
  Reconstruct.addRow tr (fst e) (snd e).

(** Two values of a field that a later event fills only when it is
    still empty agree when they are equal or one of them is empty. *)
Definition agreeNonEmpty (a b : string) : bool :=
  GoStrings.isEmpty a || GoStrings.isEmpty b || String.eqb a b.

(** An event sets [durationMs] when it is not a start event and carries
    a positive duration. *)
Definition setsDuration (row : Model.RawLogRow.t) : bool :=
  negb (String.eqb (Model.RawLogRow.Event row) "start") && (0 <? Model.RawLogRow.DurationMs row).

(** Two events agree on everything that the fold resolves by arrival
    order: the env within a trace and, within a span, the parent, the
    service, the host, the version, the operation, the nonzero status
    code and the duration that is set. *)
Definition agree `{GoLib} (e1 e2 : event) : bool :=
  let r1 := fst e1 in
  let r2 := fst e2 in
  if negb (String.eqb (Model.RawLogRow.TraceID r1) (Model.RawLogRow.TraceID r2)) then true
  else
    String.eqb (Model.RawLogRow.Env r1) (Model.RawLogRow.Env r2)
    && (if negb (String.eqb (Reconstruct.resolveSpanID r1 (snd e1))
                   (Reconstruct.resolveSpanID r2 (snd e2)))
        then true
        else
          agreeNonEmpty (Model.RawLogRow.ParentSpanID r1) (Model.RawLogRow.ParentSpanID r2)
          && agreeNonEmpty (Model.RawLogRow.Service r1) (Model.RawLogRow.Service r2)
          && agreeNonEmpty (Model.RawLogRow.Host r1) (Model.RawLogRow.Host r2)
          && agreeNonEmpty (Model.RawLogRow.Version r1) (Model.RawLogRow.Version r2)
          && String.eqb
               (Reconstruct.chooseOperation (Model.RawLogRow.Route r1) (Model.RawLogRow.Message r1))
               (Reconstruct.chooseOperation (Model.RawLogRow.Route r2) (Model.RawLogRow.Message r2))
          && (negb (0 <? Model.RawLogRow.StatusCode r1) || negb (0 <? Model.RawLogRow.StatusCode r2)
              || (Model.RawLogRow.StatusCode r1 =? Model.RawLogRow.StatusCode r2))
          && (negb (setsDuration r1) || negb (setsDuration r2)
              || (Model.RawLogRow.DurationMs r1 =? Model.RawLogRow.DurationMs r2))).

(** The instants that an event offers as start or end of its span are
    not the zero instant, which the fold reads as "not set". *)
Definition timingDefined (e : event) : bool :=
  let row := fst e in
  let ts := snd e in
  if String.eqb (Model.RawLogRow.Event row) "start" then negb (GoTime.IsZero ts)
  else if String.eqb (Model.RawLogRow.Event row) "end" then negb (GoTime.IsZero ts)
  else if 0 <? Model.RawLogRow.DurationMs row then
    negb (GoTime.IsZero ts)
    && negb (GoTime.IsZero
               (GoTime.Add ts (- Reconstruct.msDuration (Model.RawLogRow.DurationMs row))))
  else true.

(** A batch in which the arrival order cannot show. *)
Definition orderFree `{GoLib} (batch : list event) : bool :=
  forallb (fun e1 => timingDefined e1 && forallb (agree e1) batch) batch.

End Spec.

(** ** The fold of an event, field by field

    What [foldSpan] and [addRow] compute, written as one update per
    field; the lemmas of the section on the arrival order relate these
    forms to the code. *)

Definition fillEmpty (v old : string) : string :=
  if GoStrings.isEmpty old then v else old.

Definition minInstant (a old : Z) : Z :=
  if GoTime.IsZero old || GoTime.Before a old then a else old.

Definition maxInstant (a old : Z) : Z :=
  if GoTime.IsZero old || GoTime.After a old then a else old.

Definition nextParent (row : Model.RawLogRow.t) (old : string) : string :=
  if negb (GoStrings.isEmpty (Model.RawLogRow.ParentSpanID row))
  then Model.RawLogRow.ParentSpanID row else old.

Definition nextStart (row : Model.RawLogRow.t) (ts old : Z) : Z :=
  if String.eqb (Model.RawLogRow.Event row) "start" then minInstant ts old
  else if String.eqb (Model.RawLogRow.Event row) "end" then old
  else if 0 <? Model.RawLogRow.DurationMs row
       then minInstant (GoTime.Add ts (- Reconstruct.msDuration (Model.RawLogRow.DurationMs row))) old
       else old.

Definition nextEnd (row : Model.RawLogRow.t) (ts old : Z) : Z :=
  if String.eqb (Model.RawLogRow.Event row) "start" then old
  else if String.eqb (Model.RawLogRow.Event row) "end" then maxInstant ts old
  else if 0 <? Model.RawLogRow.DurationMs row then maxInstant ts old
       else old.

Definition nextDuration (row : Model.RawLogRow.t) (old : Z) : Z :=
  if Spec.setsDuration row then Model.RawLogRow.DurationMs row else old.

Definition nextStatus (row : Model.RawLogRow.t) (old : Z) : Z :=
  if 0 <? Model.RawLogRow.StatusCode row then Model.RawLogRow.StatusCode row else old.

Definition nextError (row : Model.RawLogRow.t) (old : bool) : bool :=
  if 400 <=? Model.RawLogRow.StatusCode row then true else old.

Ltac span_projections :=
  cbn [Reconstruct.parentSpanID Reconstruct.service Reconstruct.version Reconstruct.host
       Reconstruct.operation Reconstruct.startTs Reconstruct.endTs Reconstruct.durationMs
       Reconstruct.statusCode Reconstruct.isError Reconstruct.source Reconstruct.traceID
       Reconstruct.spanID Reconstruct.env].

(** The successive assignments of [foldSpan]. *)
Definition foldIdentity (row : Model.RawLogRow.t) (s : Reconstruct.spanState)
  : Reconstruct.spanState :=
  let s := if negb (GoStrings.isEmpty (Model.RawLogRow.ParentSpanID row))
           then Reconstruct.set_parentSpanID (Model.RawLogRow.ParentSpanID row) s else s in
  let s := if GoStrings.isEmpty (Reconstruct.service s)
           then Reconstruct.set_service (Model.RawLogRow.Service row) s else s in
  let s := if GoStrings.isEmpty (Reconstruct.version s)
           then Reconstruct.set_version (Model.RawLogRow.Version row) s else s in
  let s := if GoStrings.isEmpty (Reconstruct.host s)
           then Reconstruct.set_host (Model.RawLogRow.Host row) s else s in
  if GoStrings.isEmpty (Reconstruct.operation s)
  then Reconstruct.set_operation
         (Reconstruct.chooseOperation (Model.RawLogRow.Route row) (Model.RawLogRow.Message row)) s
  else s.

Definition foldStatus (row : Model.RawLogRow.t) (s : Reconstruct.spanState)
  : Reconstruct.spanState :=
  let s := if 400 <=? Model.RawLogRow.StatusCode row
           then Reconstruct.set_statusCode (Model.RawLogRow.StatusCode row)
                  (Reconstruct.set_isError true s) else s in
  if 0 <? Model.RawLogRow.StatusCode row
  then Reconstruct.set_statusCode (Model.RawLogRow.StatusCode row) s else s.

Ltac case_Z :=
  repeat match goal with
         | |- context [(?x =? ?y)%Z] => destruct (Z.eqb_spec x y)
         | |- context [(?x <? ?y)%Z] => destruct (Z.ltb_spec x y)
         end;
  cbn [orb andb negb]; try reflexivity; try lia.

(** What [agree] requires of two events of one span. *)
Definition agreeInSpan (r1 r2 : Model.RawLogRow.t) : bool :=
  Spec.agreeNonEmpty (Model.RawLogRow.ParentSpanID r1) (Model.RawLogRow.ParentSpanID r2)
  && Spec.agreeNonEmpty (Model.RawLogRow.Service r1) (Model.RawLogRow.Service r2)
  && Spec.agreeNonEmpty (Model.RawLogRow.Host r1) (Model.RawLogRow.Host r2)
  && Spec.agreeNonEmpty (Model.RawLogRow.Version r1) (Model.RawLogRow.Version r2)
  && String.eqb
       (Reconstruct.chooseOperation (Model.RawLogRow.Route r1) (Model.RawLogRow.Message r1))
       (Reconstruct.chooseOperation (Model.RawLogRow.Route r2) (Model.RawLogRow.Message r2))
  && (negb (0 <? Model.RawLogRow.StatusCode r1) || negb (0 <? Model.RawLogRow.StatusCode r2)
      || (Model.RawLogRow.StatusCode r1 =? Model.RawLogRow.StatusCode r2))
  && (negb (Spec.setsDuration r1) || negb (Spec.setsDuration r2)
      || (Model.RawLogRow.DurationMs r1 =? Model.RawLogRow.DurationMs r2)).

Definition blankSpan (tid sid en : string) : Reconstruct.spanState :=
  Reconstruct.mkSpanState tid sid "" "" en "" "" "" 0 0 0 0 false "explicit".

Definition newTrace (row : Model.RawLogRow.t) : Reconstruct.traceState :=
  Reconstruct.mkTraceState (Model.RawLogRow.TraceID row) (Model.RawLogRow.Env row) 0 ∅.

Definition stepTrace `{GoLib} (e : Spec.event) (t : Reconstruct.traceState)
  : Reconstruct.traceState :=
  let sid := Reconstruct.resolveSpanID (fst e) (snd e) in
  Reconstruct.mkTraceState (Reconstruct.t_id t) (Reconstruct.t_env t)
    (if GoTime.After (snd e) (Reconstruct.t_updatedAt t) then snd e
     else Reconstruct.t_updatedAt t)
    (<[sid := Reconstruct.foldSpan (fst e) (snd e)
                (default (Reconstruct.newSpan (fst e) sid) (Reconstruct.t_spans t !! sid))]>
       (Reconstruct.t_spans t)).

(** ** The resolution of the fields of a span

    The rules by which the fold of [Add] resolves the fields of a span
    from the events of the span, taken in the order of their arrival. *)

(** The events of a batch that belong to the span [sid] of the trace
    [tid], in the order of their arrival. *)
Definition spanEvents `{GoLib} (tid sid : string) (batch : list Spec.event) : list Spec.event :=
  List.filter (fun e => String.eqb (Model.RawLogRow.TraceID (fst e)) tid
                        && String.eqb (Reconstruct.resolveSpanID (fst e) (snd e)) sid) batch.

(** The instants that an event offers as the start and as the end of its
    span: a start event offers its time as the start, an end event its
    time as the end, and any other event that carries a duration offers
    its time as the end and its time less the duration as the start. *)
Definition offeredStart (e : Spec.event) : list Z :=
  if String.eqb (Model.RawLogRow.Event (fst e)) "start" then [snd e]
  else if String.eqb (Model.RawLogRow.Event (fst e)) "end" then []
  else if 0 <? Model.RawLogRow.DurationMs (fst e)
       then [GoTime.Add (snd e) (- Reconstruct.msDuration (Model.RawLogRow.DurationMs (fst e)))]
       else [].

Definition offeredEnd (e : Spec.event) : list Z :=
  if String.eqb (Model.RawLogRow.Event (fst e)) "start" then []
  else if String.eqb (Model.RawLogRow.Event (fst e)) "end" then [snd e]
  else if 0 <? Model.RawLogRow.DurationMs (fst e) then [snd e]
       else [].

(** The instants of a list that are set (the zero instant reads as "not
    set"), and the texts of a list that are not empty. *)
Definition instantsSet (l : list Z) : list Z :=
  List.filter (fun a => negb (GoTime.IsZero a)) l.

Definition nonEmpty (l : list string) : list string :=
  List.filter (fun v => negb (GoStrings.isEmpty v)) l.

(** [v] is the earliest (the latest) of the instants of [l] that are
    set, and the zero instant when none is. *)
Definition earliestOf (l : list Z) (v : Z) : Prop :=
  match instantsSet l with
  | [] => v = 0
  | _ => In v (instantsSet l) /\ forall c, In c (instantsSet l) -> v <= c
  end.

Definition latestOf (l : list Z) (v : Z) : Prop :=
  match instantsSet l with
  | [] => v = 0
  | _ => In v (instantsSet l) /\ forall c, In c (instantsSet l) -> c <= v
  end.

(** The span [s] is resolved from the state [prior] and the events [es]
    of the span, in the order of their arrival: [start_ts] by min and
    [end_ts] by max over the instants that are offered; [is_error] is
    sticky; [status_code] and [duration_ms] are the latest that an event
    sets, and [parent_span_id] the latest that is not empty (the last
    writer wins); service, host, version and operation are the first
    that is not empty (the first writer wins); the ids, the env and the
    provenance stay. *)
Definition resolved (prior : Reconstruct.spanState) (es : list Spec.event)
    (s : Reconstruct.spanState) : Prop :=
  Reconstruct.traceID s = Reconstruct.traceID prior
  /\ Reconstruct.spanID s = Reconstruct.spanID prior
  /\ Reconstruct.env s = Reconstruct.env prior
  /\ Reconstruct.source s = Reconstruct.source prior
  /\ earliestOf (Reconstruct.startTs prior :: flat_map offeredStart es) (Reconstruct.startTs s)
  /\ latestOf (Reconstruct.endTs prior :: flat_map offeredEnd es) (Reconstruct.endTs s)
  /\ Reconstruct.isError s
     = Reconstruct.isError prior
       || existsb (fun e => 400 <=? Model.RawLogRow.StatusCode (fst e)) es
  /\ Reconstruct.statusCode s
     = List.last (List.filter (Z.ltb 0) (List.map (fun e => Model.RawLogRow.StatusCode (fst e)) es))
         (Reconstruct.statusCode prior)
  /\ Reconstruct.durationMs s
     = List.last (List.map (fun e => Model.RawLogRow.DurationMs (fst e))
                    (List.filter (fun e => Spec.setsDuration (fst e)) es))
         (Reconstruct.durationMs prior)
  /\ Reconstruct.parentSpanID s
     = List.last (nonEmpty (List.map (fun e => Model.RawLogRow.ParentSpanID (fst e)) es))
         (Reconstruct.parentSpanID prior)
  /\ Reconstruct.service s
     = List.hd "" (nonEmpty (Reconstruct.service prior
                             :: List.map (fun e => Model.RawLogRow.Service (fst e)) es))
  /\ Reconstruct.host s
     = List.hd "" (nonEmpty (Reconstruct.host prior
                             :: List.map (fun e => Model.RawLogRow.Host (fst e)) es))
  /\ Reconstruct.version s
     = List.hd "" (nonEmpty (Reconstruct.version prior
                             :: List.map (fun e => Model.RawLogRow.Version (fst e)) es))
  /\ Reconstruct.operation s
     = List.hd "" (nonEmpty (Reconstruct.operation prior
                             :: List.map (fun e => Reconstruct.chooseOperation
                                                     (Model.RawLogRow.Route (fst e))
                                                     (Model.RawLogRow.Message (fst e))) es)).

(** The span [sid] of the trace [tid] in a map of traces. *)
Definition spanOf (tr : gmap string Reconstruct.traceState) (tid sid : string)
  : option Reconstruct.spanState :=
  match tr !! tid with
  | Some t => Reconstruct.t_spans t !! sid
  | None => None
  end.

(** What the events of a batch are resolved from: the state of the span
    before the batch, or, for a span that the batch creates, a span
    with the ids of the span, the env of its first event [e0], the
    provenance [explicit] and no other field set. *)
Definition priorSpan (tr : gmap string Reconstruct.traceState) (tid sid : string)
    (e0 : Spec.event) : Reconstruct.spanState :=
  default (blankSpan tid sid (Model.RawLogRow.Env (fst e0))) (spanOf tr tid sid).

(** Every span of [tr'] is resolved from [tr] and the events of [batch]:
    a span without an event in the batch is as before, and a span with
    events is resolved from them by the rules. *)
Definition resolvedFrom `{GoLib} (tr : gmap string Reconstruct.traceState)
    (batch : list Spec.event) (tr' : gmap string Reconstruct.traceState) : Prop :=
  forall tid sid,
    match spanEvents tid sid batch with
    | [] => spanOf tr' tid sid = spanOf tr tid sid
    | e0 :: es =>
        exists s, spanOf tr' tid sid = Some s
                  /\ resolved (priorSpan tr tid sid e0) (e0 :: es) s
    end.

(** ** The state of the search of the critical path *)

(** The spans that the search has neither finished nor entered. *)
Definition dfsTodo (spans : gmap string Model.SpanRow.t) (st : Reconstruct.dfsState)
  : gset string :=
  filter (fun k => fst st !! k = None /\ default false (snd st !! k) = false) (dom spans).

(** What a call of [dfs] leaves of the state it is given: the memo only
    grows, and the marks of the spans being visited are as before. *)
Definition dfsExtends (st st' : Reconstruct.dfsState) : Prop :=
  (forall k, is_Some (fst st !! k) -> is_Some (fst st' !! k))
  /\ (forall k, default false (snd st' !! k) = default false (snd st !! k)).

(** ** Invariants of the reconstructor

    Every span of a trace is stored under its own id, carries the id of
    the trace, and has the provenance that [Add] gives it; every trace
    is stored under its own id. *)

Definition spanKeyed (tid : string) (spans : gmap string Reconstruct.spanState) : Prop :=
  forall k s, spans !! k = Some s ->
    Reconstruct.spanID s = k /\ Reconstruct.traceID s = tid
    /\ Reconstruct.source s = "explicit".

Definition wellKeyed (tr : gmap string Reconstruct.traceState) : Prop :=
  forall k t, tr !! k = Some t ->
    Reconstruct.t_id t = k /\ spanKeyed k (Reconstruct.t_spans t).

Definition spanKept (s s' : Reconstruct.spanState) : Prop :=
  Reconstruct.traceID s' = Reconstruct.traceID s
  /\ Reconstruct.spanID s' = Reconstruct.spanID s
  /\ Reconstruct.env s' = Reconstruct.env s
  /\ Reconstruct.source s' = Reconstruct.source s
  /\ (Reconstruct.isError s = true -> Reconstruct.isError s' = true).

Definition traceKept (t t' : Reconstruct.traceState) : Prop :=
  Reconstruct.t_id t' = Reconstruct.t_id t
  /\ Reconstruct.t_env t' = Reconstruct.t_env t
  /\ Reconstruct.t_updatedAt t <= Reconstruct.t_updatedAt t'
  /\ forall sid s, Reconstruct.t_spans t !! sid = Some s ->
       exists s', Reconstruct.t_spans t' !! sid = Some s' /\ spanKept s s'.

(** What the fold of one event leaves in the map. *)
Definition recorded `{GoLib} (e : Spec.event) (tr : gmap string Reconstruct.traceState) : Prop :=
  exists t s,
    tr !! Model.RawLogRow.TraceID (fst e) = Some t
    /\ Reconstruct.t_spans t !! Reconstruct.resolveSpanID (fst e) (snd e) = Some s
    /\ snd e <= Reconstruct.t_updatedAt t
    /\ (400 <= Model.RawLogRow.StatusCode (fst e) -> Reconstruct.isError s = true).

Definition clearBounds (s : Reconstruct.spanState) : Reconstruct.spanState :=
  Reconstruct.set_endTs 0 (Reconstruct.set_startTs 0 s).

(** ** Buckets of dependency edges *)

Definition edgeCaller (k : Reconstruct.edgeKey) : string :=
  let '(_, _, callerService, _, _, _) := k in callerService.

Definition edgeCallee (k : Reconstruct.edgeKey) : string :=
  let '(_, _, _, calleeService, _, _) := k in calleeService.

(** What every bucket built by [accumulateEdges] satisfies: it holds at
    least one call, joins two different services, and counts no more
    failed calls than calls. *)
Definition edgesOK (agg : gmap Reconstruct.edgeKey Reconstruct.edgeState) : Prop :=
  forall k v, agg !! k = Some v ->
    Reconstruct.durations v <> []
    /\ edgeCaller k <> edgeCallee k
    /\ 0 <= Reconstruct.errorCalls v <= Z.of_nat (length (Reconstruct.durations v)).

(** The row that [collapseEdgeAgg] emits for the bucket [k] with state
    [v]: the services of the bucket, the number of calls and of failed
    calls, the largest duration, and two of the durations as
    percentiles. *)
Definition edgeRowOf (k : Reconstruct.edgeKey) (v : Reconstruct.edgeState)
    (row : Model.DependencyEdgeRow.t) : Prop :=
  Model.DependencyEdgeRow.CallerService row = edgeCaller k
  /\ Model.DependencyEdgeRow.CalleeService row = edgeCallee k
  /\ Model.DependencyEdgeRow.Calls row = Z.of_nat (length (Reconstruct.durations v))
  /\ Model.DependencyEdgeRow.ErrorCalls row = Reconstruct.errorCalls v
  /\ In (Model.DependencyEdgeRow.MaxMs row) (Reconstruct.durations v)
  /\ (forall d, In d (Reconstruct.durations v) -> d <= Model.DependencyEdgeRow.MaxMs row)
  /\ (exists d, In d (Reconstruct.durations v)
                /\ Model.DependencyEdgeRow.P50Ms row = Reconstruct.toFloat32 (GoMath.of_Z d))
  /\ (exists d, In d (Reconstruct.durations v)
                /\ Model.DependencyEdgeRow.P95Ms row = Reconstruct.toFloat32 (GoMath.of_Z d)).

(** The edge rows among a sequence of inserts. *)
Definition insertedEdges {A : Type} (log : list (Clickhouse.Insert * A))
  : list Model.DependencyEdgeRow.t :=
  flat_map (fun c => match fst c with Clickhouse.InsertEdges rows => rows | _ => [] end) log.

(** ** The critical path of a forest *)

(** The largest of a list of scores, as the loops of [criticalPath]
    compute it: from 0, replaced by every score that is larger. *)
Definition maxFrom (best : Z) (scores : list Z) : Z :=
  fold_left (fun best v => if best <? v then v else best) scores best.

(** The duration of the span [id] plus the largest such sum among its
    children, to the depth [n], with the wrap-around of [uint32]: what
    [dfs] computes when it memoizes nothing and meets no span twice. *)
Fixpoint longest (spans : gmap string Model.SpanRow.t) (children : gmap string (list string))
    (n : nat) (id : string) : Z :=
  match n with
  | O => 0
  | S n' =>
      wrap32 (Model.SpanRow.DurationMs (default Model.SpanRow.zero (spans !! id))
              + maxFrom 0 (List.map (longest spans children n') (default [] (children !! id))))
  end.

(** The spans from which a loop of [criticalPath] starts a search: the
    keys of [ord] that are spans and, in the first loop, have no parent
    among the spans. *)
Definition seedsOf (spans : gmap string Model.SpanRow.t) (rootsOnly : bool) (ord : list string)
  : list string :=
  List.filter
    (fun id =>
       match spans !! id with
       | None => false
       | Some s =>
           negb (rootsOnly && negb (GoStrings.isEmpty (Model.SpanRow.ParentSpanID s))
                 && bool_decide (is_Some (spans !! Model.SpanRow.ParentSpanID s)))
       end) ord.

(** The state of the search on a forest in which [rank] decreases from
    parent to child: the memo holds the scores of [longest], and the
    spans marked as being visited rank [r] or higher. *)
Definition memoOK (spans : gmap string Model.SpanRow.t) (children : gmap string (list string))
    (rank : string -> nat) (st : Reconstruct.dfsState) : Prop :=
  forall k v, fst st !! k = Some v -> v = longest spans children (S (rank k)) k.

Definition marksFrom (rank : string -> nat) (r : nat) (st : Reconstruct.dfsState) : Prop :=
  forall k, default false (snd st !! k) = true -> (r <= rank k)%nat.

Definition sameMarks (st st' : Reconstruct.dfsState) : Prop :=
  forall k, default false (snd st' !! k) = default false (snd st !! k).

Definition noMarks (st : Reconstruct.dfsState) : Prop :=
  forall k, default false (snd st !! k) = false.

(** A chain of spans from [id] downward, each the child of the one
    before, and the sum of the durations along it. *)
Inductive chain (children : gmap string (list string)) : string -> list string -> Prop :=
| chain_end (id : string) : chain children id [id]
| chain_step (id : string) (cs : list string) (c : string) (rest : list string) :
    children !! id = Some cs -> In c cs -> chain children c rest ->
    chain children id (id :: rest).

Definition chainSum (spans : gmap string Model.SpanRow.t) (l : list string) : Z :=
  fold_right (fun id acc =>
                Model.SpanRow.DurationMs (default Model.SpanRow.zero (spans !! id)) + acc) 0 l.

(** ** What a flush emits *)

(** A span row that belongs to a trace of [r] that has aged at [now],
    and to one of its spans. *)
Definition fromAgedTrace (now : Z) (r : Reconstruct.Reconstructor) (row : Model.SpanRow.t) : Prop :=
  exists t,
    Reconstruct.traces r !! Model.SpanRow.TraceID row = Some t
    /\ Reconstruct.window r <= GoTime.Sub now (Reconstruct.t_updatedAt t)
    /\ is_Some (Reconstruct.t_spans t !! Model.SpanRow.SpanID row).

(** A trace row that rolls up a trace of [r] that has aged at [now]. *)
Definition rollsUpAgedTrace (now : Z) (r : Reconstruct.Reconstructor) (row : Model.TraceRow.t)
  : Prop :=
  exists t,
    Reconstruct.traces r !! Model.TraceRow.TraceID row = Some t
    /\ Reconstruct.window r <= GoTime.Sub now (Reconstruct.t_updatedAt t)
    /\ Model.TraceRow.Env row = Reconstruct.t_env t.

(** A span row whose two timestamps [parseCHTime] reads. *)
Definition rowParses (s : Model.SpanRow.t) : Prop :=
  Reconstruct.chParses (Model.SpanRow.StartTS s) = true
  /\ Reconstruct.chParses (Model.SpanRow.EndTS s) = true.

(** The bounds and the root service of a rollup over the spans
    [seen], whose timestamps parse. *)
Definition rollupBounds (a : Reconstruct.rollup) (seen : list Model.SpanRow.t) : Prop :=
  (forall s, In s seen ->
     Reconstruct.ru_start a <= Model.SpanRow.StartTS s * 1000000
     /\ Model.SpanRow.EndTS s * 1000000 <= Reconstruct.ru_end a)
  /\ (exists s, In s seen
        /\ Reconstruct.ru_start a = Model.SpanRow.StartTS s * 1000000
        /\ Reconstruct.ru_rootService a = Model.SpanRow.Service s)
  /\ (exists s, In s seen
        /\ Reconstruct.ru_end a = Model.SpanRow.EndTS s * 1000000).

(** The sets and the error count of a rollup over the spans [seen]. *)
Definition rollupCounts (a : Reconstruct.rollup) (seen : list Model.SpanRow.t) : Prop :=
  (forall x, x ∈ Reconstruct.ru_services a <-> In x (List.map Model.SpanRow.Service seen))
  /\ (forall x, x ∈ Reconstruct.ru_versions a <-> In x (List.map Model.SpanRow.Version seen))
  /\ Reconstruct.ru_errorCount a
     = Z.of_nat (length (List.filter (fun s => Model.SpanRow.IsError s =? 1) seen)).

(** ** The ingest endpoint *)


(** ** The read API *)

(** The trace id that a query of [TraceByID] interpolates. *)
Definition sqlID (q : Handlers.SQL) : string :=
  match q with
  | Handlers.TraceSQL id => id
  | Handlers.SpanSQL id => id
  end.

(** The ancestry of a span, topmost ancestor first: the spans that
    [buildErrorPath] visits when the parent links above the span end. *)
Inductive lineage (byID : gmap string Handlers.traceSpan)
  : Handlers.traceSpan -> list Handlers.traceSpan -> Prop :=
| lineage_top (cur : Handlers.traceSpan) :
    GoStrings.isEmpty (Handlers.ParentSpanID cur) = true
    \/ byID !! Handlers.ParentSpanID cur = None ->
    lineage byID cur [cur]
| lineage_up (cur next : Handlers.traceSpan) (above : list Handlers.traceSpan) :
    GoStrings.isEmpty (Handlers.ParentSpanID cur) = false ->
    byID !! Handlers.ParentSpanID cur = Some next ->
    lineage byID next above ->
    lineage byID cur (above ++ [cur]).

(** The spans visited so far on the way down from a root, the latest
    first: each is attached to the next, and the last is a root. *)
Fixpoint linked (par : nat -> option nat) (l : list nat) : Prop :=
  match l with
  | [] => True
  | a :: rest =>
      match rest with
      | [] => par a = None
      | b :: _ => par a = Some b /\ linked par rest
      end
  end.

(** A way down the tree of a drill-down: every step goes to a child
    that ends last among its siblings, and the way ends at a span
    without children. *)
Inductive steepest (spans : list Handlers.traceSpan) (children : gmap nat (list nat))
  : list nat -> Prop :=
| steepest_leaf (a : nat) :
    default [] (children !! a) = [] -> steepest spans children [a]
| steepest_step (a b : nat) (rest : list nat) :
    In b (default [] (children !! a)) ->
    (forall c, In c (default [] (children !! a)) ->
       Handlers.EndTime (Handlers.spanAt spans c) <= Handlers.EndTime (Handlers.spanAt spans b)) ->
    steepest spans children (b :: rest) ->
    steepest spans children (a :: b :: rest).

(** ** Bounds of [float64] values *)

(** The values of the format are multiples of [2^-1074], and the exact
    products of two of them of [2^-2148]: counted in units of
    [2^-2200], they are integers. *)
Definition fscale : Z := 2200.

(** [m * 2^e], counted in units of [2^-2200]. *)
Definition scaled (m e : Z) : Z := m * 2 ^ (e + fscale).

(** [x] is zero or positive and at most [M * 2^E]. *)
Definition below (x : spec_float) (M E : Z) : Prop :=
  match x with
  | S754_zero _ => True
  | S754_finite false m e => scaled (Z.pos m) e <= scaled M E
  | _ => False
  end.

(** Case analysis on the variables that a goal matches on. *)
Ltac split_matched_variable :=
  repeat (match goal with
          | |- context [match ?x with _ => _ end] => is_var x; destruct x
          end; try reflexivity).

(** * Properties *)

(** ** Floating-point comparisons *)

Lemma SFcompare_antisym (a b : spec_float) :
  SFcompare b a = option_map CompOpp (SFcompare a b).
Proof.
  destruct a as [sa | sa | | sa ma ea], b as [sb | sb | | sb mb eb]; simpl;
    try reflexivity; try (destruct sa; reflexivity); try (destruct sb; reflexivity);
    try (destruct sa, sb; reflexivity).
  destruct sa, sb; simpl; try reflexivity.
  - rewrite (Z.compare_antisym ea eb).
    destruct (ea ?= eb)%Z; simpl; try reflexivity.
    rewrite !Pos.compare_cont_spec; simpl.
    rewrite (Pos.compare_antisym ma mb). destruct (ma ?= mb)%positive; reflexivity.
  - rewrite (Z.compare_antisym ea eb).
    destruct (ea ?= eb)%Z; simpl; try reflexivity.
    rewrite !Pos.compare_cont_spec; simpl.
    rewrite (Pos.compare_antisym ma mb). destruct (ma ?= mb)%positive; reflexivity.
Qed.

Lemma SFleb_of_not_ltb (a b : spec_float) :
  SFltb b a = false -> SFcompare a b <> None -> SFleb a b = true.
Proof.
  unfold SFltb, SFleb. rewrite (SFcompare_antisym a b).
  destruct (SFcompare a b) as [[]|]; simpl; congruence.
Qed.

Lemma Prim2SF_not_nan (v : float) :
  PrimFloat.is_nan v = false -> Prim2SF v <> S754_nan.
Proof.
  unfold PrimFloat.is_nan. rewrite FloatAxioms.eqb_spec. intros Hn Hv.
  rewrite Hv in Hn. discriminate Hn.
Qed.

Lemma SFcompare_defined (a b : spec_float) :
  a <> S754_nan -> b <> S754_nan -> SFcompare a b <> None.
Proof.
  destruct a, b; simpl; congruence.
Qed.

Lemma leb_of_not_ltb (x y : float) :
  PrimFloat.is_nan x = false -> PrimFloat.is_nan y = false ->
  PrimFloat.ltb y x = false -> PrimFloat.leb x y = true.
Proof.
  intros Hx Hy. rewrite FloatAxioms.ltb_spec, FloatAxioms.leb_spec. intros Hlt.
  apply SFleb_of_not_ltb; [exact Hlt|].
  apply SFcompare_defined; apply Prim2SF_not_nan; assumption.
Qed.

Lemma SFcompare_refl_not_nan (a : spec_float) :
  a <> S754_nan -> SFcompare a a = Some Eq.
Proof.
  destruct a as [s | s | | s m e]; simpl; intros Ha; try congruence.
  - destruct s; reflexivity.
  - rewrite Z.compare_refl, Pos.compare_cont_refl. destruct s; reflexivity.
Qed.

Lemma Prim2SF_nan (v : float) :
  PrimFloat.is_nan v = true -> Prim2SF v = S754_nan.
Proof.
  unfold PrimFloat.is_nan. rewrite FloatAxioms.eqb_spec. unfold SFeqb. intros Hn.
  destruct (Prim2SF v) eqn:Ev; try reflexivity;
    rewrite SFcompare_refl_not_nan in Hn by congruence; discriminate Hn.
Qed.

(** ** Rounding of [float64] *)

(** Powers of two. *)
Lemma pow2_pos (n : Z) : 0 <= n -> 0 < 2 ^ n.
Proof. intros Hn. apply Z.pow_pos_nonneg; lia. Qed.

Lemma pow2_split (a b : Z) : 0 <= a -> 0 <= b -> 2 ^ (a + b) = 2 ^ a * 2 ^ b.
Proof. intros. apply Z.pow_add_r; assumption. Qed.

Lemma pow2_le (a b : Z) : 0 <= a <= b -> 2 ^ a <= 2 ^ b.
Proof. intros. apply Z.pow_le_mono_r; lia. Qed.

(** The number of binary digits of a positive number. *)
Lemma digits2_pos_bounds (p : positive) :
  2 ^ (Z.pos (digits2_pos p) - 1) <= Z.pos p < 2 ^ Z.pos (digits2_pos p).
Proof.
  induction p as [p IH|p IH|]; cbn [digits2_pos].
  - rewrite Pos2Z.inj_succ.
    replace (Z.succ (Z.pos (digits2_pos p)) - 1) with (Z.succ (Z.pos (digits2_pos p) - 1)) by lia.
    rewrite !Z.pow_succ_r by lia. lia.
  - rewrite Pos2Z.inj_succ.
    replace (Z.succ (Z.pos (digits2_pos p)) - 1) with (Z.succ (Z.pos (digits2_pos p) - 1)) by lia.
    rewrite !Z.pow_succ_r by lia. lia.
  - cbn. lia.
Qed.

(** [iter_pos] iterates. *)
Lemma iter_twice {A : Type} (f : A -> A) (n : nat) (x : A) :
  Nat.iter n f (Nat.iter n f x) = Nat.iter (2 * n) f x.
Proof.
  replace (2 * n)%nat with (n + n)%nat by lia. rewrite Nat.iter_add. reflexivity.
Qed.

Lemma iter_pos_nat {A : Type} (f : A -> A) (p : positive) (x : A) :
  SpecFloat.iter_pos f p x = Nat.iter (Pos.to_nat p) f x.
Proof.
  revert x. induction p as [p IH|p IH|]; intros x; cbn [SpecFloat.iter_pos].
  - rewrite !IH, Pos2Nat.inj_xI, iter_twice, <- Nat.iter_succ_r. reflexivity.
  - rewrite !IH, Pos2Nat.inj_xO, iter_twice. reflexivity.
  - reflexivity.
Qed.

(** One shift to the right halves the mantissa and keeps the bit that
    falls off. *)
Lemma shr_1_spec (mrs : shr_record) :
  0 <= shr_m mrs ->
  shr_m (shr_1 mrs) = shr_m mrs / 2 /\ shr_r (shr_1 mrs) = Z.odd (shr_m mrs).
Proof.
  destruct mrs as [m r s]. cbn [shr_m]. intros Hm.
  destruct m as [|[p|p|]|p]; cbn [shr_1 shr_m shr_r]; try lia.
  - split; [reflexivity|reflexivity].
  - split; [|reflexivity]. rewrite Pos2Z.inj_xI.
    apply (Z.div_unique_pos _ _ _ 1); lia.
  - split; [|reflexivity]. rewrite Pos2Z.inj_xO.
    apply (Z.div_unique_pos _ _ _ 0); lia.
  - split; reflexivity.
Qed.

(** [n + 1] shifts to the right. *)
Lemma shr_iter_spec (m : Z) (n : nat) (mrs : shr_record) :
  0 <= m -> shr_m mrs = m ->
  shr_m (Nat.iter (S n) shr_1 mrs) = m / 2 ^ Z.of_nat (S n)
  /\ shr_r (Nat.iter (S n) shr_1 mrs) = Z.odd (m / 2 ^ Z.of_nat n).
Proof.
  intros Hm Hrec. induction n as [|n IH].
  - change (Nat.iter 1 shr_1 mrs) with (shr_1 mrs).
    destruct (shr_1_spec mrs ltac:(lia)) as [A B].
    rewrite A, B, Hrec. change (2 ^ Z.of_nat 1) with 2. change (2 ^ Z.of_nat 0) with 1.
    rewrite Z.div_1_r. auto.
  - destruct IH as [A B].
    change (Nat.iter (S (S n)) shr_1 mrs) with (shr_1 (Nat.iter (S n) shr_1 mrs)).
    assert (H0 : 0 <= shr_m (Nat.iter (S n) shr_1 mrs)).
    { rewrite A. apply Z.div_pos; [lia|]. apply pow2_pos. lia. }
    destruct (shr_1_spec _ H0) as [C D]. rewrite C, D, A.
    split; [|reflexivity].
    rewrite Z.div_div by (try lia; apply pow2_pos; lia).
    f_equal. rewrite (Nat2Z.inj_succ (S n)), Z.pow_succ_r by lia. lia.
Qed.

(** The exponent that the format gives a value of [x] binary digits. *)
Lemma fexp64 (x : Z) : fexp prec emax x = Z.max (x - 53) (-1074).
Proof. reflexivity. Qed.

(** The first shift of [binary_round_aux]: none when the mantissa already
    fits, and otherwise down to the exponent of the format. *)
Lemma shr_fexp_first (p : positive) (e : Z) :
  let m := Z.pos p in
  let f := fexp prec emax (Z.pos (digits2_pos p) + e) in
  (f <= e ->
   shr_fexp prec emax m e loc_Exact = ({| shr_m := m; shr_r := false; shr_s := false |}, e))
  /\ (e < f ->
      exists mrs, shr_fexp prec emax m e loc_Exact = (mrs, f)
        /\ shr_m mrs = m / 2 ^ (f - e)
        /\ shr_r mrs = Z.odd (m / 2 ^ (f - e - 1))).
Proof.
  intros m f. unfold shr_fexp.
  change (Zdigits2 m) with (Z.pos (digits2_pos p)). cbn [shr_record_of_loc].
  fold f. clearbody f. split; intros Hf.
  - unfold shr. destruct (f - e) eqn:E; try reflexivity. lia.
  - unfold shr. destruct (f - e) as [|k|k] eqn:E; try lia.
    rewrite iter_pos_nat.
    destruct (Pos2Nat.is_succ k) as [n Hn]. rewrite Hn.
    destruct (shr_iter_spec m n {| shr_m := m; shr_r := false; shr_s := false |}
                ltac:(unfold m; lia) eq_refl) as [A B].
    clearbody m.
    eexists. split; [|split].
    + f_equal. lia.
    + rewrite A. f_equal. f_equal. lia.
    + rewrite B. f_equal. f_equal. f_equal. lia.
Qed.

(** Rounding to nearest moves up by one at most, and not at all when the
    first bit that fell off is zero. *)
Lemma round_nearest_even_bounds (mrs : shr_record) :
  let m1 := round_nearest_even (shr_m mrs) (loc_of_shr_record mrs) in
  shr_m mrs <= m1 <= shr_m mrs + 1 /\ (shr_r mrs = false -> m1 = shr_m mrs).
Proof.
  destruct mrs as [q [|] [|]]; cbn; try destruct (Z.even q); split; (lia || congruence || auto).
Qed.

(** The second shift of [binary_round_aux] only undoes a carry. *)
Lemma shr_fexp_second (m1 e' : Z) :
  0 <= m1 <= 2 ^ 53 -> -1074 <= e' ->
  exists mrs e'', shr_fexp prec emax m1 e' loc_Exact = (mrs, e'')
    /\ 0 <= shr_m mrs /\ e' <= e'' <= e' + 1
    /\ shr_m mrs * 2 ^ (e'' - e') = m1.
Proof.
  intros Hm He. destruct (Z.eq_dec m1 (2 ^ 53)) as [->|Hne].
  - unfold shr_fexp. change (Zdigits2 (2 ^ 53)) with 54. rewrite fexp64.
    replace (Z.max (54 + e' - 53) (-1074) - e') with 1 by lia.
    cbn [shr shr_record_of_loc SpecFloat.iter_pos].
    eexists _, _. split; [reflexivity|]. vm_compute shr_1. cbn [shr_m].
    replace (e' + 1 - e') with 1 by lia. lia.
  - assert (Hd : Zdigits2 m1 <= 53).
    { destruct m1 as [|p|p]; cbn [Zdigits2]; try lia.
      pose proof (digits2_pos_bounds p) as [A _].
      assert (2 ^ (Z.pos (digits2_pos p) - 1) < 2 ^ 53) by lia.
      apply Z.pow_lt_mono_r_iff in H; lia. }
    unfold shr_fexp. rewrite fexp64. unfold shr.
    destruct (Z.max (Zdigits2 m1 + e' - 53) (-1074) - e') eqn:E; try lia;
      (eexists _, _; split; [reflexivity|]; cbn [shr_record_of_loc shr_m];
       replace (e' - e') with 0 by lia; lia).
Qed.

(** A value that undercuts [(M + 1/2) * 2^E], for a 53-bit mantissa [M],
    gets an exponent of at most [E] from the format. *)
Lemma below_exponent (m d e M E : Z) :
  2 ^ (d - 1) <= m -> 1 <= d -> - fscale <= e -> - fscale <= E -> M < 2 ^ 53 ->
  2 * scaled m e < scaled (2 * M + 1) E ->
  d + e <= E + 53.
Proof.
  unfold scaled, fscale. intros Hd Hd1 He HE HM Hlt.
  assert (H : 2 ^ (d + e + 2200) < 2 ^ (E + 2200 + 54)).
  { replace (d + e + 2200) with (1 + (d - 1) + (e + 2200)) by lia.
    rewrite (pow2_split (1 + (d - 1)) (e + 2200)), (pow2_split 1 (d - 1)),
      (pow2_split (E + 2200) 54) by lia. change (2 ^ 1) with 2.
    pose proof (pow2_pos (d - 1) ltac:(lia)).
    pose proof (pow2_pos (e + 2200) ltac:(lia)).
    pose proof (pow2_pos (E + 2200) ltac:(lia)).
    set (A := 2 ^ (d - 1)) in *. set (B := 2 ^ (e + 2200)) in *.
    set (C := 2 ^ (E + 2200)) in *. change (2 ^ 54) with (2 * 2 ^ 53).
    set (T := 2 ^ 53) in *. clearbody A B C T.
    assert (A * B <= m * B) by (apply Z.mul_le_mono_nonneg_r; lia).
    assert ((2 * M + 1) * C < (2 * T) * C) by (apply Z.mul_lt_mono_pos_r; lia).
    lia. }
  apply Z.pow_lt_mono_r_iff in H; lia.
Qed.

(** A mantissa that fits is kept: when it undercuts [(M + 1/2) * 2^E], it
    is at most [M * 2^E]. *)
Lemma below_fit (m e M E : Z) :
  1 <= m < 2 ^ 53 -> - fscale <= e -> - fscale <= E -> 2 ^ 52 <= M ->
  2 * scaled m e < scaled (2 * M + 1) E ->
  scaled m e <= scaled M E.
Proof.
  unfold scaled, fscale. intros Hm He HE HM Hlt.
  pose proof (pow2_pos (e + 2200) ltac:(lia)) as HB.
  pose proof (pow2_pos (E + 2200) ltac:(lia)) as HC.
  destruct (Z_le_gt_dec E e) as [Hle|Hgt].
  - replace (e + 2200) with (e - E + (E + 2200)) in * by lia.
    rewrite (pow2_split (e - E) (E + 2200)) in * by lia.
    pose proof (pow2_pos (e - E) ltac:(lia)) as HD.
    set (D := 2 ^ (e - E)) in *. set (C := 2 ^ (E + 2200)) in *. clearbody D C.
    assert (H : 2 * (m * D) < 2 * M + 1).
    { apply (Z.mul_lt_mono_pos_r C); lia. }
    assert (m * D <= M) by lia.
    rewrite Z.mul_assoc. apply Z.mul_le_mono_nonneg_r; lia.
  - replace (E + 2200) with (E - e + (e + 2200)) by lia.
    rewrite (pow2_split (E - e) (e + 2200)) by lia.
    assert (HD : 2 ^ 1 <= 2 ^ (E - e)) by (apply pow2_le; lia).
    change (2 ^ 1) with 2 in HD. change (2 ^ 53) with (2 * 2 ^ 52) in Hm.
    set (D := 2 ^ (E - e)) in *. set (B := 2 ^ (e + 2200)) in *.
    set (T := 2 ^ 52) in *. assert (0 < T) by reflexivity. clearbody D B T.
    rewrite Z.mul_assoc. apply Z.mul_le_mono_nonneg_r; [lia|]. nia.
Qed.

(** A mantissa that is shifted to the right and rounded to nearest, when
    it undercuts [(M + 1/2) * 2^E]. *)
Lemma below_shift (m e f M E m1 : Z) :
  1 <= m -> - fscale <= e -> e < f <= E ->
  m < 2 ^ (f - e + 53) -> 2 ^ 52 <= M < 2 ^ 53 ->
  m / 2 ^ (f - e) <= m1 <= m / 2 ^ (f - e) + 1 ->
  (Z.odd (m / 2 ^ (f - e - 1)) = false -> m1 = m / 2 ^ (f - e)) ->
  2 * scaled m e < scaled (2 * M + 1) E ->
  0 <= m1 <= 2 ^ 53 /\ scaled m1 f <= scaled M E.
Proof.
  unfold scaled, fscale. intros Hm He Hf Hd HM Hm1 Hr Hlt.
  pose proof (pow2_pos (f - e) ltac:(lia)) as HP.
  pose proof (pow2_pos (e + 2200) ltac:(lia)) as HB.
  pose proof (pow2_pos (f + 2200) ltac:(lia)) as HF.
  rewrite (pow2_split (f - e) 53) in Hd by lia.
  assert (Hq0 : 0 <= m / 2 ^ (f - e)) by (apply Z.div_pos; lia).
  assert (Hq : m / 2 ^ (f - e) < 2 ^ 53).
  { apply Z.div_lt_upper_bound; lia. }
  split; [lia|].
  destruct (Z.eq_dec f E) as [<-|Hne].
  - pose proof (Z.div_mod m (2 ^ (f - e)) ltac:(lia)) as Hdm.
    pose proof (Z.mod_pos_bound m (2 ^ (f - e)) HP) as Hrem.
    assert (HPP : 2 ^ (f - e) = 2 * 2 ^ (f - e - 1)).
    { replace (f - e) with (1 + (f - e - 1)) at 1 by lia.
      rewrite pow2_split by lia. reflexivity. }
    pose proof (pow2_pos (f - e - 1) ltac:(lia)) as HP'.
    replace (f + 2200) with (f - e + (e + 2200)) in * by lia.
    rewrite (pow2_split (f - e) (e + 2200)) in * by lia.
    set (q := m / 2 ^ (f - e)) in *. set (rem := m mod 2 ^ (f - e)) in *.
    set (P := 2 ^ (f - e)) in *. set (P' := 2 ^ (f - e - 1)) in *.
    set (B := 2 ^ (e + 2200)) in *.
    assert (H2 : 2 * m < (2 * M + 1) * P).
    { apply (Z.mul_lt_mono_pos_r B); lia. }
    assert (HqM : q <= M) by nia.
    assert (Hm1M : m1 <= M).
    { destruct (Z.eq_dec q M) as [HqE|HqN]; [|lia].
      rewrite Hr; [lia|].
      assert (Hrem' : rem < P') by nia.
      replace (m / P') with (2 * q).
      - rewrite Z.odd_mul. reflexivity.
      - apply (Z.div_unique_pos m P' (2 * q) rem); lia. }
    rewrite !Z.mul_assoc. apply Z.mul_le_mono_nonneg_r; [lia|].
    apply Z.mul_le_mono_nonneg_r; lia.
  - replace (E + 2200) with (E - f + (f + 2200)) by lia.
    rewrite (pow2_split (E - f) (f + 2200)) by lia.
    assert (HD : 2 ^ 1 <= 2 ^ (E - f)) by (apply pow2_le; lia).
    change (2 ^ 1) with 2 in HD. change (2 ^ 53) with (2 * 2 ^ 52) in *.
    set (D := 2 ^ (E - f)) in *. set (F := 2 ^ (f + 2200)) in *.
    set (T := 2 ^ 52) in *. assert (0 < T) by reflexivity.
    assert (m1 <= 2 * T) by lia.
    clearbody D F T.
    rewrite Z.mul_assoc. apply Z.mul_le_mono_nonneg_r; [lia|]. nia.
Qed.


(** The end of [binary_round_aux], from a rounded mantissa under the bound. *)
Lemma round_finish (m1 e' M E : Z) :
  0 <= m1 <= 2 ^ 53 -> -1074 <= e' <= 53 -> scaled m1 e' <= scaled M E ->
  below (let '(mrs, e'') := shr_fexp prec emax m1 e' loc_Exact in
         match shr_m mrs with
         | Z0 => S754_zero false
         | Z.pos m => if e'' <=? emax - prec then S754_finite false m e'' else S754_infinity false
         | Z.neg _ => S754_nan
         end) M E.
Proof.
  intros Hm He Hle.
  destruct (shr_fexp_second m1 e' Hm ltac:(lia)) as (mrs & e'' & -> & H0 & He'' & Hv).
  destruct (shr_m mrs) as [|m|m] eqn:Em; [exact I| |lia].
  replace (e'' <=? emax - prec) with true
    by (symmetry; apply Z.leb_le; change (emax - prec) with 971; lia).
  cbn [below]. unfold scaled, fscale in *.
  replace (e'' + 2200) with (e'' - e' + (e' + 2200)) by lia.
  rewrite pow2_split, Z.mul_assoc, Hv by lia. exact Hle.
Qed.

(** Rounding to nearest even keeps a positive value under a 53-bit bound
    that it undercuts by half a unit of the bound. *)
Lemma round_below (p : positive) (e M E : Z) :
  - fscale <= e -> 2 ^ 52 <= M < 2 ^ 53 -> -1074 <= E <= 0 ->
  2 * scaled (Z.pos p) e < scaled (2 * M + 1) E ->
  below (binary_round_aux prec emax false (Z.pos p) e loc_Exact) M E.
Proof.
  intros He HM HE Hlt. unfold binary_round_aux.
  pose proof (digits2_pos_bounds p) as [Hd1 Hd2].
  pose proof (below_exponent (Z.pos p) (Z.pos (digits2_pos p)) e M E Hd1 ltac:(lia) He
                ltac:(unfold fscale; lia) ltac:(lia) Hlt) as Hde.
  destruct (shr_fexp_first p e) as [Hfit Hshift]. rewrite fexp64 in Hfit, Hshift.
  set (d := Z.pos (digits2_pos p)) in *.
  set (f := Z.max (d + e - 53) (-1074)) in *.
  destruct (Z_le_gt_dec f e) as [Hfe|Hfe].
  - rewrite (Hfit Hfe). cbn [shr_m loc_of_shr_record round_nearest_even].
    assert (Hp : Z.pos p < 2 ^ 53).
    { eapply Z.lt_le_trans; [exact Hd2|]. apply pow2_le. lia. }
    apply round_finish; [lia|lia|].
    apply below_fit; try lia. unfold fscale; lia.
  - destruct (Hshift ltac:(lia)) as (mrs & -> & Hq & Hr).
    pose proof (round_nearest_even_bounds mrs) as [Hb Hx]. cbn zeta in Hb, Hx.
    set (m1 := round_nearest_even (shr_m mrs) (loc_of_shr_record mrs)) in *.
    rewrite Hq in Hb, Hx. rewrite Hr in Hx.
    assert (Hp : Z.pos p < 2 ^ (f - e + 53)).
    { eapply Z.lt_le_trans; [exact Hd2|]. apply pow2_le. lia. }
    destruct (below_shift (Z.pos p) e f M E m1 ltac:(lia) He ltac:(lia) Hp HM Hb Hx Hlt)
      as [Hm1 Hle].
    apply round_finish; [exact Hm1|lia|exact Hle].
Qed.

(** What [valid_binary] says of a finite value. *)
Lemma bounded_range (m : positive) (e : Z) :
  bounded prec emax m e = true ->
  -1074 <= e <= 971 /\ Z.pos m < 2 ^ 53 /\ (-1074 < e -> 2 ^ 52 <= Z.pos m).
Proof.
  unfold bounded, canonical_mantissa. rewrite fexp64. intros H.
  apply andb_true_iff in H as [Hc He]. apply Z.eqb_eq in Hc. apply Z.leb_le in He.
  change (emax - prec) with 971 in He.
  pose proof (digits2_pos_bounds m) as [Hd1 Hd2].
  split; [lia|]. split.
  - eapply Z.lt_le_trans; [exact Hd2|]. apply pow2_le. lia.
  - intros Hn. replace (Z.pos (digits2_pos m)) with 53 in Hd1 by lia. exact Hd1.
Qed.

(** A product with a factor that is at most 1 is, once rounded, at most
    the other factor. *)
Lemma SFmul_below (Mw : positive) (Ew : Z) (t : spec_float) :
  2 ^ 52 <= Z.pos Mw < 2 ^ 53 -> -1074 <= Ew <= 0 ->
  valid_binary t = true ->
  below t (2 ^ 52) (-52) ->
  below (SFmul prec emax (S754_finite false Mw Ew) t) (Z.pos Mw) Ew.
Proof.
  intros HM HE Hv Ht. destruct t as [s|s| |[|] mt et]; cbn [below SFmul] in *; try tauto.
  destruct (bounded_range mt et Hv) as (Het & _ & _).
  cbn [xorb]. apply round_below; try (unfold fscale; lia).
  unfold scaled, fscale in *. rewrite Pos2Z.inj_mul.
  assert (HG : 2 ^ 52 * 2 ^ (-52 + 2200) = 2 ^ 2200).
  { rewrite <- pow2_split by lia. reflexivity. }
  rewrite HG in Ht.
  assert (HX : 2 ^ (Ew + et + 2200) * 2 ^ 2200 = 2 ^ (Ew + 2200) * 2 ^ (et + 2200)).
  { rewrite <- !pow2_split by lia. f_equal. lia. }
  pose proof (pow2_pos (Ew + et + 2200) ltac:(lia)) as H1.
  pose proof (pow2_pos (Ew + 2200) ltac:(lia)) as H2.
  pose proof (pow2_pos (et + 2200) ltac:(lia)) as H3.
  pose proof (pow2_pos 2200 ltac:(lia)) as H4.
  set (X := 2 ^ (Ew + et + 2200)) in *. set (A := 2 ^ (Ew + 2200)) in *.
  set (B := 2 ^ (et + 2200)) in *. set (G := 2 ^ 2200) in *.
  clearbody X A B G.
  assert (H5 : Z.pos mt * X <= A).
  { apply (Z.mul_le_mono_pos_r _ _ G); [lia|].
    replace (Z.pos mt * X * G) with (A * (Z.pos mt * B)) by (rewrite <- Z.mul_assoc, HX; ring).
    rewrite (Z.mul_comm A G). rewrite (Z.mul_comm A). apply Z.mul_le_mono_nonneg_r; lia. }
  assert (H6 : Z.pos Mw * (Z.pos mt * X) <= Z.pos Mw * A)
    by (apply Z.mul_le_mono_nonneg_l; lia).
  lia.
Qed.

(** [shl_align] keeps the value. *)
Lemma iter_xO (m d : positive) : Z.pos (Pos.iter xO m d) = Z.pos m * 2 ^ Z.pos d.
Proof.
  induction d as [|d IH] using Pos.peano_ind.
  - cbn [Pos.iter]. rewrite Pos2Z.inj_xO. change (2 ^ 1) with 2. lia.
  - rewrite Pos.iter_succ, Pos2Z.inj_xO, IH, Pos2Z.inj_succ, Z.pow_succ_r by lia. ring.
Qed.

Lemma shl_align_spec (mx : positive) (ex ex' : Z) :
  - fscale <= ex -> - fscale <= ex' ->
  scaled (Z.pos (fst (shl_align mx ex ex'))) (snd (shl_align mx ex ex')) = scaled (Z.pos mx) ex
  /\ snd (shl_align mx ex ex') = Z.min ex ex'.
Proof.
  unfold shl_align, scaled, fscale. intros He He'.
  destruct (ex' - ex) as [|d|d] eqn:E; cbn [fst snd]; try (split; [reflexivity|lia]).
  rewrite <- Pos2Z.opp_pos in E. split; [|lia]. rewrite iter_xO.
  replace (ex + 2200) with (Z.pos d + (ex' + 2200)) by lia.
  rewrite (pow2_split (Z.pos d)) by lia. ring.
Qed.

(** A sum of two bounded values is, once rounded, at most a 53-bit bound
    that the sum of their bounds undercuts by half a unit. *)
Lemma SFadd_below (x y : spec_float) (M1 E1 M2 E2 M E : Z) :
  valid_binary x = true -> valid_binary y = true ->
  below x M1 E1 -> below y M2 E2 ->
  2 ^ 52 <= M < 2 ^ 53 -> -1074 <= E <= 0 ->
  scaled M1 E1 <= scaled M E -> scaled M2 E2 <= scaled M E ->
  2 * (scaled M1 E1 + scaled M2 E2) < scaled (2 * M + 1) E ->
  below (SFadd prec emax x y) M E.
Proof.
  intros Hvx Hvy Hx Hy HM HE H1 H2 Hlt.
  destruct x as [sx|sx| |[|] mx ex]; cbn [below] in Hx; try tauto;
    destruct y as [sy|sy| |[|] my ey]; cbn [below] in Hy; try tauto.
  - cbn [SFadd]. destruct sx, sy; exact I.
  - cbn [SFadd below]. lia.
  - cbn [SFadd below]. lia.
  - destruct (bounded_range mx ex Hvx) as (Hex & _ & _).
    destruct (bounded_range my ey Hvy) as (Hey & _ & _).
    cbn [SFadd cond_Zopp].
    set (ez := Z.min ex ey).
    destruct (shl_align_spec mx ex ez) as [Va Ea]; try (unfold fscale; lia).
    destruct (shl_align_spec my ey ez) as [Vb Eb]; try (unfold fscale; lia).
    replace (Z.min ex ez) with ez in Ea by lia. replace (Z.min ey ez) with ez in Eb by lia.
    rewrite Ea in Va. rewrite Eb in Vb.
    set (a := fst (shl_align mx ex ez)) in *. set (b := fst (shl_align my ey ez)) in *.
    change (Z.pos a + Z.pos b) with (Z.pos (a + b)). cbn [binary_normalize].
    unfold binary_round. rewrite fexp64.
    set (f := Z.max (Z.pos (digits2_pos (a + b)) + ez - 53) (-1074)).
    destruct (shl_align_spec (a + b) ez f) as [Vc Ec]; try (unfold fscale; lia).
    destruct (shl_align (a + b) ez f) as [mz ez'] eqn:Ez. cbn [fst snd] in Vc, Ec.
    apply round_below; try (unfold fscale; lia).
    rewrite Vc. unfold scaled in *. rewrite Pos2Z.inj_add. lia.
Qed.

(** Comparisons with 0 and 1. *)
Lemma below_one_unit (x : spec_float) :
  valid_binary x = true -> below x (2 ^ 52) (-52) ->
  SFleb (S754_zero false) x = true
  /\ SFleb x (S754_finite false 4503599627370496 (-52)) = true.
Proof.
  intros Hv Hx. destruct x as [s|s| |[|] m e]; cbn [below] in Hx;
    try contradiction; try (split; reflexivity).
  split; [reflexivity|]. destruct (bounded_range m e Hv) as (He & Hm & Hn).
  unfold SFleb, SFcompare.
  { 
    assert (Hcase : e < -52 \/ (e = -52 /\ Z.pos m <= 2 ^ 52)).
    { unfold scaled, fscale in Hx.
      destruct (Z_lt_ge_dec e (-52)) as [|Hge]; [left; assumption|right].
      specialize (Hn ltac:(lia)).
      replace (e + 2200) with (e + 52 + (-52 + 2200)) in Hx by lia.
      rewrite (pow2_split (e + 52)) in Hx by lia.
      pose proof (pow2_pos (-52 + 2200) ltac:(lia)) as HG.
      set (G := 2 ^ (-52 + 2200)) in *. clearbody G.
      assert (HD : Z.pos m * 2 ^ (e + 52) <= 2 ^ 52).
      { apply (Z.mul_le_mono_pos_r _ _ G); lia. }
      destruct (Z.eq_dec e (-52)) as [->|Hne].
      - split; [reflexivity|]. change (2 ^ (-52 + 52)) with 1 in HD. lia.
      - exfalso. assert (2 ^ 1 <= 2 ^ (e + 52)) by (apply pow2_le; lia).
        change (2 ^ 1) with 2 in *. set (D := 2 ^ (e + 52)) in *. clearbody D.
        set (T := 2 ^ 52) in *. assert (0 < T) by reflexivity. clearbody T. nia. }
    destruct Hcase as [Hlt|[-> Hle]].
    + apply Z.compare_lt_iff in Hlt. rewrite Hlt. reflexivity.
    + rewrite Z.compare_refl, Pos.compare_cont_spec. cbn [Pos.switch_Eq].
      change (2 ^ 52) with (Z.pos 4503599627370496) in Hle.
      destruct (m ?= 4503599627370496)%positive eqn:Ec; try reflexivity.
      apply Pos.compare_gt_iff in Ec. lia. }
Qed.

Lemma unit_below_one (x : spec_float) :
  valid_binary x = true ->
  SFleb (S754_zero false) x = true ->
  SFleb x (S754_finite false 4503599627370496 (-52)) = true ->
  below x (2 ^ 52) (-52).
Proof.
  intros Hv H0 H1. destruct x as [s|[|]| |[|] m e]; cbn [below]; try exact I;
    try discriminate H0; try discriminate H1.
  destruct (bounded_range m e Hv) as (He & Hm & Hn).
  unfold SFleb, SFcompare in H1. unfold scaled, fscale.
  destruct (e ?= -52) eqn:Ec; try discriminate H1.
  - apply Z.compare_eq_iff in Ec. subst e.
    rewrite Pos.compare_cont_spec in H1. cbn [Pos.switch_Eq] in H1.
    apply Z.mul_le_mono_nonneg_r; [apply Z.lt_le_incl, pow2_pos; lia|].
    change (2 ^ 52) with (Z.pos 4503599627370496).
    destruct (m ?= 4503599627370496)%positive eqn:Em; try discriminate H1.
    + apply Pos.compare_eq_iff in Em. subst m. lia.
    + assert (Hlt : (m < 4503599627370496)%positive) by exact Em.
      apply Z.lt_le_incl, Pos2Z.pos_lt_pos, Hlt.
  - assert (Hlt : e < -52) by exact Ec.
    replace (-52 + 2200) with (-52 - e + (e + 2200)) by lia.
    rewrite (pow2_split (-52 - e)) by lia.
    assert (2 ^ 1 <= 2 ^ (-52 - e)) by (apply pow2_le; lia).
    change (2 ^ 1) with 2 in *.
    pose proof (pow2_pos (e + 2200) ltac:(lia)) as HB.
    set (D := 2 ^ (-52 - e)) in *. set (B := 2 ^ (e + 2200)) in *.
    change (2 ^ 53) with (2 * 2 ^ 52) in Hm.
    set (T := 2 ^ 52) in *. assert (0 < T) by reflexivity. clearbody D B T.
    rewrite Z.mul_assoc. apply Z.mul_le_mono_nonneg_r; [lia|]. nia.
Qed.

(** ** Scores of the read API *)

Lemma clamp_unit (v : float) :
  PrimFloat.is_nan v = false -> GoMath.in_unit (Handlers.clamp v 0 1).
Proof.
  intros Hv. unfold Handlers.clamp, GoMath.in_unit.
  destruct (PrimFloat.ltb v 0) eqn:E0; [split; reflexivity|].
  destruct (PrimFloat.ltb 1 v) eqn:E1; [split; reflexivity|].
  split; apply leb_of_not_ltb; auto.
Qed.

Lemma clamp_nan (v : float) :
  PrimFloat.is_nan v = true -> Handlers.clamp v 0 1 = v.
Proof.
  intros Hv. unfold Handlers.clamp.
  rewrite !FloatAxioms.ltb_spec, (Prim2SF_nan v Hv). unfold SFltb.
  destruct (Prim2SF 0); destruct (Prim2SF 1); reflexivity.
Qed.

Lemma deviationScore_unit (latPct errPct callPct : float) :
  PrimFloat.is_nan (Handlers.deviationScore latPct errPct callPct) = false ->
  GoMath.in_unit (Handlers.deviationScore latPct errPct callPct).
Proof.
  unfold Handlers.deviationScore.
  set (x := GoMath.Max _ _). intros Hd.
  destruct (PrimFloat.is_nan x) eqn:Ex.
  - rewrite (clamp_nan x Ex) in Hd. congruence.
  - apply clamp_unit. exact Ex.
Qed.

(** [in_unit] and [below] at the bound 1. *)
Lemma in_unit_below (t : float) :
  GoMath.in_unit t -> below (Prim2SF t) (2 ^ 52) (-52).
Proof.
  intros [H0 H1]. rewrite FloatAxioms.leb_spec in H0, H1.
  apply unit_below_one; [apply FloatAxioms.Prim2SF_valid|exact H0|exact H1].
Qed.

Lemma below_in_unit (x : float) :
  below (Prim2SF x) (2 ^ 52) (-52) -> GoMath.in_unit x.
Proof.
  intros Hx. unfold GoMath.in_unit. rewrite !FloatAxioms.leb_spec.
  apply below_one_unit; [apply FloatAxioms.Prim2SF_valid|exact Hx].
Qed.

(** A weight times a value of [[0,1]] is at most the weight. *)
Lemma mul_below (w t : float) (Mw : positive) (Ew : Z) :
  Prim2SF w = S754_finite false Mw Ew ->
  2 ^ 52 <= Z.pos Mw < 2 ^ 53 -> -1074 <= Ew <= 0 ->
  GoMath.in_unit t ->
  below (Prim2SF (PrimFloat.mul w t)) (Z.pos Mw) Ew.
Proof.
  intros Hw HM HE Ht. rewrite FloatAxioms.mul_spec, Hw.
  apply SFmul_below; [exact HM|exact HE|apply FloatAxioms.Prim2SF_valid|].
  apply in_unit_below, Ht.
Qed.

(** A sum of two bounded values, as [SFadd_below] has it. *)
Lemma add_below (x y : float) (M1 E1 M2 E2 M E : Z) :
  below (Prim2SF x) M1 E1 -> below (Prim2SF y) M2 E2 ->
  2 ^ 52 <= M < 2 ^ 53 -> -1074 <= E <= 0 ->
  scaled M1 E1 <= scaled M E -> scaled M2 E2 <= scaled M E ->
  2 * (scaled M1 E1 + scaled M2 E2) < scaled (2 * M + 1) E ->
  below (Prim2SF (PrimFloat.add x y)) M E.
Proof.
  intros Hx Hy HM HE H1 H2 Hlt. rewrite FloatAxioms.add_spec.
  apply (SFadd_below _ _ M1 E1 M2 E2); auto using FloatAxioms.Prim2SF_valid.
Qed.

(** The weighted sum of four values of [[0,1]] with the weights 0.5,
    0.25, 0.15 and 0.10 of the root-cause score lies in [[0,1]]: once
    rounded, the partial sums are at most 0.75, 0.9 and 1. *)
Lemma weighted_sum_unit (t1 t2 t3 t4 : float) :
  GoMath.in_unit t1 -> GoMath.in_unit t2 -> GoMath.in_unit t3 -> GoMath.in_unit t4 ->
  GoMath.in_unit
    (PrimFloat.add (PrimFloat.add (PrimFloat.add
       (PrimFloat.mul 0.5 t1) (PrimFloat.mul 0.25 t2)) (PrimFloat.mul 0.15 t3))
       (PrimFloat.mul 0.10 t4)).
Proof.
  intros H1 H2 H3 H4. apply below_in_unit.
  pose proof (mul_below 0.5 t1 4503599627370496 (-53) eq_refl
                ltac:(split; reflexivity) ltac:(lia) H1) as P1.
  pose proof (mul_below 0.25 t2 4503599627370496 (-54) eq_refl
                ltac:(split; [discriminate|reflexivity]) ltac:(lia) H2) as P2.
  pose proof (mul_below 0.15 t3 5404319552844595 (-55) eq_refl
                ltac:(split; [discriminate|reflexivity]) ltac:(lia) H3) as P3.
  pose proof (mul_below 0.10 t4 7205759403792794 (-56) eq_refl
                ltac:(split; [discriminate|reflexivity]) ltac:(lia) H4) as P4.
  assert (S1 : below (Prim2SF (PrimFloat.add (PrimFloat.mul 0.5 t1) (PrimFloat.mul 0.25 t2)))
                 6755399441055744 (-53)).
  { apply (add_below _ _ _ _ _ _ _ _ P1 P2); try lia;
      unfold scaled, fscale; vm_compute; (reflexivity || discriminate). }
  assert (S2 : below (Prim2SF (PrimFloat.add (PrimFloat.add (PrimFloat.mul 0.5 t1)
                                 (PrimFloat.mul 0.25 t2)) (PrimFloat.mul 0.15 t3)))
                 8106479329266893 (-53)).
  { apply (add_below _ _ _ _ _ _ _ _ S1 P3); try lia;
      unfold scaled, fscale; vm_compute; (reflexivity || discriminate). }
  apply (add_below _ _ _ _ _ _ _ _ S2 P4); try lia;
    unfold scaled, fscale; vm_compute; (reflexivity || discriminate).
Qed.

(** A root-cause score whose four clamped values are not NaN lies in
    [[0,1]]. *)
Lemma rootCauseScore_unit (b c : Handlers.stats) :
  PrimFloat.is_nan
    (PrimFloat.div (Handlers.pctDelta (Handlers.P95 b) (Handlers.P95 c)) 300) = false ->
  PrimFloat.is_nan
    (PrimFloat.div (Handlers.pctDelta (Handlers.ErrorRate b) (Handlers.ErrorRate c)) 300)
  = false ->
  PrimFloat.is_nan
    (PrimFloat.div (Handlers.pctDelta (Handlers.Calls b) (Handlers.Calls c)) 300) = false ->
  PrimFloat.is_nan (Handlers.st_BlockingRatio c) = false ->
  GoMath.in_unit (Handlers.rootCauseScore b c).
Proof.
  intros H1 H2 H3 H4. unfold Handlers.rootCauseScore.
  apply weighted_sum_unit; apply clamp_unit; assumption.
Qed.

(** C9 (as amended): [pctDelta(0,0) = 0]; [pctDelta(0,c) = 100] for
    every [c] that Go's [==] tells from zero (NaN included);
    [pctDelta(b,c) = (c-b)/|b|*100] for every [b] that [==] tells from
    zero; [clamp(v,0,1)] lies in [[0,1]] for every [v] that is not NaN;
    every deviation score that is not NaN lies in [[0,1]]; and every
    root-cause score lies in [[0,1]] when none of the four values that
    it clamps (the three deltas over 300 and the blocking ratio of the
    candidate) is NaN. *)
Theorem pctDelta_clamp_contract (b c v latPct errPct callPct : float)
    (base cand : Handlers.stats) :
  PrimFloat.is_nan v = false ->
  PrimFloat.is_nan (Handlers.deviationScore latPct errPct callPct) = false ->
  PrimFloat.is_nan
    (PrimFloat.div (Handlers.pctDelta (Handlers.P95 base) (Handlers.P95 cand)) 300)
  = false ->
  PrimFloat.is_nan
    (PrimFloat.div (Handlers.pctDelta (Handlers.ErrorRate base) (Handlers.ErrorRate cand)) 300)
  = false ->
  PrimFloat.is_nan
    (PrimFloat.div (Handlers.pctDelta (Handlers.Calls base) (Handlers.Calls cand)) 300)
  = false ->
  PrimFloat.is_nan (Handlers.st_BlockingRatio cand) = false ->
  Handlers.pctDelta 0 0 = 0%float
  /\ (PrimFloat.eqb c 0 = false -> Handlers.pctDelta 0 c = 100%float)
  /\ (PrimFloat.eqb b 0 = false ->
      Handlers.pctDelta b c
      = PrimFloat.mul (PrimFloat.div (PrimFloat.sub c b) (PrimFloat.abs b)) 100)
  /\ GoMath.in_unit (Handlers.clamp v 0 1)
  /\ GoMath.in_unit (Handlers.deviationScore latPct errPct callPct)
  /\ GoMath.in_unit (Handlers.rootCauseScore base cand).
Proof.
  intros Hv Hd Hlat Herr Hcall Hblock.
  split; [reflexivity|]. split; [|split; [|split; [|split]]].
  - unfold Handlers.pctDelta. intros Hc.
    change (PrimFloat.eqb 0 0) with true. cbv iota. rewrite Hc. reflexivity.
  - unfold Handlers.pctDelta, GoMath.Abs. intros Hb. rewrite Hb. reflexivity.
  - apply clamp_unit, Hv.
  - apply deviationScore_unit, Hd.
  - apply rootCauseScore_unit; assumption.
Qed.

(** The contract at base 40, candidate 50, a value of 2.5 to clamp,
    deltas of 150, -30 and 600 percent, and a service whose latency,
    error rate and calls grow a thousandfold with a blocking ratio of 1:
    its four terms are all clamped to 1 and its score is 1. *)
Lemma pctDelta_clamp_contract_witness :
  let base := Handlers.mkStats 1 1 1 0 in
  let cand := Handlers.mkStats 1000 1000 1000 1 in
  Handlers.rootCauseScore base cand = 1%float
  /\ Handlers.pctDelta 0 0 = 0%float
  /\ (PrimFloat.eqb 50 0 = false -> Handlers.pctDelta 0 50 = 100%float)
  /\ (PrimFloat.eqb 40 0 = false ->
      Handlers.pctDelta 40 50
      = PrimFloat.mul (PrimFloat.div (PrimFloat.sub 50 40) (PrimFloat.abs 40)) 100)
  /\ GoMath.in_unit (Handlers.clamp 2.5 0 1)
  /\ GoMath.in_unit (Handlers.deviationScore 150 (-30) 600)
  /\ GoMath.in_unit (Handlers.rootCauseScore base cand).
Proof.
  intros base cand. split; [reflexivity|].
  apply (pctDelta_clamp_contract 40 50 2.5 150 (-30) 600 base cand); reflexivity.
Defined.

(** C9, counterexample: [clamp(NaN,0,1)] is NaN, which is not in
    [[0,1]]; a root-cause score whose candidate blocking ratio is NaN is
    NaN as well. *)
Lemma clamp_nan_not_in_unit :
  let base := Handlers.mkStats 10 10 0 0 in
  let cand := Handlers.mkStats 10 10 0 PrimFloat.nan in
  Handlers.clamp PrimFloat.nan 0 1 = PrimFloat.nan
  /\ ~ GoMath.in_unit (Handlers.clamp PrimFloat.nan 0 1)
  /\ PrimFloat.is_nan (Handlers.rootCauseScore base cand) = true
  /\ ~ GoMath.in_unit (Handlers.rootCauseScore base cand).
Proof.
  split; [reflexivity|]. split; [|split; [reflexivity|]].
  - intros [H0 _]. vm_compute in H0. discriminate H0.
  - intros [H0 _]. vm_compute in H0. discriminate H0.
Qed.

(** ** The window of a read request *)

(** C7 (as amended): when the window that the request gives is not a
    window ([from >= to], each bound being the parsed parameter, or its
    default when the parameter is missing or does not parse), the
    endpoint keeps [to] and replaces [from] alone: the window is
    [[to - 1h, to]]. *)
Theorem parseRange_invalid_window `{GoLib} (now : Z) (rawFrom rawTo : string) :
  let to := if GoStrings.isEmpty rawTo then now
            else match time_Parse rawTo with Ok p => p | Err _ => now end in
  let from := if GoStrings.isEmpty rawFrom then now - GoTime.Hour
              else match time_Parse rawFrom with Ok p => p | Err _ => now - GoTime.Hour end in
  to <= from ->
  Handlers.parseRange now rawFrom rawTo = (to - GoTime.Hour, to).
Proof.
  intros to from Hinv. unfold Handlers.parseRange, GoTime.Add, GoTime.Before.
  assert (Eto : (if negb (GoStrings.isEmpty rawTo)
                 then match time_Parse rawTo with Ok parsed => parsed | Err _ => now end
                 else now) = to).
  { subst to. destruct (GoStrings.isEmpty rawTo); reflexivity. }
  assert (Efrom : (if negb (GoStrings.isEmpty rawFrom)
                   then match time_Parse rawFrom with
                        | Ok parsed => parsed
                        | Err _ => now + - 1 * GoTime.Hour
                        end
                   else now + - 1 * GoTime.Hour) = from).
  { subst from. replace (now + - 1 * GoTime.Hour) with (now - GoTime.Hour) by lia.
    destruct (GoStrings.isEmpty rawFrom); reflexivity. }
  rewrite Eto, Efrom.
  destruct (from <? to) eqn:E; [apply Z.ltb_lt in E; lia|].
  simpl. f_equal; lia.
Qed.

(** The window from 10:00 to 09:00, requested at noon. *)
Lemma parseRange_invalid_window_witness :
  Demo.day0 + 9 * GoTime.Hour <= Demo.day0 + 10 * GoTime.Hour
  /\ Handlers.parseRange (H := Demo.lib) (Demo.day0 + 12 * GoTime.Hour)
       "2024-01-01T10:00:00Z" "2024-01-01T09:00:00Z"
     = (Demo.day0 + 9 * GoTime.Hour - GoTime.Hour, Demo.day0 + 9 * GoTime.Hour).
Proof.
  split; [vm_compute; discriminate|].
  apply (parseRange_invalid_window (H := Demo.lib) (Demo.day0 + 12 * GoTime.Hour)
           "2024-01-01T10:00:00Z" "2024-01-01T09:00:00Z").
  vm_compute. discriminate.
Defined.

(** C7, counterexample: at noon, a request for the window from 10:00 to
    09:00 is answered for the window from 08:00 to 09:00, not for the
    default window from 11:00 to 12:00. *)
Lemma parseRange_fallback_is_not_default :
  let now := Demo.day0 + 12 * GoTime.Hour in
  Handlers.parseRange (H := Demo.lib) now "2024-01-01T10:00:00Z" "2024-01-01T09:00:00Z"
  = (Demo.day0 + 8 * GoTime.Hour, Demo.day0 + 9 * GoTime.Hour)
  /\ Handlers.parseRange (H := Demo.lib) now "2024-01-01T10:00:00Z" "2024-01-01T09:00:00Z"
     <> Handlers.parseRange (H := Demo.lib) now "" "".
Proof.
  split; [reflexivity|]. vm_compute. intros E. discriminate E.
Qed.

(** ** The waterfall of the drill-down *)

Lemma In_insertSorted {A : Type} (le : A -> A -> bool) (x y : A) (l : list A) :
  In y (GoSort.insertSorted le x l) -> y = x \/ In y l.
Proof.
  induction l as [|z l IH]; simpl.
  - intros [E|[]]. left. congruence.
  - destruct (le x z); simpl.
    + intros [E|Hin]; [left; congruence | right; exact Hin].
    + intros [E|Hin]; [right; left; exact E|].
      destruct (IH Hin) as [E|Hin']; [left; exact E | right; right; exact Hin'].
Qed.

Lemma In_sortBy {A : Type} (le : A -> A -> bool) (y : A) (l : list A) :
  In y (GoSort.sortBy le l) -> In y l.
Proof.
  unfold GoSort.sortBy. induction l as [|x l IH]; simpl; [tauto|].
  intros Hin. apply In_insertSorted in Hin. destruct Hin as [E|Hin]; [left; congruence|].
  right. apply IH, Hin.
Qed.

Lemma newTraceSpan_wait (row : Handlers.spanCols) :
  Handlers.WaitMs (Handlers.newTraceSpan row)
  = Handlers.DurationMs (Handlers.newTraceSpan row)
    - Handlers.SelfTimeMs (Handlers.newTraceSpan row).
Proof.
  unfold Handlers.newTraceSpan; simpl.
  destruct (Handlers.c_duration_ms row <? Handlers.c_self_time_ms row) eqn:E1.
  - rewrite Z.ltb_irrefl. lia.
  - destruct (Handlers.c_self_time_ms row <? Handlers.c_duration_ms row) eqn:E2; [reflexivity|].
    apply Z.ltb_ge in E1, E2. lia.
Qed.

(** C8 (as amended): for every span of the waterfall, [wait_ms =
    duration_ms - self_time_ms], and the reported [blocking_ratio] is
    the ratio [wait/duration] (0 when [duration = 0]) as a percentage
    rounded to two digits. *)
Theorem waterfall_wait_and_ratio (rows : list Handlers.spanCols) (e : Handlers.waterfallEntry) :
  Forall (fun r => is_uint32 (Handlers.c_duration_ms r)) rows ->
  In e (Handlers.waterfall rows) ->
  Handlers.w_wait_ms e = Handlers.w_duration_ms e - Handlers.w_self_time_ms e
  /\ Handlers.w_blocking_ratio e
     = Handlers.round
         (Handlers.scoreToPct
            (Spec.blocking_ratio (Handlers.w_wait_ms e) (Handlers.w_duration_ms e))) 2.
Proof.
  intros Hrng Hin. unfold Handlers.waterfall in Hin.
  apply in_map_iff in Hin. destruct Hin as [span [<- Hin]].
  apply In_sortBy in Hin. apply in_map_iff in Hin. destruct Hin as [row [<- Hin]].
  rewrite List.Forall_forall in Hrng. specialize (Hrng row Hin). destruct Hrng as [Hlo _].
  split.
  - apply newTraceSpan_wait.
  - unfold Handlers.waterfallOf; simpl. unfold Spec.blocking_ratio.
    destruct (0 <? Handlers.c_duration_ms row) eqn:E.
    + apply Z.ltb_lt in E.
      destruct (Handlers.c_duration_ms row =? 0) eqn:E'; [apply Z.eqb_eq in E'; lia|].
      reflexivity.
    + apply Z.ltb_ge in E.
      assert (E' : Handlers.c_duration_ms row = 0) by lia.
      rewrite E'. reflexivity.
Qed.

(** A span of 100 ms with 40 ms of self time. *)
Lemma waterfall_wait_and_ratio_witness :
  let rows := [Handlers.mkSpanCols "A" "s1" "" "svc-a" "GET /" 100 40 0%float 0 100] in
  let e := Handlers.mkWaterfallEntry "s1" "" "svc-a" "GET /" 100 40 60 60%float false in
  Forall (fun r => is_uint32 (Handlers.c_duration_ms r)) rows
  /\ In e (Handlers.waterfall rows)
  /\ Handlers.w_wait_ms e = Handlers.w_duration_ms e - Handlers.w_self_time_ms e
  /\ Handlers.w_blocking_ratio e
     = Handlers.round
         (Handlers.scoreToPct
            (Spec.blocking_ratio (Handlers.w_wait_ms e) (Handlers.w_duration_ms e))) 2.
Proof.
  intros rows e.
  assert (Hr : Forall (fun r => is_uint32 (Handlers.c_duration_ms r)) rows).
  { repeat constructor; unfold is_uint32; simpl; lia. }
  assert (Hin : In e (Handlers.waterfall rows)) by (left; reflexivity).
  split; [exact Hr|]. split; [exact Hin|].
  exact (waterfall_wait_and_ratio rows e Hr Hin).
Defined.

(** C8, counterexample: a span of 100 ms with 40 ms of self time waits
    60 ms; the ratio [wait/duration] is 0.6, and the field
    [blocking_ratio] of its waterfall entry is 60. *)
Lemma waterfall_ratio_is_percentage :
  let rows := [Handlers.mkSpanCols "A" "s1" "" "svc-a" "GET /" 100 40 0%float 0 100] in
  List.map Handlers.w_wait_ms (Handlers.waterfall rows) = [60]
  /\ List.map Handlers.w_blocking_ratio (Handlers.waterfall rows) = [60%float]
  /\ Spec.blocking_ratio 60 100 = 0.6%float
  /\ PrimFloat.eqb 60 (Spec.blocking_ratio 60 100) = false.
Proof.
  repeat split; reflexivity.
Qed.

(** ** The errors of an ingest response *)

(** The loop over the parsed events appends an error only while fewer
    than 100 are reported: it never takes the list beyond 100 entries,
    nor beyond the entries that it starts from. *)
Lemma normalizeEvents_errors_bound `{GoLib} (now : Z -> Z) (events : list Model.IngestEvent.t) :
  forall (i : Z) (raws : list string) (acc : Server.normalized),
    Z.of_nat (length (Server.Errors (Server.n_resp
                (Server.normalizeEvents now i events raws acc))))
    <= Z.max 100 (Z.of_nat (length (Server.Errors (Server.n_resp acc)))).
Proof.
  induction events as [|e events IH]; intros i raws acc; simpl; [lia|].
  destruct raws as [|raw raws]; [lia|].
  destruct (Model.ToRaw (now i) e raw) as [[row ts]|msg].
  - etransitivity; [apply IH|]. simpl. lia.
  - etransitivity; [apply IH|]. simpl.
    destruct (Z.of_nat (length (Server.Errors (Server.n_resp acc))) <? 100) eqn:E.
    + apply Z.ltb_lt in E. rewrite length_app. simpl. lia.
    + lia.
Qed.

(** C6, the code at the failing input: a body of 101 lines that do not
    parse, followed by one line that does, is answered with status 200,
    one event accepted, and 101 entries in [errors]. *)
Theorem ingest_errors_exceed_cap :
  let req := Server.mkRequest "POST" ""
               (Server.Reads
                  (Ok (String.append (Demo.badLines 101) (String GoStrings.LF Demo.eventA)))) in
  let out := Server.IngestLogs (H := Demo.lib) (H0 := Demo.json) "" (fun _ => None)
               (fun _ => Demo.day0) (Reconstruct.New Demo.window) req in
  Server.Status (fst out) = 200
  /\ exists resp, Server.Payload (fst out) = Server.JSONBody resp
                  /\ Server.Accepted resp = 1
                  /\ length (Server.Errors resp) = 101%nat.
Proof.
  vm_compute. split; [reflexivity|]. eexists. repeat split; reflexivity.
Qed.

(** ** Trace ids on the read path *)

Lemma TrimPrefix_aux_append (p s : string) :
  GoStrings.TrimPrefix_aux (String.append p s) p = Some s.
Proof.
  induction p as [|c p IH]; simpl.
  - destruct s; reflexivity.
  - rewrite Ascii.eqb_refl. exact IH.
Qed.

Lemma TrimPrefix_append (p s : string) :
  GoStrings.TrimPrefix (String.append p s) p = s.
Proof. unfold GoStrings.TrimPrefix. rewrite TrimPrefix_aux_append. reflexivity. Qed.

Lemma ContainsByte_existsb (c : ascii) (s : string) :
  GoStrings.ContainsByte c s = existsb (Ascii.eqb c) (list_ascii_of_string s).
Proof. induction s as [|d s IH]; simpl; [reflexivity|]. rewrite IH. reflexivity. Qed.

Lemma existsb_rev_false {A : Type} (f : A -> bool) (l : list A) :
  existsb f l = false -> existsb f (List.rev l) = false.
Proof.
  intros Hf. apply not_true_is_false. intros Hr.
  apply existsb_exists in Hr. destruct Hr as [x [Hin Hx]].
  apply in_rev in Hin.
  assert (Ht : existsb f l = true) by (apply existsb_exists; eauto).
  congruence.
Qed.

Lemma ContainsByte_revString (c : ascii) (s : string) :
  GoStrings.ContainsByte c s = false ->
  GoStrings.ContainsByte c (GoStrings.revString s) = false.
Proof.
  rewrite !ContainsByte_existsb. unfold GoStrings.revString.
  rewrite list_ascii_of_string_of_list_ascii. apply existsb_rev_false.
Qed.

Lemma revString_involutive (s : string) :
  GoStrings.revString (GoStrings.revString s) = s.
Proof.
  unfold GoStrings.revString.
  rewrite list_ascii_of_string_of_list_ascii, List.rev_involutive.
  apply string_of_list_ascii_of_string.
Qed.

Lemma trimLeftByte_absent (c : ascii) (s : string) :
  GoStrings.ContainsByte c s = false -> GoStrings.trimLeftByte c s = s.
Proof.
  destruct s as [|d s]; simpl; [reflexivity|].
  destruct (Ascii.eqb c d); simpl; [discriminate | reflexivity].
Qed.

Lemma TrimByte_absent (c : ascii) (s : string) :
  GoStrings.ContainsByte c s = false -> GoStrings.TrimByte s c = s.
Proof.
  intros Hs. unfold GoStrings.TrimByte.
  rewrite (trimLeftByte_absent c s Hs).
  rewrite (trimLeftByte_absent c _ (ContainsByte_revString c s Hs)).
  apply revString_involutive.
Qed.

Lemma SplitByte_absent (c : ascii) (s : string) :
  GoStrings.ContainsByte c s = false -> GoStrings.SplitByte c s = (s, []).
Proof.
  induction s as [|d s IH]; simpl; [reflexivity|].
  destruct (Ascii.eqb c d); simpl; [discriminate|].
  intros Hs. rewrite (IH Hs). reflexivity.
Qed.

(** [sanitize] empties exactly the values that trim to nothing or that
    keep, once trimmed, a character outside the class. *)
Lemma sanitize_empty_iff (v : string) :
  Handlers.sanitize v = ""
  <-> GoStrings.TrimSpace v = ""
      \/ exists c, In c (list_ascii_of_string (GoStrings.TrimSpace v))
                   /\ Handlers.safeChar c = false.
Proof.
  unfold Handlers.sanitize, Handlers.safeToken_MatchString.
  destruct (GoStrings.TrimSpace v) as [|d w] eqn:Ev; simpl.
  - split; [intros _; left; reflexivity | reflexivity].
  - set (l := d :: list_ascii_of_string w).
    change (Handlers.safeChar d && forallb Handlers.safeChar (list_ascii_of_string w))
      with (forallb Handlers.safeChar l).
    destruct (forallb Handlers.safeChar l) eqn:Ef; simpl.
    + split; [discriminate|].
      intros [Hn | [c [Hin Hc]]]; [discriminate|].
      rewrite forallb_forall in Ef. specialize (Ef c Hin). congruence.
    + split; [|reflexivity]. intros _. right.
      assert (Hex : existsb (fun c => negb (Handlers.safeChar c)) l = true).
      { clear -Ef. induction l as [|x l IH]; simpl in *; [discriminate|].
        destruct (Handlers.safeChar x); simpl in *; [apply IH, Ef | reflexivity]. }
      apply existsb_exists in Hex. destruct Hex as [c [Hin Hc]].
      exists c. split; [exact Hin|]. destruct (Handlers.safeChar c); [discriminate | reflexivity].
Qed.

Section TraceByIDFacts.
Context `{GoLib}.
Variable Row : Type.
Variable columns : Row -> Handlers.spanCols.
Variable Query : Handlers.SQL -> result (list Row).

(** The handler answers 400 without a query exactly when [sanitize]
    empties the first segment of the path that follows the prefix. *)
Lemma TraceByID_segment (id : string) :
  GoStrings.ContainsByte "/" id = false ->
  Handlers.sanitize id = "" ->
  Handlers.TraceByID Row columns Query (String.append "/v1/traces/" id)
  = (400, Handlers.TextBody "invalid trace id", []).
Proof.
  intros Hslash Hs. unfold Handlers.TraceByID.
  rewrite TrimPrefix_append, (TrimByte_absent "/" id Hslash).
  destruct (GoStrings.isEmpty id); [reflexivity|].
  rewrite (SplitByte_absent "/" id Hslash). simpl. rewrite Hs. reflexivity.
Qed.

(** C10 (as amended): a trace id that is one segment of the path (it
    has no [/]) and that trims to nothing, or that keeps once trimmed a
    character outside [[A-Za-z0-9._:/-]], is answered by
    [GET /v1/traces/{id}] with 400 "invalid trace id" and no query to
    the store; yet ingest accepts an event with any correlation id that
    does not trim to nothing, and stores it under that trimmed id. *)
Theorem unsafe_trace_id_rejected_after_ingest (now : Z) (e : Model.IngestEvent.t)
    (raw id : string) :
  GoStrings.ContainsByte "/" id = false ->
  (GoStrings.TrimSpace id = ""
   \/ exists c, In c (list_ascii_of_string (GoStrings.TrimSpace id))
                /\ Handlers.safeChar c = false) ->
  Handlers.TraceByID Row columns Query (String.append "/v1/traces/" id)
  = (400, Handlers.TextBody "invalid trace id", [])
  /\ (GoStrings.TrimSpace (Model.IngestEvent.CorrelationID e) = id ->
      id <> "" ->
      GoStrings.TrimSpace (Model.IngestEvent.Timestamp e) = "" ->
      exists row, Model.ToRaw now e raw = Ok (row, now)
                  /\ Model.RawLogRow.TraceID row = id).
Proof.
  intros Hslash Hbad. split.
  - apply TraceByID_segment; [exact Hslash|]. apply sanitize_empty_iff, Hbad.
  - intros Hcid Hne Hts. unfold Model.ToRaw. rewrite Hcid, Hts.
    destruct id as [|c id']; [congruence|]. simpl.
    eexists. split; reflexivity.
Qed.

End TraceByIDFacts.

(** C10, counterexample: the id [" abc"] has a space, and the id
    ["a/b#c"] has a [#]; neither is answered with 400.  The handler
    trims the first and asks the store for ["abc"]; it cuts the second
    at the [/] and asks the store for ["a"]. *)
Lemma TraceByID_serves_padded_and_split_ids :
  let columns := fun _ : unit => Handlers.mkSpanCols "" "" "" "" "" 0 0 0%float 0 0 in
  let Query := fun _ : Handlers.SQL => Ok (@nil unit) in
  Handlers.TraceByID (H := Demo.lib) unit columns Query "/v1/traces/ abc"
  = (200, Handlers.TraceBody None [], [Handlers.TraceSQL "abc"; Handlers.SpanSQL "abc"])
  /\ Handlers.TraceByID (H := Demo.lib) unit columns Query "/v1/traces/a/b#c"
     = (200, Handlers.TraceBody None [], [Handlers.TraceSQL "a"; Handlers.SpanSQL "a"]).
Proof. split; vm_compute; reflexivity. Qed.

(** The correlation id [order#42]. *)
Lemma unsafe_trace_id_rejected_after_ingest_witness :
  let id := "order#42" in
  let e := Demo.emptyEvent id in
  GoStrings.ContainsByte "/" id = false
  /\ (GoStrings.TrimSpace id = ""
      \/ exists c, In c (list_ascii_of_string (GoStrings.TrimSpace id))
                   /\ Handlers.safeChar c = false)
  /\ Handlers.TraceByID (H := Demo.lib) unit (fun _ => Handlers.mkSpanCols "" "" "" "" "" 0 0 0%float 0 0)
       (fun _ => Ok []) (String.append "/v1/traces/" id)
     = (400, Handlers.TextBody "invalid trace id", [])
  /\ (GoStrings.TrimSpace (Model.IngestEvent.CorrelationID e) = id ->
      id <> "" ->
      GoStrings.TrimSpace (Model.IngestEvent.Timestamp e) = "" ->
      exists row, Model.ToRaw (H := Demo.lib) Demo.day0 e "{}" = Ok (row, Demo.day0)
                  /\ Model.RawLogRow.TraceID row = id).
Proof.
  intros id e.
  assert (Hslash : GoStrings.ContainsByte "/" id = false) by reflexivity.
  assert (Hbad : GoStrings.TrimSpace id = ""
                 \/ exists c, In c (list_ascii_of_string (GoStrings.TrimSpace id))
                              /\ Handlers.safeChar c = false).
  { right. exists "#"%char. split; [vm_compute; tauto | reflexivity]. }
  split; [exact Hslash|]. split; [exact Hbad|].
  exact (unsafe_trace_id_rejected_after_ingest (H := Demo.lib) unit _ _ Demo.day0 e "{}" id
           Hslash Hbad).
Defined.

(** ** Flush and the store *)

Lemma flushTrace_lookup_ne (sch : Reconstruct.Schedule) (w : Z) (a : Reconstruct.flushAcc)
    (k k' : string) :
  k <> k' ->
  Reconstruct.fa_traces (Reconstruct.flushTrace sch w a k) !! k'
  = Reconstruct.fa_traces a !! k'.
Proof.
  intros Hne. unfold Reconstruct.flushTrace.
  destruct (Reconstruct.fa_traces a !! k) as [t|]; [|reflexivity].
  destruct (GoTime.Sub _ _ <? w); [reflexivity|].
  destruct (Reconstruct.finalizeSpans _ _ _ t); simpl; apply lookup_delete_ne, Hne.
Qed.

Lemma flushTrace_lookup_aged (sch : Reconstruct.Schedule) (w : Z) (a : Reconstruct.flushAcc)
    (k : string) (t : Reconstruct.traceState) :
  Reconstruct.fa_traces a !! k = Some t ->
  w <= GoTime.Sub (Reconstruct.sch_now sch) (Reconstruct.t_updatedAt t) ->
  Reconstruct.fa_traces (Reconstruct.flushTrace sch w a k) !! k = None.
Proof.
  intros Hk Haged. unfold Reconstruct.flushTrace. rewrite Hk.
  destruct (GoTime.Sub _ _ <? w) eqn:E; [apply Z.ltb_lt in E; lia|].
  destruct (Reconstruct.finalizeSpans _ _ _ t); simpl; apply lookup_delete_eq.
Qed.

Lemma flushTrace_lookup_gone (sch : Reconstruct.Schedule) (w : Z) (a : Reconstruct.flushAcc)
    (k k' : string) :
  Reconstruct.fa_traces a !! k' = None ->
  Reconstruct.fa_traces (Reconstruct.flushTrace sch w a k) !! k' = None.
Proof.
  intros Hk'. destruct (decide (k = k')) as [->|Hne].
  - unfold Reconstruct.flushTrace. rewrite Hk'. exact Hk'.
  - rewrite flushTrace_lookup_ne by exact Hne. exact Hk'.
Qed.

Lemma flush_loop_gone (sch : Reconstruct.Schedule) (w : Z) (ord : list string) :
  forall (a : Reconstruct.flushAcc) (k : string),
    Reconstruct.fa_traces a !! k = None ->
    Reconstruct.fa_traces (fold_left (Reconstruct.flushTrace sch w) ord a) !! k = None.
Proof.
  induction ord as [|x ord IH]; intros a k Hk; simpl; [exact Hk|].
  apply IH, flushTrace_lookup_gone, Hk.
Qed.

Lemma flush_loop_aged (sch : Reconstruct.Schedule) (w : Z) (ord : list string) :
  forall (a : Reconstruct.flushAcc) (k : string) (t : Reconstruct.traceState),
    In k ord ->
    Reconstruct.fa_traces a !! k = Some t ->
    w <= GoTime.Sub (Reconstruct.sch_now sch) (Reconstruct.t_updatedAt t) ->
    Reconstruct.fa_traces (fold_left (Reconstruct.flushTrace sch w) ord a) !! k = None.
Proof.
  induction ord as [|x ord IH]; intros a k t Hin Hk Haged; simpl; [destruct Hin|].
  destruct (decide (x = k)) as [->|Hne].
  - apply flush_loop_gone. eapply flushTrace_lookup_aged; eauto.
  - destruct Hin as [E|Hin]; [congruence|].
    apply (IH _ k t Hin); [|exact Haged].
    rewrite flushTrace_lookup_ne by exact Hne. exact Hk.
Qed.

(** C4 (as amended): the flush deletes every trace that has aged out
    of the window from memory, and does so whatever the store answers:
    the errors of the inserts are not read, and the reconstructor after
    the flush is the same for a store that fails as for one that
    accepts. *)
Theorem FlushNow_drops_aged_traces (ch ch' : Clickhouse.Client) (sch : Reconstruct.Schedule)
    (r : Reconstruct.Reconstructor) (traceID : string) (t : Reconstruct.traceState) :
  Reconstruct.traces r !! traceID = Some t ->
  In traceID (Reconstruct.sch_traces sch) ->
  Reconstruct.window r
    <= GoTime.Sub (Reconstruct.sch_now sch) (Reconstruct.t_updatedAt t) ->
  Reconstruct.traces (fst (Reconstruct.FlushNow ch sch r)) !! traceID = None
  /\ fst (Reconstruct.FlushNow ch sch r) = fst (Reconstruct.FlushNow ch' sch r).
Proof.
  intros Ht Hin Haged. split; [|reflexivity].
  unfold Reconstruct.FlushNow; simpl.
  apply (flush_loop_aged sch _ _ _ traceID t Hin); [exact Ht | exact Haged].
Qed.

(** The state [Demo.reconA] is what two events fold to. *)
Lemma demo_reconA_folded :
  Reconstruct.Add (H := Demo.lib) (Reconstruct.New Demo.window)
    [Demo.row "svc-a" "A" "s1" "" "start" 0 0; Demo.row "svc-a" "A" "s1" "" "end" 0 100]
    [Demo.day0; Demo.day0 + 100 * GoTime.Millisecond] = Some Demo.reconA.
Proof. vm_compute. reflexivity. Qed.

(** The trace of [Demo.reconA], flushed ten minutes after [day0] by a
    store that refuses every insert. *)
Lemma FlushNow_drops_aged_traces_witness :
  let sch := Demo.schedule 10 ["s1"] in
  let failing : Clickhouse.Client := fun _ => Some "clickhouse insert failed" in
  Reconstruct.traces Demo.reconA !! "A" = Some Demo.traceA
  /\ In "A" (Reconstruct.sch_traces sch)
  /\ Reconstruct.window Demo.reconA
     <= GoTime.Sub (Reconstruct.sch_now sch) (Reconstruct.t_updatedAt Demo.traceA)
  /\ Reconstruct.traces (fst (Reconstruct.FlushNow failing sch Demo.reconA)) !! "A" = None
  /\ fst (Reconstruct.FlushNow failing sch Demo.reconA)
     = fst (Reconstruct.FlushNow (fun _ => None) sch Demo.reconA).
Proof.
  intros sch failing.
  assert (Ht : Reconstruct.traces Demo.reconA !! "A" = Some Demo.traceA)
    by (vm_compute; reflexivity).
  assert (Hin : In "A" (Reconstruct.sch_traces sch)) by (left; reflexivity).
  assert (Haged : Reconstruct.window Demo.reconA
                  <= GoTime.Sub (Reconstruct.sch_now sch)
                       (Reconstruct.t_updatedAt Demo.traceA))
    by (vm_compute; discriminate).
  split; [exact Ht|]. split; [exact Hin|]. split; [exact Haged|].
  exact (FlushNow_drops_aged_traces failing (fun _ => None) sch Demo.reconA "A" Demo.traceA
           Ht Hin Haged).
Defined.

(** C4, counterexample: the store refuses every insert of a flush; the
    trace that was flushed is no longer in memory afterwards. *)
Lemma FlushNow_store_failure_loses_trace :
  let out := Reconstruct.FlushNow (fun _ => Some "clickhouse insert failed")
               (Demo.schedule 10 ["s1"]) Demo.reconA in
  is_Some (Reconstruct.traces Demo.reconA !! "A")
  /\ Reconstruct.traces (fst out) !! "A" = None
  /\ List.map snd (snd out)
     = [Some "clickhouse insert failed"; Some "clickhouse insert failed"].
Proof.
  split; [vm_compute; eexists; reflexivity|].
  split; vm_compute; reflexivity.
Qed.

(** ** Finalized spans *)

Lemma childTotalOf_nonneg (store : gmap string Reconstruct.spanState) (kids : list string) :
  0 <= Reconstruct.childTotalOf store kids.
Proof.
  unfold Reconstruct.childTotalOf.
  assert (Hgen : forall total, 0 <= total ->
            0 <= fold_left (fun total c =>
                   match store !! c with
                   | Some child => wrap32 (total + Reconstruct.childDuration child)
                   | None => total
                   end) kids total).
  { induction kids as [|c kids IH]; intros total Ht; simpl; [exact Ht|].
    apply IH. destruct (store !! c); [|exact Ht].
    unfold wrap32. apply Z.mod_pos_bound. lia. }
  apply Hgen. lia.
Qed.

(** The self time is the duration less the children's total when that
    total is strictly below the duration, and the duration otherwise,
    also when the two are equal. *)
Lemma selfTimeOf_cases (duration childTotal : Z) :
  (childTotal < duration -> Reconstruct.selfTimeOf duration childTotal = duration - childTotal)
  /\ (duration <= childTotal -> Reconstruct.selfTimeOf duration childTotal = duration).
Proof.
  unfold Reconstruct.selfTimeOf. split; intros Hc.
  - apply Z.ltb_lt in Hc. rewrite Hc. reflexivity.
  - apply Z.ltb_ge in Hc. rewrite Hc. reflexivity.
Qed.

Lemma selfTimeOf_le (duration childTotal : Z) :
  0 <= childTotal -> Reconstruct.selfTimeOf duration childTotal <= duration.
Proof.
  intros Hc. unfold Reconstruct.selfTimeOf. destruct (childTotal <? duration); lia.
Qed.

Lemma finalizeSpan_self_le_duration (children : gmap string (list string))
    (now : string -> Z) (acc : gmap string Reconstruct.spanState * list Model.SpanRow.t)
    (k : string) :
  List.Forall (fun row => Model.SpanRow.SelfTimeMs row <= Model.SpanRow.DurationMs row) (snd acc) ->
  List.Forall (fun row => Model.SpanRow.SelfTimeMs row <= Model.SpanRow.DurationMs row)
    (snd (Reconstruct.finalizeSpan children now acc k)).
Proof.
  intros Hacc. unfold Reconstruct.finalizeSpan. destruct acc as [store out].
  destruct (store !! k) as [s|]; [|exact Hacc].
  destruct (Reconstruct.inferBounds (now k) s) as [s1 src].
  destruct (Reconstruct.spanDuration s1) as [s2 duration]. simpl.
  apply List.Forall_app. split; [exact Hacc|].
  constructor; [|constructor]. simpl.
  apply selfTimeOf_le, childTotalOf_nonneg.
Qed.

(** Every span that finalization emits has [self_time_ms <=
    duration_ms], whatever events were folded and in whatever order the
    spans are visited. *)
Lemma finalizeSpans_self_le_duration (ord1 ord2 : list string) (now : string -> Z)
    (t : Reconstruct.traceState) :
  List.Forall (fun row => Model.SpanRow.SelfTimeMs row <= Model.SpanRow.DurationMs row)
    (Reconstruct.finalizeSpans ord1 ord2 now t).
Proof.
  unfold Reconstruct.finalizeSpans.
  set (children := Reconstruct.buildChildren ord1 (Reconstruct.t_spans t)).
  assert (Hgen : forall acc,
            List.Forall (fun row => Model.SpanRow.SelfTimeMs row <= Model.SpanRow.DurationMs row)
              (snd acc) ->
            List.Forall (fun row => Model.SpanRow.SelfTimeMs row <= Model.SpanRow.DurationMs row)
              (snd (fold_left (Reconstruct.finalizeSpan children now) ord2 acc))).
  { induction ord2 as [|k ord2 IH]; intros acc Hacc; simpl; [exact Hacc|].
    apply IH, finalizeSpan_self_le_duration, Hacc. }
  apply Hgen. constructor.
Qed.

(** The bounds of a span come out of finalization in order, unless the
    span carries an explicit duration together with a start and an end
    that the events left out of order: only the branch that computes
    the duration from the bounds moves the end up to the start. *)
Lemma finalize_bounds_ordered (now : Z) (s : Reconstruct.spanState) :
  0 <= Reconstruct.durationMs s ->
  Reconstruct.durationMs s = 0 \/ Reconstruct.startTs s = 0 \/ Reconstruct.endTs s = 0
  \/ Reconstruct.startTs s <= Reconstruct.endTs s ->
  let s' := fst (Reconstruct.spanDuration (fst (Reconstruct.inferBounds now s))) in
  Model.FormatCHTime (Reconstruct.startTs s') <= Model.FormatCHTime (Reconstruct.endTs s').
Proof.
  intros Hdur Hcase s'. unfold Model.FormatCHTime.
  apply Z.div_le_mono; [lia|]. subst s'.
  destruct s as [tid sid par svc en hst ver op st et dur sc err src].
  cbn [Reconstruct.durationMs Reconstruct.startTs Reconstruct.endTs] in Hdur, Hcase.
  unfold Reconstruct.inferBounds, Reconstruct.spanDuration, Reconstruct.set_startTs,
    Reconstruct.set_endTs, Reconstruct.msDuration, GoTime.IsZero, GoTime.Before, GoTime.Add,
    GoTime.Millisecond.
  cbn [Reconstruct.startTs Reconstruct.endTs Reconstruct.durationMs Reconstruct.source].
  repeat match goal with
         | |- context [(st =? 0)%Z] => destruct (Z.eqb_spec st 0); simpl
         | |- context [(et =? 0)%Z] => destruct (Z.eqb_spec et 0); simpl
         | |- context [(0 <? dur)%Z] => destruct (Z.ltb_spec 0 dur); simpl
         | |- context [(dur =? 0)%Z] => destruct (Z.eqb_spec dur 0); simpl
         end.
  all: repeat match goal with
              | |- context [(?x =? ?y)%Z] => destruct (Z.eqb_spec x y); simpl
              | |- context [(?x <? ?y)%Z] => destruct (Z.ltb_spec x y); simpl
              end.
  all: try lia.
Qed.

(** C2, the code at the failing input: the start event of a span
    arrives with a timestamp one second after [day0], its end event
    with a timestamp half a second after [day0] and [durationMs = 10].
    The span that the flush emits starts 500 ms after it ends. *)
Theorem flush_emits_end_before_start :
  let rows := [Demo.row "svc-a" "A" "s1" "" "start" 0 0;
               Demo.row "svc-a" "A" "s1" "" "end" 0 10] in
  let times := [Demo.day0 + 1000 * GoTime.Millisecond; Demo.day0 + 500 * GoTime.Millisecond] in
  exists r span,
    Reconstruct.Add (H := Demo.lib) (Reconstruct.New Demo.window) rows times = Some r
    /\ Clickhouse.insertedSpans
         (snd (Reconstruct.FlushNow (fun _ => None) (Demo.schedule 10 ["s1"]) r)) = [span]
    /\ Model.SpanRow.StartTS span = Model.FormatCHTime Demo.day0 + 1000
    /\ Model.SpanRow.EndTS span = Model.FormatCHTime Demo.day0 + 500
    /\ Model.SpanRow.DurationMs span = 10
    /\ Model.SpanRow.EndTS span < Model.SpanRow.StartTS span.
Proof.
  eexists. eexists. split; [reflexivity|]. split; [vm_compute; reflexivity|].
  repeat split.
Qed.

(** C5, the code at the failing input: a span of 100 ms has one child
    of 100 ms.  The sum of the child durations equals the duration of
    the parent, and the flush emits the parent with [self_time_ms =
    100]. *)
Theorem flush_self_time_at_equality :
  let rows := [Demo.row "svc-a" "A" "s1" "" "start" 0 0;
               Demo.row "svc-a" "A" "s1" "" "end" 0 100;
               Demo.row "svc-b" "A" "s2" "s1" "start" 0 0;
               Demo.row "svc-b" "A" "s2" "s1" "end" 0 100] in
  let times := [Demo.day0; Demo.day0 + 100 * GoTime.Millisecond;
                Demo.day0; Demo.day0 + 100 * GoTime.Millisecond] in
  exists r,
    Reconstruct.Add (H := Demo.lib) (Reconstruct.New Demo.window) rows times = Some r
    /\ List.map (fun s => (Model.SpanRow.SpanID s, Model.SpanRow.ParentSpanID s,
                           Model.SpanRow.DurationMs s, Model.SpanRow.SelfTimeMs s))
         (Clickhouse.insertedSpans
            (snd (Reconstruct.FlushNow (fun _ => None) (Demo.schedule 10 ["s1"; "s2"]) r)))
       = [("s1", "", 100, 100); ("s2", "s1", 100, 100)].
Proof.
  eexists. split; [reflexivity|]. vm_compute. reflexivity.
Qed.

(** ** The critical path of a two-span cycle *)

Section Cycle.
Variable spans : gmap string Model.SpanRow.t.
Variable children : gmap string (list string).

Lemma dfs_unfold (fuel : nat) (id : string) (st : Reconstruct.dfsState) :
  Reconstruct.dfs spans children (S fuel) id st
  = match fst st !! id with
    | Some v => Some (v, st)
    | None =>
        if default false (snd st !! id) then Some (0, st)
        else
          match Reconstruct.bestChildLoop (Reconstruct.dfs spans children fuel)
                  (default [] (children !! id)) (fst st, <[id := true]> (snd st)) 0 with
          | None => None
          | Some (bestChild, st') =>
              let total :=
                wrap32 (Model.SpanRow.DurationMs (default Model.SpanRow.zero (spans !! id))
                        + bestChild) in
              Some (total, (<[id := total]> (fst st'), <[id := false]> (snd st')))
          end
    end.
Proof. reflexivity. Qed.

(** Entering the cycle at [x]: the search goes down to [y], finds [x]
    being visited, and comes back with the two durations added up. *)
Lemma dfs_cycle_entry (n : nat) (x y : string) (sx sy : Model.SpanRow.t) :
  x <> y ->
  spans !! x = Some sx -> spans !! y = Some sy ->
  children !! x = Some [y] -> children !! y = Some [x] ->
  0 <= Model.SpanRow.DurationMs sx -> 0 <= Model.SpanRow.DurationMs sy ->
  Model.SpanRow.DurationMs sx + Model.SpanRow.DurationMs sy < 2 ^ 32 ->
  exists st,
    Reconstruct.dfs spans children (S (S (S n))) x (∅, ∅)
    = Some (Model.SpanRow.DurationMs sx + Model.SpanRow.DurationMs sy, st)
    /\ fst st !! y = Some (Model.SpanRow.DurationMs sy).
Proof.
  intros Hxy Hx Hy Hcx Hcy H0x H0y Hsum.
  rewrite dfs_unfold. cbn [fst snd].
  rewrite !lookup_empty. cbn [default from_option id].
  rewrite Hcx, Hx. cbn [default from_option id Reconstruct.bestChildLoop].
  rewrite dfs_unfold. cbn [fst snd].
  rewrite lookup_empty, (lookup_insert_ne _ x y) by exact Hxy.
  rewrite lookup_empty. cbn [default from_option id].
  rewrite Hcy, Hy. cbn [default from_option id Reconstruct.bestChildLoop].
  rewrite dfs_unfold. cbn [fst snd].
  rewrite lookup_empty.
  rewrite (lookup_insert_ne _ y x) by congruence.
  rewrite lookup_insert_eq. cbn [default from_option id fst snd].
  change (0 <? 0) with false. cbv iota.
  assert (Ey : wrap32 (Model.SpanRow.DurationMs sy + 0) = Model.SpanRow.DurationMs sy).
  { unfold wrap32. rewrite Z.add_0_r. apply Z.mod_small. lia. }
  rewrite Ey.
  assert (Eb : (if 0 <? Model.SpanRow.DurationMs sy then Model.SpanRow.DurationMs sy else 0)
               = Model.SpanRow.DurationMs sy).
  { destruct (0 <? Model.SpanRow.DurationMs sy) eqn:E; [reflexivity|].
    apply Z.ltb_ge in E. lia. }
  rewrite Eb.
  assert (Ex : wrap32 (Model.SpanRow.DurationMs sx + Model.SpanRow.DurationMs sy)
               = Model.SpanRow.DurationMs sx + Model.SpanRow.DurationMs sy).
  { unfold wrap32. apply Z.mod_small. lia. }
  rewrite Ex.
  eexists. split; [reflexivity|]. cbn [fst].
  rewrite (lookup_insert_ne _ x y) by exact Hxy. apply lookup_insert_eq.
Qed.

Lemma dfs_memoized (n : nat) (id : string) (st : Reconstruct.dfsState) (v : Z) :
  fst st !! id = Some v ->
  Reconstruct.dfs spans children (S n) id st = Some (v, st).
Proof. intros Hm. rewrite dfs_unfold, Hm. reflexivity. Qed.

(** The first loop of [criticalPath] finds no root when every span has
    a parent that is present. *)
Lemma seedLoop_no_root (fuel : nat) (ord : list string) (st : Reconstruct.dfsState) (best : Z) :
  (forall k s, spans !! k = Some s ->
     GoStrings.isEmpty (Model.SpanRow.ParentSpanID s) = false
     /\ is_Some (spans !! Model.SpanRow.ParentSpanID s)) ->
  Reconstruct.seedLoop spans children fuel true ord st best = Some (best, st).
Proof.
  intros Hall. induction ord as [|k ord IH]; [reflexivity|].
  cbn [Reconstruct.seedLoop]. destruct (spans !! k) as [s|] eqn:Ek; [|exact IH].
  destruct (Hall k s Ek) as [Hne Hp].
  rewrite Hne, (bool_decide_eq_true_2 _ Hp). exact IH.
Qed.

Lemma seedLoop_cycle (n : nat) (x y : string) (sx sy : Model.SpanRow.t) :
  x <> y ->
  spans !! x = Some sx -> spans !! y = Some sy ->
  children !! x = Some [y] -> children !! y = Some [x] ->
  0 <= Model.SpanRow.DurationMs sx -> 0 <= Model.SpanRow.DurationMs sy ->
  Model.SpanRow.DurationMs sx + Model.SpanRow.DurationMs sy < 2 ^ 32 ->
  exists st,
    Reconstruct.seedLoop spans children (S (S (S n))) false [x; y] (∅, ∅) 0
    = Some (Model.SpanRow.DurationMs sx + Model.SpanRow.DurationMs sy, st).
Proof.
  intros Hxy Hx Hy Hcx Hcy H0x H0y Hsum.
  destruct (dfs_cycle_entry n x y sx sy Hxy Hx Hy Hcx Hcy H0x H0y Hsum) as [st [Hd Hm]].
  exists st. cbn [Reconstruct.seedLoop]. rewrite Hx. cbn [andb]. rewrite Hd, Hy.
  cbn [andb]. rewrite (dfs_memoized _ y st _ Hm).
  f_equal. f_equal.
  destruct (0 <? Model.SpanRow.DurationMs sx + Model.SpanRow.DurationMs sy) eqn:E1.
  - destruct (_ <? Model.SpanRow.DurationMs sy) eqn:E2; [apply Z.ltb_lt in E2; lia | reflexivity].
  - apply Z.ltb_ge in E1.
    destruct (0 <? Model.SpanRow.DurationMs sy) eqn:E2; [apply Z.ltb_lt in E2; lia | lia].
Qed.

Lemma criticalPathFuel_cycle (n : nat) (ord1 ord2 : list string) (x y : string)
    (sx sy : Model.SpanRow.t) :
  x <> y ->
  spans !! x = Some sx -> spans !! y = Some sy ->
  (forall k, k <> x -> k <> y -> spans !! k = None) ->
  Model.SpanRow.ParentSpanID sx = y -> Model.SpanRow.ParentSpanID sy = x ->
  x <> "" -> y <> "" ->
  children !! x = Some [y] -> children !! y = Some [x] ->
  0 <= Model.SpanRow.DurationMs sx -> 0 <= Model.SpanRow.DurationMs sy ->
  Model.SpanRow.DurationMs sx + Model.SpanRow.DurationMs sy < 2 ^ 32 ->
  Permutation ord2 [x; y] ->
  Reconstruct.criticalPathFuel (S (S (S n))) ord1 ord2 spans children
  = Some (Model.SpanRow.DurationMs sx + Model.SpanRow.DurationMs sy).
Proof.
  intros Hxy Hx Hy Honly Hpx Hpy Hxe Hye Hcx Hcy H0x H0y Hsum Hperm.
  unfold Reconstruct.criticalPathFuel.
  rewrite seedLoop_no_root.
  2:{ intros k s Hk.
      destruct (decide (k = x)) as [->|Hkx].
      - rewrite Hx in Hk. injection Hk as <-. rewrite Hpx. split; [|eauto].
        destruct y; [congruence | reflexivity].
      - destruct (decide (k = y)) as [->|Hky].
        + rewrite Hy in Hk. injection Hk as <-. rewrite Hpy. split; [|eauto].
          destruct x; [congruence | reflexivity].
        + rewrite (Honly k Hkx Hky) in Hk. discriminate Hk. }
  change (0 =? 0) with true. cbv iota.
  apply Permutation_sym, Permutation_length_2_inv in Hperm.
  destruct Hperm as [-> | ->].
  - destruct (seedLoop_cycle n x y sx sy Hxy Hx Hy Hcx Hcy H0x H0y Hsum) as [st ->].
    reflexivity.
  - assert (Hyx : y <> x) by congruence.
    assert (Hsum' : Model.SpanRow.DurationMs sy + Model.SpanRow.DurationMs sx < 2 ^ 32) by lia.
    destruct (seedLoop_cycle n y x sy sx Hyx Hy Hx Hcy Hcx H0y H0x Hsum') as [st ->].
    f_equal. lia.
Qed.

End Cycle.

Lemma isEmpty_false (s : string) : s <> "" -> GoStrings.isEmpty s = false.
Proof. destruct s; [congruence | reflexivity]. Qed.

(** The index that [buildTraceRow] builds for two spans that name each
    other as parent. *)
Lemma rollupOf_cycle (now : Reconstruct.parseCall -> Z) (s0 sx sy : Model.SpanRow.t) :
  Model.SpanRow.SpanID sx <> Model.SpanRow.SpanID sy ->
  Model.SpanRow.ParentSpanID sx = Model.SpanRow.SpanID sy ->
  Model.SpanRow.ParentSpanID sy = Model.SpanRow.SpanID sx ->
  Model.SpanRow.SpanID sx <> "" -> Model.SpanRow.SpanID sy <> "" ->
  let a := Reconstruct.rollupOf now s0 [sx; sy] in
  Reconstruct.ru_byID a !! Model.SpanRow.SpanID sx = Some sx
  /\ Reconstruct.ru_byID a !! Model.SpanRow.SpanID sy = Some sy
  /\ (forall k, k <> Model.SpanRow.SpanID sx -> k <> Model.SpanRow.SpanID sy ->
        Reconstruct.ru_byID a !! k = None)
  /\ size (Reconstruct.ru_byID a) = 2%nat
  /\ Reconstruct.ru_children a !! Model.SpanRow.SpanID sx = Some [Model.SpanRow.SpanID sy]
  /\ Reconstruct.ru_children a !! Model.SpanRow.SpanID sy = Some [Model.SpanRow.SpanID sx].
Proof.
  intros Hxy Hpx Hpy Hxe Hye a. subst a.
  unfold Reconstruct.rollupOf, Reconstruct.indexed. cbn [length seq combine fold_left].
  unfold Reconstruct.rollupStep. cbn [Reconstruct.ru_byID Reconstruct.ru_children].
  rewrite Hpx, Hpy, (isEmpty_false _ Hxe), (isEmpty_false _ Hye). cbn [negb].
  unfold Reconstruct.appendAt.
  repeat split.
  - rewrite lookup_insert_ne by congruence. apply lookup_insert_eq.
  - apply lookup_insert_eq.
  - intros k Hkx Hky. rewrite !lookup_insert_ne by congruence. apply lookup_empty.
  - rewrite map_size_insert_None.
    + rewrite map_size_insert_None; [reflexivity | apply lookup_empty].
    + rewrite lookup_insert_ne by exact Hxy. apply lookup_empty.
  - rewrite lookup_insert_eq, lookup_insert_ne, lookup_empty by congruence. reflexivity.
  - rewrite lookup_insert_ne, lookup_insert_eq, lookup_empty by exact Hxy. reflexivity.
Qed.

(** C3 (as amended): for a trace whose two spans name each other as
    parent, the search of the critical path ends within its bound and
    [critical_path_ms] is the sum of the two durations (when the sum fits
    [uint32]), in whatever order the spans are listed and visited. *)
Theorem two_span_cycle_critical_path (ord1 ord2 : list string)
    (now : Reconstruct.parseCall -> Z) (env traceID : string)
    (rows : list Model.SpanRow.t) (s1 s2 : Model.SpanRow.t) :
  Permutation rows [s1; s2] ->
  Permutation ord2 [Model.SpanRow.SpanID s1; Model.SpanRow.SpanID s2] ->
  Model.SpanRow.SpanID s1 <> Model.SpanRow.SpanID s2 ->
  Model.SpanRow.SpanID s1 <> "" -> Model.SpanRow.SpanID s2 <> "" ->
  Model.SpanRow.ParentSpanID s1 = Model.SpanRow.SpanID s2 ->
  Model.SpanRow.ParentSpanID s2 = Model.SpanRow.SpanID s1 ->
  0 <= Model.SpanRow.DurationMs s1 -> 0 <= Model.SpanRow.DurationMs s2 ->
  Model.SpanRow.DurationMs s1 + Model.SpanRow.DurationMs s2 < 2 ^ 32 ->
  (exists s0 rest,
     rows = s0 :: rest
     /\ let a := Reconstruct.rollupOf now s0 rows in
        Reconstruct.criticalPathFuel (S (size (Reconstruct.ru_byID a))) ord1 ord2
          (Reconstruct.ru_byID a) (Reconstruct.ru_children a)
        = Some (Model.SpanRow.DurationMs s1 + Model.SpanRow.DurationMs s2))
  /\ Model.TraceRow.CriticalPathMs (Reconstruct.buildTraceRow ord1 ord2 now env traceID rows)
     = Model.SpanRow.DurationMs s1 + Model.SpanRow.DurationMs s2.
Proof.
  intros Hrows Hord Hne He1 He2 Hp1 Hp2 H01 H02 Hsum.
  apply Permutation_sym, Permutation_length_2_inv in Hrows.
  assert (Hcrit : exists s0 rest,
            rows = s0 :: rest
            /\ Reconstruct.criticalPathFuel
                 (S (size (Reconstruct.ru_byID (Reconstruct.rollupOf now s0 rows)))) ord1 ord2
                 (Reconstruct.ru_byID (Reconstruct.rollupOf now s0 rows))
                 (Reconstruct.ru_children (Reconstruct.rollupOf now s0 rows))
               = Some (Model.SpanRow.DurationMs s1 + Model.SpanRow.DurationMs s2)).
  { destruct Hrows as [-> | ->].
    - exists s1, [s2]. split; [reflexivity|].
      destruct (rollupOf_cycle now s1 s1 s2 Hne Hp1 Hp2 He1 He2)
        as [Hb1 [Hb2 [Hb [Hsz [Hc1 Hc2]]]]].
      rewrite Hsz.
      apply (criticalPathFuel_cycle _ _ 0 ord1 ord2 (Model.SpanRow.SpanID s1)
               (Model.SpanRow.SpanID s2) s1 s2); auto.
    - exists s2, [s1]. split; [reflexivity|].
      assert (Hne' : Model.SpanRow.SpanID s2 <> Model.SpanRow.SpanID s1) by congruence.
      destruct (rollupOf_cycle now s2 s2 s1 Hne' Hp2 Hp1 He2 He1)
        as [Hb2 [Hb1 [Hb [Hsz [Hc2 Hc1]]]]].
      rewrite Hsz.
      apply (criticalPathFuel_cycle _ _ 0 ord1 ord2 (Model.SpanRow.SpanID s1)
               (Model.SpanRow.SpanID s2) s1 s2); auto. }
  split.
  - destruct Hcrit as [s0 [rest [E Hc]]]. exists s0, rest. split; [exact E | exact Hc].
  - destruct Hcrit as [s0 [rest [E Hc]]]. subst rows.
    unfold Reconstruct.buildTraceRow. cbn [Model.TraceRow.CriticalPathMs].
    unfold Reconstruct.criticalPath. rewrite Hc. reflexivity.
Qed.

(** The two spans of a trace ["A"] that name each other as parent,
    with durations of 100 ms and 60 ms. *)
Lemma two_span_cycle_critical_path_witness :
  let s1 := Model.SpanRow.Build "A" "s1" "s2" "svc-a" "prod" "h" "1.0.0" "op" 0 100 100 100 0 0
              "explicit" in
  let s2 := Model.SpanRow.Build "A" "s2" "s1" "svc-b" "prod" "h" "1.0.0" "op" 20 80 60 60 0 0
              "explicit" in
  Model.TraceRow.CriticalPathMs
    (Reconstruct.buildTraceRow ["s1"; "s2"] ["s2"; "s1"] (fun _ => Demo.day0) "prod" "A"
       [s1; s2])
  = Model.SpanRow.DurationMs s1 + Model.SpanRow.DurationMs s2.
Proof.
  intros s1 s2.
  refine (proj2 (two_span_cycle_critical_path ["s1"; "s2"] ["s2"; "s1"] (fun _ => Demo.day0)
                   "prod" "A" [s1; s2] s1 s2 _ _ _ _ _ _ _ _ _ _)).
  - apply Permutation_refl.
  - apply perm_swap.
  - discriminate.
  - discriminate.
  - discriminate.
  - reflexivity.
  - reflexivity.
  - vm_compute; discriminate.
  - vm_compute; discriminate.
  - vm_compute; reflexivity.
Defined.

(** C3, counterexample: two spans of 100 ms and 60 ms that name each
    other as parent are flushed with [critical_path_ms = 160]; the
    larger of the two durations is 100. *)
Lemma cycle_critical_path_is_sum :
  let rows := [Demo.row "svc-a" "A" "s1" "s2" "start" 0 0;
               Demo.row "svc-a" "A" "s1" "s2" "end" 0 100;
               Demo.row "svc-b" "A" "s2" "s1" "start" 0 0;
               Demo.row "svc-b" "A" "s2" "s1" "end" 0 60] in
  let times := [Demo.day0; Demo.day0 + 100 * GoTime.Millisecond;
                Demo.day0 + 20 * GoTime.Millisecond; Demo.day0 + 80 * GoTime.Millisecond] in
  exists r,
    Reconstruct.Add (H := Demo.lib) (Reconstruct.New Demo.window) rows times = Some r
    /\ let log := snd (Reconstruct.FlushNow (fun _ => None) (Demo.schedule 10 ["s1"; "s2"]) r) in
       List.map Model.SpanRow.DurationMs (Clickhouse.insertedSpans log) = [100; 60]
       /\ List.map Model.TraceRow.CriticalPathMs (Clickhouse.insertedTraces log) = [160]
       /\ Z.max 100 60 <> 160.
Proof.
  eexists. split; [reflexivity|]. vm_compute. repeat split; try reflexivity. discriminate.
Qed.

(** ** The search of the critical path ends *)

Section Termination.
Variable spans : gmap string Model.SpanRow.t.
Variable children : gmap string (list string).

Local Abbreviation todo := (dfsTodo spans).
Local Abbreviation extends := dfsExtends.

Lemma extends_refl (st : Reconstruct.dfsState) : extends st st.
Proof. split; auto. Qed.

Lemma extends_trans (st1 st2 st3 : Reconstruct.dfsState) :
  extends st1 st2 -> extends st2 st3 -> extends st1 st3.
Proof.
  intros [Hm1 Hv1] [Hm2 Hv2]. split.
  - intros k Hk. apply Hm2, Hm1, Hk.
  - intros k. rewrite Hv2. apply Hv1.
Qed.

Lemma todo_extends (st st' : Reconstruct.dfsState) :
  extends st st' -> todo st' ⊆ todo st.
Proof.
  intros [Hm Hv] k. unfold dfsTodo. rewrite !elem_of_filter.
  intros [[Hmk Hvk] Hd]. split; [|exact Hd]. split.
  - destruct (fst st !! k) eqn:E; [|reflexivity].
    destruct (Hm k (ex_intro _ _ E)) as [v Hv']. congruence.
  - rewrite <- Hv. exact Hvk.
Qed.

Hypothesis children_closed :
  forall k cs c, children !! k = Some cs -> In c cs -> is_Some (spans !! c).

Lemma bestChildLoop_total (rec : string -> Reconstruct.dfsState -> option (Z * Reconstruct.dfsState))
    (bound : nat) (cs : list string) :
  (forall c st, is_Some (spans !! c) -> (size (todo st) < bound)%nat ->
     exists v st', rec c st = Some (v, st') /\ extends st st') ->
  (forall c, In c cs -> is_Some (spans !! c)) ->
  forall st best, (size (todo st) < bound)%nat ->
    exists v st', Reconstruct.bestChildLoop rec cs st best = Some (v, st') /\ extends st st'.
Proof.
  intros Hrec. induction cs as [|c cs IH]; intros Hcs st best Hsz.
  - exists best, st. split; [reflexivity | apply extends_refl].
  - cbn [Reconstruct.bestChildLoop].
    destruct (Hrec c st (Hcs c (or_introl eq_refl)) Hsz) as [v [st1 [E1 Hx1]]].
    rewrite E1.
    assert (Hsz1 : (size (todo st1) < bound)%nat).
    { eapply Nat.le_lt_trans; [apply subseteq_size, todo_extends, Hx1 | exact Hsz]. }
    destruct (IH (fun c' Hc' => Hcs c' (or_intror Hc')) st1
                (if best <? v then v else best) Hsz1) as [v' [st2 [E2 Hx2]]].
    exists v', st2. split; [exact E2 | eapply extends_trans; eauto].
Qed.

(** [dfs] returns whenever its bound exceeds the number of spans that
    are neither finished nor entered. *)
Lemma dfs_total (fuel : nat) :
  forall id st, is_Some (spans !! id) -> (size (todo st) < fuel)%nat ->
    exists v st', Reconstruct.dfs spans children fuel id st = Some (v, st') /\ extends st st'.
Proof.
  induction fuel as [|fuel IH]; intros id st Hid Hsz; [lia|].
  rewrite dfs_unfold.
  destruct (fst st !! id) as [v|] eqn:Em.
  { exists v, st. split; [reflexivity | apply extends_refl]. }
  destruct (default false (snd st !! id)) eqn:Ev.
  { exists 0, st. split; [reflexivity | apply extends_refl]. }
  set (st1 := (fst st, <[id := true]> (snd st))).
  assert (Hin : id ∈ todo st).
  { unfold dfsTodo. rewrite elem_of_filter. split; [split; assumption|].
    apply elem_of_dom. exact Hid. }
  assert (Hsub : todo st1 ⊂ todo st).
  { split.
    - intros k. unfold dfsTodo, st1. rewrite !elem_of_filter. cbn [fst snd].
      intros [[Hmk Hvk] Hd]. split; [|exact Hd]. split; [exact Hmk|].
      destruct (decide (id = k)) as [->|Hne].
      + rewrite lookup_insert_eq in Hvk. discriminate Hvk.
      + rewrite lookup_insert_ne in Hvk by exact Hne. exact Hvk.
    - intros Hsup. specialize (Hsup id Hin).
      unfold dfsTodo, st1 in Hsup. rewrite elem_of_filter in Hsup. cbn [fst snd] in Hsup.
      destruct Hsup as [[_ Hv'] _]. rewrite lookup_insert_eq in Hv'. discriminate Hv'. }
  assert (Hsz1 : (size (todo st1) < fuel)%nat).
  { apply subset_size in Hsub. lia. }
  assert (Hcs : forall c, In c (default [] (children !! id)) -> is_Some (spans !! c)).
  { destruct (children !! id) as [cs|] eqn:Ec; cbn [default from_option Datatypes.id].
    - intros c Hc. eapply children_closed; eauto.
    - intros c []. }
  destruct (bestChildLoop_total (Reconstruct.dfs spans children fuel) fuel
              (default [] (children !! id)) IH Hcs st1 0 Hsz1) as [b [st2 [E2 [Hm2 Hv2]]]].
  fold st1. rewrite E2.
  eexists. eexists. split; [reflexivity|]. split; cbn [fst snd].
  - intros k Hk. destruct (decide (id = k)) as [->|Hne].
    + rewrite lookup_insert_eq. eauto.
    + rewrite lookup_insert_ne by exact Hne. apply Hm2. exact Hk.
  - intros k. destruct (decide (id = k)) as [->|Hne].
    + rewrite lookup_insert_eq. cbn [default from_option Datatypes.id]. symmetry. exact Ev.
    + rewrite lookup_insert_ne by exact Hne. rewrite Hv2. unfold st1. cbn [snd].
      rewrite lookup_insert_ne by exact Hne. reflexivity.
Qed.

Lemma seedLoop_total (fuel : nat) (rootsOnly : bool) (ord : list string) :
  forall st best, (size (todo st) < fuel)%nat ->
    exists v st',
      Reconstruct.seedLoop spans children fuel rootsOnly ord st best = Some (v, st')
      /\ extends st st'.
Proof.
  induction ord as [|id ord IH]; intros st best Hsz.
  - exists best, st. split; [reflexivity | apply extends_refl].
  - cbn [Reconstruct.seedLoop].
    destruct (spans !! id) as [s|] eqn:Es; [|apply IH, Hsz].
    destruct (rootsOnly && negb (GoStrings.isEmpty (Model.SpanRow.ParentSpanID s))
              && bool_decide (is_Some (spans !! Model.SpanRow.ParentSpanID s)));
      [apply IH, Hsz|].
    destruct (dfs_total fuel id st (ex_intro _ _ Es) Hsz) as [v [st1 [E1 Hx1]]].
    rewrite E1.
    assert (Hsz1 : (size (todo st1) < fuel)%nat).
    { eapply Nat.le_lt_trans; [apply subseteq_size, todo_extends, Hx1 | exact Hsz]. }
    destruct (IH st1 (if best <? v then v else best) Hsz1) as [v' [st2 [E2 Hx2]]].
    exists v', st2. split; [exact E2 | eapply extends_trans; eauto].
Qed.

(** With a bound of one more than the number of spans, [criticalPath]
    returns, for every trace: the bound is never reached, whatever the
    parent references are. *)
Lemma criticalPathFuel_total (ord1 ord2 : list string) :
  exists v, Reconstruct.criticalPathFuel (S (size spans)) ord1 ord2 spans children = Some v.
Proof.
  unfold Reconstruct.criticalPathFuel.
  assert (Hsz0 : (size (todo (∅, ∅)) < S (size spans))%nat).
  { apply Nat.lt_succ_r. rewrite <- (size_dom spans).
    apply subseteq_size. intros k. unfold dfsTodo. rewrite elem_of_filter. tauto. }
  destruct (seedLoop_total (S (size spans)) true ord1 (∅, ∅) 0 Hsz0) as [v [st1 [E1 Hx1]]].
  rewrite E1. destruct (v =? 0); [|eauto].
  assert (Hsz1 : (size (todo st1) < S (size spans))%nat).
  { eapply Nat.le_lt_trans; [apply subseteq_size, todo_extends, Hx1 | exact Hsz0]. }
  destruct (seedLoop_total (S (size spans)) false ord2 st1 v Hsz1) as [v' [st2 [E2 _]]].
  rewrite E2. eauto.
Qed.

End Termination.

Lemma rollupStep_children_closed (now : Reconstruct.parseCall -> Z) (a : Reconstruct.rollup)
    (entry : nat * Model.SpanRow.t) :
  (forall k cs c, Reconstruct.ru_children a !! k = Some cs -> In c cs ->
     is_Some (Reconstruct.ru_byID a !! c)) ->
  forall k cs c,
    Reconstruct.ru_children (Reconstruct.rollupStep now a entry) !! k = Some cs -> In c cs ->
    is_Some (Reconstruct.ru_byID (Reconstruct.rollupStep now a entry) !! c).
Proof.
  destruct entry as [i s]. intros Ha k cs c. unfold Reconstruct.rollupStep.
  cbn [Reconstruct.ru_children Reconstruct.ru_byID].
  assert (Hold : forall k' cs', Reconstruct.ru_children a !! k' = Some cs' -> In c cs' ->
            is_Some (<[Model.SpanRow.SpanID s := s]> (Reconstruct.ru_byID a) !! c)).
  { intros k' cs' Hk' Hc'.
    destruct (decide (Model.SpanRow.SpanID s = c)) as [->|Hne];
      [rewrite lookup_insert_eq; eauto|].
    rewrite lookup_insert_ne by exact Hne. eapply Ha; eauto. }
  destruct (negb (GoStrings.isEmpty (Model.SpanRow.ParentSpanID s))); [|apply Hold].
  unfold Reconstruct.appendAt.
  destruct (decide (Model.SpanRow.ParentSpanID s = k)) as [->|Hnk].
  - rewrite lookup_insert_eq. intros Hk Hc. injection Hk as <-.
    apply in_app_or in Hc. destruct Hc as [Hc|[Hc|[]]].
    + destruct (Reconstruct.ru_children a !! k) as [old|] eqn:Eo;
        cbn [default from_option Datatypes.id] in Hc; [eapply Hold; eauto | destruct Hc].
    + rewrite Hc. rewrite lookup_insert_eq. eauto.
  - rewrite lookup_insert_ne by exact Hnk. apply Hold.
Qed.

Lemma rollupOf_children_closed (now : Reconstruct.parseCall -> Z) (s0 : Model.SpanRow.t)
    (rows : list Model.SpanRow.t) :
  forall k cs c,
    Reconstruct.ru_children (Reconstruct.rollupOf now s0 rows) !! k = Some cs -> In c cs ->
    is_Some (Reconstruct.ru_byID (Reconstruct.rollupOf now s0 rows) !! c).
Proof.
  unfold Reconstruct.rollupOf.
  set (a0 := Reconstruct.mkRollup _ _ _ _ _ _ _ _).
  assert (H0 : forall k cs c,
            Reconstruct.ru_children a0 !! k = Some cs -> In c cs ->
            is_Some (Reconstruct.ru_byID a0 !! c)).
  { intros k cs c Hk. unfold a0 in Hk. cbn [Reconstruct.ru_children] in Hk.
    rewrite lookup_empty in Hk. discriminate Hk. }
  clearbody a0. revert a0 H0. generalize (Reconstruct.indexed rows) as l.
  induction l as [|s l IH]; intros a0 H0; [exact H0|].
  cbn [fold_left]. apply IH. apply rollupStep_children_closed, H0.
Qed.

(** The critical path of every flushed trace is computed within the
    bound. *)
Lemma buildTraceRow_critical_path_total (ord1 ord2 : list string)
    (now : Reconstruct.parseCall -> Z) (env traceID : string)
    (s0 : Model.SpanRow.t) (rest : list Model.SpanRow.t) :
  let a := Reconstruct.rollupOf now s0 (s0 :: rest) in
  Reconstruct.criticalPathFuel (S (size (Reconstruct.ru_byID a))) ord1 ord2
    (Reconstruct.ru_byID a) (Reconstruct.ru_children a)
  = Some (Model.TraceRow.CriticalPathMs
            (Reconstruct.buildTraceRow ord1 ord2 now env traceID (s0 :: rest))).
Proof.
  intros a.
  destruct (criticalPathFuel_total (Reconstruct.ru_byID a) (Reconstruct.ru_children a)
              (rollupOf_children_closed now s0 (s0 :: rest)) ord1 ord2) as [v Hv].
  rewrite Hv. unfold Reconstruct.buildTraceRow. cbn [Model.TraceRow.CriticalPathMs].
  unfold Reconstruct.criticalPath. fold a. rewrite Hv. reflexivity.
Qed.

(** ** Arrival order *)

(** *** The fold of an event, field by field *)

Lemma foldSpan_stages `{GoLib} (row : Model.RawLogRow.t) (ts : Z) (s : Reconstruct.spanState) :
  Reconstruct.foldSpan row ts s
  = Reconstruct.foldTiming row ts (foldStatus row (foldIdentity row s)).
Proof. reflexivity. Qed.

Lemma foldIdentity_fields (row : Model.RawLogRow.t) (s : Reconstruct.spanState) :
  foldIdentity row s
  = Reconstruct.mkSpanState (Reconstruct.traceID s) (Reconstruct.spanID s)
      (nextParent row (Reconstruct.parentSpanID s))
      (fillEmpty (Model.RawLogRow.Service row) (Reconstruct.service s))
      (Reconstruct.env s)
      (fillEmpty (Model.RawLogRow.Host row) (Reconstruct.host s))
      (fillEmpty (Model.RawLogRow.Version row) (Reconstruct.version s))
      (fillEmpty (Reconstruct.chooseOperation (Model.RawLogRow.Route row)
                    (Model.RawLogRow.Message row)) (Reconstruct.operation s))
      (Reconstruct.startTs s) (Reconstruct.endTs s) (Reconstruct.durationMs s)
      (Reconstruct.statusCode s) (Reconstruct.isError s) (Reconstruct.source s).
Proof.
  destruct s as [tid sid par svc en hst ver op st et dur sc err src].
  unfold foldIdentity, nextParent, fillEmpty. span_projections.
  destruct (negb (GoStrings.isEmpty (Model.RawLogRow.ParentSpanID row)));
    unfold Reconstruct.set_parentSpanID; span_projections;
    destruct (GoStrings.isEmpty svc); unfold Reconstruct.set_service; span_projections;
    destruct (GoStrings.isEmpty ver); unfold Reconstruct.set_version; span_projections;
    destruct (GoStrings.isEmpty hst); unfold Reconstruct.set_host; span_projections;
    destruct (GoStrings.isEmpty op); reflexivity.
Qed.

Lemma foldStatus_fields (row : Model.RawLogRow.t) (s : Reconstruct.spanState) :
  foldStatus row s
  = Reconstruct.mkSpanState (Reconstruct.traceID s) (Reconstruct.spanID s)
      (Reconstruct.parentSpanID s) (Reconstruct.service s) (Reconstruct.env s)
      (Reconstruct.host s) (Reconstruct.version s) (Reconstruct.operation s)
      (Reconstruct.startTs s) (Reconstruct.endTs s) (Reconstruct.durationMs s)
      (nextStatus row (Reconstruct.statusCode s))
      (nextError row (Reconstruct.isError s)) (Reconstruct.source s).
Proof.
  destruct s as [tid sid par svc en hst ver op st et dur sc err src].
  unfold foldStatus, nextStatus, nextError.
  destruct (400 <=? Model.RawLogRow.StatusCode row) eqn:E400;
    destruct (0 <? Model.RawLogRow.StatusCode row) eqn:E0; try reflexivity.
  apply Z.leb_le in E400. apply Z.ltb_ge in E0. lia.
Qed.

Lemma foldTiming_fields `{GoLib} (row : Model.RawLogRow.t) (ts : Z) (s : Reconstruct.spanState) :
  Reconstruct.foldTiming row ts s
  = Reconstruct.mkSpanState (Reconstruct.traceID s) (Reconstruct.spanID s)
      (Reconstruct.parentSpanID s) (Reconstruct.service s) (Reconstruct.env s)
      (Reconstruct.host s) (Reconstruct.version s) (Reconstruct.operation s)
      (nextStart row ts (Reconstruct.startTs s))
      (nextEnd row ts (Reconstruct.endTs s))
      (nextDuration row (Reconstruct.durationMs s))
      (Reconstruct.statusCode s) (Reconstruct.isError s) (Reconstruct.source s).
Proof.
  destruct s as [tid sid par svc en hst ver op st et dur sc err src].
  unfold Reconstruct.foldTiming, nextStart, nextEnd, nextDuration, Spec.setsDuration,
    minInstant, maxInstant.
  span_projections.
  destruct (String.eqb (Model.RawLogRow.Event row) "start"); cbn [negb andb].
  - destruct (GoTime.IsZero st || GoTime.Before ts st); reflexivity.
  - destruct (String.eqb (Model.RawLogRow.Event row) "end").
    + destruct (GoTime.IsZero et || GoTime.After ts et);
        unfold Reconstruct.set_endTs; span_projections;
        destruct (0 <? Model.RawLogRow.DurationMs row); reflexivity.
    + destruct (0 <? Model.RawLogRow.DurationMs row); [|reflexivity].
      destruct (GoTime.IsZero et || GoTime.After ts et);
        unfold Reconstruct.set_endTs; span_projections;
        destruct (GoTime.IsZero st || GoTime.Before _ st); reflexivity.
Qed.

Lemma foldSpan_fields `{GoLib} (row : Model.RawLogRow.t) (ts : Z) (s : Reconstruct.spanState) :
  Reconstruct.foldSpan row ts s
  = Reconstruct.mkSpanState (Reconstruct.traceID s) (Reconstruct.spanID s)
      (nextParent row (Reconstruct.parentSpanID s))
      (fillEmpty (Model.RawLogRow.Service row) (Reconstruct.service s))
      (Reconstruct.env s)
      (fillEmpty (Model.RawLogRow.Host row) (Reconstruct.host s))
      (fillEmpty (Model.RawLogRow.Version row) (Reconstruct.version s))
      (fillEmpty (Reconstruct.chooseOperation (Model.RawLogRow.Route row)
                    (Model.RawLogRow.Message row)) (Reconstruct.operation s))
      (nextStart row ts (Reconstruct.startTs s))
      (nextEnd row ts (Reconstruct.endTs s))
      (nextDuration row (Reconstruct.durationMs s))
      (nextStatus row (Reconstruct.statusCode s))
      (nextError row (Reconstruct.isError s))
      (Reconstruct.source s).
Proof.
  rewrite foldSpan_stages, foldTiming_fields, foldStatus_fields, foldIdentity_fields.
  reflexivity.
Qed.

(** *** Each field resolves the same way in both orders *)

Lemma isEmpty_true (s : string) : GoStrings.isEmpty s = true -> s = "".
Proof. destruct s; [reflexivity | discriminate]. Qed.

Lemma fillEmpty_comm (a b old : string) :
  Spec.agreeNonEmpty a b = true ->
  fillEmpty b (fillEmpty a old) = fillEmpty a (fillEmpty b old).
Proof.
  unfold Spec.agreeNonEmpty, fillEmpty. intros Hab.
  destruct (GoStrings.isEmpty old) eqn:Eo; [|rewrite Eo; reflexivity].
  destruct (GoStrings.isEmpty a) eqn:Ea, (GoStrings.isEmpty b) eqn:Eb; try reflexivity.
  - apply isEmpty_true in Ea, Eb. congruence.
  - cbn [orb] in Hab. apply String.eqb_eq in Hab. congruence.
Qed.

Lemma nextParent_comm (r1 r2 : Model.RawLogRow.t) (old : string) :
  Spec.agreeNonEmpty (Model.RawLogRow.ParentSpanID r1) (Model.RawLogRow.ParentSpanID r2) = true ->
  nextParent r2 (nextParent r1 old) = nextParent r1 (nextParent r2 old).
Proof.
  unfold Spec.agreeNonEmpty, nextParent. intros Hab.
  destruct (GoStrings.isEmpty (Model.RawLogRow.ParentSpanID r1)) eqn:E1,
           (GoStrings.isEmpty (Model.RawLogRow.ParentSpanID r2)) eqn:E2;
    cbn [negb]; try reflexivity.
  cbn [orb] in Hab. apply String.eqb_eq in Hab. congruence.
Qed.

Lemma minInstant_comm (a b old : Z) :
  a <> 0 -> b <> 0 -> minInstant b (minInstant a old) = minInstant a (minInstant b old).
Proof.
  intros Ha Hb. unfold minInstant, GoTime.IsZero, GoTime.Before.
  destruct (Z.eqb_spec old 0) as [->|Hold]; cbn [orb].
  - destruct (Z.eqb_spec a 0); [lia|]. destruct (Z.eqb_spec b 0); [lia|]. cbn [orb].
    destruct (Z.ltb_spec b a), (Z.ltb_spec a b); lia.
  - destruct (Z.ltb_spec a old), (Z.ltb_spec b old); case_Z.
Qed.

Lemma maxInstant_comm (a b old : Z) :
  a <> 0 -> b <> 0 -> maxInstant b (maxInstant a old) = maxInstant a (maxInstant b old).
Proof.
  intros Ha Hb. unfold maxInstant, GoTime.IsZero, GoTime.After.
  destruct (Z.eqb_spec old 0) as [->|Hold]; cbn [orb].
  - destruct (Z.eqb_spec a 0); [lia|]. destruct (Z.eqb_spec b 0); [lia|]. cbn [orb].
    destruct (Z.ltb_spec a b), (Z.ltb_spec b a); lia.
  - destruct (Z.ltb_spec old a), (Z.ltb_spec old b); case_Z.
Qed.

Lemma IsZero_false (t : Z) : negb (GoTime.IsZero t) = true -> t <> 0.
Proof.
  unfold GoTime.IsZero. destruct (Z.eqb_spec t 0); [discriminate | auto].
Qed.

Lemma nextStart_comm (e1 e2 : Spec.event) (old : Z) :
  Spec.timingDefined e1 = true -> Spec.timingDefined e2 = true ->
  nextStart (fst e2) (snd e2) (nextStart (fst e1) (snd e1) old)
  = nextStart (fst e1) (snd e1) (nextStart (fst e2) (snd e2) old).
Proof.
  destruct e1 as [r1 t1], e2 as [r2 t2]. unfold Spec.timingDefined, nextStart. cbn [fst snd].
  destruct (String.eqb (Model.RawLogRow.Event r1) "start");
    destruct (String.eqb (Model.RawLogRow.Event r2) "start");
    destruct (String.eqb (Model.RawLogRow.Event r1) "end");
    destruct (String.eqb (Model.RawLogRow.Event r2) "end");
    destruct (0 <? Model.RawLogRow.DurationMs r1);
    destruct (0 <? Model.RawLogRow.DurationMs r2);
    intros H1 H2; try reflexivity;
    repeat match goal with
           | Hc : (_ && _) = true |- _ => apply andb_prop in Hc; destruct Hc
           end;
    apply minInstant_comm; apply IsZero_false; assumption.
Qed.

Lemma nextEnd_comm (e1 e2 : Spec.event) (old : Z) :
  Spec.timingDefined e1 = true -> Spec.timingDefined e2 = true ->
  nextEnd (fst e2) (snd e2) (nextEnd (fst e1) (snd e1) old)
  = nextEnd (fst e1) (snd e1) (nextEnd (fst e2) (snd e2) old).
Proof.
  destruct e1 as [r1 t1], e2 as [r2 t2]. unfold Spec.timingDefined, nextEnd. cbn [fst snd].
  destruct (String.eqb (Model.RawLogRow.Event r1) "start");
    destruct (String.eqb (Model.RawLogRow.Event r2) "start");
    destruct (String.eqb (Model.RawLogRow.Event r1) "end");
    destruct (String.eqb (Model.RawLogRow.Event r2) "end");
    destruct (0 <? Model.RawLogRow.DurationMs r1);
    destruct (0 <? Model.RawLogRow.DurationMs r2);
    intros H1 H2; try reflexivity;
    repeat match goal with
           | Hc : (_ && _) = true |- _ => apply andb_prop in Hc; destruct Hc
           end;
    apply maxInstant_comm; apply IsZero_false; assumption.
Qed.

Lemma nextDuration_comm (r1 r2 : Model.RawLogRow.t) (old : Z) :
  negb (Spec.setsDuration r1) || negb (Spec.setsDuration r2)
  || (Model.RawLogRow.DurationMs r1 =? Model.RawLogRow.DurationMs r2) = true ->
  nextDuration r2 (nextDuration r1 old) = nextDuration r1 (nextDuration r2 old).
Proof.
  unfold nextDuration.
  destruct (Spec.setsDuration r1), (Spec.setsDuration r2); cbn [negb orb]; try reflexivity.
  intros E. apply Z.eqb_eq in E. congruence.
Qed.

Lemma nextStatus_comm (r1 r2 : Model.RawLogRow.t) (old : Z) :
  negb (0 <? Model.RawLogRow.StatusCode r1) || negb (0 <? Model.RawLogRow.StatusCode r2)
  || (Model.RawLogRow.StatusCode r1 =? Model.RawLogRow.StatusCode r2) = true ->
  nextStatus r2 (nextStatus r1 old) = nextStatus r1 (nextStatus r2 old).
Proof.
  unfold nextStatus.
  destruct (0 <? Model.RawLogRow.StatusCode r1), (0 <? Model.RawLogRow.StatusCode r2);
    cbn [negb orb]; try reflexivity.
  intros E. apply Z.eqb_eq in E. congruence.
Qed.

Lemma nextError_comm (r1 r2 : Model.RawLogRow.t) (old : bool) :
  nextError r2 (nextError r1 old) = nextError r1 (nextError r2 old).
Proof.
  unfold nextError.
  destruct (400 <=? Model.RawLogRow.StatusCode r1), (400 <=? Model.RawLogRow.StatusCode r2);
    reflexivity.
Qed.

Lemma foldSpan_comm `{GoLib} (e1 e2 : Spec.event) (s : Reconstruct.spanState) :
  agreeInSpan (fst e1) (fst e2) = true ->
  Spec.timingDefined e1 = true -> Spec.timingDefined e2 = true ->
  Reconstruct.foldSpan (fst e2) (snd e2) (Reconstruct.foldSpan (fst e1) (snd e1) s)
  = Reconstruct.foldSpan (fst e1) (snd e1) (Reconstruct.foldSpan (fst e2) (snd e2) s).
Proof.
  intros Hag H1 H2. unfold agreeInSpan in Hag.
  repeat match goal with
         | Hc : (_ && _) = true |- _ => apply andb_prop in Hc; destruct Hc
         end.
  rewrite !foldSpan_fields. span_projections.
  match goal with Ho : String.eqb _ _ = true |- _ => apply String.eqb_eq in Ho; rewrite Ho end.
  f_equal.
  - apply nextParent_comm; assumption.
  - apply fillEmpty_comm; assumption.
  - apply fillEmpty_comm; assumption.
  - apply fillEmpty_comm; assumption.
  - apply nextStart_comm; assumption.
  - apply nextEnd_comm; assumption.
  - apply nextDuration_comm; assumption.
  - apply nextStatus_comm; assumption.
  - apply nextError_comm.
Qed.

(** *** The fold of an event into a trace and into the map of traces *)

(** Folding the first event of a span into the span it creates gives
    what folding it into a span with empty identity fields gives. *)
Lemma foldSpan_newSpan `{GoLib} (row : Model.RawLogRow.t) (ts : Z) (sid : string) :
  Reconstruct.foldSpan row ts (Reconstruct.newSpan row sid)
  = Reconstruct.foldSpan row ts
      (blankSpan (Model.RawLogRow.TraceID row) sid (Model.RawLogRow.Env row)).
Proof.
  rewrite !foldSpan_fields. unfold Reconstruct.newSpan, blankSpan. span_projections.
  f_equal.
  - unfold nextParent.
    destruct (GoStrings.isEmpty (Model.RawLogRow.ParentSpanID row)) eqn:E; [|reflexivity].
    apply isEmpty_true in E. cbn [negb]. exact E.
  - unfold fillEmpty. cbn [GoStrings.isEmpty].
    destruct (GoStrings.isEmpty (Model.RawLogRow.Service row)); reflexivity.
  - unfold fillEmpty. cbn [GoStrings.isEmpty].
    destruct (GoStrings.isEmpty (Model.RawLogRow.Host row)); reflexivity.
  - unfold fillEmpty. cbn [GoStrings.isEmpty].
    destruct (GoStrings.isEmpty (Model.RawLogRow.Version row)); reflexivity.
  - unfold fillEmpty. cbn [GoStrings.isEmpty].
    destruct (GoStrings.isEmpty (Reconstruct.chooseOperation _ _)); reflexivity.
Qed.

Lemma addEvent_step `{GoLib} (tr : gmap string Reconstruct.traceState) (e : Spec.event) :
  Spec.addEvent tr e
  = <[Model.RawLogRow.TraceID (fst e) :=
        stepTrace e (default (newTrace (fst e)) (tr !! Model.RawLogRow.TraceID (fst e)))]> tr.
Proof.
  unfold Spec.addEvent, Reconstruct.addRow, stepTrace, newTrace.
  destruct (tr !! Model.RawLogRow.TraceID (fst e)); reflexivity.
Qed.

Lemma updatedAt_comm (a b old : Z) :
  (if GoTime.After b (if GoTime.After a old then a else old) then b
   else if GoTime.After a old then a else old)
  = (if GoTime.After a (if GoTime.After b old then b else old) then a
     else if GoTime.After b old then b else old).
Proof.
  unfold GoTime.After.
  destruct (Z.ltb_spec old a), (Z.ltb_spec old b); case_Z.
Qed.

Lemma stepTrace_comm `{GoLib} (e1 e2 : Spec.event) (t : Reconstruct.traceState) :
  Model.RawLogRow.TraceID (fst e1) = Model.RawLogRow.TraceID (fst e2) ->
  Model.RawLogRow.Env (fst e1) = Model.RawLogRow.Env (fst e2) ->
  (Reconstruct.resolveSpanID (fst e1) (snd e1) = Reconstruct.resolveSpanID (fst e2) (snd e2) ->
   agreeInSpan (fst e1) (fst e2) = true) ->
  Spec.timingDefined e1 = true -> Spec.timingDefined e2 = true ->
  stepTrace e2 (stepTrace e1 t) = stepTrace e1 (stepTrace e2 t).
Proof.
  intros Htid Henv Hag H1 H2. unfold stepTrace.
  cbn [Reconstruct.t_id Reconstruct.t_env Reconstruct.t_updatedAt Reconstruct.t_spans].
  f_equal; [apply updatedAt_comm|].
  set (sid1 := Reconstruct.resolveSpanID (fst e1) (snd e1)) in *.
  set (sid2 := Reconstruct.resolveSpanID (fst e2) (snd e2)) in *.
  destruct (decide (sid1 = sid2)) as [E|Hne].
  - rewrite <- E. rewrite !lookup_insert_eq, !insert_insert_eq. cbn [default from_option id].
    f_equal.
    destruct (Reconstruct.t_spans t !! sid1) as [s|]; cbn [default from_option id].
    + apply foldSpan_comm; auto.
    + rewrite (foldSpan_newSpan (fst e1)), (foldSpan_newSpan (fst e2)).
      rewrite <- Htid, <- Henv. apply foldSpan_comm; auto.
  - rewrite (lookup_insert_ne _ sid1 sid2) by exact Hne.
    rewrite (lookup_insert_ne _ sid2 sid1) by congruence.
    apply insert_insert_ne. congruence.
Qed.

Lemma agree_cases `{GoLib} (e1 e2 : Spec.event) :
  Spec.agree e1 e2 = true ->
  Model.RawLogRow.TraceID (fst e1) = Model.RawLogRow.TraceID (fst e2) ->
  Model.RawLogRow.Env (fst e1) = Model.RawLogRow.Env (fst e2)
  /\ (Reconstruct.resolveSpanID (fst e1) (snd e1) = Reconstruct.resolveSpanID (fst e2) (snd e2) ->
      agreeInSpan (fst e1) (fst e2) = true).
Proof.
  unfold Spec.agree, agreeInSpan. intros Hag Htid.
  apply String.eqb_eq in Htid. rewrite Htid in Hag. cbn [negb] in Hag.
  apply andb_prop in Hag. destruct Hag as [Henv Hsp].
  split; [apply String.eqb_eq, Henv|].
  intros Hsid. apply String.eqb_eq in Hsid. rewrite Hsid in Hsp. exact Hsp.
Qed.

(** Two events that agree fold into the same map of traces in either
    order. *)
Lemma addEvent_comm `{GoLib} (tr : gmap string Reconstruct.traceState) (e1 e2 : Spec.event) :
  Spec.agree e1 e2 = true ->
  Spec.timingDefined e1 = true -> Spec.timingDefined e2 = true ->
  Spec.addEvent (Spec.addEvent tr e1) e2 = Spec.addEvent (Spec.addEvent tr e2) e1.
Proof.
  intros Hag H1 H2. rewrite !addEvent_step.
  set (tid1 := Model.RawLogRow.TraceID (fst e1)) in *.
  set (tid2 := Model.RawLogRow.TraceID (fst e2)) in *.
  destruct (decide (tid1 = tid2)) as [E|Hne].
  - destruct (agree_cases e1 e2 Hag E) as [Henv Hsp].
    rewrite <- E. rewrite !lookup_insert_eq, !insert_insert_eq. cbn [default from_option id].
    f_equal.
    assert (Enew : newTrace (fst e2) = newTrace (fst e1)).
    { unfold newTrace. fold tid1 tid2. rewrite <- E, Henv. reflexivity. }
    rewrite Enew. apply stepTrace_comm; auto.
  - rewrite (lookup_insert_ne _ tid1 tid2) by exact Hne.
    rewrite (lookup_insert_ne _ tid2 tid1) by congruence.
    apply insert_insert_ne. congruence.
Qed.

(** *** Permutations of a batch *)

Lemma addRows_fold `{GoLib} (batch : list Spec.event) :
  forall tr : gmap string Reconstruct.traceState,
    Reconstruct.addRows tr (List.map fst batch) (List.map snd batch)
    = Some (fold_left Spec.addEvent batch tr).
Proof.
  induction batch as [|e batch IH]; intros tr; [reflexivity|].
  cbn [List.map Reconstruct.addRows fold_left]. apply IH.
Qed.

Lemma orderFree_spec `{GoLib} (batch : list Spec.event) :
  Spec.orderFree batch = true ->
  forall e1 e2, In e1 batch -> In e2 batch ->
    Spec.timingDefined e1 = true /\ Spec.agree e1 e2 = true.
Proof.
  unfold Spec.orderFree. intros Hb e1 e2 Hin1 Hin2.
  rewrite forallb_forall in Hb. specialize (Hb e1 Hin1).
  apply andb_prop in Hb. destruct Hb as [Ht Ha].
  rewrite forallb_forall in Ha. auto.
Qed.

(** A fold whose steps commute on the elements of the list yields the
    same state on every permutation of the list. *)
Lemma fold_left_permutation {S E : Type} (f : S -> E -> S) (l l' : list E) :
  Permutation l l' ->
  (forall a b s, In a l -> In b l -> f (f s a) b = f (f s b) a) ->
  forall s, fold_left f l s = fold_left f l' s.
Proof.
  induction 1 as [|x l l' Hp IH|x y l|l l' l'' Hp1 IH1 Hp2 IH2]; intros Hc s.
  - reflexivity.
  - cbn [fold_left]. apply IH. intros a b s' Ha Hb. apply Hc; right; assumption.
  - cbn [fold_left]. rewrite (Hc y x s); [reflexivity | left; reflexivity |
                                            right; left; reflexivity].
  - rewrite (IH1 Hc s). apply IH2.
    intros a b s' Ha Hb.
    apply Hc; [apply (Permutation_in _ (Permutation_sym Hp1) Ha)
              | apply (Permutation_in _ (Permutation_sym Hp1) Hb)].
Qed.

(** *** The resolution rules *)

Lemma last_cons {A : Type} (l : list A) :
  forall a d : A, List.last (a :: l) d = List.last l a.
Proof.
  induction l as [|b l IH]; intros a d; [reflexivity|].
  change (List.last (a :: b :: l) d) with (List.last (b :: l) d).
  rewrite (IH b d), (IH b a). reflexivity.
Qed.

(** The field that every event overwrites when it carries a value: the
    latest value wins. *)
Lemma fold_latest {E V : Type} (sets : E -> bool) (val : E -> V) (es : list E) :
  forall old : V,
    fold_left (fun acc e => if sets e then val e else acc) es old
    = List.last (List.map val (List.filter sets es)) old.
Proof.
  induction es as [|e es IH]; intros old; [reflexivity|].
  cbn [fold_left List.filter]. rewrite IH.
  destruct (sets e); [|reflexivity].
  cbn [List.map]. rewrite last_cons. reflexivity.
Qed.

(** The field that an event fills only while it is empty: the first
    value wins. *)
Lemma fold_first (vs : list string) :
  forall old : string,
    fold_left (fun acc v => fillEmpty v acc) vs old = List.hd "" (nonEmpty (old :: vs)).
Proof.
  induction vs as [|v vs IH]; intros old.
  - cbn. unfold nonEmpty. cbn [List.filter].
    destruct (GoStrings.isEmpty old) eqn:E; cbn [negb List.hd]; [|reflexivity].
    apply isEmpty_true in E. exact E.
  - cbn [fold_left]. rewrite IH. unfold fillEmpty, nonEmpty. cbn [List.filter].
    destruct (GoStrings.isEmpty old) eqn:E; cbn [negb]; [reflexivity|].
    rewrite E. cbn [negb List.hd]. reflexivity.
Qed.

(** The instants: the earliest, and the latest, of those that are set. *)
Lemma fold_earliest (cs : list Z) :
  List.Forall (fun c => c <> 0) cs ->
  forall old : Z,
    earliestOf (old :: cs) (fold_left (fun acc c => minInstant c acc) cs old).
Proof.
  induction cs as [|c cs IH]; intros Hcs old.
  - cbn [fold_left]. unfold earliestOf, instantsSet, GoTime.IsZero. cbn [List.filter].
    destruct (Z.eqb_spec old 0) as [->|Hne]; cbn [negb]; [reflexivity|].
    split; [left; reflexivity|]. intros x [<-|[]]. lia.
  - apply List.Forall_cons_iff in Hcs. destruct Hcs as [Hc Hcs].
    cbn [fold_left]. specialize (IH Hcs (minInstant c old)).
    revert IH. generalize (fold_left (fun acc c0 => minInstant c0 acc) cs (minInstant c old)).
    intros v. unfold earliestOf, instantsSet, minInstant, GoTime.IsZero, GoTime.Before.
    cbn [List.filter].
    destruct (Z.eqb_spec c 0) as [|_]; [contradiction|]. cbn [negb].
    destruct (Z.eqb_spec old 0) as [->|Hne]; cbn [orb negb].
    + destruct (Z.eqb_spec c 0) as [|_]; [contradiction|]. cbn [negb]. auto.
    + destruct (Z.ltb_spec c old) as [Hlt|Hge].
      * destruct (Z.eqb_spec c 0) as [|_]; [contradiction|]. cbn [negb].
        intros [Hin Hle]. split.
        -- right. exact Hin.
        -- intros x [<-|Hx]; [|apply Hle, Hx].
           specialize (Hle c (or_introl eq_refl)). lia.
      * destruct (Z.eqb_spec old 0) as [|_]; [contradiction|]. cbn [negb].
        intros [Hin Hle]. split.
        -- destruct Hin as [<-|Hin]; [left; reflexivity|right; right; exact Hin].
        -- intros x [<-|[<-|Hx]].
           ++ apply Hle. left. reflexivity.
           ++ specialize (Hle old (or_introl eq_refl)). lia.
           ++ apply Hle. right. exact Hx.
Qed.

Lemma fold_latestInstant (cs : list Z) :
  List.Forall (fun c => c <> 0) cs ->
  forall old : Z,
    latestOf (old :: cs) (fold_left (fun acc c => maxInstant c acc) cs old).
Proof.
  induction cs as [|c cs IH]; intros Hcs old.
  - cbn [fold_left]. unfold latestOf, instantsSet, GoTime.IsZero. cbn [List.filter].
    destruct (Z.eqb_spec old 0) as [->|Hne]; cbn [negb]; [reflexivity|].
    split; [left; reflexivity|]. intros x [<-|[]]. lia.
  - apply List.Forall_cons_iff in Hcs. destruct Hcs as [Hc Hcs].
    cbn [fold_left]. specialize (IH Hcs (maxInstant c old)).
    revert IH. generalize (fold_left (fun acc c0 => maxInstant c0 acc) cs (maxInstant c old)).
    intros v. unfold latestOf, instantsSet, maxInstant, GoTime.IsZero, GoTime.After.
    cbn [List.filter].
    destruct (Z.eqb_spec c 0) as [|_]; [contradiction|]. cbn [negb].
    destruct (Z.eqb_spec old 0) as [->|Hne]; cbn [orb negb].
    + destruct (Z.eqb_spec c 0) as [|_]; [contradiction|]. cbn [negb]. auto.
    + destruct (Z.ltb_spec old c) as [Hlt|Hge].
      * destruct (Z.eqb_spec c 0) as [|_]; [contradiction|]. cbn [negb].
        intros [Hin Hle]. split.
        -- right. exact Hin.
        -- intros x [<-|Hx]; [|apply Hle, Hx].
           specialize (Hle c (or_introl eq_refl)). lia.
      * destruct (Z.eqb_spec old 0) as [|_]; [contradiction|]. cbn [negb].
        intros [Hin Hle]. split.
        -- destruct Hin as [<-|Hin]; [left; reflexivity|right; right; exact Hin].
        -- intros x [<-|[<-|Hx]].
           ++ apply Hle. left. reflexivity.
           ++ specialize (Hle old (or_introl eq_refl)). lia.
           ++ apply Hle. right. exact Hx.
Qed.

(** The updates of the bounds by one event, as folds over the instants
    that the event offers. *)
Lemma nextStart_offered (e : Spec.event) (old : Z) :
  nextStart (fst e) (snd e) old = fold_left (fun acc c => minInstant c acc) (offeredStart e) old.
Proof.
  unfold nextStart, offeredStart.
  destruct (String.eqb _ "start"); [reflexivity|].
  destruct (String.eqb _ "end"); [reflexivity|].
  destruct (0 <? _); reflexivity.
Qed.

Lemma nextEnd_offered (e : Spec.event) (old : Z) :
  nextEnd (fst e) (snd e) old = fold_left (fun acc c => maxInstant c acc) (offeredEnd e) old.
Proof.
  unfold nextEnd, offeredEnd.
  destruct (String.eqb _ "start"); [reflexivity|].
  destruct (String.eqb _ "end"); [reflexivity|].
  destruct (0 <? _); reflexivity.
Qed.

Lemma fold_left_pointwise {S E : Type} (f g : S -> E -> S) :
  (forall s e, f s e = g s e) -> forall l s, fold_left f l s = fold_left g l s.
Proof.
  intros Hfg. induction l as [|e l IH]; intros s; [reflexivity|].
  cbn [fold_left]. rewrite Hfg. apply IH.
Qed.

Lemma fold_offered {E : Type} (f : Z -> Z -> Z) (offered : E -> list Z) (es : list E) :
  forall old : Z,
    fold_left (fun acc e => fold_left f (offered e) acc) es old
    = fold_left f (flat_map offered es) old.
Proof.
  induction es as [|e es IH]; intros old; [reflexivity|].
  cbn [fold_left flat_map]. rewrite fold_left_app. apply IH.
Qed.

Lemma timingDefined_offered (e : Spec.event) :
  Spec.timingDefined e = true ->
  List.Forall (fun c => c <> 0) (offeredStart e) /\ List.Forall (fun c => c <> 0) (offeredEnd e).
Proof.
  unfold Spec.timingDefined, offeredStart, offeredEnd, GoTime.IsZero.
  destruct (String.eqb _ "start").
  { intros Ht. apply negb_true_iff, Z.eqb_neq in Ht. split; repeat constructor. exact Ht. }
  destruct (String.eqb _ "end").
  { intros Ht. apply negb_true_iff, Z.eqb_neq in Ht. split; repeat constructor. exact Ht. }
  destruct (0 <? _); [|split; constructor].
  intros Ht. apply andb_prop in Ht. destruct Ht as [H1 H2].
  apply negb_true_iff, Z.eqb_neq in H1, H2. split; repeat constructor; assumption.
Qed.

Lemma offered_defined (es : list Spec.event) :
  (forall e, In e es -> Spec.timingDefined e = true) ->
  List.Forall (fun c => c <> 0) (flat_map offeredStart es)
  /\ List.Forall (fun c => c <> 0) (flat_map offeredEnd es).
Proof.
  induction es as [|e es IH]; intros Ht; [split; constructor|].
  destruct (IH (fun e' He' => Ht e' (or_intror He'))) as [A B].
  destruct (timingDefined_offered e (Ht e (or_introl eq_refl))) as [C D].
  cbn [flat_map]. split; apply List.Forall_app; auto.
Qed.

(** The events of a span folded into the span, field by field. *)
Lemma foldEvents_fields `{GoLib} (es : list Spec.event) :
  forall p : Reconstruct.spanState,
    fold_left (fun s e => Reconstruct.foldSpan (fst e) (snd e) s) es p
    = Reconstruct.mkSpanState (Reconstruct.traceID p) (Reconstruct.spanID p)
        (fold_left (fun acc e => nextParent (fst e) acc) es (Reconstruct.parentSpanID p))
        (fold_left (fun acc e => fillEmpty (Model.RawLogRow.Service (fst e)) acc) es
           (Reconstruct.service p))
        (Reconstruct.env p)
        (fold_left (fun acc e => fillEmpty (Model.RawLogRow.Host (fst e)) acc) es
           (Reconstruct.host p))
        (fold_left (fun acc e => fillEmpty (Model.RawLogRow.Version (fst e)) acc) es
           (Reconstruct.version p))
        (fold_left (fun acc e => fillEmpty (Reconstruct.chooseOperation
                                              (Model.RawLogRow.Route (fst e))
                                              (Model.RawLogRow.Message (fst e))) acc) es
           (Reconstruct.operation p))
        (fold_left (fun acc e => nextStart (fst e) (snd e) acc) es (Reconstruct.startTs p))
        (fold_left (fun acc e => nextEnd (fst e) (snd e) acc) es (Reconstruct.endTs p))
        (fold_left (fun acc e => nextDuration (fst e) acc) es (Reconstruct.durationMs p))
        (fold_left (fun acc e => nextStatus (fst e) acc) es (Reconstruct.statusCode p))
        (fold_left (fun acc e => nextError (fst e) acc) es (Reconstruct.isError p))
        (Reconstruct.source p).
Proof.
  induction es as [|e es IH]; intros p; [destruct p; reflexivity|].
  cbn [fold_left]. rewrite IH, foldSpan_fields. span_projections. reflexivity.
Qed.

Lemma fold_map {E V S : Type} (f : S -> V -> S) (g : E -> V) (es : list E) :
  forall s : S, fold_left (fun acc e => f acc (g e)) es s = fold_left f (List.map g es) s.
Proof. induction es as [|e es IH]; intros s; [reflexivity|]. cbn [fold_left List.map]. apply IH. Qed.

Lemma fold_sticky {E : Type} (sets : E -> bool) (es : list E) :
  forall old : bool,
    fold_left (fun acc e => if sets e then true else acc) es old = old || existsb sets es.
Proof.
  induction es as [|e es IH]; intros old; cbn [fold_left existsb]; [rewrite orb_false_r; reflexivity|].
  rewrite IH. destruct (sets e), old; reflexivity.
Qed.

(** The events of a span, folded in the order of their arrival, resolve
    the span by the rules. *)
Lemma foldEvents_resolved `{GoLib} (es : list Spec.event) (p : Reconstruct.spanState) :
  (forall e, In e es -> Spec.timingDefined e = true) ->
  resolved p es (fold_left (fun s e => Reconstruct.foldSpan (fst e) (snd e) s) es p).
Proof.
  intros Ht. rewrite foldEvents_fields. unfold resolved. span_projections.
  destruct (offered_defined es Ht) as [Hs He].
  split; [reflexivity|]. split; [reflexivity|]. split; [reflexivity|]. split; [reflexivity|].
  split.
  { rewrite (fold_left_pointwise _
               (fun acc e => fold_left (fun a c => minInstant c a) (offeredStart e) acc))
      by (intros acc e; apply nextStart_offered).
    rewrite (fold_offered (fun a c => minInstant c a)). apply fold_earliest, Hs. }
  split.
  { rewrite (fold_left_pointwise _
               (fun acc e => fold_left (fun a c => maxInstant c a) (offeredEnd e) acc))
      by (intros acc e; apply nextEnd_offered).
    rewrite (fold_offered (fun a c => maxInstant c a)). apply fold_latestInstant, He. }
  split.
  { unfold nextError. apply (fold_sticky (fun e => 400 <=? Model.RawLogRow.StatusCode (fst e))). }
  split.
  { unfold nextStatus.
    rewrite (fold_latest (fun e => 0 <? Model.RawLogRow.StatusCode (fst e))
               (fun e => Model.RawLogRow.StatusCode (fst e))).
    f_equal. clear. induction es as [|e es IH]; [reflexivity|].
    cbn [List.filter List.map]. destruct (0 <? _); cbn [List.map]; rewrite IH; reflexivity. }
  split.
  { unfold nextDuration.
    apply (fold_latest (fun e => Spec.setsDuration (fst e))
             (fun e => Model.RawLogRow.DurationMs (fst e))). }
  split.
  { unfold nextParent.
    rewrite (fold_latest (fun e => negb (GoStrings.isEmpty (Model.RawLogRow.ParentSpanID (fst e))))
               (fun e => Model.RawLogRow.ParentSpanID (fst e))).
    f_equal. unfold nonEmpty. clear. induction es as [|e es IH]; [reflexivity|].
    cbn [List.filter List.map]. destruct (negb _); cbn [List.map]; rewrite IH; reflexivity. }
  split; [|split; [|split]].
  - rewrite (fold_map (fun acc v => fillEmpty v acc)). apply fold_first.
  - rewrite (fold_map (fun acc v => fillEmpty v acc)). apply fold_first.
  - rewrite (fold_map (fun acc v => fillEmpty v acc)). apply fold_first.
  - rewrite (fold_map (fun acc v => fillEmpty v acc)
               (fun e => Reconstruct.chooseOperation (Model.RawLogRow.Route (fst e))
                           (Model.RawLogRow.Message (fst e)))).
    apply fold_first.
Qed.

(** *** The events of a span, among those of a batch *)

(** The fold of an event changes the span of the event, and no other. *)
Lemma spanOf_addEvent `{GoLib} (tr : gmap string Reconstruct.traceState) (e : Spec.event)
    (tid sid : string) :
  spanOf (Spec.addEvent tr e) tid sid
  = if String.eqb (Model.RawLogRow.TraceID (fst e)) tid
       && String.eqb (Reconstruct.resolveSpanID (fst e) (snd e)) sid
    then Some (Reconstruct.foldSpan (fst e) (snd e) (priorSpan tr tid sid e))
    else spanOf tr tid sid.
Proof.
  rewrite addEvent_step. unfold spanOf, priorSpan, spanOf.
  destruct (String.eqb_spec (Model.RawLogRow.TraceID (fst e)) tid) as [Et|Hnt]; cbn [andb].
  - rewrite <- Et, lookup_insert_eq. unfold stepTrace. cbn [Reconstruct.t_spans].
    destruct (String.eqb_spec (Reconstruct.resolveSpanID (fst e) (snd e)) sid) as [Es|Hns].
    + rewrite <- Es, lookup_insert_eq. f_equal.
      destruct (tr !! Model.RawLogRow.TraceID (fst e)) as [t|];
        cbn [default from_option Datatypes.id newTrace Reconstruct.t_spans].
      * destruct (Reconstruct.t_spans t !! _) as [s|];
          cbn [default from_option Datatypes.id]; [reflexivity|].
        apply foldSpan_newSpan.
      * rewrite lookup_empty. cbn [default from_option Datatypes.id]. apply foldSpan_newSpan.
    + rewrite lookup_insert_ne by exact Hns.
      destruct (tr !! Model.RawLogRow.TraceID (fst e)) as [t|];
        cbn [default from_option Datatypes.id newTrace Reconstruct.t_spans]; [reflexivity|].
      apply lookup_empty.
  - rewrite lookup_insert_ne by exact Hnt. reflexivity.
Qed.

(** After the fold of a batch, a span is what its own events fold to, in
    the order of their arrival. *)
Lemma spanOf_fold `{GoLib} (tid sid : string) (batch : list Spec.event) :
  forall tr : gmap string Reconstruct.traceState,
    spanOf (fold_left Spec.addEvent batch tr) tid sid
    = match spanEvents tid sid batch with
      | [] => spanOf tr tid sid
      | e0 :: _ =>
          Some (fold_left (fun s e => Reconstruct.foldSpan (fst e) (snd e) s)
                  (spanEvents tid sid batch) (priorSpan tr tid sid e0))
      end.
Proof.
  induction batch as [|e batch IH]; intros tr; [reflexivity|].
  cbn [fold_left]. rewrite IH, spanOf_addEvent. unfold spanEvents. cbn [List.filter].
  fold (spanEvents tid sid batch).
  destruct (String.eqb (Model.RawLogRow.TraceID (fst e)) tid
            && String.eqb (Reconstruct.resolveSpanID (fst e) (snd e)) sid) eqn:Eb.
  - cbn [fold_left].
    destruct (spanEvents tid sid batch) as [|e1 es]; [reflexivity|].
    unfold priorSpan at 1. rewrite spanOf_addEvent, Eb.
    cbn [default from_option Datatypes.id]. reflexivity.
  - destruct (spanEvents tid sid batch) as [|e1 es]; [reflexivity|].
    unfold priorSpan. rewrite spanOf_addEvent, Eb. reflexivity.
Qed.

Lemma spanEvents_In `{GoLib} (tid sid : string) (batch : list Spec.event) (e : Spec.event) :
  In e (spanEvents tid sid batch) -> In e batch.
Proof. unfold spanEvents. intros Hin. apply List.filter_In in Hin. tauto. Qed.

(** The fold of a batch resolves every span by the rules. *)
Lemma fold_resolvedFrom `{GoLib} (batch : list Spec.event)
    (tr : gmap string Reconstruct.traceState) :
  (forall e, In e batch -> Spec.timingDefined e = true) ->
  resolvedFrom tr batch (fold_left Spec.addEvent batch tr).
Proof.
  intros Ht tid sid. rewrite spanOf_fold.
  destruct (spanEvents tid sid batch) as [|e0 es] eqn:Ees; [reflexivity|].
  eexists. split; [reflexivity|].
  apply foldEvents_resolved. intros e He. apply Ht, (spanEvents_In tid sid). rewrite Ees. exact He.
Qed.

(** C1 (as amended): [Add] resolves every span from its state before
    the batch and the events of the span, in the order of their arrival
    (no event offering the zero instant as a bound): [start_ts] by min,
    [end_ts] by max, [is_error] sticky, [status_code] and [duration_ms]
    as the latest that is set, service, host, version and operation as
    the first that is not empty, and [parent_span_id] as the latest that
    is not empty.  When, moreover, the events of a trace carry one env
    and the events of a span agree on what these rules resolve by the
    order of arrival, every permutation of the batch folds to the same
    reconstructor, so that the flush (under one schedule) issues the
    same inserts: the same Span and Trace records and the same
    dependency-edge buckets. *)
Theorem Add_order_free `{GoLib} (r : Reconstruct.Reconstructor) (batch batch' : list Spec.event)
    (ch : Clickhouse.Client) (sch : Reconstruct.Schedule) :
  Permutation batch batch' ->
  (forall e, In e batch -> Spec.timingDefined e = true) ->
  exists r1 r2,
    Reconstruct.Add r (List.map fst batch) (List.map snd batch) = Some r1
    /\ Reconstruct.Add r (List.map fst batch') (List.map snd batch') = Some r2
    /\ resolvedFrom (Reconstruct.traces r) batch (Reconstruct.traces r1)
    /\ resolvedFrom (Reconstruct.traces r) batch' (Reconstruct.traces r2)
    /\ (Spec.orderFree batch = true ->
        r1 = r2
        /\ Reconstruct.FlushNow ch sch r1 = Reconstruct.FlushNow ch sch r2).
Proof.
  intros Hperm Ht. unfold Reconstruct.Add. rewrite !addRows_fold.
  eexists. eexists. split; [reflexivity|]. split; [reflexivity|].
  cbn [Reconstruct.traces].
  split; [apply fold_resolvedFrom, Ht|].
  split.
  { apply fold_resolvedFrom. intros e He.
    apply Ht, (Permutation_in _ (Permutation_sym Hperm)), He. }
  intros Hfree.
  assert (E : fold_left Spec.addEvent batch (Reconstruct.traces r)
              = fold_left Spec.addEvent batch' (Reconstruct.traces r)).
  { apply fold_left_permutation; [exact Hperm|].
    intros a b s Ha Hb.
    destruct (orderFree_spec batch Hfree a b Ha Hb) as [Hta Hab].
    destruct (orderFree_spec batch Hfree b a Hb Ha) as [Htb _].
    apply addEvent_comm; assumption. }
  rewrite E. split; reflexivity.
Qed.

(** The four events of a trace with a span and its child, and the same
    events with the end events first. *)
Lemma Add_order_free_witness :
  let batch := [(Demo.row "svc-a" "A" "s1" "" "start" 0 0, Demo.day0);
                (Demo.row "svc-a" "A" "s1" "" "end" 200 100,
                 Demo.day0 + 100 * GoTime.Millisecond);
                (Demo.row "svc-b" "A" "s2" "s1" "start" 0 0,
                 Demo.day0 + 20 * GoTime.Millisecond);
                (Demo.row "svc-b" "A" "s2" "" "end" 503 60,
                 Demo.day0 + 80 * GoTime.Millisecond)] in
  let batch' := [(Demo.row "svc-b" "A" "s2" "" "end" 503 60,
                  Demo.day0 + 80 * GoTime.Millisecond);
                 (Demo.row "svc-a" "A" "s1" "" "end" 200 100,
                  Demo.day0 + 100 * GoTime.Millisecond);
                 (Demo.row "svc-b" "A" "s2" "s1" "start" 0 0,
                  Demo.day0 + 20 * GoTime.Millisecond);
                 (Demo.row "svc-a" "A" "s1" "" "start" 0 0, Demo.day0)] in
  let r := Reconstruct.New Demo.window in
  Permutation batch batch'
  /\ (forall e, In e batch -> Spec.timingDefined e = true)
  /\ Spec.orderFree (H := Demo.lib) batch = true
  /\ exists r1 r2,
       Reconstruct.Add (H := Demo.lib) r (List.map fst batch) (List.map snd batch) = Some r1
       /\ Reconstruct.Add (H := Demo.lib) r (List.map fst batch') (List.map snd batch') = Some r2
       /\ resolvedFrom (H := Demo.lib) (Reconstruct.traces r) batch (Reconstruct.traces r1)
       /\ resolvedFrom (H := Demo.lib) (Reconstruct.traces r) batch' (Reconstruct.traces r2)
       /\ r1 = r2
       /\ Reconstruct.FlushNow (fun _ => None) (Demo.schedule 10 ["s1"; "s2"]) r1
          = Reconstruct.FlushNow (fun _ => None) (Demo.schedule 10 ["s1"; "s2"]) r2.
Proof.
  intros batch batch' r.
  assert (Hperm : Permutation batch batch').
  { subst batch batch'.
    eapply perm_trans; [apply Permutation_rev|]. cbn [List.rev app].
    apply perm_skip. apply perm_swap. }
  assert (Hfree : Spec.orderFree (H := Demo.lib) batch = true) by (vm_compute; reflexivity).
  assert (Ht : forall e, In e batch -> Spec.timingDefined e = true).
  { intros e He. exact (proj1 (orderFree_spec (H := Demo.lib) batch Hfree e e He He)). }
  split; [exact Hperm|]. split; [exact Ht|]. split; [exact Hfree|].
  destruct (Add_order_free (H := Demo.lib) r batch batch' (fun _ => None)
              (Demo.schedule 10 ["s1"; "s2"]) Hperm Ht)
    as (r1 & r2 & A & B & C & D & E).
  exists r1, r2. split; [exact A|]. split; [exact B|]. split; [exact C|]. split; [exact D|].
  exact (E Hfree).
Defined.

(** C1, counterexample: two events of one span that name different
    services and different parents.  The span is flushed with the
    service of the event that arrived first and with the parent of the
    event that arrived last, so the two orderings of the batch give
    different Span records, and [parent_span_id] is not resolved by the
    first writer. *)
Lemma Add_order_shows_in_service :
  let e1 := (Demo.row "svc-a" "A" "s1" "p1" "start" 0 0, Demo.day0) in
  let e2 := (Demo.row "svc-b" "A" "s1" "p2" "end" 0 100, Demo.day0 + 100 * GoTime.Millisecond) in
  let flushed {A : Type} (field : Model.SpanRow.t -> A) (batch : list Spec.event) :=
    match Reconstruct.Add (H := Demo.lib) (Reconstruct.New Demo.window)
            (List.map fst batch) (List.map snd batch) with
    | Some r =>
        List.map field
          (Clickhouse.insertedSpans
             (snd (Reconstruct.FlushNow (fun _ => None) (Demo.schedule 10 ["s1"]) r)))
    | None => []
    end in
  Permutation [e1; e2] [e2; e1]
  /\ flushed Model.SpanRow.Service [e1; e2] = ["svc-a"]
  /\ flushed Model.SpanRow.Service [e2; e1] = ["svc-b"]
  /\ flushed Model.SpanRow.ParentSpanID [e1; e2] = ["p2"]
  /\ flushed Model.SpanRow.ParentSpanID [e2; e1] = ["p1"].
Proof.
  split; [apply perm_swap|]. repeat split; vm_compute; reflexivity.
Qed.

(** ** More on the fold of [Add] *)

(** The loop of [Add] returns exactly when there is a time for every row. *)
Lemma addRows_is_Some `{GoLib} (rows : list Model.RawLogRow.t) :
  forall (times : list Z) (tr : gmap string Reconstruct.traceState),
    is_Some (Reconstruct.addRows tr rows times) <-> (length rows <= length times)%nat.
Proof.
  induction rows as [|row rows IH]; intros times tr.
  - cbn. split; [lia|eauto].
  - destruct times as [|ts times].
    + cbn. split; [intros [x Hx]; discriminate|lia].
    + cbn [Reconstruct.addRows length]. rewrite IH. lia.
Qed.

(** X1: [Add] panics, at the read of [eventTimes[i]], exactly when it is
    given fewer times than rows; with as many times as rows, or more, it
    returns. *)
Theorem Add_panics_iff_times_short `{GoLib} (r : Reconstruct.Reconstructor)
    (rows : list Model.RawLogRow.t) (times : list Z) :
  Reconstruct.Add r rows times = None <-> (length times < length rows)%nat.
Proof.
  unfold Reconstruct.Add.
  pose proof (addRows_is_Some rows times (Reconstruct.traces r)) as Hs.
  destruct (Reconstruct.addRows (Reconstruct.traces r) rows times) as [tr|].
  - split; [discriminate|]. intros Hlt. assert (is_Some (Some tr)) as Hx by eauto.
    apply Hs in Hx. lia.
  - split; [|reflexivity]. intros _.
    destruct (Nat.lt_ge_cases (length times) (length rows)) as [Hlt|Hge]; [exact Hlt|].
    apply Hs in Hge. destruct Hge as [x Hx]. discriminate.
Qed.

Lemma fillEmpty_idem (v old : string) : fillEmpty v (fillEmpty v old) = fillEmpty v old.
Proof.
  unfold fillEmpty. destruct (GoStrings.isEmpty old) eqn:E; [|rewrite E; reflexivity].
  destruct (GoStrings.isEmpty v); reflexivity.
Qed.

Lemma minInstant_idem (a old : Z) : minInstant a (minInstant a old) = minInstant a old.
Proof.
  unfold minInstant, GoTime.IsZero, GoTime.Before.
  destruct (Z.eqb_spec old 0), (Z.ltb_spec a old); cbn [orb];
    destruct (Z.eqb_spec a 0), (Z.ltb_spec a a); cbn [orb]; try reflexivity; try lia;
    repeat match goal with
           | |- context [(?x =? ?y)%Z] => destruct (Z.eqb_spec x y)
           | |- context [(?x <? ?y)%Z] => destruct (Z.ltb_spec x y)
           end; cbn [orb]; try reflexivity; try lia.
Qed.

Lemma maxInstant_idem (a old : Z) : maxInstant a (maxInstant a old) = maxInstant a old.
Proof.
  unfold maxInstant, GoTime.IsZero, GoTime.After.
  destruct (Z.eqb_spec old 0), (Z.ltb_spec old a); cbn [orb];
    destruct (Z.eqb_spec a 0), (Z.ltb_spec a a); cbn [orb]; try reflexivity; try lia;
    repeat match goal with
           | |- context [(?x =? ?y)%Z] => destruct (Z.eqb_spec x y)
           | |- context [(?x <? ?y)%Z] => destruct (Z.ltb_spec x y)
           end; cbn [orb]; try reflexivity; try lia.
Qed.

(** Folding an event into a span twice is folding it once. *)
Lemma foldSpan_idem `{GoLib} (row : Model.RawLogRow.t) (ts : Z) (s : Reconstruct.spanState) :
  Reconstruct.foldSpan row ts (Reconstruct.foldSpan row ts s) = Reconstruct.foldSpan row ts s.
Proof.
  rewrite !foldSpan_fields. span_projections. f_equal.
  - unfold nextParent. destruct (negb _); reflexivity.
  - apply fillEmpty_idem.
  - apply fillEmpty_idem.
  - apply fillEmpty_idem.
  - apply fillEmpty_idem.
  - unfold nextStart. repeat destruct (_ : bool); try reflexivity; apply minInstant_idem.
  - unfold nextEnd. repeat destruct (_ : bool); try reflexivity; apply maxInstant_idem.
  - unfold nextDuration. destruct (Spec.setsDuration row); reflexivity.
  - unfold nextStatus. destruct (_ <? _); reflexivity.
  - unfold nextError. destruct (_ <=? _); reflexivity.
Qed.

(** Folding an event into a trace twice is folding it once. *)
Lemma stepTrace_idem `{GoLib} (e : Spec.event) (t : Reconstruct.traceState) :
  stepTrace e (stepTrace e t) = stepTrace e t.
Proof.
  unfold stepTrace.
  cbn [Reconstruct.t_id Reconstruct.t_env Reconstruct.t_updatedAt Reconstruct.t_spans].
  f_equal.
  - unfold GoTime.After. case_Z.
  - rewrite lookup_insert_eq, insert_insert_eq. cbn [default from_option id].
    rewrite foldSpan_idem. reflexivity.
Qed.

(** X2: an event that arrives twice in a row leaves the reconstructor as
    one arrival does. *)
Theorem Add_duplicate_event `{GoLib} (r : Reconstruct.Reconstructor)
    (row : Model.RawLogRow.t) (ts : Z) :
  Reconstruct.Add r [row; row] [ts; ts] = Reconstruct.Add r [row] [ts].
Proof.
  unfold Reconstruct.Add. cbn [Reconstruct.addRows].
  change (Reconstruct.addRow (Reconstruct.addRow (Reconstruct.traces r) row ts) row ts)
    with (Spec.addEvent (Spec.addEvent (Reconstruct.traces r) (row, ts)) (row, ts)).
  change (Reconstruct.addRow (Reconstruct.traces r) row ts)
    with (Spec.addEvent (Reconstruct.traces r) (row, ts)).
  rewrite (addEvent_step (Spec.addEvent _ _)).
  rewrite (addEvent_step (Reconstruct.traces r)).
  rewrite lookup_insert_eq, insert_insert_eq. cbn [default from_option id].
  rewrite stepTrace_idem. reflexivity.
Qed.

(** *** [Add] drops nothing *)

Lemma spanKept_refl s : spanKept s s.
Proof. repeat split; auto. Qed.

Lemma spanKept_trans s1 s2 s3 : spanKept s1 s2 -> spanKept s2 s3 -> spanKept s1 s3.
Proof.
  intros (a1 & a2 & a3 & a4 & a5) (b1 & b2 & b3 & b4 & b5).
  repeat split; try congruence. auto.
Qed.

Lemma traceKept_refl t : traceKept t t.
Proof.
  repeat split; try lia. intros sid s Hs. exists s. split; [exact Hs|apply spanKept_refl].
Qed.

Lemma traceKept_trans t1 t2 t3 : traceKept t1 t2 -> traceKept t2 t3 -> traceKept t1 t3.
Proof.
  intros (a1 & a2 & a3 & a4) (b1 & b2 & b3 & b4).
  repeat split; try congruence; try lia.
  intros sid s Hs. destruct (a4 sid s Hs) as (s2 & Hs2 & K2).
  destruct (b4 sid s2 Hs2) as (s3 & Hs3 & K3).
  exists s3. split; [exact Hs3|eapply spanKept_trans; eauto].
Qed.

(** The fold of an event keeps the identity of the span. *)
Lemma foldSpan_kept `{GoLib} row ts s : spanKept s (Reconstruct.foldSpan row ts s).
Proof.
  rewrite foldSpan_fields. unfold spanKept. span_projections.
  repeat split; try reflexivity.
  intros E. unfold nextError. rewrite E. destruct (_ <=? _); reflexivity.
Qed.

(** The fold of an event keeps the trace and its spans. *)
Lemma stepTrace_kept `{GoLib} e t : traceKept t (stepTrace e t).
Proof.
  unfold stepTrace, traceKept.
  cbn [Reconstruct.t_id Reconstruct.t_env Reconstruct.t_updatedAt Reconstruct.t_spans].
  repeat split.
  - unfold GoTime.After. destruct (Z.ltb_spec (Reconstruct.t_updatedAt t) (snd e)); lia.
  - intros sid s Hs.
    destruct (decide (Reconstruct.resolveSpanID (fst e) (snd e) = sid)) as [E|Hne].
    + subst sid. rewrite lookup_insert_eq, Hs. cbn [default from_option id].
      eexists. split; [reflexivity|apply foldSpan_kept].
    + rewrite lookup_insert_ne by exact Hne. exists s. split; [exact Hs|apply spanKept_refl].
Qed.

Lemma addEvent_kept `{GoLib} (tr : gmap string Reconstruct.traceState) (e : Spec.event)
    (k : string) (t : Reconstruct.traceState) :
  tr !! k = Some t -> exists t', Spec.addEvent tr e !! k = Some t' /\ traceKept t t'.
Proof.
  intros Ht. rewrite addEvent_step.
  destruct (decide (Model.RawLogRow.TraceID (fst e) = k)) as [E|Hne].
  - subst k. rewrite lookup_insert_eq, Ht. cbn [default from_option id].
    eexists. split; [reflexivity|apply stepTrace_kept].
  - rewrite lookup_insert_ne by exact Hne. exists t. split; [exact Ht|apply traceKept_refl].
Qed.

(** The loop of [Add] keeps every trace that the map holds. *)
Lemma addRows_kept `{GoLib} (rows : list Model.RawLogRow.t) :
  forall (times : list Z) (tr tr' : gmap string Reconstruct.traceState) k t,
    Reconstruct.addRows tr rows times = Some tr' ->
    tr !! k = Some t -> exists t', tr' !! k = Some t' /\ traceKept t t'.
Proof.
  induction rows as [|row rows IH]; intros times tr tr' k t Hadd Ht.
  - cbn in Hadd. injection Hadd as <-. exists t. split; [exact Ht|apply traceKept_refl].
  - destruct times as [|ts times]; [discriminate|]. cbn [Reconstruct.addRows] in Hadd.
    destruct (addEvent_kept tr (row, ts) k t Ht) as (t1 & Ht1 & K1).
    destruct (IH times _ tr' k t1 Hadd Ht1) as (t2 & Ht2 & K2).
    exists t2. split; [exact Ht2|eapply traceKept_trans; eauto].
Qed.

(** The loop of [Add] touches only the traces that the rows name. *)
Lemma addRows_frame `{GoLib} (rows : list Model.RawLogRow.t) :
  forall (times : list Z) (tr tr' : gmap string Reconstruct.traceState) (k : string),
    (forall row, In row rows -> Model.RawLogRow.TraceID row <> k) ->
    Reconstruct.addRows tr rows times = Some tr' -> tr' !! k = tr !! k.
Proof.
  induction rows as [|row rows IH]; intros times tr tr' k Hne Hadd.
  - cbn in Hadd. injection Hadd as <-. reflexivity.
  - destruct times as [|ts times]; [discriminate|]. cbn [Reconstruct.addRows] in Hadd.
    rewrite (IH times _ tr' k (fun row' Hr => Hne row' (or_intror Hr)) Hadd).
    unfold Reconstruct.addRow. apply lookup_insert_ne. apply Hne. left. reflexivity.
Qed.

(** X3: [Add] drops nothing.  The window stays; a trace that the
    reconstructor holds is still held under its id, with its id and
    environment, an [updatedAt] that is not earlier, and every span that
    it had, each with its ids, environment and provenance, and with its
    error flag still set if it was.  A trace that no row of the batch
    names is left as it was. *)
Theorem Add_keeps_traces_and_spans `{GoLib} (r r' : Reconstruct.Reconstructor)
    (rows : list Model.RawLogRow.t) (times : list Z) (k : string) (t : Reconstruct.traceState) :
  Reconstruct.Add r rows times = Some r' ->
  Reconstruct.traces r !! k = Some t ->
  Reconstruct.window r' = Reconstruct.window r
  /\ exists t',
       Reconstruct.traces r' !! k = Some t'
       /\ traceKept t t'
       /\ ((forall row, In row rows -> Model.RawLogRow.TraceID row <> k) -> t' = t).
Proof.
  unfold Reconstruct.Add. intros Hadd Ht.
  destruct (Reconstruct.addRows (Reconstruct.traces r) rows times) as [tr'|] eqn:E; [|discriminate].
  injection Hadd as <-. cbn [Reconstruct.window Reconstruct.traces].
  split; [reflexivity|].
  destruct (addRows_kept rows times _ tr' k t E Ht) as (t' & Ht' & K).
  exists t'. split; [exact Ht'|]. split; [exact K|].
  intros Hne. rewrite (addRows_frame rows times _ tr' k Hne E), Ht in Ht'. congruence.
Qed.

(** X3 at a concrete input: the trace ["A"] of [Demo.reconA] and an event of
    the trace ["B"]. *)
Lemma Add_keeps_traces_and_spans_witness :
  let rows := [Demo.row "svc-b" "B" "s9" "" "start" 0 0] in
  let times := [Demo.day0 + 5 * GoTime.Millisecond] in
  exists r',
    Reconstruct.Add (H := Demo.lib) Demo.reconA rows times = Some r'
    /\ Reconstruct.traces Demo.reconA !! "A" = Some Demo.traceA
    /\ Reconstruct.window r' = Reconstruct.window Demo.reconA
    /\ exists t',
         Reconstruct.traces r' !! "A" = Some t'
         /\ traceKept Demo.traceA t'
         /\ ((forall row, In row rows -> Model.RawLogRow.TraceID row <> "A") -> t' = Demo.traceA).
Proof.
  intros rows times.
  destruct (Reconstruct.Add (H := Demo.lib) Demo.reconA rows times) as [r'|] eqn:Hadd;
    [|vm_compute in Hadd; discriminate Hadd].
  assert (Ht : Reconstruct.traces Demo.reconA !! "A" = Some Demo.traceA)
    by (vm_compute; reflexivity).
  exists r'. split; [reflexivity|]. split; [exact Ht|].
  exact (Add_keeps_traces_and_spans (H := Demo.lib) Demo.reconA r' rows times "A" Demo.traceA
           Hadd Ht).
Defined.

Lemma fold_addEvent_kept `{GoLib} (batch : list Spec.event) :
  forall (tr : gmap string Reconstruct.traceState) k t,
    tr !! k = Some t ->
    exists t', fold_left Spec.addEvent batch tr !! k = Some t' /\ traceKept t t'.
Proof.
  induction batch as [|e batch IH]; intros tr k t Ht.
  - exists t. split; [exact Ht|apply traceKept_refl].
  - cbn [fold_left]. destruct (addEvent_kept tr e k t Ht) as (t1 & Ht1 & K1).
    destruct (IH _ k t1 Ht1) as (t2 & Ht2 & K2).
    exists t2. split; [exact Ht2|eapply traceKept_trans; eauto].
Qed.

(** An event is on record once it is folded. *)
Lemma addEvent_recorded `{GoLib} (tr : gmap string Reconstruct.traceState) (e : Spec.event) :
  recorded e (Spec.addEvent tr e).
Proof.
  unfold recorded. rewrite addEvent_step, lookup_insert_eq.
  eexists. eexists. split; [reflexivity|].
  unfold stepTrace.
  cbn [Reconstruct.t_id Reconstruct.t_env Reconstruct.t_updatedAt Reconstruct.t_spans].
  rewrite lookup_insert_eq. split; [reflexivity|]. split.
  - unfold GoTime.After. case_Z.
  - intros Hst. rewrite foldSpan_fields. span_projections. unfold nextError.
    destruct (Z.leb_spec 400 (Model.RawLogRow.StatusCode (fst e))); [reflexivity|lia].
Qed.

(** An event on record stays on record when more events are folded. *)
Lemma recorded_kept `{GoLib} (e : Spec.event) (batch : list Spec.event)
    (tr : gmap string Reconstruct.traceState) :
  recorded e tr -> recorded e (fold_left Spec.addEvent batch tr).
Proof.
  intros (t & s & Ht & Hs & Hu & He).
  destruct (fold_addEvent_kept batch tr _ t Ht) as (t' & Ht' & (K1 & K2 & K3 & K4)).
  destruct (K4 _ s Hs) as (s' & Hs' & (_ & _ & _ & _ & Herr)).
  exists t', s'. repeat split; auto. lia.
Qed.

Lemma fold_addEvent_recorded `{GoLib} (batch : list Spec.event) :
  forall (tr : gmap string Reconstruct.traceState) e,
    In e batch -> recorded e (fold_left Spec.addEvent batch tr).
Proof.
  induction batch as [|e0 batch IH]; intros tr e Hin; [destruct Hin|].
  cbn [fold_left]. destruct Hin as [->|Hin].
  - apply recorded_kept, addEvent_recorded.
  - apply IH, Hin.
Qed.

(** X4: after [Add] of a batch (one time for each row), every event of the
    batch is on record: the reconstructor holds the trace that the event
    names, that trace holds the span that the event resolves to, the
    [updatedAt] of the trace is not before the time of the event, and the
    span is marked as an error when the status code of the event is 400 or
    more. *)
Theorem Add_records_every_event `{GoLib} (r : Reconstruct.Reconstructor)
    (batch : list Spec.event) (e : Spec.event) :
  In e batch ->
  exists r',
    Reconstruct.Add r (List.map fst batch) (List.map snd batch) = Some r'
    /\ recorded e (Reconstruct.traces r').
Proof.
  intros Hin. unfold Reconstruct.Add. rewrite addRows_fold.
  eexists. split; [reflexivity|]. cbn [Reconstruct.traces].
  apply fold_addEvent_recorded, Hin.
Qed.

(** X4 at a concrete input: the first of two events of a span ["s2"], folded
    into [Demo.reconA]. *)
Lemma Add_records_every_event_witness :
  let e1 : Spec.event := (Demo.row "svc-b" "A" "s2" "s1" "start" 0 0, Demo.day0) in
  let e2 : Spec.event := (Demo.row "svc-b" "A" "s2" "s1" "end" 500 40,
                          Demo.day0 + 40 * GoTime.Millisecond) in
  In e1 [e1; e2]
  /\ exists r',
       Reconstruct.Add (H := Demo.lib) Demo.reconA (List.map fst [e1; e2]) (List.map snd [e1; e2])
       = Some r'
       /\ recorded (H := Demo.lib) e1 (Reconstruct.traces r').
Proof.
  intros e1 e2.
  assert (Hin : In e1 [e1; e2]) by (left; reflexivity).
  split; [exact Hin|].
  exact (Add_records_every_event (H := Demo.lib) Demo.reconA [e1; e2] e1 Hin).
Defined.

(** *** Ids stay consistent *)

(** The fold of an event keeps the spans of a trace under their ids. *)
Lemma stepTrace_keyed `{GoLib} (e : Spec.event) (t : Reconstruct.traceState) :
  Reconstruct.t_id t = Model.RawLogRow.TraceID (fst e) ->
  spanKeyed (Model.RawLogRow.TraceID (fst e)) (Reconstruct.t_spans t) ->
  Reconstruct.t_id (stepTrace e t) = Model.RawLogRow.TraceID (fst e)
  /\ spanKeyed (Model.RawLogRow.TraceID (fst e)) (Reconstruct.t_spans (stepTrace e t)).
Proof.
  intros Hid Hk. unfold stepTrace.
  cbn [Reconstruct.t_id Reconstruct.t_env Reconstruct.t_updatedAt Reconstruct.t_spans].
  split; [exact Hid|].
  intros k s Hs.
  destruct (decide (Reconstruct.resolveSpanID (fst e) (snd e) = k)) as [E|Hne].
  - subst k. rewrite lookup_insert_eq in Hs. injection Hs as <-.
    destruct (foldSpan_kept (fst e) (snd e)
                (default (Reconstruct.newSpan (fst e) (Reconstruct.resolveSpanID (fst e) (snd e)))
                   (Reconstruct.t_spans t !! Reconstruct.resolveSpanID (fst e) (snd e))))
      as (K1 & K2 & _ & K4 & _).
    rewrite K1, K2, K4.
    destruct (Reconstruct.t_spans t !! Reconstruct.resolveSpanID (fst e) (snd e))
      as [s0|] eqn:E0; cbn [default from_option id].
    + destruct (Hk _ s0 E0) as (? & ? & ?). auto.
    + unfold Reconstruct.newSpan. span_projections. auto.
  - rewrite lookup_insert_ne in Hs by exact Hne. exact (Hk k s Hs).
Qed.

Lemma addEvent_wellKeyed `{GoLib} (tr : gmap string Reconstruct.traceState) (e : Spec.event) :
  wellKeyed tr -> wellKeyed (Spec.addEvent tr e).
Proof.
  intros Hw k t Ht. rewrite addEvent_step in Ht.
  destruct (decide (Model.RawLogRow.TraceID (fst e) = k)) as [E|Hne].
  - rewrite E in Ht. rewrite lookup_insert_eq in Ht. injection Ht as <-. rewrite <- E.
    destruct (tr !! Model.RawLogRow.TraceID (fst e)) as [t0|] eqn:E0; cbn [default from_option id].
    + destruct (Hw _ t0 E0) as [Hid Hk]. apply stepTrace_keyed; auto.
    + apply stepTrace_keyed; [reflexivity|]. unfold newTrace. cbn [Reconstruct.t_spans].
      intros k' s' Hs'. rewrite lookup_empty in Hs'. discriminate.
  - rewrite lookup_insert_ne in Ht by exact Hne. exact (Hw k t Ht).
Qed.

(** The loop of [Add] keeps the ids consistent. *)
Lemma addRows_wellKeyed `{GoLib} (rows : list Model.RawLogRow.t) :
  forall (times : list Z) (tr tr' : gmap string Reconstruct.traceState),
    wellKeyed tr -> Reconstruct.addRows tr rows times = Some tr' -> wellKeyed tr'.
Proof.
  induction rows as [|row rows IH]; intros times tr tr' Hw Hadd.
  - cbn in Hadd. injection Hadd as <-. exact Hw.
  - destruct times as [|ts times]; [discriminate|]. cbn [Reconstruct.addRows] in Hadd.
    eapply IH; [|exact Hadd]. exact (addEvent_wellKeyed tr (row, ts) Hw).
Qed.

(** X5: [Add] keeps the two maps consistent: when every trace is stored
    under its own id, and every span of it under its own id, with the id
    of the trace and the provenance ["explicit"], the same holds after
    [Add].  The empty reconstructor is in that state. *)
Theorem Add_keeps_ids_consistent `{GoLib} (r r' : Reconstruct.Reconstructor)
    (rows : list Model.RawLogRow.t) (times : list Z) :
  wellKeyed (Reconstruct.traces r) ->
  Reconstruct.Add r rows times = Some r' ->
  wellKeyed (Reconstruct.traces r').
Proof.
  unfold Reconstruct.Add. intros Hw Hadd.
  destruct (Reconstruct.addRows (Reconstruct.traces r) rows times) as [tr'|] eqn:E; [|discriminate].
  injection Hadd as <-. cbn [Reconstruct.traces]. eapply addRows_wellKeyed; eauto.
Qed.

(** The ids of the empty reconstructor are consistent. *)
Lemma New_wellKeyed (w : Z) : wellKeyed (Reconstruct.traces (Reconstruct.New w)).
Proof. intros k t Ht. cbn in Ht. rewrite lookup_empty in Ht. discriminate. Qed.

(** X5 at a concrete input: from the empty reconstructor to [Demo.reconA].
    *)
Lemma Add_keeps_ids_consistent_witness :
  wellKeyed (Reconstruct.traces (Reconstruct.New Demo.window))
  /\ Reconstruct.Add (H := Demo.lib) (Reconstruct.New Demo.window)
       [Demo.row "svc-a" "A" "s1" "" "start" 0 0; Demo.row "svc-a" "A" "s1" "" "end" 0 100]
       [Demo.day0; Demo.day0 + 100 * GoTime.Millisecond] = Some Demo.reconA
  /\ wellKeyed (Reconstruct.traces Demo.reconA).
Proof.
  assert (H0 : wellKeyed (Reconstruct.traces (Reconstruct.New Demo.window)))
    by apply New_wellKeyed.
  assert (H1 : Reconstruct.Add (H := Demo.lib) (Reconstruct.New Demo.window)
       [Demo.row "svc-a" "A" "s1" "" "start" 0 0; Demo.row "svc-a" "A" "s1" "" "end" 0 100]
       [Demo.day0; Demo.day0 + 100 * GoTime.Millisecond] = Some Demo.reconA)
    by (vm_compute; reflexivity).
  split; [exact H0|]. split; [exact H1|].
  exact (Add_keeps_ids_consistent (H := Demo.lib) _ _ _ _ H0 H1).
Defined.

(** The ids of [Demo.reconA] are consistent. *)
Lemma demo_reconA_wellKeyed : wellKeyed (Reconstruct.traces Demo.reconA).
Proof.
  apply (addRows_wellKeyed (H := Demo.lib)
           [Demo.row "svc-a" "A" "s1" "" "start" 0 0; Demo.row "svc-a" "A" "s1" "" "end" 0 100]
           [Demo.day0; Demo.day0 + 100 * GoTime.Millisecond] ∅).
  - intros k t Hk. rewrite lookup_empty in Hk. discriminate.
  - vm_compute. reflexivity.
Qed.

(** [Demo.reconA] holds the one trace ["A"]. *)
Lemma demo_reconA_keys (k : string) (t : Reconstruct.traceState) :
  Reconstruct.traces Demo.reconA !! k = Some t -> k = "A" /\ t = Demo.traceA.
Proof.
  unfold Demo.reconA. cbn [Reconstruct.traces]. intros Hk.
  apply lookup_singleton_Some in Hk. destruct Hk as [<- <-]. auto.
Qed.

(** ** What a flush keeps and what it emits *)

(** An iteration of the flush leaves a young trace where it is. *)
Lemma flushTrace_young (sch : Reconstruct.Schedule) (w : Z) (a : Reconstruct.flushAcc)
    (k : string) (t : Reconstruct.traceState) :
  Reconstruct.fa_traces a !! k = Some t ->
  GoTime.Sub (Reconstruct.sch_now sch) (Reconstruct.t_updatedAt t) < w ->
  Reconstruct.flushTrace sch w a k = a.
Proof.
  intros Hk Hy. unfold Reconstruct.flushTrace. rewrite Hk.
  destruct (Z.ltb_spec (GoTime.Sub (Reconstruct.sch_now sch) (Reconstruct.t_updatedAt t)) w);
    [reflexivity|lia].
Qed.

(** The loop of the flush leaves a young trace where it is. *)
Lemma flush_loop_young (sch : Reconstruct.Schedule) (w : Z) (ord : list string) :
  forall (a : Reconstruct.flushAcc) (k : string) (t : Reconstruct.traceState),
    Reconstruct.fa_traces a !! k = Some t ->
    GoTime.Sub (Reconstruct.sch_now sch) (Reconstruct.t_updatedAt t) < w ->
    Reconstruct.fa_traces (fold_left (Reconstruct.flushTrace sch w) ord a) !! k = Some t.
Proof.
  induction ord as [|x ord IH]; intros a k t Hk Hy; cbn [fold_left]; [exact Hk|].
  apply IH; [|exact Hy].
  destruct (decide (x = k)) as [->|Hne].
  - rewrite (flushTrace_young sch w a k t Hk Hy). exact Hk.
  - rewrite flushTrace_lookup_ne by exact Hne. exact Hk.
Qed.

(** X6: when the loop of [FlushNow] visits every trace that the
    reconstructor holds, what it holds after the flush is exactly the
    traces whose last update is less than [window] old, each as it was,
    whatever the store answers. *)
Theorem FlushNow_leaves_young_traces (ch : Clickhouse.Client) (sch : Reconstruct.Schedule)
    (r : Reconstruct.Reconstructor) :
  (forall k, is_Some (Reconstruct.traces r !! k) -> In k (Reconstruct.sch_traces sch)) ->
  Reconstruct.traces (fst (Reconstruct.FlushNow ch sch r))
  = filter (fun kt => GoTime.Sub (Reconstruct.sch_now sch) (Reconstruct.t_updatedAt (snd kt))
                      < Reconstruct.window r)
      (Reconstruct.traces r).
Proof.
  intros Hcover. unfold Reconstruct.FlushNow. cbn [fst Reconstruct.traces].
  set (a0 := Reconstruct.mkFlushAcc (Reconstruct.traces r) [] [] ∅).
  apply map_eq. intros k.

  destruct (Reconstruct.traces r !! k) as [t|] eqn:Ek.
  - destruct (Z.lt_ge_cases (GoTime.Sub (Reconstruct.sch_now sch) (Reconstruct.t_updatedAt t))
                (Reconstruct.window r)) as [Hy|Ha].
    + rewrite (flush_loop_young sch _ _ a0 k t Ek Hy).
      symmetry. apply map_lookup_filter_Some. split; [exact Ek|exact Hy].
    + rewrite (flush_loop_aged sch _ _ a0 k t (Hcover k (ex_intro _ t Ek)) Ek Ha).
      symmetry. apply map_lookup_filter_None. right. intros t' Ht'.
      rewrite Ek in Ht'. injection Ht' as <-. cbn [snd]. lia.
  - rewrite (flush_loop_gone sch _ _ a0 k Ek).
    symmetry. apply map_lookup_filter_None. left. exact Ek.
Qed.

(** X6 at a concrete input: [Demo.reconA], one minute after its last event.
    *)
Lemma FlushNow_leaves_young_traces_witness :
  let sch := Demo.schedule 1 ["s1"] in
  (forall k, is_Some (Reconstruct.traces Demo.reconA !! k) -> In k (Reconstruct.sch_traces sch))
  /\ Reconstruct.traces (fst (Reconstruct.FlushNow (fun _ => None) sch Demo.reconA))
     = filter (fun kt => GoTime.Sub (Reconstruct.sch_now sch) (Reconstruct.t_updatedAt (snd kt))
                         < Reconstruct.window Demo.reconA)
         (Reconstruct.traces Demo.reconA).
Proof.
  intros sch.
  assert (Hcov : forall k, is_Some (Reconstruct.traces Demo.reconA !! k)
                           -> In k (Reconstruct.sch_traces sch)).
  { intros k [t Hk]. apply demo_reconA_keys in Hk. destruct Hk as [-> _]. left. reflexivity. }
  split; [exact Hcov|].
  exact (FlushNow_leaves_young_traces (fun _ => None) sch Demo.reconA Hcov).
Defined.

(** Over young traces only, the loop of the flush does nothing. *)
Lemma flush_loop_all_young (sch : Reconstruct.Schedule) (w : Z) (ord : list string) :
  forall (a : Reconstruct.flushAcc),
    (forall k t, Reconstruct.fa_traces a !! k = Some t ->
       GoTime.Sub (Reconstruct.sch_now sch) (Reconstruct.t_updatedAt t) < w) ->
    fold_left (Reconstruct.flushTrace sch w) ord a = a.
Proof.
  induction ord as [|x ord IH]; intros a Hy; cbn [fold_left]; [reflexivity|].
  assert (E : Reconstruct.flushTrace sch w a x = a).
  { destruct (Reconstruct.fa_traces a !! x) as [t|] eqn:Ex.
    - exact (flushTrace_young sch w a x t Ex (Hy x t Ex)).
    - unfold Reconstruct.flushTrace. rewrite Ex. reflexivity. }
  rewrite E. apply IH, Hy.
Qed.

(** X7: when no trace has aged, [FlushNow] sends nothing to the store and
    leaves the reconstructor as it was. *)
Theorem FlushNow_nothing_aged (ch : Clickhouse.Client) (sch : Reconstruct.Schedule)
    (r : Reconstruct.Reconstructor) :
  (forall k t, Reconstruct.traces r !! k = Some t ->
     GoTime.Sub (Reconstruct.sch_now sch) (Reconstruct.t_updatedAt t) < Reconstruct.window r) ->
  Reconstruct.FlushNow ch sch r = (r, []).
Proof.
  intros Hy. unfold Reconstruct.FlushNow.
  rewrite (flush_loop_all_young sch _ _ (Reconstruct.mkFlushAcc (Reconstruct.traces r) [] [] ∅))
    by exact Hy.
  unfold Reconstruct.flushInserts.
  cbn [Reconstruct.fa_traces Reconstruct.fa_spanRows Reconstruct.fa_traceRows
       Reconstruct.fa_edgeAgg].
  rewrite map_size_empty. cbn [app List.map]. destruct r; reflexivity.
Qed.

(** X7 at a concrete input: [Demo.reconA], one minute after its last event.
    *)
Lemma FlushNow_nothing_aged_witness :
  let sch := Demo.schedule 1 ["s1"] in
  (forall k t, Reconstruct.traces Demo.reconA !! k = Some t ->
     GoTime.Sub (Reconstruct.sch_now sch) (Reconstruct.t_updatedAt t)
     < Reconstruct.window Demo.reconA)
  /\ Reconstruct.FlushNow (fun _ => None) sch Demo.reconA = (Demo.reconA, []).
Proof.
  intros sch.
  assert (Hy : forall k t, Reconstruct.traces Demo.reconA !! k = Some t ->
     GoTime.Sub (Reconstruct.sch_now sch) (Reconstruct.t_updatedAt t)
     < Reconstruct.window Demo.reconA).
  { intros k t Hk. apply demo_reconA_keys in Hk. destruct Hk as [_ ->].
    vm_compute. reflexivity. }
  split; [exact Hy|].
  exact (FlushNow_nothing_aged (fun _ => None) sch Demo.reconA Hy).
Defined.

(** *** Finalized spans, one by one *)

(** [inferBounds] changes nothing but the bounds of a span. *)
Lemma inferBounds_clear (now : Z) (s : Reconstruct.spanState) :
  clearBounds (fst (Reconstruct.inferBounds now s)) = clearBounds s.
Proof.
  unfold Reconstruct.inferBounds.
  destruct (GoTime.IsZero (Reconstruct.startTs s) && negb (GoTime.IsZero (Reconstruct.endTs s))
            && (0 <? Reconstruct.durationMs s)).
  - span_projections. cbn [Reconstruct.set_startTs Reconstruct.startTs Reconstruct.endTs
                             Reconstruct.durationMs].
    repeat match goal with
           | |- context [if ?b then _ else _] => destruct b
           end; reflexivity.
  - repeat match goal with
           | |- context [if ?b then _ else _] => destruct b
           end; reflexivity.
Qed.

(** [spanDuration] changes nothing but the bounds of a span. *)
Lemma spanDuration_clear (s : Reconstruct.spanState) :
  clearBounds (fst (Reconstruct.spanDuration s)) = clearBounds s.
Proof.
  unfold Reconstruct.spanDuration.
  repeat match goal with
         | |- context [if ?b then _ else _] => destruct b
         end; reflexivity.
Qed.

(** Two spans that differ in their bounds only agree on every other field. *)
Lemma clearBounds_fields (s s' : Reconstruct.spanState) :
  clearBounds s' = clearBounds s ->
  Reconstruct.traceID s' = Reconstruct.traceID s
  /\ Reconstruct.spanID s' = Reconstruct.spanID s
  /\ Reconstruct.parentSpanID s' = Reconstruct.parentSpanID s
  /\ Reconstruct.service s' = Reconstruct.service s
  /\ Reconstruct.env s' = Reconstruct.env s
  /\ Reconstruct.host s' = Reconstruct.host s
  /\ Reconstruct.version s' = Reconstruct.version s
  /\ Reconstruct.operation s' = Reconstruct.operation s
  /\ Reconstruct.durationMs s' = Reconstruct.durationMs s
  /\ Reconstruct.statusCode s' = Reconstruct.statusCode s
  /\ Reconstruct.isError s' = Reconstruct.isError s
  /\ Reconstruct.source s' = Reconstruct.source s.
Proof.
  destruct s, s'. unfold clearBounds. cbn. intros E. injection E as -> -> -> -> -> -> -> -> -> -> -> ->.
  repeat split.
Qed.

(** The row that the second loop of finalizeSpans appends for the span s. *)
Lemma finalizeSpan_emits (children : gmap string (list string)) (now : string -> Z)
    (store : gmap string Reconstruct.spanState) (out : list Model.SpanRow.t)
    (k : string) (s : Reconstruct.spanState) :
  store !! k = Some s ->
  exists s' row,
    Reconstruct.finalizeSpan children now (store, out) k = (<[k := s']> store, out ++ [row])
    /\ s' = fst (Reconstruct.spanDuration (fst (Reconstruct.inferBounds (now k) s)))
    /\ Model.SpanRow.TraceID row = Reconstruct.traceID s
    /\ Model.SpanRow.SpanID row = Reconstruct.spanID s
    /\ Model.SpanRow.ParentSpanID row = Reconstruct.parentSpanID s
    /\ Model.SpanRow.Service row = Reconstruct.service s
    /\ Model.SpanRow.Env row = Reconstruct.env s
    /\ Model.SpanRow.Host row = Reconstruct.host s
    /\ Model.SpanRow.Version row = Reconstruct.version s
    /\ Model.SpanRow.Operation row = Reconstruct.operation s
    /\ Model.SpanRow.StatusCode row = Reconstruct.statusCode s
    /\ Model.SpanRow.IsError row = Reconstruct.boolToUint8 (Reconstruct.isError s)
    /\ Model.SpanRow.StartTS row = Model.FormatCHTime (Reconstruct.startTs s')
    /\ Model.SpanRow.EndTS row = Model.FormatCHTime (Reconstruct.endTs s')
    /\ Model.SpanRow.DurationMs row
       = snd (Reconstruct.spanDuration (fst (Reconstruct.inferBounds (now k) s)))
    /\ Model.SpanRow.Source row = snd (Reconstruct.inferBounds (now k) s).
Proof.
  intros Hk. unfold Reconstruct.finalizeSpan. rewrite Hk.
  pose proof (inferBounds_clear (now k) s) as C1.
  destruct (Reconstruct.inferBounds (now k) s) as [s1 src] eqn:E1. cbn [fst snd] in *.
  pose proof (spanDuration_clear s1) as C2.
  destruct (Reconstruct.spanDuration s1) as [s2 dur] eqn:E2. cbn [fst snd] in *.
  assert (C : clearBounds s2 = clearBounds s) by congruence.
  apply clearBounds_fields in C.
  destruct C as (F1 & F2 & F3 & F4 & F5 & F6 & F7 & F8 & F9 & F10 & F11 & F12).
  eexists. eexists. split; [reflexivity|].
  cbn [Model.SpanRow.TraceID Model.SpanRow.SpanID Model.SpanRow.ParentSpanID
       Model.SpanRow.Service Model.SpanRow.Env Model.SpanRow.Host Model.SpanRow.Version
       Model.SpanRow.Operation Model.SpanRow.StatusCode Model.SpanRow.IsError
       Model.SpanRow.StartTS Model.SpanRow.EndTS Model.SpanRow.DurationMs
       Model.SpanRow.Source].
  rewrite F11. repeat split; auto.
Qed.

(** The second loop of [finalizeSpans] skips an id that is not a span. *)
Lemma finalizeSpan_absent (children : gmap string (list string)) (now : string -> Z)
    (store : gmap string Reconstruct.spanState) (out : list Model.SpanRow.t) (k : string) :
  store !! k = None ->
  Reconstruct.finalizeSpan children now (store, out) k = (store, out).
Proof. intros Hk. unfold Reconstruct.finalizeSpan. rewrite Hk. reflexivity. Qed.

(** The second loop of [finalizeSpans] appends one row for each id, under the
    id of the trace. *)
Lemma finalize_loop_ids (children : gmap string (list string)) (now : string -> Z)
    (tid : string) (ord : list string) :
  forall (store : gmap string Reconstruct.spanState) (out : list Model.SpanRow.t),
    (forall k s, store !! k = Some s ->
       Reconstruct.spanID s = k /\ Reconstruct.traceID s = tid) ->
    (forall k, In k ord -> is_Some (store !! k)) ->
    List.Forall (fun row => Model.SpanRow.TraceID row = tid) out ->
    let res := fold_left (Reconstruct.finalizeSpan children now) ord (store, out) in
    List.map Model.SpanRow.SpanID (snd res) = List.map Model.SpanRow.SpanID out ++ ord
    /\ List.Forall (fun row => Model.SpanRow.TraceID row = tid) (snd res).
Proof.
  induction ord as [|x ord IH]; intros store out Hkey Hin Hout; cbn [fold_left].
  - cbn [snd]. rewrite app_nil_r. auto.
  - destruct (Hin x (or_introl eq_refl)) as [s Hs].
    destruct (finalizeSpan_emits children now store out x s Hs)
      as (s' & row & E & Es' & R1 & R2 & _).
    rewrite E.
    assert (C : clearBounds s' = clearBounds s).
    { rewrite Es', spanDuration_clear, inferBounds_clear. reflexivity. }
    apply clearBounds_fields in C. destruct C as (F1 & F2 & _).
    destruct (Hkey x s Hs) as [K1 K2].
    specialize (IH (<[x := s']> store) (out ++ [row])).
    cbn zeta in IH. destruct IH as [I1 I2].
    + intros k s0 Hs0. destruct (decide (x = k)) as [<-|Hne].
      * rewrite lookup_insert_eq in Hs0. injection Hs0 as <-. split; congruence.
      * rewrite lookup_insert_ne in Hs0 by exact Hne. exact (Hkey k s0 Hs0).
    + intros k Hk. destruct (decide (x = k)) as [<-|Hne].
      * rewrite lookup_insert_eq. eauto.
      * rewrite lookup_insert_ne by exact Hne. apply Hin. right. exact Hk.
    + apply List.Forall_app. split; [exact Hout|]. constructor; [congruence|constructor].
    + split; [|exact I2]. rewrite I1, List.map_app. cbn [List.map].
      rewrite <- app_assoc. cbn [app]. rewrite R2, K1. reflexivity.
Qed.

(** X8: [finalizeSpans] returns one row for each span that its second loop
    visits, in the order of the visit, and every row carries the id of the
    trace. *)
Theorem finalizeSpans_one_row_per_span (ord1 ord2 : list string) (now : string -> Z)
    (t : Reconstruct.traceState) (tid : string) :
  spanKeyed tid (Reconstruct.t_spans t) ->
  (forall k, In k ord2 -> is_Some (Reconstruct.t_spans t !! k)) ->
  List.map Model.SpanRow.SpanID (Reconstruct.finalizeSpans ord1 ord2 now t) = ord2
  /\ List.Forall (fun row => Model.SpanRow.TraceID row = tid)
       (Reconstruct.finalizeSpans ord1 ord2 now t).
Proof.
  intros Hkey Hin. unfold Reconstruct.finalizeSpans.
  apply (finalize_loop_ids _ now tid ord2 (Reconstruct.t_spans t) []).
  - intros k s Hs. destruct (Hkey k s Hs) as (? & ? & ?). auto.
  - exact Hin.
  - constructor.
Qed.

(** X8 at a concrete input: the trace of [Demo.reconA]. *)
Lemma finalizeSpans_one_row_per_span_witness :
  let now := fun _ : string => Demo.day0 + 600000 * GoTime.Millisecond in
  spanKeyed "A" (Reconstruct.t_spans Demo.traceA)
  /\ (forall k, In k ["s1"] -> is_Some (Reconstruct.t_spans Demo.traceA !! k))
  /\ List.map Model.SpanRow.SpanID (Reconstruct.finalizeSpans ["s1"] ["s1"] now Demo.traceA)
     = ["s1"]
  /\ List.Forall (fun row => Model.SpanRow.TraceID row = "A")
       (Reconstruct.finalizeSpans ["s1"] ["s1"] now Demo.traceA).
Proof.
  intros now.
  assert (H1 : spanKeyed "A" (Reconstruct.t_spans Demo.traceA)).
  { exact (proj2 (demo_reconA_wellKeyed "A" Demo.traceA ltac:(vm_compute; reflexivity))). }
  assert (H2 : forall k, In k ["s1"] -> is_Some (Reconstruct.t_spans Demo.traceA !! k)).
  { intros k [<-|[]]. exists Demo.spanS1. vm_compute. reflexivity. }
  split; [exact H1|]. split; [exact H2|].
  exact (finalizeSpans_one_row_per_span ["s1"] ["s1"] now Demo.traceA "A" H1 H2).
Defined.

(** The second loop of [finalizeSpans] keeps the rows that it has. *)
Lemma finalize_loop_grows (children : gmap string (list string)) (now : string -> Z)
    (ord : list string) :
  forall (store : gmap string Reconstruct.spanState) (out : list Model.SpanRow.t) row,
    In row out ->
    In row (snd (fold_left (Reconstruct.finalizeSpan children now) ord (store, out))).
Proof.
  induction ord as [|x ord IH]; intros store out row Hin; cbn [fold_left]; [exact Hin|].
  destruct (store !! x) as [s|] eqn:Ex.
  - destruct (finalizeSpan_emits children now store out x s Ex) as (s' & row' & E & _).
    rewrite E. apply IH. apply in_or_app. left. exact Hin.
  - rewrite (finalizeSpan_absent children now store out x Ex). apply IH, Hin.
Qed.

(** The row that the second loop of [finalizeSpans] appends for a span that
    it visits once. *)
Lemma finalize_loop_row (children : gmap string (list string)) (now : string -> Z)
    (ord : list string) :
  forall (store : gmap string Reconstruct.spanState) (out : list Model.SpanRow.t)
         (k : string) (s : Reconstruct.spanState),
    NoDup ord -> In k ord -> store !! k = Some s ->
    exists row,
      In row (snd (fold_left (Reconstruct.finalizeSpan children now) ord (store, out)))
      /\ Model.SpanRow.SpanID row = Reconstruct.spanID s
      /\ Model.SpanRow.ParentSpanID row = Reconstruct.parentSpanID s
      /\ Model.SpanRow.Service row = Reconstruct.service s
      /\ Model.SpanRow.StatusCode row = Reconstruct.statusCode s
      /\ Model.SpanRow.IsError row = Reconstruct.boolToUint8 (Reconstruct.isError s)
      /\ Model.SpanRow.DurationMs row
         = snd (Reconstruct.spanDuration (fst (Reconstruct.inferBounds (now k) s)))
      /\ Model.SpanRow.Source row = snd (Reconstruct.inferBounds (now k) s).
Proof.
  induction ord as [|x ord IH]; intros store out k s Hnd Hin Hk; [destruct Hin|].
  apply NoDup_cons in Hnd. destruct Hnd as [Hx Hnd]. cbn [fold_left].
  destruct (decide (x = k)) as [->|Hne].
  - destruct (finalizeSpan_emits children now store out k s Hk)
      as (s' & row & E & _ & _ & R2 & R3 & R4 & _ & _ & _ & _ & R9 & R10 & _ & _ & R13 & R14).
    rewrite E. exists row. split; [|auto 10].
    apply finalize_loop_grows. apply in_or_app. right. left. reflexivity.
  - destruct Hin as [E|Hin]; [congruence|].
    destruct (store !! x) as [sx|] eqn:Ex.
    + destruct (finalizeSpan_emits children now store out x sx Ex) as (s' & row' & E & _).
      rewrite E. apply IH; auto. rewrite lookup_insert_ne by exact Hne. exact Hk.
    + rewrite (finalizeSpan_absent children now store out x Ex). apply IH; auto.
Qed.

(** The source that [inferBounds] gives to a span that [Add] has built. *)
Lemma inferBounds_source (now : Z) (s : Reconstruct.spanState) :
  Reconstruct.source s = "explicit" ->
  (snd (Reconstruct.inferBounds now s) = "explicit"
   <-> Reconstruct.startTs s <> 0 /\ Reconstruct.endTs s <> 0)
  /\ (snd (Reconstruct.inferBounds now s) = "explicit"
      \/ snd (Reconstruct.inferBounds now s) = "inferred").
Proof.
  destruct s as [tid sid par svc en ho ver op st et dur sc ie src].
  cbn [Reconstruct.source Reconstruct.startTs Reconstruct.endTs]. intros ->.
  unfold Reconstruct.inferBounds, GoTime.IsZero.
  cbn [Reconstruct.source Reconstruct.startTs Reconstruct.endTs Reconstruct.durationMs].
  destruct (Z.eqb_spec st 0) as [Es|Es]; destruct (Z.eqb_spec et 0) as [Ee|Ee];
    destruct (Z.ltb_spec 0 dur) as [Ed|Ed];
    cbn [andb negb fst snd Reconstruct.set_startTs Reconstruct.set_endTs Reconstruct.startTs
         Reconstruct.endTs Reconstruct.durationMs Reconstruct.source];
    repeat match goal with
           | |- context [(?x =? ?y)%Z] =>
               destruct (Z.eqb_spec x y);
               cbn [andb negb fst snd Reconstruct.set_startTs Reconstruct.set_endTs
                    Reconstruct.startTs Reconstruct.endTs Reconstruct.durationMs
                    Reconstruct.source]
           | |- context [(?x <? ?y)%Z] =>
               destruct (Z.ltb_spec x y);
               cbn [andb negb fst snd Reconstruct.set_startTs Reconstruct.set_endTs
                    Reconstruct.startTs Reconstruct.endTs Reconstruct.durationMs
                    Reconstruct.source]
           end;
    try lia;
    (split;
     [split; [intros E; first [discriminate E | split; assumption]
             | intros [A B]; first [reflexivity | contradiction]]
     | first [left; reflexivity | right; reflexivity]]).
Qed.

(** [spanDuration] keeps a duration that the events gave. *)
Lemma spanDuration_explicit (now : Z) (s : Reconstruct.spanState) :
  Reconstruct.durationMs s <> 0 ->
  snd (Reconstruct.spanDuration (fst (Reconstruct.inferBounds now s))) = Reconstruct.durationMs s.
Proof.
  intros Hd.
  destruct (clearBounds_fields _ _ (inferBounds_clear now s))
    as (_ & _ & _ & _ & _ & _ & _ & _ & F9 & _).
  unfold Reconstruct.spanDuration. rewrite F9.
  destruct (Z.eqb_spec (Reconstruct.durationMs s) 0); [contradiction|reflexivity].
Qed.

(** X9: the row of a span carries the span's id, parent id, service,
    status code and error flag, and the duration that its events gave when
    they gave one.  Its source is ["explicit"] exactly when the events
    gave both a start and an end, and ["inferred"] otherwise. *)
Theorem finalizeSpans_provenance (ord1 ord2 : list string) (now : string -> Z)
    (t : Reconstruct.traceState) (k : string) (s : Reconstruct.spanState) :
  NoDup ord2 -> In k ord2 ->
  Reconstruct.t_spans t !! k = Some s ->
  Reconstruct.source s = "explicit" ->
  exists row,
    In row (Reconstruct.finalizeSpans ord1 ord2 now t)
    /\ Model.SpanRow.SpanID row = Reconstruct.spanID s
    /\ Model.SpanRow.ParentSpanID row = Reconstruct.parentSpanID s
    /\ Model.SpanRow.Service row = Reconstruct.service s
    /\ Model.SpanRow.StatusCode row = Reconstruct.statusCode s
    /\ Model.SpanRow.IsError row = Reconstruct.boolToUint8 (Reconstruct.isError s)
    /\ (Reconstruct.durationMs s <> 0 ->
        Model.SpanRow.DurationMs row = Reconstruct.durationMs s)
    /\ (Model.SpanRow.Source row = "explicit"
        <-> Reconstruct.startTs s <> 0 /\ Reconstruct.endTs s <> 0)
    /\ (Model.SpanRow.Source row = "explicit" \/ Model.SpanRow.Source row = "inferred").
Proof.
  intros Hnd Hin Hk Hsrc. unfold Reconstruct.finalizeSpans.
  destruct (finalize_loop_row (Reconstruct.buildChildren ord1 (Reconstruct.t_spans t)) now ord2
              (Reconstruct.t_spans t) [] k s Hnd Hin Hk)
    as (row & Hrow & R1 & R2 & R3 & R4 & R5 & R6 & R7).
  destruct (inferBounds_source (now k) s Hsrc) as [S1 S2].
  exists row. rewrite R7.
  split; [exact Hrow|]. split; [exact R1|]. split; [exact R2|]. split; [exact R3|].
  split; [exact R4|]. split; [exact R5|].
  split; [intros Hd; rewrite R6; apply spanDuration_explicit, Hd|].
  split; [exact S1|exact S2].
Qed.

(** X9 at a concrete input: the span ["s1"] of [Demo.reconA]. *)
Lemma finalizeSpans_provenance_witness :
  let now := fun _ : string => Demo.day0 + 600000 * GoTime.Millisecond in
  NoDup ["s1"] /\ In "s1" ["s1"]
  /\ Reconstruct.t_spans Demo.traceA !! "s1" = Some Demo.spanS1
  /\ Reconstruct.source Demo.spanS1 = "explicit"
  /\ exists row,
       In row (Reconstruct.finalizeSpans ["s1"] ["s1"] now Demo.traceA)
       /\ Model.SpanRow.SpanID row = Reconstruct.spanID Demo.spanS1
       /\ Model.SpanRow.ParentSpanID row = Reconstruct.parentSpanID Demo.spanS1
       /\ Model.SpanRow.Service row = Reconstruct.service Demo.spanS1
       /\ Model.SpanRow.StatusCode row = Reconstruct.statusCode Demo.spanS1
       /\ Model.SpanRow.IsError row = Reconstruct.boolToUint8 (Reconstruct.isError Demo.spanS1)
       /\ (Reconstruct.durationMs Demo.spanS1 <> 0 ->
           Model.SpanRow.DurationMs row = Reconstruct.durationMs Demo.spanS1)
       /\ (Model.SpanRow.Source row = "explicit"
           <-> Reconstruct.startTs Demo.spanS1 <> 0 /\ Reconstruct.endTs Demo.spanS1 <> 0)
       /\ (Model.SpanRow.Source row = "explicit" \/ Model.SpanRow.Source row = "inferred").
Proof.
  intros now.
  assert (H1 : NoDup ["s1"]) by (apply NoDup_singleton).
  assert (H2 : In "s1" ["s1"]) by (left; reflexivity).
  assert (H3 : Reconstruct.t_spans Demo.traceA !! "s1" = Some Demo.spanS1)
    by (vm_compute; reflexivity).
  assert (H4 : Reconstruct.source Demo.spanS1 = "explicit") by reflexivity.
  split; [exact H1|]. split; [exact H2|]. split; [exact H3|]. split; [exact H4|].
  exact (finalizeSpans_provenance ["s1"] ["s1"] now Demo.traceA "s1" Demo.spanS1 H1 H2 H3 H4).
Defined.

(** Every row of the second loop of [finalizeSpans] is the row of a span
    of the trace. *)
Lemma finalize_loop_rows_in (children : gmap string (list string)) (now : string -> Z)
    (tid : string) (store0 : gmap string Reconstruct.spanState) (ord : list string) :
  forall (store : gmap string Reconstruct.spanState) (out : list Model.SpanRow.t),
    (forall k s, store !! k = Some s ->
       Reconstruct.spanID s = k /\ Reconstruct.traceID s = tid /\ is_Some (store0 !! k)) ->
    List.Forall (fun row => Model.SpanRow.TraceID row = tid
                            /\ is_Some (store0 !! Model.SpanRow.SpanID row)) out ->
    List.Forall (fun row => Model.SpanRow.TraceID row = tid
                            /\ is_Some (store0 !! Model.SpanRow.SpanID row))
      (snd (fold_left (Reconstruct.finalizeSpan children now) ord (store, out))).
Proof.
  induction ord as [|x ord IH]; intros store out Hkey Hout; cbn [fold_left]; [exact Hout|].
  destruct (store !! x) as [s|] eqn:Ex.
  - destruct (finalizeSpan_emits children now store out x s Ex)
      as (s' & row & E & Es' & R1 & R2 & _).
    rewrite E.
    assert (C : clearBounds s' = clearBounds s).
    { rewrite Es', spanDuration_clear, inferBounds_clear. reflexivity. }
    apply clearBounds_fields in C. destruct C as (F1 & F2 & _).
    destruct (Hkey x s Ex) as (K1 & K2 & K3).
    apply IH.
    + intros k s0 Hs0. destruct (decide (x = k)) as [<-|Hne].
      * rewrite lookup_insert_eq in Hs0. injection Hs0 as <-.
        split; [congruence|]. split; [congruence|exact K3].
      * rewrite lookup_insert_ne in Hs0 by exact Hne. exact (Hkey k s0 Hs0).
    + apply List.Forall_app. split; [exact Hout|]. constructor; [|constructor].
      split; [congruence|]. rewrite R2, K1. exact K3.
  - rewrite (finalizeSpan_absent children now store out x Ex). apply IH; assumption.
Qed.

Lemma finalizeSpans_rows_in (ord1 ord2 : list string) (now : string -> Z)
    (t : Reconstruct.traceState) (tid : string) :
  spanKeyed tid (Reconstruct.t_spans t) ->
  List.Forall (fun row => Model.SpanRow.TraceID row = tid
                          /\ is_Some (Reconstruct.t_spans t !! Model.SpanRow.SpanID row))
    (Reconstruct.finalizeSpans ord1 ord2 now t).
Proof.
  intros Hkey. unfold Reconstruct.finalizeSpans. apply finalize_loop_rows_in; [|constructor].
  intros k s Hs. destruct (Hkey k s Hs) as (? & ? & ?). eauto.
Qed.

(** The span rows that a flush sends are those that its loop gathers. *)
Lemma insertedSpans_flush (ch : Clickhouse.Client) (sch : Reconstruct.Schedule)
    (a : Reconstruct.flushAcc) :
  Clickhouse.insertedSpans (List.map (fun i => (i, ch i)) (Reconstruct.flushInserts sch a))
  = Reconstruct.fa_spanRows a.
Proof.
  unfold Reconstruct.flushInserts, Clickhouse.insertedSpans.
  destruct (Reconstruct.fa_spanRows a) as [|s ss];
    destruct (Reconstruct.fa_traceRows a) as [|tr trs];
    destruct (size (Reconstruct.fa_edgeAgg a)); cbn; rewrite ?app_nil_r; reflexivity.
Qed.

(** The trace rows that a flush sends are those that its loop gathers. *)
Lemma insertedTraces_flush (ch : Clickhouse.Client) (sch : Reconstruct.Schedule)
    (a : Reconstruct.flushAcc) :
  Clickhouse.insertedTraces (List.map (fun i => (i, ch i)) (Reconstruct.flushInserts sch a))
  = Reconstruct.fa_traceRows a.
Proof.
  unfold Reconstruct.flushInserts, Clickhouse.insertedTraces.
  destruct (Reconstruct.fa_spanRows a) as [|s ss];
    destruct (Reconstruct.fa_traceRows a) as [|tr trs];
    destruct (size (Reconstruct.fa_edgeAgg a)); cbn; rewrite ?app_nil_r; reflexivity.
Qed.

Lemma buildTraceRow_ids (ord1 ord2 : list string) (now : Reconstruct.parseCall -> Z)
    (env tid : string) (spans : list Model.SpanRow.t) :
  Model.TraceRow.TraceID (Reconstruct.buildTraceRow ord1 ord2 now env tid spans) = tid
  /\ Model.TraceRow.Env (Reconstruct.buildTraceRow ord1 ord2 now env tid spans) = env.
Proof. destruct spans; split; reflexivity. Qed.

(** The loop of the flush gathers rows of aged traces only. *)
Lemma flush_loop_emits (sch : Reconstruct.Schedule) (r : Reconstruct.Reconstructor)
    (ord : list string) :
  wellKeyed (Reconstruct.traces r) ->
  forall a : Reconstruct.flushAcc,
    (forall k t, Reconstruct.fa_traces a !! k = Some t -> Reconstruct.traces r !! k = Some t) ->
    List.Forall (fromAgedTrace (Reconstruct.sch_now sch) r) (Reconstruct.fa_spanRows a) ->
    List.Forall (rollsUpAgedTrace (Reconstruct.sch_now sch) r) (Reconstruct.fa_traceRows a) ->
    let a' := fold_left (Reconstruct.flushTrace sch (Reconstruct.window r)) ord a in
    List.Forall (fromAgedTrace (Reconstruct.sch_now sch) r) (Reconstruct.fa_spanRows a')
    /\ List.Forall (rollsUpAgedTrace (Reconstruct.sch_now sch) r) (Reconstruct.fa_traceRows a').
Proof.
  intros Hw. induction ord as [|x ord IH]; intros a Hsub Hs Ht; cbn [fold_left]; [auto|].
  apply IH; unfold Reconstruct.flushTrace;
    destruct (Reconstruct.fa_traces a !! x) as [t|] eqn:Ex; auto;
    destruct (Z.ltb_spec (GoTime.Sub (Reconstruct.sch_now sch) (Reconstruct.t_updatedAt t))
                (Reconstruct.window r)) as [Hy|Ha]; auto;
    pose proof (Hsub x t Ex) as Hx;
    destruct (Hw x t Hx) as [Hid Hkey];
    pose proof (finalizeSpans_rows_in (Reconstruct.sch_children sch x) (Reconstruct.sch_emit sch x)
                  (Reconstruct.sch_spanNow sch x) t x Hkey) as Hrows;
    destruct (Reconstruct.finalizeSpans _ _ _ t) as [|row rows] eqn:Ef;
    cbn [Reconstruct.fa_traces Reconstruct.fa_spanRows Reconstruct.fa_traceRows]; auto.
  - intros k t' Hk. apply Hsub. apply lookup_delete_Some in Hk. tauto.
  - intros k t' Hk. apply Hsub. apply lookup_delete_Some in Hk. tauto.
  - apply List.Forall_app. split; [exact Hs|].
    eapply List.Forall_impl; [|exact Hrows]. intros row' [R1 R2].
    exists t. rewrite R1. auto.
  - apply List.Forall_app. split; [exact Ht|]. constructor; [|constructor].
    exists t. cbn [Reconstruct.buildTraceRow Model.TraceRow.TraceID Model.TraceRow.Env]. auto.
Qed.

(** X10: every span row that a flush sends to the store is a span of a
    trace that the reconstructor held and that had aged, under the id of
    that trace; every trace row is the rollup of such a trace, with its
    environment. *)
Theorem FlushNow_emits_aged_traces_only (ch : Clickhouse.Client) (sch : Reconstruct.Schedule)
    (r : Reconstruct.Reconstructor) :
  wellKeyed (Reconstruct.traces r) ->
  List.Forall (fromAgedTrace (Reconstruct.sch_now sch) r)
    (Clickhouse.insertedSpans (snd (Reconstruct.FlushNow ch sch r)))
  /\ List.Forall (rollsUpAgedTrace (Reconstruct.sch_now sch) r)
       (Clickhouse.insertedTraces (snd (Reconstruct.FlushNow ch sch r))).
Proof.
  intros Hw. unfold Reconstruct.FlushNow. cbn [snd].
  rewrite insertedSpans_flush, insertedTraces_flush.
  apply (flush_loop_emits sch r _ Hw (Reconstruct.mkFlushAcc (Reconstruct.traces r) [] [] ∅));
    cbn [Reconstruct.fa_traces Reconstruct.fa_spanRows Reconstruct.fa_traceRows]; auto.
Qed.

(** X10 at a concrete input: [Demo.reconA], ten minutes after its last
    event; the flush sends a span row. *)
Lemma FlushNow_emits_aged_traces_only_witness :
  let sch := Demo.schedule 10 ["s1"] in
  wellKeyed (Reconstruct.traces Demo.reconA)
  /\ List.Forall (fromAgedTrace (Reconstruct.sch_now sch) Demo.reconA)
       (Clickhouse.insertedSpans (snd (Reconstruct.FlushNow (fun _ => None) sch Demo.reconA)))
  /\ List.Forall (rollsUpAgedTrace (Reconstruct.sch_now sch) Demo.reconA)
       (Clickhouse.insertedTraces (snd (Reconstruct.FlushNow (fun _ => None) sch Demo.reconA)))
  /\ Clickhouse.insertedSpans (snd (Reconstruct.FlushNow (fun _ => None) sch Demo.reconA)) <> [].
Proof.
  intros sch.
  split; [exact demo_reconA_wellKeyed|].
  destruct (FlushNow_emits_aged_traces_only (fun _ => None) sch Demo.reconA
              demo_reconA_wellKeyed) as [A B].
  split; [exact A|]. split; [exact B|].
  vm_compute. discriminate.
Defined.

(** The second loop of [finalizeSpans] appends a row for every span that
    it visits. *)
Lemma finalize_loop_has_row (children : gmap string (list string)) (now : string -> Z)
    (tid : string) (ord : list string) :
  forall (store : gmap string Reconstruct.spanState) (out : list Model.SpanRow.t) (k : string),
    (forall k' s, store !! k' = Some s ->
       Reconstruct.spanID s = k' /\ Reconstruct.traceID s = tid) ->
    In k ord -> is_Some (store !! k) ->
    exists row,
      In row (snd (fold_left (Reconstruct.finalizeSpan children now) ord (store, out)))
      /\ Model.SpanRow.TraceID row = tid /\ Model.SpanRow.SpanID row = k.
Proof.
  induction ord as [|x ord IH]; intros store out k Hkey Hin Hk; [destruct Hin|].
  cbn [fold_left].
  destruct (decide (x = k)) as [->|Hne].
  - destruct Hk as [s Hs].
    destruct (finalizeSpan_emits children now store out k s Hs)
      as (s' & row & E & _ & R1 & R2 & _).
    rewrite E. destruct (Hkey k s Hs) as [K1 K2].
    exists row. split; [|split; congruence].
    apply finalize_loop_grows. apply in_or_app. right. left. reflexivity.
  - destruct Hin as [E|Hin]; [congruence|].
    destruct (store !! x) as [sx|] eqn:Ex.
    + destruct (finalizeSpan_emits children now store out x sx Ex)
        as (s' & row' & E & Es' & _).
      rewrite E. apply IH; [|exact Hin|rewrite lookup_insert_ne by exact Hne; exact Hk].
      assert (C : clearBounds s' = clearBounds sx).
      { rewrite Es', spanDuration_clear, inferBounds_clear. reflexivity. }
      apply clearBounds_fields in C. destruct C as (F1 & F2 & _).
      destruct (Hkey x sx Ex) as [K1 K2].
      intros k' s0 Hs0. destruct (decide (x = k')) as [<-|Hne'].
      * rewrite lookup_insert_eq in Hs0. injection Hs0 as <-. split; congruence.
      * rewrite lookup_insert_ne in Hs0 by exact Hne'. exact (Hkey k' s0 Hs0).
    + rewrite (finalizeSpan_absent children now store out x Ex). apply IH; assumption.
Qed.

Lemma flushTrace_spanRows_grow (sch : Reconstruct.Schedule) (w : Z) (a : Reconstruct.flushAcc)
    (x : string) (row : Model.SpanRow.t) :
  In row (Reconstruct.fa_spanRows a) ->
  In row (Reconstruct.fa_spanRows (Reconstruct.flushTrace sch w a x)).
Proof.
  intros Hin. unfold Reconstruct.flushTrace.
  destruct (Reconstruct.fa_traces a !! x) as [t|]; [|exact Hin].
  destruct (_ <? w); [exact Hin|].
  destruct (Reconstruct.finalizeSpans _ _ _ t); cbn [Reconstruct.fa_spanRows]; [exact Hin|].
  apply in_or_app. left. exact Hin.
Qed.

(** The loop of the flush keeps the span rows that it has. *)
Lemma flush_loop_spanRows_grow (sch : Reconstruct.Schedule) (w : Z) (ord : list string) :
  forall (a : Reconstruct.flushAcc) (row : Model.SpanRow.t),
    In row (Reconstruct.fa_spanRows a) ->
    In row (Reconstruct.fa_spanRows (fold_left (Reconstruct.flushTrace sch w) ord a)).
Proof.
  induction ord as [|x ord IH]; intros a row Hin; cbn [fold_left]; [exact Hin|].
  apply IH, flushTrace_spanRows_grow, Hin.
Qed.

(** The loop of the flush gathers the finalized spans of every aged trace
    that it visits. *)
Lemma flush_loop_finalizes (sch : Reconstruct.Schedule) (w : Z) (ord : list string) :
  forall (a : Reconstruct.flushAcc) (k : string) (t : Reconstruct.traceState)
         (row : Model.SpanRow.t),
    In k ord ->
    Reconstruct.fa_traces a !! k = Some t ->
    w <= GoTime.Sub (Reconstruct.sch_now sch) (Reconstruct.t_updatedAt t) ->
    In row (Reconstruct.finalizeSpans (Reconstruct.sch_children sch k)
              (Reconstruct.sch_emit sch k) (Reconstruct.sch_spanNow sch k) t) ->
    In row (Reconstruct.fa_spanRows (fold_left (Reconstruct.flushTrace sch w) ord a)).
Proof.
  induction ord as [|x ord IH]; intros a k t row Hin Hk Haged Hrow; [destruct Hin|].
  cbn [fold_left]. destruct (decide (x = k)) as [->|Hne].
  - apply flush_loop_spanRows_grow. unfold Reconstruct.flushTrace. rewrite Hk.
    destruct (Z.ltb_spec (GoTime.Sub (Reconstruct.sch_now sch) (Reconstruct.t_updatedAt t)) w);
      [lia|].
    destruct (Reconstruct.finalizeSpans _ _ _ t) as [|r0 rs]; [destruct Hrow|].
    cbn [Reconstruct.fa_spanRows]. apply in_or_app. right. exact Hrow.
  - destruct Hin as [E|Hin]; [congruence|].
    apply (IH _ k t row Hin); [|exact Haged|exact Hrow].
    rewrite flushTrace_lookup_ne by exact Hne. exact Hk.
Qed.

(** X11: every span of an aged trace, when the loops of the flush visit
    the trace and the span, is among the span rows that the flush sends,
    under its trace id and span id. *)
Theorem FlushNow_emits_every_aged_span (ch : Clickhouse.Client) (sch : Reconstruct.Schedule)
    (r : Reconstruct.Reconstructor) (traceID spanID : string) (t : Reconstruct.traceState) :
  wellKeyed (Reconstruct.traces r) ->
  Reconstruct.traces r !! traceID = Some t ->
  Reconstruct.window r
    <= GoTime.Sub (Reconstruct.sch_now sch) (Reconstruct.t_updatedAt t) ->
  In traceID (Reconstruct.sch_traces sch) ->
  is_Some (Reconstruct.t_spans t !! spanID) ->
  In spanID (Reconstruct.sch_emit sch traceID) ->
  exists row,
    In row (Clickhouse.insertedSpans (snd (Reconstruct.FlushNow ch sch r)))
    /\ Model.SpanRow.TraceID row = traceID /\ Model.SpanRow.SpanID row = spanID.
Proof.
  intros Hw Ht Haged Hin Hs Hemit.
  destruct (Hw traceID t Ht) as [_ Hkey].
  destruct (finalize_loop_has_row
              (Reconstruct.buildChildren (Reconstruct.sch_children sch traceID)
                 (Reconstruct.t_spans t))
              (Reconstruct.sch_spanNow sch traceID) traceID (Reconstruct.sch_emit sch traceID)
              (Reconstruct.t_spans t) [] spanID) as (row & Hrow & R1 & R2).
  - intros k' s Hs'. destruct (Hkey k' s Hs') as (? & ? & ?). auto.
  - exact Hemit.
  - exact Hs.
  - exists row. split; [|auto].
    unfold Reconstruct.FlushNow. cbn [snd]. rewrite insertedSpans_flush.
    apply (flush_loop_finalizes sch _ _
             (Reconstruct.mkFlushAcc (Reconstruct.traces r) [] [] ∅) traceID t row Hin Ht Haged).
    exact Hrow.
Qed.

(** X11 at a concrete input: the span ["s1"] of [Demo.reconA], ten minutes
    after its last event. *)
Lemma FlushNow_emits_every_aged_span_witness :
  let sch := Demo.schedule 10 ["s1"] in
  wellKeyed (Reconstruct.traces Demo.reconA)
  /\ Reconstruct.traces Demo.reconA !! "A" = Some Demo.traceA
  /\ Reconstruct.window Demo.reconA
       <= GoTime.Sub (Reconstruct.sch_now sch) (Reconstruct.t_updatedAt Demo.traceA)
  /\ In "A" (Reconstruct.sch_traces sch)
  /\ is_Some (Reconstruct.t_spans Demo.traceA !! "s1")
  /\ In "s1" (Reconstruct.sch_emit sch "A")
  /\ exists row,
       In row (Clickhouse.insertedSpans (snd (Reconstruct.FlushNow (fun _ => None) sch Demo.reconA)))
       /\ Model.SpanRow.TraceID row = "A" /\ Model.SpanRow.SpanID row = "s1".
Proof.
  intros sch.
  assert (H1 : Reconstruct.traces Demo.reconA !! "A" = Some Demo.traceA)
    by (vm_compute; reflexivity).
  assert (H2 : Reconstruct.window Demo.reconA
       <= GoTime.Sub (Reconstruct.sch_now sch) (Reconstruct.t_updatedAt Demo.traceA))
    by (vm_compute; discriminate).
  assert (H3 : In "A" (Reconstruct.sch_traces sch)) by (left; reflexivity).
  assert (H4 : is_Some (Reconstruct.t_spans Demo.traceA !! "s1"))
    by (exists Demo.spanS1; vm_compute; reflexivity).
  assert (H5 : In "s1" (Reconstruct.sch_emit sch "A")) by (left; reflexivity).
  repeat (split; [assumption || exact demo_reconA_wellKeyed|]).
  exact (FlushNow_emits_every_aged_span (fun _ => None) sch Demo.reconA "A" "s1" Demo.traceA
           demo_reconA_wellKeyed H1 H2 H3 H4 H5).
Defined.

(** *** From [Add] to the flush *)

(** X12: no event gets lost between [Add] and the flush.  After [Add] of
    a batch, the trace that an event of the batch names is held, with an
    [updatedAt] that is not before the event; and a flush that finds this
    trace aged, and whose loops visit the trace and the span that the
    event resolves to, sends a span row with the ids of that span. *)
Theorem Add_then_FlushNow_emits_event `{GoLib} (ch : Clickhouse.Client)
    (sch : Reconstruct.Schedule) (r : Reconstruct.Reconstructor)
    (batch : list Spec.event) (e : Spec.event) :
  let traceID := Model.RawLogRow.TraceID (fst e) in
  let spanID := Reconstruct.resolveSpanID (fst e) (snd e) in
  wellKeyed (Reconstruct.traces r) ->
  In e batch ->
  In traceID (Reconstruct.sch_traces sch) ->
  In spanID (Reconstruct.sch_emit sch traceID) ->
  exists r' t',
    Reconstruct.Add r (List.map fst batch) (List.map snd batch) = Some r'
    /\ Reconstruct.traces r' !! traceID = Some t'
    /\ snd e <= Reconstruct.t_updatedAt t'
    /\ (Reconstruct.window r
          <= GoTime.Sub (Reconstruct.sch_now sch) (Reconstruct.t_updatedAt t') ->
        exists row,
          In row (Clickhouse.insertedSpans (snd (Reconstruct.FlushNow ch sch r')))
          /\ Model.SpanRow.TraceID row = traceID /\ Model.SpanRow.SpanID row = spanID).
Proof.
  intros traceID spanID Hw Hin Htr Hemit.
  destruct (Reconstruct.addRows (Reconstruct.traces r) (List.map fst batch) (List.map snd batch))
    as [tr'|] eqn:Eadd.
  2:{ rewrite addRows_fold in Eadd. discriminate. }
  pose proof (addRows_wellKeyed _ _ _ _ Hw Eadd) as Hw'.
  pose proof (fold_addEvent_recorded batch (Reconstruct.traces r) e Hin) as Hrec.
  rewrite addRows_fold in Eadd. injection Eadd as Etr. rewrite Etr in Hrec.
  destruct Hrec as (t' & s & Ht' & Hs & Hup & _).
  exists {| Reconstruct.traces := tr'; Reconstruct.window := Reconstruct.window r |}, t'.
  split.
  { unfold Reconstruct.Add. rewrite addRows_fold, Etr. reflexivity. }
  split; [exact Ht'|]. split; [exact Hup|].
  intros Haged.
  destruct (Hw' traceID t' Ht') as [_ Hkey].
  destruct (finalize_loop_has_row
              (Reconstruct.buildChildren (Reconstruct.sch_children sch traceID)
                 (Reconstruct.t_spans t'))
              (Reconstruct.sch_spanNow sch traceID) traceID (Reconstruct.sch_emit sch traceID)
              (Reconstruct.t_spans t') [] spanID) as (row & Hrow & R1 & R2).
  - intros k' s' Hs'. destruct (Hkey k' s' Hs') as (? & ? & ?). auto.
  - exact Hemit.
  - exists s. exact Hs.
  - exists row. split; [|auto].
    unfold Reconstruct.FlushNow. cbn [snd]. rewrite insertedSpans_flush.
    cbn [Reconstruct.traces Reconstruct.window].
    apply (flush_loop_finalizes sch _ _
             (Reconstruct.mkFlushAcc tr' [] [] ∅) traceID t' row Htr Ht' Haged).
    exact Hrow.
Qed.

(** X12 at a concrete input: the first event of [Demo.reconA], and a flush
    ten minutes later. *)
Lemma Add_then_FlushNow_emits_event_witness :
  let e1 : Spec.event := (Demo.row "svc-a" "A" "s1" "" "start" 0 0, Demo.day0) in
  let e2 : Spec.event := (Demo.row "svc-a" "A" "s1" "" "end" 0 100,
                          Demo.day0 + 100 * GoTime.Millisecond) in
  let sch := Demo.schedule 10 ["s1"] in
  wellKeyed (Reconstruct.traces (Reconstruct.New Demo.window))
  /\ In e1 [e1; e2]
  /\ In "A" (Reconstruct.sch_traces sch)
  /\ In "s1" (Reconstruct.sch_emit sch "A")
  /\ exists row,
       In row (Clickhouse.insertedSpans
                 (snd (Reconstruct.FlushNow (fun _ => None) sch Demo.reconA)))
       /\ Model.SpanRow.TraceID row = "A" /\ Model.SpanRow.SpanID row = "s1".
Proof.
  intros e1 e2 sch.
  assert (H1 : wellKeyed (Reconstruct.traces (Reconstruct.New Demo.window)))
    by apply New_wellKeyed.
  assert (H2 : In e1 [e1; e2]) by (left; reflexivity).
  assert (H3 : In "A" (Reconstruct.sch_traces sch)) by (left; reflexivity).
  assert (H4 : In "s1" (Reconstruct.sch_emit sch "A")) by (left; reflexivity).
  split; [exact H1|]. split; [exact H2|]. split; [exact H3|]. split; [exact H4|].
  destruct (Add_then_FlushNow_emits_event (H := Demo.lib) (fun _ => None) sch
              (Reconstruct.New Demo.window) [e1; e2] e1 H1 H2 H3 H4)
    as (r' & t' & Hadd & Ht' & _ & Hflush).
  assert (Er : Some r' = Some Demo.reconA) by (rewrite <- Hadd; vm_compute; reflexivity).
  injection Er as ->.
  assert (Et : Some t' = Some Demo.traceA) by (rewrite <- Ht'; vm_compute; reflexivity).
  injection Et as ->.
  apply Hflush. vm_compute. discriminate.
Defined.

(** ** Dependency edges and trace rows *)

(** *** Sorting *)

Lemma insertSorted_Permutation {A : Type} (le : A -> A -> bool) (x : A) (l : list A) :
  Permutation (GoSort.insertSorted le x l) (x :: l).
Proof.
  induction l as [|y l IH]; cbn [GoSort.insertSorted]; [reflexivity|].
  destruct (le x y); [reflexivity|].
  rewrite IH. apply perm_swap.
Qed.

(** Sorting permutes. *)
Lemma sortBy_Permutation {A : Type} (le : A -> A -> bool) (l : list A) :
  Permutation (GoSort.sortBy le l) l.
Proof.
  unfold GoSort.sortBy. induction l as [|x l IH]; cbn [fold_right]; [reflexivity|].
  rewrite insertSorted_Permutation. constructor. exact IH.
Qed.

Lemma insertSorted_Sorted {A : Type} (le : A -> A -> bool) (x : A) (l : list A) :
  (forall a b, le a b = true \/ le b a = true) ->
  Sorted (fun a b => le a b = true) l ->
  Sorted (fun a b => le a b = true) (GoSort.insertSorted le x l).
Proof.
  intros Htot Hs. induction l as [|y l IH]; cbn [GoSort.insertSorted].
  - constructor; constructor.
  - destruct (le x y) eqn:E.
    + constructor; [exact Hs|]. constructor. exact E.
    + apply Sorted_inv in Hs. destruct Hs as [Hs Hhd].
      constructor; [apply IH, Hs|].
      destruct l as [|z l]; cbn [GoSort.insertSorted].
      * constructor. destruct (Htot x y); congruence.
      * destruct (le x z).
        -- constructor. destruct (Htot x y); congruence.
        -- constructor. apply HdRel_inv in Hhd. exact Hhd.
Qed.

(** Sorting by a total order sorts. *)
Lemma sortBy_Sorted {A : Type} (le : A -> A -> bool) (l : list A) :
  (forall a b, le a b = true \/ le b a = true) ->
  Sorted (fun a b => le a b = true) (GoSort.sortBy le l).
Proof.
  intros Htot. unfold GoSort.sortBy. induction l as [|x l IH]; cbn [fold_right].
  - constructor.
  - apply insertSorted_Sorted; assumption.
Qed.

Lemma Zleb_total (a b : Z) : (a <=? b) = true \/ (b <=? a) = true.
Proof. destruct (Z.leb_spec a b), (Z.leb_spec b a); auto; lia. Qed.

(** The last element of a sorted list is its largest. *)
Lemma sorted_last_max (l : list Z) :
  Sorted (fun a b => (a <=? b) = true) l ->
  forall d, In d l -> d <= List.last l 0.
Proof.
  induction l as [|x l IH]; intros Hs d Hin; [destruct Hin|].
  apply Sorted_inv in Hs. destruct Hs as [Hs Hhd].
  destruct l as [|y l].
  - destruct Hin as [->|[]]. cbn. lia.
  - change (List.last (x :: y :: l) 0) with (List.last (y :: l) 0).
    destruct Hin as [->|Hin]; [|apply IH; assumption].
    apply HdRel_inv in Hhd. apply Z.leb_le in Hhd.
    specialize (IH Hs y (or_introl eq_refl)). lia.
Qed.

Lemma last_In (l : list Z) : l <> [] -> In (List.last l 0) l.
Proof.
  induction l as [|x l IH]; intros Hne; [contradiction|].
  destruct l as [|y l]; [left; reflexivity|].
  right. apply IH. discriminate.
Qed.

(** *** Buckets *)

(** An iteration of [accumulateEdges] keeps the buckets well formed. *)
Lemma accumulateEdge_ok (now : Reconstruct.parseCall -> Z) (byID : gmap string Model.SpanRow.t)
    (agg : gmap Reconstruct.edgeKey Reconstruct.edgeState) (entry : nat * Model.SpanRow.t) :
  edgesOK agg -> edgesOK (Reconstruct.accumulateEdge now byID agg entry).
Proof.
  destruct entry as [i s]. intros Hok. unfold Reconstruct.accumulateEdge.
  destruct (GoStrings.isEmpty (Model.SpanRow.ParentSpanID s)); [exact Hok|].
  destruct (byID !! Model.SpanRow.ParentSpanID s) as [p|]; [|exact Hok].
  destruct (String.eqb (Model.SpanRow.Service p) (Model.SpanRow.Service s)) eqn:Esvc; [exact Hok|].
  apply String.eqb_neq in Esvc. cbv zeta.
  set (k0 := (Reconstruct.toMinute (now (Reconstruct.EdgeBucket i)) (Model.SpanRow.StartTS s),
              Model.SpanRow.Env s,
              Model.SpanRow.Service p, Model.SpanRow.Service s,
              Model.SpanRow.Version p, Model.SpanRow.Version s)).
  match goal with
  | |- context [(Reconstruct.errorCalls ?e + 1) mod _] => set (e0 := e)
  end.
  assert (Hd : 0 <= Reconstruct.errorCalls e0
               <= Z.of_nat (length (Reconstruct.durations e0))).
  { subst e0.
    match goal with
    | |- context [default _ ?o] => destruct o as [e|] eqn:Ee
    end; cbn [default from_option id].
    - destruct (Hok _ e Ee) as (_ & _ & H3). exact H3.
    - cbn. lia. }
  clearbody e0.
  intros k v Hk. destruct (decide (k0 = k)) as [E|Hne].
  - subst k. rewrite lookup_insert_eq in Hk. injection Hk as <-.
    cbn [Reconstruct.durations Reconstruct.errorCalls].
    split; [intros E; apply app_eq_nil in E; destruct E; discriminate|].
    split; [exact Esvc|].
    rewrite length_app. cbn [length].
    destruct (Model.SpanRow.IsError s =? 1); [|lia].
    pose proof (Z.mod_pos_bound (Reconstruct.errorCalls e0 + 1) (2 ^ 64) ltac:(lia)) as Hm.
    pose proof (Z.mod_le (Reconstruct.errorCalls e0 + 1) (2 ^ 64) ltac:(lia) ltac:(lia)) as Hle.
    lia.
  - rewrite lookup_insert_ne in Hk by exact Hne. exact (Hok k v Hk).
Qed.

(** [accumulateEdges] keeps the buckets well formed. *)
Lemma accumulateEdges_ok (now : Reconstruct.parseCall -> Z) (spans : list Model.SpanRow.t)
    (agg : gmap Reconstruct.edgeKey Reconstruct.edgeState) :
  edgesOK agg -> edgesOK (Reconstruct.accumulateEdges now spans agg).
Proof.
  unfold Reconstruct.accumulateEdges.
  generalize (Reconstruct.spansByID spans) as byID, (Reconstruct.indexed spans) as l.
  intros byID l. revert agg. induction l as [|s l IH]; intros agg Hok; cbn [fold_left].
  - exact Hok.
  - apply IH, accumulateEdge_ok, Hok.
Qed.

Lemma edgesOK_empty : edgesOK ∅.
Proof. intros k v Hk. rewrite lookup_empty in Hk. discriminate. Qed.

(** The index that [percentile] reads is in range. *)
Lemma percentileIndex_bounds (n : nat) (p : float) :
  (0 < n)%nat -> 0 <= Reconstruct.percentileIndex n p < Z.of_nat n.
Proof.
  intros Hn. unfold Reconstruct.percentileIndex.
  destruct (Z.ltb_spec (GoMath.trunc (PrimFloat.mul (GoMath.of_Z (Z.of_nat n - 1)) p)) 0); [lia|].
  destruct (Z.leb_spec (Z.of_nat n)
              (GoMath.trunc (PrimFloat.mul (GoMath.of_Z (Z.of_nat n - 1)) p))); lia.
Qed.

(** A percentile of a non-empty slice is one of its elements. *)
Lemma percentile_element (arr : list Z) (p : float) :
  arr <> [] ->
  exists d, In d arr /\ Reconstruct.percentile arr p = GoMath.of_Z d.
Proof.
  intros Hne. destruct arr as [|x arr]; [contradiction|].
  unfold Reconstruct.percentile.
  eexists. split; [|reflexivity].
  apply nth_In.
  pose proof (percentileIndex_bounds (length (x :: arr)) p ltac:(cbn; lia)). lia.
Qed.

(** An iteration of [collapseEdgeAgg] appends the row of its bucket. *)
Lemma collapseEdge_row (agg : gmap Reconstruct.edgeKey Reconstruct.edgeState)
    (out : list Model.DependencyEdgeRow.t) (k : Reconstruct.edgeKey) (v : Reconstruct.edgeState) :
  agg !! k = Some v -> Reconstruct.durations v <> [] ->
  exists row, Reconstruct.collapseEdge agg out k = out ++ [row] /\ edgeRowOf k v row.
Proof.
  intros Hk Hne. unfold Reconstruct.collapseEdge. rewrite Hk.
  pose proof (sortBy_Permutation Z.leb (Reconstruct.durations v)) as Hp.
  pose proof (sortBy_Sorted Z.leb (Reconstruct.durations v) Zleb_total) as Hs.
  destruct (GoSort.sortBy Z.leb (Reconstruct.durations v)) as [|d ds] eqn:Es.
  - apply Permutation_nil in Hp. contradiction.
  - destruct k as [[[[[bucket env] cs] ce] cv] cev].
    eexists. split; [reflexivity|].
    unfold edgeRowOf.
    cbn [Model.DependencyEdgeRow.CallerService Model.DependencyEdgeRow.CalleeService
         Model.DependencyEdgeRow.Calls Model.DependencyEdgeRow.ErrorCalls
         Model.DependencyEdgeRow.MaxMs Model.DependencyEdgeRow.P50Ms
         Model.DependencyEdgeRow.P95Ms edgeCaller edgeCallee].
    split; [reflexivity|]. split; [reflexivity|].
    split; [rewrite (Permutation_length Hp); reflexivity|].
    split; [reflexivity|]. split; [|split; [|split]].
    + apply (Permutation_in _ Hp). apply last_In. discriminate.
    + intros x Hx. apply sorted_last_max; [exact Hs|].
      apply (Permutation_in _ (Permutation_sym Hp)). exact Hx.
    + destruct (percentile_element (d :: ds) 0.5%float ltac:(discriminate)) as (x & Hx & E).
      exists x. split; [apply (Permutation_in _ Hp), Hx|]. rewrite E. reflexivity.
    + destruct (percentile_element (d :: ds) 0.95%float ltac:(discriminate)) as (x & Hx & E).
      exists x. split; [apply (Permutation_in _ Hp), Hx|]. rewrite E. reflexivity.
Qed.

Lemma collapse_loop_rows (agg : gmap Reconstruct.edgeKey Reconstruct.edgeState)
    (ord : list Reconstruct.edgeKey) :
  edgesOK agg ->
  (forall k, In k ord -> is_Some (agg !! k)) ->
  forall out : list Model.DependencyEdgeRow.t,
    exists rows,
      fold_left (Reconstruct.collapseEdge agg) ord out = out ++ rows
      /\ List.Forall2 (fun k row => exists v, agg !! k = Some v /\ edgeRowOf k v row) ord rows.
Proof.
  intros Hok. induction ord as [|k ord IH]; intros Hin out; cbn [fold_left].
  - exists []. rewrite app_nil_r. split; [reflexivity|constructor].
  - destruct (Hin k (or_introl eq_refl)) as [v Hv].
    destruct (Hok k v Hv) as (Hne & _).
    destruct (collapseEdge_row agg out k v Hv Hne) as (row & E & Hrow).
    rewrite E.
    destruct (IH (fun k' Hk' => Hin k' (or_intror Hk')) (out ++ [row])) as (rows & E' & Hrows).
    exists (row :: rows). rewrite E', <- app_assoc. split; [reflexivity|].
    constructor; [|exact Hrows]. exists v. split; assumption.
Qed.

(** X13: over buckets that each hold a duration, as those that
    [accumulateEdges] builds do, [collapseEdgeAgg] emits one row for each
    bucket that it visits, in the order of the visit: the row names the
    services of the bucket, counts its calls and its failed calls, gives
    the largest of its durations as the maximum, and one of its durations
    as each percentile. *)
Theorem collapseEdgeAgg_one_row_per_bucket (ord : list Reconstruct.edgeKey)
    (agg : gmap Reconstruct.edgeKey Reconstruct.edgeState) :
  edgesOK agg ->
  (forall k, In k ord -> is_Some (agg !! k)) ->
  List.Forall2 (fun k row => exists v, agg !! k = Some v /\ edgeRowOf k v row)
    ord (Reconstruct.collapseEdgeAgg ord agg).
Proof.
  intros Hok Hin. unfold Reconstruct.collapseEdgeAgg.
  destruct (collapse_loop_rows agg ord Hok Hin []) as (rows & E & Hrows).
  rewrite E. exact Hrows.
Qed.

(** X13 at a concrete input: the bucket of one call from ["svc-a"] to
    ["svc-b"]. *)
Lemma collapseEdgeAgg_one_row_per_bucket_witness :
  let parent := Model.SpanRow.Build "A" "s1" "" "svc-a" "prod" "host-1" "1.0.0" "op"
                  0 100 100 60 0 0 "explicit" in
  let child := Model.SpanRow.Build "A" "s2" "s1" "svc-b" "prod" "host-2" "2.0.0" "op"
                 10 50 40 40 500 1 "explicit" in
  let agg := Reconstruct.accumulateEdges (fun _ => Demo.day0) [parent; child] ∅ in
  let k : Reconstruct.edgeKey := (0, "prod", "svc-a", "svc-b", "1.0.0", "2.0.0") in
  edgesOK agg
  /\ (forall k', In k' [k] -> is_Some (agg !! k'))
  /\ List.Forall2 (fun k' row => exists v, agg !! k' = Some v /\ edgeRowOf k' v row)
       [k] (Reconstruct.collapseEdgeAgg [k] agg).
Proof.
  intros parent child agg k.
  assert (H1 : edgesOK agg) by (apply accumulateEdges_ok, edgesOK_empty).
  assert (H2 : forall k', In k' [k] -> is_Some (agg !! k')).
  { intros k' [<-|[]]. eexists. vm_compute. reflexivity. }
  split; [exact H1|]. split; [exact H2|].
  exact (collapseEdgeAgg_one_row_per_bucket [k] agg H1 H2).
Defined.

(** What holds of the row of every bucket holds of every row of
    [collapseEdgeAgg]. *)
Lemma collapse_loop_sane (agg : gmap Reconstruct.edgeKey Reconstruct.edgeState)
    (P : Model.DependencyEdgeRow.t -> Prop) (ord : list Reconstruct.edgeKey) :
  (forall k v row, agg !! k = Some v -> Reconstruct.durations v <> [] ->
     edgeRowOf k v row -> P row) ->
  forall out : list Model.DependencyEdgeRow.t,
    List.Forall P out -> List.Forall P (fold_left (Reconstruct.collapseEdge agg) ord out).
Proof.
  intros HP. induction ord as [|k ord IH]; intros out Hout; cbn [fold_left]; [exact Hout|].
  apply IH.
  destruct (agg !! k) as [v|] eqn:Hv.
  - destruct (Reconstruct.durations v) as [|d ds] eqn:Ed.
    + unfold Reconstruct.collapseEdge. rewrite Hv, Ed. exact Hout.
    + assert (Hne : Reconstruct.durations v <> []) by (rewrite Ed; discriminate).
      destruct (collapseEdge_row agg out k v Hv Hne) as (row & E & Hrow).
      rewrite E. apply List.Forall_app. split; [exact Hout|].
      constructor; [|constructor]. exact (HP k v row Hv Hne Hrow).
  - unfold Reconstruct.collapseEdge. rewrite Hv. exact Hout.
Qed.

(** The loop of the flush keeps the buckets well formed. *)
Lemma flush_loop_edgesOK (sch : Reconstruct.Schedule) (w : Z) (ord : list string) :
  forall a : Reconstruct.flushAcc,
    edgesOK (Reconstruct.fa_edgeAgg a) ->
    edgesOK (Reconstruct.fa_edgeAgg (fold_left (Reconstruct.flushTrace sch w) ord a)).
Proof.
  induction ord as [|x ord IH]; intros a Hok; cbn [fold_left]; [exact Hok|].
  apply IH. unfold Reconstruct.flushTrace.
  destruct (Reconstruct.fa_traces a !! x) as [t|]; [|exact Hok].
  destruct (_ <? w); [exact Hok|].
  destruct (Reconstruct.finalizeSpans _ _ _ t); cbn [Reconstruct.fa_edgeAgg]; [exact Hok|].
  apply accumulateEdges_ok, Hok.
Qed.

(** The edge rows that a flush sends are those of its buckets. *)
Lemma insertedEdges_flush (ch : Clickhouse.Client) (sch : Reconstruct.Schedule)
    (a : Reconstruct.flushAcc) :
  insertedEdges (List.map (fun i => (i, ch i)) (Reconstruct.flushInserts sch a))
  = match size (Reconstruct.fa_edgeAgg a) with
    | O => []
    | _ => Reconstruct.collapseEdgeAgg (Reconstruct.sch_edges sch) (Reconstruct.fa_edgeAgg a)
    end.
Proof.
  unfold Reconstruct.flushInserts, insertedEdges.
  destruct (Reconstruct.fa_spanRows a) as [|s ss];
    destruct (Reconstruct.fa_traceRows a) as [|tr trs];
    destruct (size (Reconstruct.fa_edgeAgg a)); cbn; rewrite ?app_nil_r; reflexivity.
Qed.

(** X14: every dependency-edge row that a flush sends to the store joins
    two different services, counts at least one call, and counts no more
    failed calls than calls. *)
Theorem FlushNow_edge_rows_sane (ch : Clickhouse.Client) (sch : Reconstruct.Schedule)
    (r : Reconstruct.Reconstructor) :
  List.Forall
    (fun row =>
       Model.DependencyEdgeRow.CallerService row <> Model.DependencyEdgeRow.CalleeService row
       /\ 1 <= Model.DependencyEdgeRow.Calls row
       /\ 0 <= Model.DependencyEdgeRow.ErrorCalls row <= Model.DependencyEdgeRow.Calls row)
    (insertedEdges (snd (Reconstruct.FlushNow ch sch r))).
Proof.
  unfold Reconstruct.FlushNow. cbn [snd]. rewrite insertedEdges_flush.
  set (a := fold_left _ _ _).
  assert (Hok : edgesOK (Reconstruct.fa_edgeAgg a)).
  { apply flush_loop_edgesOK. exact edgesOK_empty. }
  destruct (size (Reconstruct.fa_edgeAgg a)); [constructor|].
  unfold Reconstruct.collapseEdgeAgg. apply collapse_loop_sane; [|constructor].
  intros k v row Hv Hne (R1 & R2 & R3 & R4 & _).
  destruct (Hok k v Hv) as (_ & Hcc & Herr).
  rewrite R1, R2, R3, R4. split; [exact Hcc|].
  destruct (Reconstruct.durations v); [contradiction|]. cbn [length] in *. lia.
Qed.

(** *** Trace rows *)

(** A text that parses is read back as the instant that it denotes. *)
Lemma parseCHTime_parses (now v : Z) :
  Reconstruct.chParses v = true -> Reconstruct.parseCHTime now v = v * 1000000.
Proof. unfold Reconstruct.parseCHTime. intros ->. reflexivity. Qed.

Lemma Format_instant (v : Z) : Model.FormatCHTime (v * 1000000) = v.
Proof. unfold Model.FormatCHTime. apply Z.div_mul. lia. Qed.

Lemma rollupStep_bounds (now : Reconstruct.parseCall -> Z) (a : Reconstruct.rollup)
    (seen : list Model.SpanRow.t) (i : nat) (s : Model.SpanRow.t) :
  rowParses s ->
  rollupBounds a seen -> rollupBounds (Reconstruct.rollupStep now a (i, s)) (seen ++ [s]).
Proof.
  intros [Ps Pe] (Hall & (s1 & Hs1 & E1 & R1) & (s2 & Hs2 & E2)).
  unfold rollupBounds, Reconstruct.rollupStep.
  cbn [Reconstruct.ru_start Reconstruct.ru_end Reconstruct.ru_rootService].
  rewrite (parseCHTime_parses _ _ Ps), (parseCHTime_parses _ _ Pe).
  unfold GoTime.Before, GoTime.After.
  split; [|split].
  - intros s' Hin. apply in_app_or in Hin. destruct Hin as [Hin|[<-|[]]].
    + destruct (Hall s' Hin). case_Z.
    + case_Z.
  - destruct (Z.ltb_spec (Model.SpanRow.StartTS s * 1000000) (Reconstruct.ru_start a)).
    + exists s. split; [apply in_or_app; right; left; reflexivity|auto].
    + exists s1. split; [apply in_or_app; left; exact Hs1|auto].
  - destruct (Z.ltb_spec (Reconstruct.ru_end a) (Model.SpanRow.EndTS s * 1000000)).
    + exists s. split; [apply in_or_app; right; left; reflexivity|auto].
    + exists s2. split; [apply in_or_app; left; exact Hs2|auto].
Qed.

Lemma rollup_fold_bounds (now : Reconstruct.parseCall -> Z) (l : list (nat * Model.SpanRow.t)) :
  List.Forall rowParses (List.map snd l) ->
  forall (a : Reconstruct.rollup) (seen : list Model.SpanRow.t),
    rollupBounds a seen ->
    rollupBounds (fold_left (Reconstruct.rollupStep now) l a) (seen ++ List.map snd l).
Proof.
  induction l as [|[i s] l IH]; intros Hp a seen Hb; cbn [fold_left List.map snd].
  - rewrite app_nil_r. exact Hb.
  - cbn [List.map snd] in Hp. apply List.Forall_cons_iff in Hp. destruct Hp as [Ps Hp].
    replace (seen ++ s :: List.map snd l) with ((seen ++ [s]) ++ List.map snd l)
      by (rewrite <- app_assoc; reflexivity).
    apply (IH Hp), rollupStep_bounds; assumption.
Qed.

(** The elements of a slice with their indices are its elements. *)
Lemma combine_seq_snd {A : Type} (l : list A) (n : nat) :
  List.map snd (combine (seq n (length l)) l) = l.
Proof.
  revert n. induction l as [|x l IH]; intros n; cbn [length seq combine List.map snd];
    [reflexivity|].
  rewrite IH. reflexivity.
Qed.

(** The bounds of the rollup of a non-empty list of spans whose
    timestamps parse. *)
Lemma rollupOf_bounds (now : Reconstruct.parseCall -> Z) (s0 : Model.SpanRow.t)
    (rest : list Model.SpanRow.t) :
  List.Forall rowParses (s0 :: rest) ->
  rollupBounds (Reconstruct.rollupOf now s0 (s0 :: rest)) (s0 :: rest).
Proof.
  intros Hp. apply List.Forall_cons_iff in Hp. destruct Hp as [[Ps Pe] Hp].
  unfold Reconstruct.rollupOf, Reconstruct.indexed. cbn [length seq combine fold_left].
  set (l := combine (seq 1 (length rest)) rest).
  assert (El : List.map snd l = rest) by apply combine_seq_snd.
  clearbody l. subst rest.
  change (s0 :: List.map snd l) with ([s0] ++ List.map snd l).
  apply (rollup_fold_bounds now _ Hp).
  unfold rollupBounds, Reconstruct.rollupStep.
  cbn [Reconstruct.ru_start Reconstruct.ru_end Reconstruct.ru_rootService].
  rewrite !(parseCHTime_parses _ _ Ps), !(parseCHTime_parses _ _ Pe).
  unfold GoTime.Before, GoTime.After. rewrite !Z.ltb_irrefl.
  split; [|split].
  - intros s [<-|[]]. lia.
  - exists s0. split; [left; reflexivity|auto].
  - exists s0. split; [left; reflexivity|auto].
Qed.

(** X15: the trace row of a non-empty list of span rows whose timestamps
    [parseCHTime] reads (their years have four digits) covers them all,
    whatever the clock shows: its start is the earliest start, its root
    service is the service of a span that starts then, its end is the
    latest end, and its duration is [end - start] in milliseconds, as a
    [uint32], when that difference fits a [time.Duration]. *)
Theorem buildTraceRow_window (ord1 ord2 : list string) (now : Reconstruct.parseCall -> Z)
    (env traceID : string) (spans : list Model.SpanRow.t) :
  spans <> [] ->
  List.Forall rowParses spans ->
  let row := Reconstruct.buildTraceRow ord1 ord2 now env traceID spans in
  (forall s, In s spans ->
     Model.TraceRow.StartTS row <= Model.SpanRow.StartTS s
     /\ Model.SpanRow.EndTS s <= Model.TraceRow.EndTS row)
  /\ (exists s, In s spans
        /\ Model.SpanRow.StartTS s = Model.TraceRow.StartTS row
        /\ Model.SpanRow.Service s = Model.TraceRow.RootService row)
  /\ (exists s, In s spans /\ Model.SpanRow.EndTS s = Model.TraceRow.EndTS row)
  /\ (GoTime.minDuration
        <= (Model.TraceRow.EndTS row - Model.TraceRow.StartTS row) * 1000000
        <= GoTime.maxDuration ->
      Model.TraceRow.DurationMs row
      = wrap32 (Model.TraceRow.EndTS row - Model.TraceRow.StartTS row)).
Proof.
  intros Hne Hp. destruct spans as [|s0 rest]; [contradiction|].
  cbv zeta. unfold Reconstruct.buildTraceRow.
  cbn [Model.TraceRow.StartTS Model.TraceRow.EndTS Model.TraceRow.RootService
       Model.TraceRow.DurationMs].
  destruct (rollupOf_bounds now s0 rest Hp) as (Hall & (s1 & Hs1 & E1 & R1) & (s2 & Hs2 & E2)).
  set (a := Reconstruct.rollupOf now s0 (s0 :: rest)) in *.
  rewrite E1, E2, !Format_instant.
  split; [|split; [|split; [|]]].
  - intros s Hin. destruct (Hall s Hin) as [A B]. rewrite E1 in A. rewrite E2 in B. lia.
  - exists s1. auto.
  - exists s2. auto.
  - intros Hfit.
    unfold GoTime.Sub, GoTime.Milliseconds, GoTime.minDuration, GoTime.maxDuration in *.
    replace (Model.SpanRow.EndTS s2 * 1000000 - Model.SpanRow.StartTS s1 * 1000000)
      with ((Model.SpanRow.EndTS s2 - Model.SpanRow.StartTS s1) * 1000000) by lia.
    destruct (Z.ltb_spec ((Model.SpanRow.EndTS s2 - Model.SpanRow.StartTS s1) * 1000000) (- 2 ^ 63));
      [lia|].
    destruct (Z.ltb_spec (2 ^ 63 - 1) ((Model.SpanRow.EndTS s2 - Model.SpanRow.StartTS s1) * 1000000));
      [lia|].
    rewrite Z.quot_mul by lia. reflexivity.
Qed.

(** X15 at a concrete input: two spans of the first day of 2024, the
    second of which starts first, with a clock that shows another day. *)
Lemma buildTraceRow_window_witness :
  let t0 := Model.FormatCHTime Demo.day0 in
  let s1 := Model.SpanRow.Build "A" "s1" "" "svc-a" "prod" "host-1" "1.0.0" "op"
              (t0 + 20) (t0 + 100) 80 40 0 0 "explicit" in
  let s2 := Model.SpanRow.Build "A" "s2" "s1" "svc-b" "prod" "host-2" "2.0.0" "op"
              (t0 + 10) (t0 + 50) 40 40 500 1 "explicit" in
  let spans := [s1; s2] in
  let now := fun _ : Reconstruct.parseCall => Demo.day0 + 24 * GoTime.Hour in
  let row := Reconstruct.buildTraceRow ["s1"; "s2"] ["s1"; "s2"] now "prod" "A" spans in
  spans <> []
  /\ List.Forall rowParses spans
  /\ (forall s, In s spans ->
        Model.TraceRow.StartTS row <= Model.SpanRow.StartTS s
        /\ Model.SpanRow.EndTS s <= Model.TraceRow.EndTS row)
  /\ (exists s, In s spans
        /\ Model.SpanRow.StartTS s = Model.TraceRow.StartTS row
        /\ Model.SpanRow.Service s = Model.TraceRow.RootService row)
  /\ (exists s, In s spans /\ Model.SpanRow.EndTS s = Model.TraceRow.EndTS row)
  /\ Model.TraceRow.DurationMs row
     = wrap32 (Model.TraceRow.EndTS row - Model.TraceRow.StartTS row).
Proof.
  intros t0 s1 s2 spans now row.
  assert (H1 : spans <> []) by discriminate.
  assert (H2 : List.Forall rowParses spans)
    by (repeat constructor; vm_compute; reflexivity).
  split; [exact H1|]. split; [exact H2|].
  destruct (buildTraceRow_window ["s1"; "s2"] ["s1"; "s2"] now "prod" "A" spans H1 H2)
    as (A & B & C & D).
  split; [exact A|]. split; [exact B|]. split; [exact C|].
  apply D. vm_compute. split; discriminate.
Defined.

Lemma rollupStep_counts (now : Reconstruct.parseCall -> Z) (a : Reconstruct.rollup)
    (seen : list Model.SpanRow.t) (i : nat) (s : Model.SpanRow.t) :
  rollupCounts a seen -> rollupCounts (Reconstruct.rollupStep now a (i, s)) (seen ++ [s]).
Proof.
  intros (Hs & Hv & He). unfold rollupCounts, Reconstruct.rollupStep.
  cbn [Reconstruct.ru_services Reconstruct.ru_versions Reconstruct.ru_errorCount].
  rewrite !List.map_app, List.filter_app, length_app. cbn [List.map List.filter].
  split; [|split].
  - intros x. rewrite elem_of_union, elem_of_singleton, Hs, in_app_iff. cbn [In]. intuition.
  - intros x. rewrite elem_of_union, elem_of_singleton, Hv, in_app_iff. cbn [In]. intuition.
  - rewrite He. destruct (Model.SpanRow.IsError s =? 1); cbn [length]; lia.
Qed.

Lemma rollup_fold_counts (now : Reconstruct.parseCall -> Z) (l : list (nat * Model.SpanRow.t)) :
  forall (a : Reconstruct.rollup) (seen : list Model.SpanRow.t),
    rollupCounts a seen ->
    rollupCounts (fold_left (Reconstruct.rollupStep now) l a) (seen ++ List.map snd l).
Proof.
  induction l as [|[i s] l IH]; intros a seen Hb; cbn [fold_left List.map snd].
  - rewrite app_nil_r. exact Hb.
  - replace (seen ++ s :: List.map snd l) with ((seen ++ [s]) ++ List.map snd l)
      by (rewrite <- app_assoc; reflexivity).
    apply IH, rollupStep_counts, Hb.
Qed.

(** The sets and the error count of the rollup of a list of spans. *)
Lemma rollupOf_counts (now : Reconstruct.parseCall -> Z) (s0 : Model.SpanRow.t)
    (spans : list Model.SpanRow.t) :
  rollupCounts (Reconstruct.rollupOf now s0 spans) spans.
Proof.
  unfold Reconstruct.rollupOf, Reconstruct.indexed.
  set (l := combine (seq 0 (length spans)) spans).
  assert (El : List.map snd l = spans) by apply combine_seq_snd.
  clearbody l. subst spans. change (List.map snd l) with ([] ++ List.map snd l).
  apply rollup_fold_counts. unfold rollupCounts.
  cbn [Reconstruct.ru_services Reconstruct.ru_versions Reconstruct.ru_errorCount
       List.map List.filter length In].
  split; [|split]; [intros x; rewrite elem_of_empty; tauto..|reflexivity].
Qed.

(** X16: a trace row counts the span rows, those with [is_error = 1] and
    the distinct services (each count as a [uint16]), and lists the
    distinct versions in increasing order. *)
Theorem buildTraceRow_counts (ord1 ord2 : list string) (now : Reconstruct.parseCall -> Z)
    (env traceID : string) (spans : list Model.SpanRow.t) :
  let row := Reconstruct.buildTraceRow ord1 ord2 now env traceID spans in
  Model.TraceRow.SpanCount row = wrap16 (Z.of_nat (length spans))
  /\ Model.TraceRow.ErrorCount row
     = wrap16 (Z.of_nat (length (List.filter (fun s => Model.SpanRow.IsError s =? 1) spans)))
  /\ Model.TraceRow.ServiceCount row
     = wrap16 (Z.of_nat (size (list_to_set (List.map Model.SpanRow.Service spans) : gset string)))
  /\ Sorted (fun a b => String.leb a b = true) (Model.TraceRow.Versions row)
  /\ List.NoDup (Model.TraceRow.Versions row)
  /\ (forall v, In v (Model.TraceRow.Versions row)
                <-> In v (List.map Model.SpanRow.Version spans)).
Proof.
  cbv zeta. destruct spans as [|s0 rest].
  - cbn. repeat split; try constructor; tauto.
  - unfold Reconstruct.buildTraceRow.
    cbn [Model.TraceRow.SpanCount Model.TraceRow.ErrorCount Model.TraceRow.ServiceCount
         Model.TraceRow.Versions].
    destruct (rollupOf_counts now s0 (s0 :: rest)) as (Hs & Hv & He).
    set (a := Reconstruct.rollupOf now s0 (s0 :: rest)) in *.
    split; [reflexivity|]. split; [rewrite He; reflexivity|]. split.
    { f_equal. f_equal. f_equal. apply set_eq. intros x.
      rewrite Hs, elem_of_list_to_set, list_elem_of_In. reflexivity. }
    pose proof (sortBy_Permutation String.leb (elements (Reconstruct.ru_versions a))) as Hp.
    split; [apply sortBy_Sorted, String.leb_total|]. split.
    + apply NoDup_ListNoDup. rewrite Hp. apply NoDup_elements.
    + intros v. rewrite <- Hv, <- elem_of_elements, list_elem_of_In.
      split; intros Hin.
      * apply (Permutation_in _ Hp). exact Hin.
      * apply (Permutation_in _ (Permutation_sym Hp)). exact Hin.
Qed.

(** ** The critical path of a forest *)

Section Forest.
Variable spans : gmap string Model.SpanRow.t.
Variable children : gmap string (list string).

Lemma bestChildLoop_mono
    (rec rec' : string -> Reconstruct.dfsState -> option (Z * Reconstruct.dfsState)) :
  (forall c st r, rec c st = Some r -> rec' c st = Some r) ->
  forall cs st best r,
    Reconstruct.bestChildLoop rec cs st best = Some r ->
    Reconstruct.bestChildLoop rec' cs st best = Some r.
Proof.
  intros Hrec. induction cs as [|c cs IH]; intros st best r H; [exact H|].
  cbn [Reconstruct.bestChildLoop] in *.
  destruct (rec c st) as [[v st1]|] eqn:E; [|discriminate].
  rewrite (Hrec c st _ E). apply IH, H.
Qed.

(** More fuel does not change what [dfs] returns. *)
Lemma dfs_mono (fuel : nat) :
  forall id st r,
    Reconstruct.dfs spans children fuel id st = Some r ->
    Reconstruct.dfs spans children (S fuel) id st = Some r.
Proof.
  induction fuel as [|fuel IH]; intros id st r H; [discriminate|].
  rewrite dfs_unfold in H. rewrite dfs_unfold.
  destruct (fst st !! id); [exact H|].
  destruct (default false (snd st !! id)); [exact H|].
  destruct (Reconstruct.bestChildLoop (Reconstruct.dfs spans children fuel) _ _ 0)
    as [[b st']|] eqn:E; [|discriminate].
  rewrite (bestChildLoop_mono _ _ IH _ _ _ _ E). exact H.
Qed.

Lemma dfs_mono_le (fuel fuel' : nat) :
  (fuel <= fuel')%nat ->
  forall id st r,
    Reconstruct.dfs spans children fuel id st = Some r ->
    Reconstruct.dfs spans children fuel' id st = Some r.
Proof.
  induction 1 as [|fuel' Hle IH]; intros id st r H; [exact H|].
  apply dfs_mono, IH, H.
Qed.

Lemma seedLoop_mono (fuel fuel' : nat) (rootsOnly : bool) :
  (fuel <= fuel')%nat ->
  forall ord st best r,
    Reconstruct.seedLoop spans children fuel rootsOnly ord st best = Some r ->
    Reconstruct.seedLoop spans children fuel' rootsOnly ord st best = Some r.
Proof.
  intros Hle. induction ord as [|id ord IH]; intros st best r H; [exact H|].
  cbn [Reconstruct.seedLoop] in *.
  destruct (spans !! id) as [s|]; [|apply IH, H].
  destruct (rootsOnly && negb (GoStrings.isEmpty (Model.SpanRow.ParentSpanID s))
            && bool_decide (is_Some (spans !! Model.SpanRow.ParentSpanID s)));
    [apply IH, H|].
  destruct (Reconstruct.dfs spans children fuel id st) as [[score st1]|] eqn:E; [|discriminate].
  rewrite (dfs_mono_le fuel fuel' Hle _ _ _ E). apply IH, H.
Qed.

(** More fuel does not change what the search returns. *)
Lemma criticalPathFuel_mono (fuel fuel' : nat) (ord1 ord2 : list string) (v : Z) :
  (fuel <= fuel')%nat ->
  Reconstruct.criticalPathFuel fuel ord1 ord2 spans children = Some v ->
  Reconstruct.criticalPathFuel fuel' ord1 ord2 spans children = Some v.
Proof.
  intros Hle. unfold Reconstruct.criticalPathFuel.
  destruct (Reconstruct.seedLoop spans children fuel true ord1 (∅, ∅) 0)
    as [[best st]|] eqn:E1; [|discriminate].
  rewrite (seedLoop_mono fuel fuel' true Hle _ _ _ _ E1).
  destruct (best =? 0); [|auto].
  destruct (Reconstruct.seedLoop spans children fuel false ord2 st best)
    as [[best' st']|] eqn:E2; [|discriminate].
  rewrite (seedLoop_mono fuel fuel' false Hle _ _ _ _ E2). auto.
Qed.

Variable rank : string -> nat.
Hypothesis ranked :
  forall id cs c, children !! id = Some cs -> In c cs -> (rank c < rank id)%nat.

Local Abbreviation L := (fun id => longest spans children (S (rank id)) id).

(** Below the rank of a span, the depth does not matter. *)
Lemma longest_stable (n : nat) :
  forall id, (rank id < n)%nat -> longest spans children n id = L id.
Proof.
  induction n as [n IH] using lt_wf_ind. intros id Hn.
  destruct n as [|n]; [lia|].
  cbn [longest]. f_equal. f_equal. f_equal.
  apply List.map_ext_in. intros c Hc.
  destruct (children !! id) as [cs|] eqn:E; [|destruct Hc].
  cbn [default from_option Datatypes.id] in Hc.
  pose proof (ranked id cs c E Hc) as Hr.
  rewrite (IH n) by lia. rewrite (IH (rank id)) by lia. reflexivity.
Qed.

(** The heaviest sum below a span, from those below its children. *)
Lemma L_unfold (id : string) :
  L id = wrap32 (Model.SpanRow.DurationMs (default Model.SpanRow.zero (spans !! id))
                 + maxFrom 0 (List.map L (default [] (children !! id)))).
Proof.
  cbn [longest]. f_equal. f_equal. f_equal.
  apply List.map_ext_in. intros c Hc.
  destruct (children !! id) as [cs|] eqn:E; [|destruct Hc].
  cbn [default from_option Datatypes.id] in Hc.
  apply longest_stable. exact (ranked id cs c E Hc).
Qed.

Local Abbreviation memo_ok := (memoOK spans children rank).
Local Abbreviation marks_from := (marksFrom rank).

(** The loop of [dfs] over the children returns the largest of their sums. *)
Lemma bestChildLoop_spec
    (rec : string -> Reconstruct.dfsState -> option (Z * Reconstruct.dfsState)) (r : nat)
    (cs : list string) :
  (forall c st, (rank c < r)%nat -> memo_ok st -> marks_from (S (rank c)) st ->
     exists st', rec c st = Some (L c, st') /\ memo_ok st' /\ sameMarks st st') ->
  (forall c, In c cs -> (rank c < r)%nat) ->
  forall st best, memo_ok st -> marks_from r st ->
    exists st',
      Reconstruct.bestChildLoop rec cs st best = Some (maxFrom best (List.map L cs), st')
      /\ memo_ok st' /\ sameMarks st st'.
Proof.
  intros Hrec. induction cs as [|c cs IH]; intros Hcs st best Hm Hv.
  - exists st. split; [reflexivity|]. split; [exact Hm|intros k; reflexivity].
  - cbn [Reconstruct.bestChildLoop List.map maxFrom fold_left].
    pose proof (Hcs c (or_introl eq_refl)) as Hc.
    destruct (Hrec c st Hc Hm) as (st1 & E1 & Hm1 & Hs1).
    { intros k Hk. specialize (Hv k Hk). lia. }
    rewrite E1.
    destruct (IH (fun c' Hc' => Hcs c' (or_intror Hc')) st1
                (if best <? L c then L c else best) Hm1) as (st2 & E2 & Hm2 & Hs2).
    { intros k Hk. rewrite Hs1 in Hk. exact (Hv k Hk). }
    exists st2. split; [exact E2|]. split; [exact Hm2|].
    intros k. rewrite Hs2. apply Hs1.
Qed.

(** With enough fuel, [dfs] returns the heaviest sum below a span, whatever it
    has memoized on the way. *)
Lemma dfs_spec (fuel : nat) :
  forall id st, (rank id < fuel)%nat -> memo_ok st -> marks_from (S (rank id)) st ->
    exists st',
      Reconstruct.dfs spans children fuel id st = Some (L id, st')
      /\ memo_ok st' /\ sameMarks st st'.
Proof.
  induction fuel as [|fuel IH]; intros id st Hf Hm Hv; [lia|].
  rewrite dfs_unfold.
  destruct (fst st !! id) as [v|] eqn:Em.
  - exists st. rewrite (Hm id v Em). split; [reflexivity|]. split; [exact Hm|intros k; reflexivity].
  - destruct (default false (snd st !! id)) eqn:Ev.
    + specialize (Hv id Ev). lia.
    + destruct (bestChildLoop_spec (Reconstruct.dfs spans children fuel) (rank id)
                  (default [] (children !! id))) with (st := (fst st, <[id := true]> (snd st)))
        (best := 0) as (st1 & E1 & Hm1 & Hs1).
      * intros c st0 Hc Hm0 Hv0. apply IH; [lia|exact Hm0|exact Hv0].
      * intros c Hc. destruct (children !! id) as [cs|] eqn:E; [|destruct Hc].
        exact (ranked id cs c E Hc).
      * exact Hm.
      * intros k Hk. cbn [snd] in Hk.
        destruct (decide (id = k)) as [<-|Hne]; [lia|].
        rewrite lookup_insert_ne in Hk by exact Hne. specialize (Hv k Hk). lia.
      * rewrite E1. eexists. split; [|split].
        -- rewrite (L_unfold id). reflexivity.
        -- intros k v. cbn [fst]. destruct (decide (id = k)) as [<-|Hne].
           ++ rewrite lookup_insert_eq. intros [= <-]. symmetry. apply L_unfold.
           ++ rewrite lookup_insert_ne by exact Hne. apply Hm1.
        -- intros k. cbn [snd]. destruct (decide (id = k)) as [<-|Hne].
           ++ rewrite lookup_insert_eq. cbn [default from_option Datatypes.id]. symmetry. exact Ev.
           ++ rewrite lookup_insert_ne by exact Hne. rewrite Hs1. cbn [snd].
              rewrite lookup_insert_ne by exact Hne. reflexivity.
Qed.

(** A loop of [criticalPath] returns the largest sum over its seeds. *)
Lemma seedLoop_spec (fuel : nat) (rootsOnly : bool) (ord : list string) :
  (forall id, is_Some (spans !! id) -> (rank id < fuel)%nat) ->
  forall st best, memo_ok st -> noMarks st ->
    exists st',
      Reconstruct.seedLoop spans children fuel rootsOnly ord st best
      = Some (maxFrom best (List.map L (seedsOf spans rootsOnly ord)), st')
      /\ memo_ok st' /\ noMarks st'.
Proof.
  intros Hfuel. induction ord as [|id ord IH]; intros st best Hm Hn.
  - exists st. split; [reflexivity|auto].
  - cbn [Reconstruct.seedLoop seedsOf List.filter].
    destruct (spans !! id) as [s|] eqn:Es; [|apply IH; assumption].
    destruct (rootsOnly && negb (GoStrings.isEmpty (Model.SpanRow.ParentSpanID s))
              && bool_decide (is_Some (spans !! Model.SpanRow.ParentSpanID s)));
      cbn [negb]; [apply IH; assumption|].
    destruct (dfs_spec fuel id st) as (st1 & E1 & Hm1 & Hs1).
    + apply Hfuel. eauto.
    + exact Hm.
    + intros k Hk. rewrite Hn in Hk. discriminate.
    + rewrite E1. cbn [List.map maxFrom fold_left].
      apply IH; [exact Hm1|]. intros k. rewrite Hs1. apply Hn.
Qed.

(** With enough fuel, the search returns the largest sum over the roots,
    or over all spans when that is 0. *)
Lemma criticalPathFuel_spec (fuel : nat) (ord1 ord2 : list string) :
  (forall id, is_Some (spans !! id) -> (rank id < fuel)%nat) ->
  Reconstruct.criticalPathFuel fuel ord1 ord2 spans children
  = Some (let best := maxFrom 0 (List.map L (seedsOf spans true ord1)) in
          if best =? 0 then maxFrom 0 (List.map L (seedsOf spans false ord2)) else best).
Proof.
  intros Hfuel. unfold Reconstruct.criticalPathFuel.
  destruct (seedLoop_spec fuel true ord1 Hfuel (∅, ∅) 0) as (st1 & E1 & Hm1 & Hn1).
  - intros k v Hk. cbn [fst] in Hk. rewrite lookup_empty in Hk. discriminate.
  - intros k. cbn [snd]. rewrite lookup_empty. reflexivity.
  - rewrite E1. cbv zeta.
    destruct (Z.eqb_spec (maxFrom 0 (List.map L (seedsOf spans true ord1))) 0) as [E0|E0];
      [|reflexivity].
    destruct (seedLoop_spec fuel false ord2 Hfuel st1
                (maxFrom 0 (List.map L (seedsOf spans true ord1))) Hm1 Hn1)
      as (st2 & E2 & _).
    rewrite E2, E0. reflexivity.
Qed.

(** The ranks of the spans of a trace are bounded. *)
Lemma rank_bound : exists F : nat, forall id, is_Some (spans !! id) -> (rank id < F)%nat.
Proof.
  exists (S (fold_right Nat.max O (List.map rank (elements (dom spans))))).
  intros id Hid. apply elem_of_dom, elem_of_elements, list_elem_of_In in Hid.
  revert Hid. generalize (elements (dom spans)) as l.
  induction l as [|x l IH]; intros Hin; [destruct Hin|].
  cbn [List.map fold_right]. destruct Hin as [->|Hin]; [lia|]. specialize (IH Hin). lia.
Qed.

Hypothesis children_closed :
  forall k cs c, children !! k = Some cs -> In c cs -> is_Some (spans !! c).

(** [criticalPath] on a forest, in closed form. *)
Lemma criticalPath_formula (ord1 ord2 : list string) :
  Reconstruct.criticalPath ord1 ord2 spans children
  = let best := maxFrom 0 (List.map L (seedsOf spans true ord1)) in
    if best =? 0 then maxFrom 0 (List.map L (seedsOf spans false ord2)) else best.
Proof.
  unfold Reconstruct.criticalPath.
  destruct (criticalPathFuel_total spans children children_closed ord1 ord2) as [v Ev].
  destruct rank_bound as [F HF].
  pose proof (criticalPathFuel_mono (S (size spans)) (Nat.max (S (size spans)) F) ord1 ord2 v
                ltac:(lia) Ev) as Ev'.
  rewrite criticalPathFuel_spec in Ev'.
  - rewrite Ev. cbn [default from_option Datatypes.id]. injection Ev' as <-. reflexivity.
  - intros id Hid. specialize (HF id Hid). lia.
Qed.

(** [maxFrom] is an upper bound. *)
Lemma maxFrom_ge (l : list Z) :
  forall b, b <= maxFrom b l /\ (forall x, In x l -> x <= maxFrom b l).
Proof.
  induction l as [|y l IH]; intros b; cbn [maxFrom fold_left].
  - split; [lia|intros x []].
  - fold (maxFrom (if b <? y then y else b) l).
    destruct (IH (if b <? y then y else b)) as [H1 H2].
    destruct (Z.ltb_spec b y); split; try lia; intros x [<-|Hx]; try lia; auto.
Qed.

(** [maxFrom] is the start value or one of the scores. *)
Lemma maxFrom_attained (l : list Z) :
  forall b, maxFrom b l = b \/ In (maxFrom b l) l.
Proof.
  induction l as [|y l IH]; intros b; cbn [maxFrom fold_left]; [left; reflexivity|].
  fold (maxFrom (if b <? y then y else b) l).
  destruct (IH (if b <? y then y else b)) as [E|Hin].
  - rewrite E. destruct (b <? y); [right; left; reflexivity|left; reflexivity].
  - right. right. exact Hin.
Qed.

Hypothesis durations_nonneg :
  forall k s, spans !! k = Some s -> 0 <= Model.SpanRow.DurationMs s.

Lemma duration_nonneg (id : string) :
  0 <= Model.SpanRow.DurationMs (default Model.SpanRow.zero (spans !! id)).
Proof.
  destruct (spans !! id) as [s|] eqn:E; cbn [default from_option Datatypes.id].
  - exact (durations_nonneg id s E).
  - cbn. lia.
Qed.

Lemma chainSum_nonneg (l : list string) : 0 <= chainSum spans l.
Proof.
  induction l as [|x l IH]; cbn [chainSum fold_right]; [lia|].
  fold (chainSum spans l). pose proof (duration_nonneg x). lia.
Qed.

(** The heaviest sum below a span is the sum of a chain, and no chain from
    the span is heavier. *)
Lemma L_heaviest (n : nat) :
  forall id, (rank id < n)%nat ->
    (forall l, chain children id l -> chainSum spans l < 2 ^ 32) ->
    (forall l, chain children id l -> chainSum spans l <= L id)
    /\ (exists l, chain children id l /\ chainSum spans l = L id).
Proof.
  induction n as [|n IH]; intros id Hn Hfit; [lia|].
  set (dur := Model.SpanRow.DurationMs (default Model.SpanRow.zero (spans !! id))).
  pose proof (duration_nonneg id) as Hdur. fold dur in Hdur.
  assert (Hkids : forall c, In c (default [] (children !! id)) ->
            (forall l, chain children c l -> chainSum spans l <= L c)
            /\ (exists l, chain children c l /\ chainSum spans l = L c)
            /\ (forall l, chain children c l -> dur + chainSum spans l < 2 ^ 32)).
  { intros c Hc. destruct (children !! id) as [cs|] eqn:E; [|destruct Hc].
    cbn [default from_option Datatypes.id] in Hc.
    pose proof (ranked id cs c E Hc) as Hr.
    assert (Hfitc : forall l, chain children c l -> dur + chainSum spans l < 2 ^ 32).
    { intros l Hl. exact (Hfit (id :: l) (chain_step children id cs c l E Hc Hl)). }
    destruct (IH c ltac:(lia)) as [A B].
    - intros l Hl. specialize (Hfitc l Hl). lia.
    - auto. }
  rewrite (L_unfold id). fold dur.
  set (m := maxFrom 0 (List.map L (default [] (children !! id)))).
  destruct (maxFrom_ge (List.map L (default [] (children !! id))) 0) as [Hm0 Hmx]. fold m in Hm0, Hmx.
  assert (Hm : m = 0 \/ exists c l, In c (default [] (children !! id))
                                   /\ chain children c l /\ chainSum spans l = m).
  { destruct (maxFrom_attained (List.map L (default [] (children !! id))) 0) as [E|Hin];
      fold m in E || fold m in Hin; [left; exact E|].
    right. apply in_map_iff in Hin. destruct Hin as (c & Ec & Hc).
    destruct (Hkids c Hc) as (_ & (l & Hl & El) & _).
    exists c, l. split; [exact Hc|]. split; [exact Hl|]. rewrite El. exact Ec. }
  assert (Hwrap : wrap32 (dur + m) = dur + m).
  { unfold wrap32. apply Z.mod_small. split; [lia|].
    destruct Hm as [->|(c & l & Hc & Hl & El)].
    - specialize (Hfit [id] (chain_end children id)). cbn [chainSum fold_right] in Hfit.
      fold dur in Hfit. lia.
    - destruct (Hkids c Hc) as (_ & _ & Hf). specialize (Hf l Hl). lia. }
  rewrite Hwrap. split.
  - intros l Hl. inversion Hl as [id'|id' cs c rest E Hc Hrest]; subst.
    + cbn [chainSum fold_right]. fold dur. lia.
    + cbn [chainSum fold_right]. fold (chainSum spans rest). fold dur.
      assert (Hc' : In c (default [] (children !! id))) by (rewrite E; exact Hc).
      destruct (Hkids c Hc') as (A & _ & _). specialize (A rest Hrest).
      specialize (Hmx (L c) (in_map L _ c Hc')). cbv beta in *. lia.
  - destruct Hm as [E|(c & l & Hc & Hl & El)].
    + exists [id]. split; [constructor|]. cbn [chainSum fold_right]. fold dur. lia.
    + exists (id :: l). split.
      * destruct (children !! id) as [cs|] eqn:E; [|destruct Hc].
        exact (chain_step children id cs c l E Hc Hl).
      * cbn [chainSum fold_right]. fold (chainSum spans l). fold dur. lia.
Qed.

Hypothesis chains_fit :
  forall id l, chain children id l -> chainSum spans l < 2 ^ 32.

(** The largest sum over a list of seeds bounds the chains from these
    seeds and, when it is not 0, is the sum of one of them. *)
Lemma heaviest_of_seeds (ids : list string) :
  let M := maxFrom 0 (List.map L ids) in
  (forall id l, In id ids -> chain children id l -> chainSum spans l <= M)
  /\ (M = 0 \/ exists id l, In id ids /\ chain children id l /\ chainSum spans l = M).
Proof.
  cbv zeta. destruct (maxFrom_ge (List.map L ids) 0) as [H0 Hx]. split.
  - intros id l Hid Hl.
    destruct (L_heaviest (S (rank id)) id ltac:(lia) (chains_fit id)) as [A _].
    specialize (A l Hl). specialize (Hx (L id) (in_map L _ id Hid)). cbv beta in *. lia.
  - destruct (maxFrom_attained (List.map L ids) 0) as [E|Hin]; [left; exact E|].
    right. apply in_map_iff in Hin. destruct Hin as (id & Eid & Hid).
    destruct (L_heaviest (S (rank id)) id ltac:(lia) (chains_fit id)) as [_ (l & Hl & El)].
    exists id, l. split; [exact Hid|]. split; [exact Hl|]. rewrite El. exact Eid.
Qed.

(** X17: on a forest (child links go down a rank, children are spans,
    durations are not negative and their sums along chains fit [uint32]),
    [criticalPath] is the heaviest chain from a root: no chain of spans
    from a root downward has a larger sum of durations, and one has that
    sum.  When every chain from a root sums to 0 (or there is no root),
    it is the heaviest chain from any span. *)
Theorem criticalPath_heaviest (ord1 ord2 : list string) :
  let v := Reconstruct.criticalPath ord1 ord2 spans children in
  (forall r l, In r (seedsOf spans true ord1) -> chain children r l -> chainSum spans l <= v)
  /\ ((exists r l, In r (seedsOf spans true ord1) /\ chain children r l
                   /\ chainSum spans l = v)
      \/ ((forall r l, In r (seedsOf spans true ord1) -> chain children r l ->
              chainSum spans l = 0)
          /\ (forall id l, In id (seedsOf spans false ord2) -> chain children id l ->
                chainSum spans l <= v)
          /\ (v = 0 \/ exists id l, In id (seedsOf spans false ord2) /\ chain children id l
                                    /\ chainSum spans l = v))).
Proof.
  cbv zeta. rewrite criticalPath_formula. cbv zeta.
  destruct (heaviest_of_seeds (seedsOf spans true ord1)) as [R1 R2].
  destruct (heaviest_of_seeds (seedsOf spans false ord2)) as [A1 A2].
  destruct (maxFrom_ge (List.map L (seedsOf spans false ord2)) 0) as [A0 _].
  destruct (Z.eqb_spec (maxFrom 0 (List.map L (seedsOf spans true ord1))) 0) as [E|E].
  - rewrite E in R1. split.
    + intros r l Hr Hl. specialize (R1 r l Hr Hl). lia.
    + right. split; [|split; [exact A1|exact A2]].
      intros r l Hr Hl. specialize (R1 r l Hr Hl). pose proof (chainSum_nonneg l). lia.
  - split; [exact R1|]. left. destruct R2 as [R2|R2]; [contradiction|exact R2].
Qed.
End Forest.

(** X17 at a concrete input: a root of 100 ms with a child of 60 ms. *)
Lemma criticalPath_heaviest_witness :
  let sa := Model.SpanRow.Build "A" "a" "" "svc-a" "prod" "host-1" "1.0.0" "op"
              0 100 100 40 0 0 "explicit" in
  let sb := Model.SpanRow.Build "A" "b" "a" "svc-b" "prod" "host-2" "2.0.0" "op"
              10 70 60 60 0 0 "explicit" in
  let spans : gmap string Model.SpanRow.t := <["a" := sa]> {["b" := sb]} in
  let children : gmap string (list string) := {["a" := ["b"]]} in
  let rank := fun id : string => if String.eqb id "a" then 1%nat else 0%nat in
  let v := Reconstruct.criticalPath ["a"; "b"] ["a"; "b"] spans children in
  (forall id cs c, children !! id = Some cs -> In c cs -> (rank c < rank id)%nat)
  /\ (forall k cs c, children !! k = Some cs -> In c cs -> is_Some (spans !! c))
  /\ (forall k s, spans !! k = Some s -> 0 <= Model.SpanRow.DurationMs s)
  /\ (forall id l, chain children id l -> chainSum spans l < 2 ^ 32)
  /\ (forall r l, In r (seedsOf spans true ["a"; "b"]) -> chain children r l ->
        chainSum spans l <= v)
  /\ ((exists r l, In r (seedsOf spans true ["a"; "b"]) /\ chain children r l
                   /\ chainSum spans l = v)
      \/ ((forall r l, In r (seedsOf spans true ["a"; "b"]) -> chain children r l ->
              chainSum spans l = 0)
          /\ (forall id l, In id (seedsOf spans false ["a"; "b"]) -> chain children id l ->
                chainSum spans l <= v)
          /\ (v = 0 \/ exists id l, In id (seedsOf spans false ["a"; "b"])
                                    /\ chain children id l /\ chainSum spans l = v))).
Proof.
  intros sa sb spans children rank v.
  assert (Hch : forall id cs c, children !! id = Some cs -> In c cs -> id = "a" /\ c = "b").
  { intros id cs c Hid Hc. apply lookup_singleton_Some in Hid. destruct Hid as [<- <-].
    destruct Hc as [<-|[]]. auto. }
  assert (H1 : forall id cs c, children !! id = Some cs -> In c cs -> (rank c < rank id)%nat).
  { intros id cs c Hid Hc. destruct (Hch id cs c Hid Hc) as [-> ->]. vm_compute. lia. }
  assert (H2 : forall k cs c, children !! k = Some cs -> In c cs -> is_Some (spans !! c)).
  { intros k cs c Hk Hc. destruct (Hch k cs c Hk Hc) as [-> ->].
    exists sb. vm_compute. reflexivity. }
  assert (Hsp : forall k s, spans !! k = Some s -> s = sa \/ s = sb).
  { intros k s Hk. apply lookup_insert_Some in Hk. destruct Hk as [[_ <-]|[_ Hk]]; [auto|].
    apply lookup_singleton_Some in Hk. destruct Hk as [_ <-]. auto. }
  assert (H3 : forall k s, spans !! k = Some s -> 0 <= Model.SpanRow.DurationMs s).
  { intros k s Hk. destruct (Hsp k s Hk) as [-> | ->]; vm_compute; discriminate. }
  assert (Hd : forall id,
             0 <= Model.SpanRow.DurationMs (default Model.SpanRow.zero (spans !! id)) <= 100).
  { intros id. destruct (spans !! id) as [s|] eqn:E; cbn [default from_option Datatypes.id].
    - destruct (Hsp id s E) as [-> | ->]; vm_compute; split; discriminate.
    - vm_compute. split; discriminate. }
  assert (H4 : forall id l, chain children id l -> chainSum spans l < 2 ^ 32).
  { intros id l Hl. inversion Hl as [id'|id' cs c rest Hid Hc Hrest]; subst.
    - cbn [chainSum fold_right]. pose proof (Hd id). lia.
    - destruct (Hch id cs c Hid Hc) as [-> ->].
      inversion Hrest as [id'|id' cs' c' rest' Hid' Hc' Hrest']; subst.
      + cbn [chainSum fold_right]. pose proof (Hd "a"). pose proof (Hd "b"). lia.
      + destruct (Hch "b" cs' c' Hid' Hc') as [Hab _]. discriminate Hab. }
  split; [exact H1|]. split; [exact H2|]. split; [exact H3|]. split; [exact H4|].
  exact (criticalPath_heaviest spans children rank H1 H2 H3 H4 ["a"; "b"] ["a"; "b"]).
Defined.

(** ** The counters of the ingest endpoint *)

Section IngestFacts.
Context `{GoLib} `{Server.GoJSON}.

(** The loop of [parseEvents] over a JSON array appends an event and its
    raw text together. *)
Lemma parseArray_lengths (msgs : list string) :
  forall (i : Z) (acc : Server.parsed),
    length (Server.p_events acc) = length (Server.p_raws acc) ->
    length (Server.p_events (Server.parseArray i msgs acc))
    = length (Server.p_raws (Server.parseArray i msgs acc)).
Proof.
  induction msgs as [|m msgs IH]; intros i acc Hacc; cbn [Server.parseArray]; [exact Hacc|].
  destruct (Server.json_Unmarshal_event m); apply IH; cbn [Server.p_events Server.p_raws].
  - rewrite !length_app. cbn [length]. lia.
  - exact Hacc.
Qed.

(** The loop of [parseEvents] over lines appends an event and its raw
    text together. *)
Lemma parseLines_lengths (lines : list string) :
  forall (line : Z) (acc : Server.parsed),
    length (Server.p_events acc) = length (Server.p_raws acc) ->
    length (Server.p_events (Server.parseLines line lines acc))
    = length (Server.p_raws (Server.parseLines line lines acc)).
Proof.
  induction lines as [|l lines IH]; intros line acc Hacc; cbn [Server.parseLines]; [exact Hacc|].
  destruct (_ <=? _)%N; [exact Hacc|].
  destruct (GoStrings.isEmpty _); [apply IH, Hacc|].
  destruct (Server.json_Unmarshal_event _); apply IH; cbn [Server.p_events Server.p_raws].
  - rewrite !length_app. cbn [length]. lia.
  - exact Hacc.
Qed.

(** [parseEvents] returns as many raw texts as events: the read of
    [raws[i]] in the handler is in range. *)
Lemma parseEvents_lengths (r : result string) :
  length (Server.p_events (Server.parseEvents r))
  = length (Server.p_raws (Server.parseEvents r)).
Proof.
  unfold Server.parseEvents. destruct r as [body|msg]; [|reflexivity].
  destruct (GoStrings.isEmpty _); [reflexivity|].
  destruct (GoStrings.HasPrefix _ _).
  - destruct (Server.json_Unmarshal_array _); [|reflexivity].
    apply parseArray_lengths. reflexivity.
  - destruct (GoStrings.ContainsByte _ _).
    + apply parseLines_lengths. reflexivity.
    + destruct (Server.json_Unmarshal_event _); reflexivity.
Qed.

(** The loop of [IngestLogs] over the events: one time for each row, and
    one rejection for each event that yields no row. *)
Lemma normalizeEvents_counts (now : Z -> Z) (events : list Model.IngestEvent.t) :
  forall (i : Z) (raws : list string) (acc : Server.normalized),
    length events = length raws ->
    length (Server.n_rawRows acc) = length (Server.n_times acc) ->
    let n := Server.normalizeEvents now i events raws acc in
    length (Server.n_rawRows n) = length (Server.n_times n)
    /\ Server.Accepted (Server.n_resp n) = Server.Accepted (Server.n_resp acc)
    /\ Server.Rejected (Server.n_resp acc) <= Server.Rejected (Server.n_resp n)
    /\ Server.Rejected (Server.n_resp n) + Z.of_nat (length (Server.n_rawRows n))
       = Server.Rejected (Server.n_resp acc) + Z.of_nat (length (Server.n_rawRows acc))
         + Z.of_nat (length events).
Proof.
  induction events as [|e events IH]; intros i raws acc Hlen Hacc.
  - cbn. repeat split; auto; lia.
  - destruct raws as [|raw raws]; [discriminate|]. cbn [Server.normalizeEvents].
    injection Hlen as Hlen.
    destruct (Model.ToRaw (now i) e raw) as [[row ts]|msg].
    + destruct (IH (i + 1) raws
                  (Server.mkNormalized (Server.n_resp acc) (Server.n_rawRows acc ++ [row])
                     (Server.n_times acc ++ [ts])) Hlen) as (A & B & R & C).
      { cbn [Server.n_rawRows Server.n_times]. rewrite !length_app. cbn [length]. lia. }
      cbv zeta. split; [exact A|]. split; [exact B|]. split; [exact R|].
      rewrite C. cbn [Server.n_resp Server.n_rawRows length]. rewrite length_app. cbn [length]. lia.
    + match goal with
      | |- context [Server.normalizeEvents now (i + 1) events raws ?a] =>
          destruct (IH (i + 1) raws a Hlen) as (A & B & R & C)
      end.
      { exact Hacc. }
      cbn [Server.n_resp Server.Rejected] in R.
      cbv zeta. split; [exact A|]. split; [exact B|]. split; [lia|].
      rewrite C. cbn [Server.n_resp Server.n_rawRows Server.Rejected length]. lia.
Qed.

(** X18: in an answer with status 200, [accepted] is at most the number of
    decoded events, and [rejected] is twice the number of decoded events
    that were not accepted: the loop counts each of them, and the
    difference [len(events) - len(rawRows)] counts each of them again. *)
Theorem IngestLogs_counts (token : string) (ch : Clickhouse.Client) (now : Z -> Z)
    (recon recon' : Reconstruct.Reconstructor) (req : Server.Request) (r : result string)
    (resp : Server.ingestResponse) :
  Server.Body req = Server.Reads r ->
  Server.IngestLogs token ch now recon req
  = (Server.mkResponse 200 (Server.JSONBody resp), recon') ->
  let events := Z.of_nat (length (Server.p_events (Server.parseEvents r))) in
  0 <= Server.Accepted resp <= events
  /\ Server.Rejected resp = 2 * (events - Server.Accepted resp).
Proof.
  intros Hbody. unfold Server.IngestLogs. rewrite Hbody.
  destruct (negb (String.eqb (Server.Method req) "POST")); [discriminate|].
  destruct (negb (GoStrings.isEmpty token) && negb (Server.validBearer _ token)); [discriminate|].
  pose proof (parseEvents_lengths r) as Hlen.
  set (p := Server.parseEvents r) in *.
  destruct (Server.p_events p) as [|e0 es] eqn:Eev; [discriminate|].
  rewrite <- Eev in *.
  destruct (normalizeEvents_counts now (Server.p_events p) 0 (Server.p_raws p)
              (Server.mkNormalized (Server.mkIngestResponse 0 0 (Server.p_errs p)) [] [])
              Hlen eq_refl) as (A & B & R & C).
  cbn [Server.n_resp Server.n_rawRows Server.Accepted Server.Rejected length] in B, R, C.
  set (n := Server.normalizeEvents now 0 (Server.p_events p) (Server.p_raws p) _) in *.
  destruct (Server.n_rawRows n) as [|row rows] eqn:Erows.
  - intros [= <-] . cbn [Server.Accepted Server.Rejected length] in *. cbv zeta. lia.
  - destruct (ch _); [discriminate|].
    intros [= <- _]. cbn [Server.Accepted Server.Rejected] in *. cbv zeta.
    cbn [length] in *. lia.
Qed.


End IngestFacts.

(** X18 at a concrete input: two lines, the second of which is an
    object without a correlation id: one accepted, two rejected. *)
Lemma IngestLogs_counts_witness :
  let json := Demo.json in
  let body := Ok (String.append Demo.eventA (String GoStrings.LF "{}")) in
  let req := Server.mkRequest "POST" "" (Server.Reads body) in
  let now := fun _ : Z => Demo.day0 in
  let out := Server.IngestLogs (H := Demo.lib) (H0 := json) "" (fun _ => None) now
               (Reconstruct.New Demo.window) req in
  let resp := Server.mkIngestResponse 1 2 [Server.mkIngestError 2 "missing correlationId"] in
  let events := Z.of_nat (length (Server.p_events (Server.parseEvents (H0 := json) body))) in
  Server.Body req = Server.Reads body
  /\ out = (Server.mkResponse 200 (Server.JSONBody resp), snd out)
  /\ events = 2
  /\ 0 <= Server.Accepted resp <= events
  /\ Server.Rejected resp = 2 * (events - Server.Accepted resp).
Proof.
  intros json body req now out resp events.
  assert (H1 : Server.Body req = Server.Reads body) by reflexivity.
  assert (H2 : out = (Server.mkResponse 200 (Server.JSONBody resp), snd out))
    by (vm_compute; reflexivity).
  assert (H3 : events = 2) by (vm_compute; reflexivity).
  split; [exact H1|]. split; [exact H2|]. split; [exact H3|].
  exact (IngestLogs_counts (H := Demo.lib) (H0 := json) "" (fun _ => None) now
           (Reconstruct.New Demo.window) (snd out) req body resp H1 H2).
Defined.

(** ** Parameters and error chains of the read API *)

(** A safe character is not white space. *)
Lemma spaceRuneLen_safe (c : ascii) (rest : list N) :
  Handlers.safeChar c = true -> GoStrings.spaceRuneLen (GoStrings.byte c :: rest) = O.
Proof.
  destruct c as [[] [] [] [] [] [] [] []]; intros Hs; try discriminate Hs; reflexivity.
Qed.

(** A safe character is not the end of a white space rune. *)
Lemma spaceRuneLenRev_safe (c : ascii) (rest : list N) :
  Handlers.safeChar c = true -> GoStrings.spaceRuneLenRev (GoStrings.byte c :: rest) = O.
Proof.
  destruct c as [[] [] [] [] [] [] [] []]; intros Hs; try discriminate Hs;
    vm_compute; split_matched_variable.
Qed.

Lemma trimWith_noop (len : list N -> nat) (fuel : nat) (bs : list N) :
  len bs = O -> GoStrings.trimWith len fuel bs = bs.
Proof. intros E. destruct fuel; cbn [GoStrings.trimWith]; [reflexivity|]. rewrite E. reflexivity. Qed.

(** A string is the string of its bytes. *)
Lemma string_of_bytes_of (s : string) : GoStrings.string_of_bytes (GoStrings.bytes_of s) = s.
Proof.
  unfold GoStrings.string_of_bytes, GoStrings.bytes_of, GoStrings.byte.
  rewrite List.map_map.
  rewrite (List.map_ext _ (fun c => c)) by (intros c; apply ascii_N_embedding).
  rewrite List.map_id. apply string_of_list_ascii_of_string.
Qed.

Lemma safe_bytes_untrimmed (cs : list ascii) :
  forallb Handlers.safeChar cs = true ->
  GoStrings.spaceRuneLen (List.map GoStrings.byte cs) = O
  /\ GoStrings.spaceRuneLenRev (List.map GoStrings.byte cs) = O.
Proof.
  destruct cs as [|c cs]; [split; reflexivity|].
  cbn [forallb List.map]. intros Hs. apply andb_prop in Hs. destruct Hs as [Hc _].
  split; [apply spaceRuneLen_safe|apply spaceRuneLenRev_safe]; exact Hc.
Qed.

Lemma forallb_rev {A : Type} (f : A -> bool) (l : list A) :
  forallb f l = true -> forallb f (List.rev l) = true.
Proof.
  rewrite !forallb_forall. intros Hl x Hx. apply Hl. apply in_rev. exact Hx.
Qed.

(** A text made of safe characters has no white space to trim. *)
Lemma TrimSpace_safe (v : string) :
  forallb Handlers.safeChar (list_ascii_of_string v) = true -> GoStrings.TrimSpace v = v.
Proof.
  intros Hs. unfold GoStrings.TrimSpace, GoStrings.bytes_of.
  destruct (safe_bytes_untrimmed _ Hs) as [E1 _].
  rewrite (trimWith_noop _ _ _ E1).
  destruct (safe_bytes_untrimmed _ (forallb_rev _ _ Hs)) as [_ E2].
  rewrite List.map_rev in E2.
  rewrite (trimWith_noop _ _ _ E2).
  rewrite List.rev_involutive. apply string_of_bytes_of.
Qed.

(** *** [sanitize] *)

(** [sanitize] returns the empty string or a safe token. *)
Lemma sanitize_cases (v : string) :
  Handlers.sanitize v = ""
  \/ (Handlers.sanitize v = GoStrings.TrimSpace v
      /\ Handlers.safeToken_MatchString (GoStrings.TrimSpace v) = true).
Proof.
  unfold Handlers.sanitize.
  destruct (GoStrings.isEmpty (GoStrings.TrimSpace v)); [left; reflexivity|].
  destruct (Handlers.safeToken_MatchString (GoStrings.TrimSpace v));
    [right; split; reflexivity|left; reflexivity].
Qed.

(** Every character of what [sanitize] returns is safe. *)
Lemma sanitize_chars_safe (v : string) (c : ascii) :
  In c (list_ascii_of_string (Handlers.sanitize v)) -> Handlers.safeChar c = true.
Proof.
  intros Hin.
  destruct (sanitize_cases v) as [E|[E Hm]]; rewrite E in Hin; [destruct Hin|].
  unfold Handlers.safeToken_MatchString in Hm. apply andb_prop in Hm. destruct Hm as [_ Hall].
  rewrite forallb_forall in Hall. apply Hall, Hin.
Qed.

(** X20: every character of what [sanitize] returns is a letter, a digit
    or one of [._:/-]; no quote, backslash, space or semicolon gets
    through. *)
Theorem sanitize_output_safe (v : string) (c : ascii) :
  In c (list_ascii_of_string (Handlers.sanitize v)) ->
  Handlers.safeChar c = true
  /\ c <> "'"%char /\ c <> "\"%char /\ c <> " "%char /\ c <> ";"%char
  /\ c <> ascii_of_N 34.
Proof.
  intros Hin. pose proof (sanitize_chars_safe v c Hin) as Hs.
  split; [exact Hs|].
  repeat split; intros ->; discriminate Hs.
Qed.

(** X20 at a concrete input: the letter of [" a-1 "]. *)
Lemma sanitize_output_safe_witness :
  In "a"%char (list_ascii_of_string (Handlers.sanitize " a-1 "))
  /\ Handlers.safeChar "a" = true
  /\ "a"%char <> "'"%char /\ "a"%char <> "\"%char /\ "a"%char <> " "%char
  /\ "a"%char <> ";"%char /\ "a"%char <> ascii_of_N 34.
Proof.
  assert (H1 : In "a"%char (list_ascii_of_string (Handlers.sanitize " a-1 ")))
    by (vm_compute; left; reflexivity).
  split; [exact H1|].
  exact (sanitize_output_safe " a-1 " "a" H1).
Defined.

(** X21: [sanitize] returns its argument unchanged exactly when the
    argument is empty or a safe token. *)
Theorem sanitize_fixes_safe_tokens (v : string) :
  Handlers.sanitize v = v <-> v = "" \/ Handlers.safeToken_MatchString v = true.
Proof.
  split.
  - intros E. destruct (sanitize_cases v) as [E0|[E1 Hm]].
    + left. congruence.
    + right. rewrite <- E1, E in Hm. exact Hm.
  - intros [->|Hm]; [reflexivity|].
    unfold Handlers.safeToken_MatchString in Hm. apply andb_prop in Hm. destruct Hm as [Hne Hall].
    unfold Handlers.sanitize. rewrite (TrimSpace_safe v Hall).
    unfold Handlers.safeToken_MatchString. rewrite Hall, Hne.
    destruct (GoStrings.isEmpty v); [discriminate|reflexivity].
Qed.

Section TraceByIDSafe.
Context `{GoLib}.
Variable Row : Type.
Variable columns : Row -> Handlers.spanCols.
Variable Query : Handlers.SQL -> result (list Row).

(** X22: every query that [GET /v1/traces/{id}] sends carries a trace id
    that is not empty and is made of safe characters only. *)
Theorem TraceByID_queries_safe_id (path : string) :
  List.Forall
    (fun q => sqlID q <> ""
              /\ forallb Handlers.safeChar (list_ascii_of_string (sqlID q)) = true)
    (snd (Handlers.TraceByID Row columns Query path)).
Proof.
  unfold Handlers.TraceByID.
  destruct (GoStrings.isEmpty (GoStrings.TrimByte _ _)); [constructor|].
  set (seg := fst (GoStrings.SplitByte "/" _)).
  destruct (GoStrings.isEmpty (Handlers.sanitize seg)) eqn:Eid; [constructor|].
  assert (Hid : Handlers.sanitize seg <> ""
                /\ forallb Handlers.safeChar (list_ascii_of_string (Handlers.sanitize seg)) = true).
  { split.
    - intros E. rewrite E in Eid. discriminate.
    - apply forallb_forall. intros c Hc. apply (sanitize_chars_safe seg c Hc). }
  destruct (Query (Handlers.TraceSQL _)); [|cbn [snd]; repeat constructor; apply Hid].
  destruct (Query (Handlers.SpanSQL _)); [|cbn [snd]; repeat constructor; apply Hid].
  destruct (_ || _); cbn [snd]; repeat constructor; apply Hid.
Qed.
End TraceByIDSafe.

(** *** [parseRange] and [parseLimit] *)

(** X23: the window that [parseRange] returns is never empty or inverted:
    [from] is before [to], whatever the parameters. *)
Theorem parseRange_window_ordered `{GoLib} (now : Z) (rawFrom rawTo : string) :
  GoTime.Before (fst (Handlers.parseRange now rawFrom rawTo))
    (snd (Handlers.parseRange now rawFrom rawTo)) = true.
Proof.
  unfold Handlers.parseRange. cbv zeta. cbn [fst snd].
  set (to := if negb (GoStrings.isEmpty rawTo) then _ else now).
  set (from := if negb (GoStrings.isEmpty rawFrom) then _ else _).
  destruct (GoTime.Before from to) eqn:E; cbn [negb]; [exact E|].
  unfold GoTime.Before, GoTime.Add, GoTime.Hour. apply Z.ltb_lt. lia.
Qed.

(** X24: with a fallback between 1 and 5000, [parseLimit] returns a limit
    between 1 and 5000, whatever the parameter. *)
Theorem parseLimit_bounds (strconv_Atoi : string -> result Z) (raw : string) (fallback : Z) :
  1 <= fallback <= 5000 ->
  1 <= Handlers.parseLimit strconv_Atoi raw fallback <= 5000.
Proof.
  intros Hf. unfold Handlers.parseLimit.
  destruct (GoStrings.isEmpty raw); [exact Hf|].
  destruct (strconv_Atoi raw) as [v|msg]; [|exact Hf].
  destruct (Z.leb_spec v 0); [exact Hf|].
  destruct (Z.ltb_spec 5000 v); lia.
Qed.

(** X24 at a concrete input: the limits ["70000"] and ["-3"] with the
    fallback 200. *)
Lemma parseLimit_bounds_witness :
  1 <= 200 <= 5000
  /\ Handlers.parseLimit Demo.Atoi "70000" 200 = 5000
  /\ Handlers.parseLimit Demo.Atoi "-3" 200 = 200
  /\ 1 <= Handlers.parseLimit Demo.Atoi "70000" 200 <= 5000.
Proof.
  assert (H1 : 1 <= 200 <= 5000) by lia.
  split; [exact H1|]. split; [vm_compute; reflexivity|]. split; [vm_compute; reflexivity|].
  exact (parseLimit_bounds Demo.Atoi "70000" 200 H1).
Defined.

(** *** [buildErrorPath] *)

(** [buildErrorPath] returns the labels of a lineage that ends, given
    fuel for its length. *)
Lemma buildErrorPath_lineage (byID : gmap string Handlers.traceSpan)
    (cur : Handlers.traceSpan) (above : list Handlers.traceSpan) :
  lineage byID cur above ->
  forall (fuel : nat) (path : list string),
    (length above <= fuel)%nat ->
    Handlers.buildErrorPath fuel byID cur path
    = Some (List.map Handlers.pathLabel above ++ path).
Proof.
  induction 1 as [cur Htop|cur next above Hp Hnext Hl IH]; intros fuel path Hfuel.
  - destruct fuel as [|fuel]; [cbn in Hfuel; lia|]. cbn [Handlers.buildErrorPath List.map app].
    destruct Htop as [E|E]; [rewrite E; reflexivity|].
    destruct (GoStrings.isEmpty _); [reflexivity|]. rewrite E. reflexivity.
  - rewrite length_app in Hfuel. cbn [length] in Hfuel.
    destruct fuel as [|fuel]; [lia|]. cbn [Handlers.buildErrorPath].
    rewrite Hp, Hnext. rewrite IH by lia.
    rewrite List.map_app, <- app_assoc. reflexivity.
Qed.

(** What [buildErrorPath] returns is the labels of a lineage, in front of
    the path that it was given. *)
Lemma buildErrorPath_sound (byID : gmap string Handlers.traceSpan) (fuel : nat) :
  forall (cur : Handlers.traceSpan) (path res : list string),
    Handlers.buildErrorPath fuel byID cur path = Some res ->
    exists above,
      lineage byID cur above /\ res = List.map Handlers.pathLabel above ++ path
      /\ (length above <= fuel)%nat.
Proof.
  induction fuel as [|fuel IH]; intros cur path res Hres; [discriminate|].
  cbn [Handlers.buildErrorPath] in Hres.
  destruct (GoStrings.isEmpty (Handlers.ParentSpanID cur)) eqn:Ep.
  - injection Hres as <-. exists [cur]. split; [constructor; left; exact Ep|].
    split; [reflexivity|cbn; lia].
  - destruct (byID !! Handlers.ParentSpanID cur) as [next|] eqn:En.
    + destruct (IH next _ res Hres) as (above & Hl & E & Hlen).
      exists (above ++ [cur]). split; [apply (lineage_up byID cur next above Ep En Hl)|].
      split.
      * rewrite E, List.map_app, <- app_assoc. reflexivity.
      * rewrite length_app. cbn [length]. lia.
    + injection Hres as <-. exists [cur]. split; [constructor; right; exact En|].
      split; [reflexivity|cbn; lia].
Qed.

(** X25: [buildErrorPath] returns exactly when the parent links above the
    span end (at a span without a parent id, or whose parent is not in the
    trace), and it returns the labels of the ancestors from the topmost
    down to the span. *)
Theorem buildErrorPath_returns_lineage (byID : gmap string Handlers.traceSpan)
    (cur : Handlers.traceSpan) (res : list string) :
  (exists fuel, Handlers.buildErrorPath fuel byID cur [] = Some res)
  <-> (exists above, lineage byID cur above /\ res = List.map Handlers.pathLabel above).
Proof.
  split.
  - intros [fuel Hres]. destruct (buildErrorPath_sound byID fuel cur [] res Hres)
      as (above & Hl & E & _).
    exists above. rewrite app_nil_r in E. auto.
  - intros (above & Hl & ->). exists (length above).
    rewrite (buildErrorPath_lineage byID cur above Hl) by lia.
    rewrite app_nil_r. reflexivity.
Qed.

(** From a span whose parent links never end, [buildErrorPath] runs out of
    any fuel. *)
Lemma buildErrorPath_closed (byID : gmap string Handlers.traceSpan)
    (P : Handlers.traceSpan -> Prop) :
  (forall s, P s ->
     GoStrings.isEmpty (Handlers.ParentSpanID s) = false
     /\ exists p, byID !! Handlers.ParentSpanID s = Some p /\ P p) ->
  forall (fuel : nat) (cur : Handlers.traceSpan) (path : list string),
    P cur -> Handlers.buildErrorPath fuel byID cur path = None.
Proof.
  intros Hclosed. induction fuel as [|fuel IH]; intros cur path Hcur; [reflexivity|].
  cbn [Handlers.buildErrorPath].
  destruct (Hclosed cur Hcur) as (Ep & p & Hp & HP).
  rewrite Ep, Hp. apply IH, HP.
Qed.

Lemma errorChains_None (fuel : nat) (byID : gmap string Handlers.traceSpan)
    (l : list Handlers.traceSpan) :
  fold_left (fun acc span =>
               match acc with
               | None => None
               | Some chains =>
                   if Handlers.IsError span then
                     match Handlers.buildErrorPath fuel byID span [] with
                     | None => None
                     | Some path => Some (chains ++ [(Handlers.SpanID span, path)])
                     end
                   else Some chains
               end) l None = None.
Proof. induction l as [|x l IH]; [reflexivity|exact IH]. Qed.

(** The loop over the spans does not return when [buildErrorPath] does not
    return for one of them. *)
Lemma errorChains_loop_None (fuel : nat) (byID : gmap string Handlers.traceSpan)
    (span : Handlers.traceSpan) (l : list Handlers.traceSpan) :
  In span l -> Handlers.IsError span = true ->
  Handlers.buildErrorPath fuel byID span [] = None ->
  forall acc,
    fold_left (fun acc span =>
                 match acc with
                 | None => None
                 | Some chains =>
                     if Handlers.IsError span then
                       match Handlers.buildErrorPath fuel byID span [] with
                       | None => None
                       | Some path => Some (chains ++ [(Handlers.SpanID span, path)])
                       end
                     else Some chains
                 end) l acc = None.
Proof.
  intros Hin Herr Hnone. induction l as [|x l IH]; intros acc; [destruct Hin|].
  cbn [fold_left]. destruct Hin as [->|Hin].
  - destruct acc as [chains|]; [|apply errorChains_None].
    rewrite Herr, Hnone. apply errorChains_None.
  - apply IH, Hin.
Qed.

(** X26: when the parent links above a span marked as an error never end
    (every span on the way up names a parent that is in the trace, as on
    or below a cycle of parent links), the loop of [buildErrorPath] never
    ends, and neither does the drill-down that builds the error chains. *)
Theorem errorChains_cycle_never_returns (spans : list Handlers.traceSpan)
    (P : Handlers.traceSpan -> Prop) (span : Handlers.traceSpan) :
  (forall s, P s ->
     GoStrings.isEmpty (Handlers.ParentSpanID s) = false
     /\ exists p, Handlers.byIDOf spans !! Handlers.ParentSpanID s = Some p /\ P p) ->
  In span spans -> Handlers.IsError span = true -> P span ->
  forall fuel, Handlers.errorChains fuel spans = None.
Proof.
  intros Hclosed Hin Herr HP fuel. unfold Handlers.errorChains.
  apply (errorChains_loop_None fuel _ span spans Hin Herr).
  exact (buildErrorPath_closed (Handlers.byIDOf spans) P Hclosed fuel span [] HP).
Qed.

(** X26 at a concrete input: two spans that name each other as parent. *)
Lemma errorChains_cycle_never_returns_witness :
  let s1 := Handlers.mkTraceSpan "s1" "s2" "svc-a" "op" 0 10 10 10 true 0 0%float in
  let s2 := Handlers.mkTraceSpan "s2" "s1" "svc-b" "op" 0 10 10 10 false 0 0%float in
  let spans := [s1; s2] in
  let P := fun s : Handlers.traceSpan => s = s1 \/ s = s2 in
  (forall s, P s ->
     GoStrings.isEmpty (Handlers.ParentSpanID s) = false
     /\ exists p, Handlers.byIDOf spans !! Handlers.ParentSpanID s = Some p /\ P p)
  /\ In s1 spans /\ Handlers.IsError s1 = true /\ P s1
  /\ forall fuel, Handlers.errorChains fuel spans = None.
Proof.
  intros s1 s2 spans P.
  assert (H1 : forall s, P s ->
     GoStrings.isEmpty (Handlers.ParentSpanID s) = false
     /\ exists p, Handlers.byIDOf spans !! Handlers.ParentSpanID s = Some p /\ P p).
  { intros s [-> | ->].
    - split; [reflexivity|]. exists s2. split; [vm_compute; reflexivity|right; reflexivity].
    - split; [reflexivity|]. exists s1. split; [vm_compute; reflexivity|left; reflexivity]. }
  assert (H2 : In s1 spans) by (left; reflexivity).
  assert (H3 : Handlers.IsError s1 = true) by reflexivity.
  assert (H4 : P s1) by (left; reflexivity).
  split; [exact H1|]. split; [exact H2|]. split; [exact H3|]. split; [exact H4|].
  exact (errorChains_cycle_never_returns spans P s1 H1 H2 H3 H4).
Defined.

(** ** Normalization and the bearer token *)

(** [withDefault] with a fallback that is not empty returns no empty string. *)
Lemma withDefault_nonempty (v fallback : string) :
  fallback <> "" -> Model.withDefault v fallback <> "".
Proof.
  intros Hf. unfold Model.withDefault.
  destruct (GoStrings.isEmpty (GoStrings.TrimSpace v)) eqn:E; [exact Hf|].
  intros E'. rewrite E' in E. discriminate.
Qed.

Section ToRawFacts.
Context `{GoLib}.

(** X27: [ToRaw] accepts an event exactly when its correlation id is not
    blank and its timestamp is blank or parses. *)
Theorem ToRaw_accepts_iff (now : Z) (e : Model.IngestEvent.t) (raw : string) :
  (exists row ts, Model.ToRaw now e raw = Ok (row, ts))
  <-> GoStrings.TrimSpace (Model.IngestEvent.CorrelationID e) <> ""
      /\ (GoStrings.TrimSpace (Model.IngestEvent.Timestamp e) = ""
          \/ exists p, time_Parse (Model.IngestEvent.Timestamp e) = Ok p).
Proof.
  unfold Model.ToRaw.
  destruct (GoStrings.isEmpty (GoStrings.TrimSpace (Model.IngestEvent.CorrelationID e))) eqn:Ec.
  - apply isEmpty_true in Ec. split; [intros (row & ts & E); discriminate|].
    intros [Hc _]. contradiction.
  - assert (Hc : GoStrings.TrimSpace (Model.IngestEvent.CorrelationID e) <> "").
    { intros E. rewrite E in Ec. discriminate. }
    destruct (GoStrings.isEmpty (GoStrings.TrimSpace (Model.IngestEvent.Timestamp e))) eqn:Et;
      cbn [negb].
    + apply isEmpty_true in Et. split; [auto|]. intros _. eauto.
    + assert (Ht : GoStrings.TrimSpace (Model.IngestEvent.Timestamp e) <> "").
      { intros E. rewrite E in Et. discriminate. }
      destruct (time_Parse (Model.IngestEvent.Timestamp e)) as [p|msg].
      * split; [intros _; split; [exact Hc|right; eauto]|]. intros _. eauto.
      * split; [intros (row & ts & E); discriminate|].
        intros [_ [E|[p E]]]; [contradiction|discriminate].
Qed.

(** X28: the row of an accepted event has the trimmed correlation id as
    its trace id, no empty service, environment, host, version or event
    type, the text of the event's time as [ts] and the raw text of the
    event; the time is the current time when the timestamp is blank and
    the parsed timestamp otherwise. *)
Theorem ToRaw_row_filled (now : Z) (e : Model.IngestEvent.t) (raw : string)
    (row : Model.RawLogRow.t) (ts : Z) :
  Model.ToRaw now e raw = Ok (row, ts) ->
  Model.RawLogRow.TraceID row = GoStrings.TrimSpace (Model.IngestEvent.CorrelationID e)
  /\ Model.RawLogRow.TraceID row <> ""
  /\ Model.RawLogRow.Service row <> ""
  /\ Model.RawLogRow.Env row <> ""
  /\ Model.RawLogRow.Host row <> ""
  /\ Model.RawLogRow.Version row <> ""
  /\ Model.RawLogRow.Event row <> ""
  /\ Model.RawLogRow.TS row = Model.FormatCHTime ts
  /\ Model.RawLogRow.RawJSON row = raw
  /\ (GoStrings.TrimSpace (Model.IngestEvent.Timestamp e) = "" -> ts = now)
  /\ (GoStrings.TrimSpace (Model.IngestEvent.Timestamp e) <> "" ->
      time_Parse (Model.IngestEvent.Timestamp e) = Ok ts).
Proof.
  unfold Model.ToRaw.
  destruct (GoStrings.isEmpty (GoStrings.TrimSpace (Model.IngestEvent.CorrelationID e))) eqn:Ec;
    [discriminate|].
  assert (Hc : GoStrings.TrimSpace (Model.IngestEvent.CorrelationID e) <> "").
  { intros E. rewrite E in Ec. discriminate. }
  destruct (GoStrings.isEmpty (GoStrings.TrimSpace (Model.IngestEvent.Timestamp e))) eqn:Et;
    cbn [negb].
  - apply isEmpty_true in Et. intros [= <- <-].
    cbn [Model.RawLogRow.TraceID Model.RawLogRow.Service Model.RawLogRow.Env
         Model.RawLogRow.Host Model.RawLogRow.Version Model.RawLogRow.Event
         Model.RawLogRow.TS Model.RawLogRow.RawJSON].
    repeat split; auto; try (apply withDefault_nonempty; discriminate).
    + destruct (GoStrings.isEmpty (strings_ToLower _)) eqn:El; [discriminate|].
      intros E. rewrite E in El. discriminate.
    + intros Hne. contradiction.
  - assert (Ht : GoStrings.TrimSpace (Model.IngestEvent.Timestamp e) <> "").
    { intros E. rewrite E in Et. discriminate. }
    destruct (time_Parse (Model.IngestEvent.Timestamp e)) as [p|msg]; [|discriminate].
    intros [= <- <-].
    cbn [Model.RawLogRow.TraceID Model.RawLogRow.Service Model.RawLogRow.Env
         Model.RawLogRow.Host Model.RawLogRow.Version Model.RawLogRow.Event
         Model.RawLogRow.TS Model.RawLogRow.RawJSON].
    repeat split; auto; try (apply withDefault_nonempty; discriminate).
    + destruct (GoStrings.isEmpty (strings_ToLower _)) eqn:El; [discriminate|].
      intros E. rewrite E in El. discriminate.
    + intros E. contradiction.
Qed.
End ToRawFacts.

(** X28 at a concrete input: an event with the correlation id [" A "] and no
    timestamp. *)
Lemma ToRaw_row_filled_witness :
  let e := Demo.emptyEvent " A " in
  exists row,
    Model.ToRaw (H := Demo.lib) Demo.day0 e "{}" = Ok (row, Demo.day0)
    /\ Model.RawLogRow.TraceID row = "A"
    /\ Model.RawLogRow.TraceID row = GoStrings.TrimSpace (Model.IngestEvent.CorrelationID e)
    /\ Model.RawLogRow.TraceID row <> ""
    /\ Model.RawLogRow.Service row <> ""
    /\ Model.RawLogRow.Env row <> ""
    /\ Model.RawLogRow.Host row <> ""
    /\ Model.RawLogRow.Version row <> ""
    /\ Model.RawLogRow.Event row <> ""
    /\ Model.RawLogRow.TS row = Model.FormatCHTime Demo.day0
    /\ Model.RawLogRow.RawJSON row = "{}"
    /\ (GoStrings.TrimSpace (Model.IngestEvent.Timestamp e) = "" -> Demo.day0 = Demo.day0)
    /\ (GoStrings.TrimSpace (Model.IngestEvent.Timestamp e) <> "" ->
        time_Parse (GoLib := Demo.lib) (Model.IngestEvent.Timestamp e) = Ok Demo.day0).
Proof.
  intros e.
  destruct (Model.ToRaw (H := Demo.lib) Demo.day0 e "{}") as [[row ts]|err] eqn:E;
    [|vm_compute in E; discriminate E].
  assert (Ets : ts = Demo.day0) by (vm_compute in E; injection E as _ <-; reflexivity).
  subst ts.
  exists row. split; [reflexivity|].
  split; [vm_compute in E; injection E as <-; reflexivity|].
  exact (ToRaw_row_filled (H := Demo.lib) Demo.day0 e "{}" row Demo.day0 E).
Defined.

(** *** [validBearer] *)

(** [strings.SplitN(s, " ", 2)] yields two parts exactly when [s] is a part
    without a space, a space, and a rest. *)
Lemma cutSpace_Some (s a b : string) :
  Server.cutSpace s = Some (a, b)
  <-> s = String.append a (String " " b) /\ GoStrings.ContainsByte " " a = false.
Proof.
  revert a b. induction s as [|c s IH]; intros a b; cbn [Server.cutSpace].
  - split; [discriminate|]. intros [E _]. destruct a; discriminate.
  - destruct (Ascii.eqb_spec c " ") as [->|Hc].
    + split.
      * intros [= <- <-]. split; reflexivity.
      * intros [E Hn]. destruct a as [|d a]; cbn in E.
        -- injection E as <-. reflexivity.
        -- injection E as <- _. cbn in Hn. discriminate.
    + destruct (Server.cutSpace s) as [[a' b']|] eqn:Ecut.
      * destruct (IH a' b') as [IH1 _]. destruct (IH1 eq_refl) as [Es Hn].
        split.
        -- intros [= <- <-]. split; [cbn; rewrite Es; reflexivity|].
           cbn [GoStrings.ContainsByte].
           destruct (Ascii.eqb_spec " " c) as [E|_]; [congruence|]. exact Hn.
        -- intros [E Hn']. destruct a as [|d a]; cbn in E.
           ++ injection E as E1 _. congruence.
           ++ injection E as <- E2. cbn [GoStrings.ContainsByte] in Hn'.
              apply orb_false_iff in Hn'. destruct Hn' as [_ Hn'].
              destruct (IH a b) as [_ IH2]. specialize (IH2 (conj E2 Hn')).
              injection IH2 as <- <-. reflexivity.
      * split; [discriminate|].
        intros [E Hn']. destruct a as [|d a]; cbn in E.
        -- injection E as E1 _. congruence.
        -- injection E as <- E2. cbn [GoStrings.ContainsByte] in Hn'.
           apply orb_false_iff in Hn'. destruct Hn' as [_ Hn'].
           destruct (IH a b) as [_ IH2]. specialize (IH2 (conj E2 Hn')). discriminate.
Qed.

(** X29: [validBearer] accepts a header exactly when the header is a
    scheme without a space, one space, and a rest, where the scheme is
    [bearer] in any letter case and the rest, trimmed, is the token. *)
Theorem validBearer_accepts_iff (header token : string) :
  Server.validBearer header token = true
  <-> exists scheme rest,
        header = String.append scheme (String " " rest)
        /\ GoStrings.ContainsByte " " scheme = false
        /\ GoStrings.mapString GoStrings.asciiLower scheme = "bearer"
        /\ GoStrings.TrimSpace rest = token.
Proof.
  unfold Server.validBearer. split.
  - destruct (Server.cutSpace header) as [[scheme rest]|] eqn:E; [|discriminate].
    intros Hv. apply andb_prop in Hv. destruct Hv as [H1 H2].
    apply String.eqb_eq in H1, H2. apply cutSpace_Some in E. destruct E as [E Hn].
    exists scheme, rest. auto.
  - intros (scheme & rest & E & Hn & Hs & Ht).
    assert (Hc : Server.cutSpace header = Some (scheme, rest)) by (apply cutSpace_Some; auto).
    rewrite Hc, Hs, Ht. rewrite !String.eqb_refl. reflexivity.
Qed.

(** ** The critical path of the drill-down *)

(** A loop that keeps the element with the smaller key returns an element
    with the least key. *)
Lemma fold_argmin (key : nat -> Z) (l : list nat) :
  forall first,
    let res := fold_left (fun best x => if key x <? key best then x else best) l first in
    In res (first :: l) /\ (forall r, In r (first :: l) -> key res <= key r).
Proof.
  induction l as [|x l IH]; intros first; cbn [fold_left].
  - split; [left; reflexivity|]. intros r [<-|[]]. lia.
  - destruct (Z.ltb_spec (key x) (key first)) as [Hlt|Hge].
    + destruct (IH x) as [Hin Hmin]. cbv zeta in *. split.
      * destruct Hin as [E|Hin]; [right; left; exact E|right; right; exact Hin].
      * intros r [<-|[<-|Hr]].
        -- specialize (Hmin x (or_introl eq_refl)). lia.
        -- apply Hmin. left. reflexivity.
        -- apply Hmin. right. exact Hr.
    + destruct (IH first) as [Hin Hmin]. cbv zeta in *. split.
      * destruct Hin as [E|Hin]; [left; exact E|right; right; exact Hin].
      * intros r [<-|[<-|Hr]].
        -- apply Hmin. left. reflexivity.
        -- specialize (Hmin first (or_introl eq_refl)). lia.
        -- apply Hmin. right. exact Hr.
Qed.

(** The first loop of [markCriticalPath] returns a root that starts first. *)
Lemma earliestRoot_spec (spans : list Handlers.traceSpan) (roots : list nat) (first : nat) :
  In (Handlers.earliestRoot spans first roots) (first :: roots)
  /\ (forall r, In r (first :: roots) ->
        Handlers.StartTime (Handlers.spanAt spans (Handlers.earliestRoot spans first roots))
        <= Handlers.StartTime (Handlers.spanAt spans r)).
Proof.
  exact (fold_argmin (fun i => Handlers.StartTime (Handlers.spanAt spans i)) roots first).
Qed.

(** The inner loop of [markCriticalPath] returns a child that ends last. *)
Lemma latestChild_spec (spans : list Handlers.traceSpan) (others : list nat) (first : nat) :
  In (Handlers.latestChild spans first others) (first :: others)
  /\ (forall c, In c (first :: others) ->
        Handlers.EndTime (Handlers.spanAt spans c)
        <= Handlers.EndTime (Handlers.spanAt spans (Handlers.latestChild spans first others))).
Proof.
  assert (E : forall l f,
             Handlers.latestChild spans f l
             = fold_left (fun best x =>
                            if - Handlers.EndTime (Handlers.spanAt spans x)
                               <? - Handlers.EndTime (Handlers.spanAt spans best)
                            then x else best) l f).
  { unfold Handlers.latestChild, GoTime.After. induction l as [|x l IH]; intros f; [reflexivity|].
    cbn [fold_left]. rewrite <- IH. f_equal.
    destruct (Z.ltb_spec (Handlers.EndTime (Handlers.spanAt spans f))
                (Handlers.EndTime (Handlers.spanAt spans x)));
      destruct (Z.ltb_spec (- Handlers.EndTime (Handlers.spanAt spans x))
                  (- Handlers.EndTime (Handlers.spanAt spans f))); try reflexivity; lia. }
  rewrite E.
  destruct (fold_argmin (fun i => - Handlers.EndTime (Handlers.spanAt spans i)) others first)
    as [Hin Hmin].
  cbv zeta in *. split; [exact Hin|]. intros c Hc. specialize (Hmin c Hc). cbv beta in Hmin. lia.
Qed.

Section Descent.
Variable spans : list Handlers.traceSpan.
Variable children : gmap nat (list nat).
Variable par : nat -> option nat.

Hypothesis children_attached :
  forall j c, In c (default [] (children !! j)) ->
    (c < length spans)%nat /\ par c = Some j.

(** The parent of a span of a path is on the path, if it has one. *)
Lemma linked_inside (l : list nat) (x : nat) :
  linked par l -> In x l -> par x = None \/ exists y, In y l /\ par x = Some y.
Proof.
  induction l as [|a l IH]; intros Hl Hx; [destruct Hx|].
  cbn [linked] in Hl. destruct l as [|b l].
  - destruct Hx as [<-|[]]. left. exact Hl.
  - destruct Hl as [Ha Hl]. destruct Hx as [<-|Hx].
    + right. exists b. split; [right; left; reflexivity|exact Ha].
    + destruct (IH Hl Hx) as [E|(y & Hy & E)]; [left; exact E|].
      right. exists y. split; [right; exact Hy|exact E].
Qed.

(** A child of the last span of a path is not on the path. *)
Lemma linked_fresh (h : nat) (t : list nat) (x : nat) :
  linked par (h :: t) -> List.NoDup (h :: t) -> par x = Some h -> ~ In x (h :: t).
Proof.
  intros Hl Hnd Hx Hin. apply List.NoDup_cons_iff in Hnd. destruct Hnd as [Hh Hnd].
  destruct Hin as [<-|Hin].
  - cbn [linked] in Hl. destruct t as [|b t].
    + congruence.
    + destruct Hl as [Ha _]. assert (b = h) by congruence. subst b.
      apply Hh. left. reflexivity.
  - assert (Ht : linked par t).
    { cbn [linked] in Hl. destruct t as [|b t]; [exact I|]. apply Hl. }
    destruct (linked_inside t x Ht Hin) as [E|(y & Hy & E)]; [congruence|].
    assert (y = h) by congruence. subst y. contradiction.
Qed.

(** There are at most [n] different indices below [n]. *)
Lemma bounded_nodup_length (l : list nat) (n : nat) :
  List.NoDup l -> (forall x, In x l -> (x < n)%nat) -> (length l <= n)%nat.
Proof.
  intros Hnd Hb.
  assert (Hincl : incl l (List.seq 0 n)).
  { intros x Hx. apply List.in_seq. specialize (Hb x Hx). lia. }
  pose proof (List.NoDup_incl_length Hnd Hincl) as Hlen.
  rewrite List.length_seq in Hlen. exact Hlen.
Qed.

(** The outer loop of [markCriticalPath], from a span below which the path
    so far hangs: with fuel for the spans that are left, it returns a
    steepest descent through spans that it has not met. *)
Lemma descend_spec (fuel : nat) :
  forall (curr : nat) (visited : list nat) (path : list string),
    linked par (curr :: visited) ->
    List.NoDup (curr :: visited) ->
    (forall x, In x (curr :: visited) -> (x < length spans)%nat) ->
    (length spans <= fuel + length visited)%nat ->
    exists rest,
      Handlers.descend fuel spans children curr path
      = Some (path ++ List.map (fun i => Handlers.SpanID (Handlers.spanAt spans i)) (curr :: rest))
      /\ steepest spans children (curr :: rest)
      /\ List.NoDup (List.rev (curr :: rest) ++ visited)
      /\ (forall x, In x rest -> (x < length spans)%nat).
Proof.
  induction fuel as [|fuel IH]; intros curr visited path Hl Hnd Hb Hfuel.
  - pose proof (bounded_nodup_length _ _ Hnd Hb) as Hlen. cbn [length] in Hlen. lia.
  - cbn [Handlers.descend].
    destruct (default [] (children !! curr)) as [|first others] eqn:Ek.
    + exists []. cbn [List.map List.rev app]. split; [reflexivity|].
      split; [constructor; exact Ek|]. split; [exact Hnd|]. intros x [].
    + destruct (latestChild_spec spans others first) as [Hin Hmax].
      set (next := Handlers.latestChild spans first others) in *.
      rewrite <- Ek in Hin, Hmax.
      destruct (children_attached curr next Hin) as [Hn Hp].
      destruct (IH next (curr :: visited) (path ++ [Handlers.SpanID (Handlers.spanAt spans curr)]))
        as (rest & E & Hs & Hnd' & Hb').
      * cbn [linked]. split; [exact Hp|exact Hl].
      * constructor; [|exact Hnd]. apply (linked_fresh curr visited next Hl Hnd Hp).
      * intros x [<-|Hx]; [exact Hn|apply Hb, Hx].
      * cbn [length]. lia.
      * exists (next :: rest). split; [|split; [|split]].
        -- rewrite E. rewrite <- app_assoc. reflexivity.
        -- constructor; assumption.
        -- cbn [List.rev] in *. rewrite <- !app_assoc in *. cbn [app] in *. exact Hnd'.
        -- intros x [<-|Hx]; [exact Hn|apply Hb', Hx].
Qed.
End Descent.

(** The loop that attaches the spans keeps roots without a parent and
    children under their parent. *)
Lemma attach_loop (spans : list Handlers.traceSpan) (l : list nat) :
  forall acc : list nat * gmap nat (list nat),
    (forall i, In i l -> (i < length spans)%nat) ->
    (forall r, In r (fst acc) -> (r < length spans)%nat /\ Handlers.parentOf spans r = None) ->
    (forall j c, In c (default [] (snd acc !! j)) ->
       (c < length spans)%nat /\ Handlers.parentOf spans c = Some j) ->
    let res :=
      fold_left (fun acc i =>
                   match Handlers.parentOf spans i with
                   | Some parent =>
                       (fst acc, <[parent := default [] (snd acc !! parent) ++ [i]]> (snd acc))
                   | None => (fst acc ++ [i], snd acc)
                   end) l acc in
    (forall r, In r (fst res) -> (r < length spans)%nat /\ Handlers.parentOf spans r = None)
    /\ (forall j c, In c (default [] (snd res !! j)) ->
          (c < length spans)%nat /\ Handlers.parentOf spans c = Some j).
Proof.
  induction l as [|i l IH]; intros acc Hl Hr Hk; cbn [fold_left]; [split; assumption|].
  apply IH.
  - intros i' Hi'. apply Hl. right. exact Hi'.
  - destruct (Handlers.parentOf spans i) as [p|] eqn:Ep; cbn [fst]; [exact Hr|].
    intros r Hin. apply in_app_or in Hin. destruct Hin as [Hin|[<-|[]]]; [apply Hr, Hin|].
    split; [apply Hl; left; reflexivity|exact Ep].
  - destruct (Handlers.parentOf spans i) as [p|] eqn:Ep; cbn [snd]; [|exact Hk].
    intros j c Hin. destruct (decide (p = j)) as [<-|Hne].
    + rewrite lookup_insert_eq in Hin. cbn [default from_option Datatypes.id] in Hin.
      apply in_app_or in Hin. destruct Hin as [Hin|[<-|[]]]; [apply Hk, Hin|].
      split; [apply Hl; left; reflexivity|exact Ep].
    + rewrite lookup_insert_ne in Hin by exact Hne. apply Hk, Hin.
Qed.

(** The second loop of [buildTraceDrilldown] puts the spans without a parent
    among the roots and every other span among the children of its parent. *)
Lemma attach_spec (spans : list Handlers.traceSpan) :
  (forall r, In r (fst (Handlers.attach spans)) ->
     (r < length spans)%nat /\ Handlers.parentOf spans r = None)
  /\ (forall j c, In c (default [] (snd (Handlers.attach spans) !! j)) ->
        (c < length spans)%nat /\ Handlers.parentOf spans c = Some j).
Proof.
  unfold Handlers.attach. apply attach_loop.
  - intros i Hi. apply List.in_seq in Hi. lia.
  - intros r [].
  - intros j c Hin. cbn [snd] in Hin. rewrite lookup_empty in Hin. destruct Hin.
Qed.

(** X30: in whatever order [sort.Slice] leaves spans with equal start
    times, [markCriticalPath] marks a path that starts at a root with the
    earliest start and goes down, at every span, to a child with the
    latest end, until a span without children; no span is on it twice, and
    the descent ends within [len(spans)] steps, also when parent links
    form cycles elsewhere in the trace. *)
Theorem markCriticalPath_steepest_descent (spans : list Handlers.traceSpan)
    (roots : list nat) (children : gmap nat (list nat)) :
  Permutation roots (fst (Handlers.attach spans)) ->
  (forall j, Permutation (default [] (children !! j))
               (default [] (snd (Handlers.attach spans) !! j))) ->
  roots <> [] ->
  exists root rest,
    Handlers.markCriticalPath (length spans) spans roots children
    = Some (List.map (fun i => Handlers.SpanID (Handlers.spanAt spans i)) (root :: rest))
    /\ In root roots
    /\ (forall r, In r roots ->
          Handlers.StartTime (Handlers.spanAt spans root)
          <= Handlers.StartTime (Handlers.spanAt spans r))
    /\ steepest spans children (root :: rest)
    /\ List.NoDup (root :: rest)
    /\ (length (root :: rest) <= length spans)%nat.
Proof.
  intros Hroots Hkids Hne.
  destruct (attach_spec spans) as [Hr Hk].
  destruct roots as [|first roots']; [contradiction|].
  unfold Handlers.markCriticalPath.
  destruct (earliestRoot_spec spans (first :: roots') first) as [Hin Hmin].
  set (root := Handlers.earliestRoot spans first (first :: roots')) in *.
  assert (Hroot : In root (first :: roots')).
  { destruct Hin as [E|Hin]; [left; exact E|exact Hin]. }
  destruct (Hr root (Permutation_in _ Hroots Hroot)) as [Hn Hp].
  destruct (descend_spec spans children (Handlers.parentOf spans)) with
    (fuel := length spans) (curr := root) (visited := @nil nat) (path := @nil string)
    as (rest & E & Hs & Hnd & Hb).
  - intros j c Hc. apply Hk. apply (Permutation_in _ (Hkids j)). exact Hc.
  - cbn [linked]. exact Hp.
  - constructor; [intros []|constructor].
  - intros x [<-|[]]. exact Hn.
  - cbn [length]. lia.
  - exists root, rest. rewrite E. cbn [app]. split; [reflexivity|].
    split; [exact Hroot|]. split; [intros r Hr'; apply Hmin; right; exact Hr'|].
    split; [exact Hs|].
    rewrite app_nil_r in Hnd.
    assert (Hnd' : List.NoDup (root :: rest)).
    { apply List.NoDup_rev in Hnd. rewrite List.rev_involutive in Hnd. exact Hnd. }
    split; [exact Hnd'|].
    apply (bounded_nodup_length _ _ Hnd').
    intros x [<-|Hx]; [exact Hn|apply Hb, Hx].
Qed.

(** X30 at a concrete input: a root with two children; the path goes to the
    one that ends last. *)
Lemma markCriticalPath_steepest_descent_witness :
  let a := Handlers.mkTraceSpan "a" "" "svc-a" "op" 0 100 100 40 false 0 0%float in
  let b := Handlers.mkTraceSpan "b" "a" "svc-b" "op" 10 50 40 40 false 0 0%float in
  let c := Handlers.mkTraceSpan "c" "a" "svc-c" "op" 20 90 70 70 false 0 0%float in
  let spans := [a; b; c] in
  let roots := fst (Handlers.attach spans) in
  let children := snd (Handlers.attach spans) in
  Permutation roots (fst (Handlers.attach spans))
  /\ (forall j, Permutation (default [] (children !! j))
                  (default [] (snd (Handlers.attach spans) !! j)))
  /\ roots <> []
  /\ Handlers.markCriticalPath (length spans) spans roots children = Some ["a"; "c"]
  /\ exists root rest,
       Handlers.markCriticalPath (length spans) spans roots children
       = Some (List.map (fun i => Handlers.SpanID (Handlers.spanAt spans i)) (root :: rest))
       /\ In root roots
       /\ (forall r, In r roots ->
             Handlers.StartTime (Handlers.spanAt spans root)
             <= Handlers.StartTime (Handlers.spanAt spans r))
       /\ steepest spans children (root :: rest)
       /\ List.NoDup (root :: rest)
       /\ (length (root :: rest) <= length spans)%nat.
Proof.
  intros a b c spans roots children.
  assert (H1 : Permutation roots (fst (Handlers.attach spans))) by apply Permutation_refl.
  assert (H2 : forall j, Permutation (default [] (children !! j))
                  (default [] (snd (Handlers.attach spans) !! j)))
    by (intros j; apply Permutation_refl).
  assert (H3 : roots <> []) by (vm_compute; discriminate).
  split; [exact H1|]. split; [exact H2|]. split; [exact H3|].
  split; [vm_compute; reflexivity|].
  exact (markCriticalPath_steepest_descent spans roots children H1 H2 H3).
Defined.
